(** * AntColony: clustering-seeded ant-colony routing and dynamic assignment

    A shallow embedding of the Python sources
      helper_functions.py, CIACO_Algo.py, Order.py, Truck.py,
      deliveryManagementSystem.py and dynamic_routing.py
    followed by the properties established about them.

    Conventions of the embedding.
    - Python floats are idealised as exact rationals ([Q]); [float('inf')]
      is the extra element [Inf] of [xfloat].  Overflow, the rounding of
      float arithmetic and NaN are therefore outside the model.  Where the
      code decides on a product that no float holds exactly, the product is
      the field [fmul] of the runtime.
    - A [datetime] is a whole number of microseconds, and [timedelta]
      rounds to whole microseconds as Python does; dates beyond the year
      9999 are outside the model.
    - The functions of Python's [math] and [random] modules are not part of
      the repository; they are the fields of the class [Runtime].
    - Exceptions are the constructor [Raise] of [outcome].  The rejection
      loop of [_construct_solution] has no bound in the source; the model
      runs it for at most [fuel] redraws and answers [Timeout] beyond.
    - A Python [dict] whose iteration order is observable is an association
      list in insertion order. *)

From Stdlib Require Import List Bool Arith ZArith QArith Qabs Qround Lia Lqa String Permutation.
Import ListNotations.

(** ** Exceptions and results *)

Inductive exn : Type :=
| ValueError (msg : string)
| RuntimeError (msg : string)
| ZeroDivisionError
| IndexError
| KeyError (key : string)
| AttributeError.

Inductive outcome (A : Type) : Type :=
| Ok (a : A)
| Raise (e : exn)
| Timeout.

Arguments Ok {A} a.
Arguments Raise {A} e.
Arguments Timeout {A}.

Definition bind {A B : Type} (m : outcome A) (k : A -> outcome B) : outcome B :=
  match m with
  | Ok a => k a
  | Raise e => Raise e
  | Timeout => Timeout
  end.

Notation "'let*' x ':=' m 'in' k" := (bind m (fun x => k))
  (at level 10, x pattern, m at level 100, k at level 200).

(** A [for] loop whose body can raise. *)
Fixpoint for_each {A B : Type} (l : list B) (body : A -> B -> outcome A) (a : A)
  : outcome A :=
  match l with
  | [] => Ok a
  | x :: t => let* a' := body a x in for_each t body a'
  end.

(** ** Numbers *)

Definition Point : Type := (Q * Q)%type.

(** [float('inf')] and the finite floats. *)
Inductive xfloat : Type :=
| Fin (q : Q)
| Inf.

Definition Qltb (a b : Q) : bool := negb (Qle_bool b a).

(** [d < x] for a finite [d]. *)
Definition xlt (d : Q) (x : xfloat) : bool :=
  match x with
  | Fin q => Qltb d q
  | Inf => true
  end.

(** Python's [a / b] on floats. *)
Definition py_div (a b : Q) : outcome Q :=
  if Qeq_bool b 0 then Raise ZeroDivisionError else Ok (a / b)%Q.

(** Tuple equality [p == q]. *)
Definition point_eqb (p q : Point) : bool :=
  Qeq_bool (fst p) (fst q) && Qeq_bool (snd p) (snd q).

Definition Qsum (l : list Q) : Q := fold_left Qplus l 0%Q.

(** ** Lists and matrices as the code indexes them *)

Definition Matrix : Type := list (list Q).

Definition mget (m : Matrix) (i j : nat) : Q := nth j (nth i m []) 0%Q.

Fixpoint list_set {A : Type} (l : list A) (i : nat) (x : A) : list A :=
  match l, i with
  | [], _ => []
  | _ :: t, O => x :: t
  | h :: t, S i' => h :: list_set t i' x
  end.

(** [m[i][j] = x]; the indices the code uses are positions of [m]. *)
Definition mset (m : Matrix) (i j : nat) (x : Q) : Matrix :=
  list_set m i (list_set (nth i m []) j x).

Definition mupdate (m : Matrix) (i j : nat) (f : Q -> Q) : Matrix :=
  mset m i j (f (mget m i j)).

(** [np.zeros((n, n))] and [np.ones((n, n)) * v]. *)
Definition mconst (n : nat) (v : Q) : Matrix := repeat (repeat v n) n.

(** [np.fill_diagonal(m, v)]. *)
Definition fill_diagonal (m : Matrix) (v : Q) : Matrix :=
  fold_left (fun acc i => mset acc i i v) (seq 0 (List.length m)) m.

(** [np.argmin]: position of the first minimum; [ValueError] on an empty
    sequence. *)
Fixpoint argmin_from (best : Q) (besti : nat) (i : nat) (l : list Q) : nat :=
  match l with
  | [] => besti
  | x :: t => if Qltb x best then argmin_from x i (S i) t
              else argmin_from best besti (S i) t
  end.

Definition argmin (l : list Q) : outcome nat :=
  match l with
  | [] => Raise (ValueError "attempt to get argmin of an empty sequence")
  | x :: t => Ok (argmin_from x 0%nat 1%nat t)
  end.

(** [l.index(x)] on a list of points. *)
Fixpoint index_from (i : nat) (l : list Point) (x : Point) : outcome nat :=
  match l with
  | [] => Raise (ValueError "x is not in list")
  | y :: t => if point_eqb y x then Ok i else index_from (S i) t x
  end.

Definition index_of (l : list Point) (x : Point) : outcome nat := index_from 0 l x.

(** [l.remove(x)] on a list of positions: drops the first occurrence. *)
Fixpoint remove_first (x : nat) (l : list nat) : list nat :=
  match l with
  | [] => []
  | y :: t => if Nat.eqb y x then t else y :: remove_first x t
  end.

(** ** The runtime: [math.sqrt], float [**] and [*], and the [random] module *)

Class Runtime : Type := {
  (** [math.sqrt] / [np.sqrt] *)
  sqrt : Q -> Q;
  (** [x ** y] on floats *)
  fpow : Q -> Q -> Q;
  (** [x * y] on floats, rounded as the machine rounds it; used where the
      code compares with a product by a constant that no float holds *)
  fmul : Q -> Q -> Q;
  (** the state of the pseudo-random generator *)
  Rng : Type;
  (** [random.choices(range(len(w)), weights=w, k=1)[0]]: the position drawn
      and the generator after the draw *)
  random_choices : Rng -> list Q -> nat * Rng;
  (** [random.sample(range(n), k)] *)
  random_sample : Rng -> nat -> nat -> list nat * Rng
}.

(** What the libraries document about these functions. *)
Definition sqrt_nonneg (RT : Runtime) : Prop :=
  forall x : Q, (0 <= sqrt x)%Q.


(** [random.sample] returns [k] positions of [range(n)]. *)
Definition sample_in_range (RT : Runtime) : Prop :=
  forall (g : Rng) (n k : nat), (k <= n)%nat ->
    List.length (fst (random_sample g n k)) = k /\
    Forall (fun i => (i < n)%nat) (fst (random_sample g n k)).

(** The generator state after [k] calls of [random.choices] with weights [w]. *)
Fixpoint redraw {RT : Runtime} (k : nat) (g : Rng) (w : list Q) : Rng :=
  match k with
  | O => g
  | S k' => redraw k' (snd (random_choices g w)) w
  end.

(** Repeated weighted draws eventually produce a position of any target set
    that holds a position of non-zero weight. *)
Definition choices_fair (RT : Runtime) : Prop :=
  forall (g : Rng) (w : list Q) (target : list nat),
    (exists i, In i target /\ ~ (nth i w 0 == 0)%Q) ->
    exists k, In (fst (random_choices (redraw k g w) w)) target.

(** ** helper_functions.py *)

Module helper_functions.
Section WithRuntime.
Context {RT : Runtime}.

Definition euclidean_distance (loc1 loc2 : Point) : Q :=
  sqrt ((fst loc1 - fst loc2) ^ 2 + (snd loc1 - snd loc2) ^ 2)%Q.

(** The loop [for i in range(len(stops) - 1)] with its accumulator. *)
Fixpoint legs (distance : Q) (stops : list Point) : Q :=
  match stops with
  | a :: ((b :: _) as t) => legs (distance + euclidean_distance a b)%Q t
  | _ => distance
  end.

Definition total_route_distance (stops : list Point) (return_to_depot : bool) : Q :=
  match stops with
  | [] => 0%Q
  | first :: _ =>
      let distance := legs 0%Q stops in
      if return_to_depot && (1 <? List.length stops)%nat
      then (distance + euclidean_distance (last stops first) first)%Q
      else distance
  end.

Definition calculate_visibility_matrix (stops : list Point) : outcome Matrix :=
  let n := List.length stops in
  for_each (seq 0 n) (fun visibility i =>
    for_each (seq 0 n) (fun visibility j =>
      if Nat.eqb i j then Ok visibility
      else
        let distance := euclidean_distance (nth i stops (0, 0)%Q) (nth j stops (0, 0)%Q) in
        let* v := py_div 1 (distance + (1 # 1000000))%Q in
        Ok (mset visibility i j v))
      visibility)
    (mconst n 0%Q).

(** [np.ones_like(matrix) / matrix.size] when the total is 0. *)
Definition normalize_matrix (matrix : list Q) : list Q :=
  let total := Qsum matrix in
  if Qeq_bool total 0
  then map (fun _ => (1 / inject_Z (Z.of_nat (List.length matrix)))%Q) matrix
  else map (fun x => (x / total)%Q) matrix.

End WithRuntime.
End helper_functions.

(** ** CIACO_Algo.py: class [CIACO] *)

Module CIACO.
Import helper_functions.

Record t : Type := mk {
  num_ants : Z;
  iterations : Z;
  alpha : Q;
  beta : Q;
  evaporation_rate : Q;
  initial_pheromone : Q;
  return_to_depot : bool;
  num_clusters : Z;
  elitist_factor : Q;
  pheromone_matrix : option Matrix;
  distance_matrix : option Matrix;
  visibility_matrix : option Matrix;
  best_route : option (list Point);
  best_distance : xfloat;
  stops : option (list Point);
  clusters : option (list (list nat))
}.

Definition set_pheromone_matrix (self : t) (m : option Matrix) : t :=
  mk (num_ants self) (iterations self) (alpha self) (beta self) (evaporation_rate self)
     (initial_pheromone self) (return_to_depot self) (num_clusters self) (elitist_factor self)
     m (distance_matrix self) (visibility_matrix self)
     (best_route self) (best_distance self) (stops self) (clusters self).

Definition set_distance_matrix (self : t) (m : option Matrix) : t :=
  mk (num_ants self) (iterations self) (alpha self) (beta self) (evaporation_rate self)
     (initial_pheromone self) (return_to_depot self) (num_clusters self) (elitist_factor self)
     (pheromone_matrix self) m (visibility_matrix self)
     (best_route self) (best_distance self) (stops self) (clusters self).

Definition set_visibility_matrix (self : t) (m : option Matrix) : t :=
  mk (num_ants self) (iterations self) (alpha self) (beta self) (evaporation_rate self)
     (initial_pheromone self) (return_to_depot self) (num_clusters self) (elitist_factor self)
     (pheromone_matrix self) (distance_matrix self) m
     (best_route self) (best_distance self) (stops self) (clusters self).

Definition set_best (self : t) (route : option (list Point)) (distance : xfloat) : t :=
  mk (num_ants self) (iterations self) (alpha self) (beta self) (evaporation_rate self)
     (initial_pheromone self) (return_to_depot self) (num_clusters self) (elitist_factor self)
     (pheromone_matrix self) (distance_matrix self) (visibility_matrix self)
     route distance (stops self) (clusters self).

Definition set_stops (self : t) (s : option (list Point)) : t :=
  mk (num_ants self) (iterations self) (alpha self) (beta self) (evaporation_rate self)
     (initial_pheromone self) (return_to_depot self) (num_clusters self) (elitist_factor self)
     (pheromone_matrix self) (distance_matrix self) (visibility_matrix self)
     (best_route self) (best_distance self) s (clusters self).

Definition set_clusters (self : t) (c : option (list (list nat))) : t :=
  mk (num_ants self) (iterations self) (alpha self) (beta self) (evaporation_rate self)
     (initial_pheromone self) (return_to_depot self) (num_clusters self) (elitist_factor self)
     (pheromone_matrix self) (distance_matrix self) (visibility_matrix self)
     (best_route self) (best_distance self) (stops self) c.

(** The constructor: the checks in the order of the source, then the fields. *)
Definition __init__ (num_ants iterations : Z) (alpha beta evaporation_rate
    initial_pheromone : Q) (return_to_depot : bool) (num_clusters : Z)
    (elitist_factor : Q) : outcome t :=
  if (num_ants <=? 0)%Z then Raise (ValueError "Number of ants must be positive")
  else if (iterations <=? 0)%Z then Raise (ValueError "Number of iterations must be positive")
  else if Qltb alpha 0 then Raise (ValueError "Alpha must be non-negative")
  else if Qltb beta 0 then Raise (ValueError "Beta must be non-negative")
  else if negb (Qle_bool 0 evaporation_rate && Qle_bool evaporation_rate 1)
       then Raise (ValueError "Evaporation rate must be between 0 and 1")
  else if Qle_bool initial_pheromone 0 then Raise (ValueError "Initial pheromone must be positive")
  else if (num_clusters <=? 0)%Z then Raise (ValueError "Number of clusters must be positive")
  else if Qltb elitist_factor 1 then Raise (ValueError "Elitist factor must be >= 1")
  else Ok (mk num_ants iterations alpha beta evaporation_rate initial_pheromone
              return_to_depot num_clusters elitist_factor
              None None None None Inf None None).

(** [CIACO(num_ants=..., iterations=...)] with the other defaults. *)
Definition default (num_ants iterations : Z) : outcome t :=
  __init__ num_ants iterations 1 2 (1 # 10) 1 true 3 2.

Section WithRuntime.
Context {RT : Runtime}.

(** *** [_cluster_stops] *)

(** [points[sample]]: rows of [points] at the sampled positions. *)
Fixpoint take_rows (points : list Point) (sample : list nat) : outcome (list Point) :=
  match sample with
  | [] => Ok []
  | i :: rest =>
      match nth_error points i with
      | None => Raise IndexError
      | Some p => let* ps := take_rows points rest in Ok (p :: ps)
      end
  end.

(** [clusters[cluster_idx].append(i)] *)
Definition append_at (clusters : list (list nat)) (cluster_idx i : nat)
  : outcome (list (list nat)) :=
  match nth_error clusters cluster_idx with
  | None => Raise IndexError
  | Some c => Ok (list_set clusters cluster_idx (c ++ [i]))
  end.

(** Assign every point to its nearest centroid. *)
Definition assign_points (points centroids : list Point) (k : nat)
  : outcome (list (list nat)) :=
  for_each (combine (seq 0 (List.length points)) points)
    (fun clusters ip =>
       let distances := map (fun centroid => euclidean_distance (snd ip) centroid) centroids in
       let* cluster_idx := argmin distances in
       append_at clusters cluster_idx (fst ip))
    (repeat [] k).

(** [np.mean(points[cluster], axis=0)] *)
Definition mean_point (points : list Point) (cluster : list nat) : Point :=
  let cluster_points := map (fun i => nth i points (0, 0)%Q) cluster in
  let m := inject_Z (Z.of_nat (List.length cluster_points)) in
  (Qsum (map fst cluster_points) / m, Qsum (map snd cluster_points) / m)%Q.

Definition update_centroids (points : list Point) (clusters : list (list nat))
  : list Point :=
  flat_map (fun cluster =>
              match cluster with
              | [] => []
              | _ :: _ => [mean_point points cluster]
              end) clusters.

(** [np.allclose(a, b, rtol=1e-5, atol=1e-5)]: |a - b| <= atol + rtol * |b|. *)
Definition isclose (a b : Q) : bool :=
  Qle_bool (Qabs (a - b)) ((1 # 100000) + (1 # 100000) * Qabs b)%Q.

Fixpoint allclose (a b : list Point) : bool :=
  match a, b with
  | x :: a', y :: b' =>
      isclose (fst x) (fst y) && isclose (snd x) (snd y) && allclose a' b'
  | _, _ => true
  end.

(** One pass of the loop [for _ in range(100)], then at most [more] passes. *)
Fixpoint kmeans (more : nat) (points centroids : list Point) (k : nat)
  : outcome (list (list nat)) :=
  let* clusters := assign_points points centroids k in
  let new_centroids := update_centroids points clusters in
  if Nat.eqb (List.length new_centroids) (List.length centroids)
     && allclose centroids new_centroids
  then Ok clusters
  else match more with
       | O => Ok clusters
       | S more' => kmeans more' points new_centroids k
       end.

Definition _cluster_stops (self : t) (g : Rng) : outcome (list (list nat) * Rng) :=
  match stops self with
  | None => Raise (RuntimeError "Stops not initialized")
  | Some points =>
      let n := List.length points in
      if (Z.of_nat n <=? num_clusters self)%Z
      then Ok (map (fun i => [i]) (seq 0 n), g)
      else
        let k := Z.to_nat (num_clusters self) in
        let sample := random_sample g n k in
        let* centroids := take_rows points (fst sample) in
        let* clusters := kmeans 99 points centroids k in
        Ok (clusters, snd sample)
  end.

(** *** [_initialize_pheromones] *)

Definition boost (m : Matrix) (i j : nat) : Matrix :=
  let m1 := mupdate m i j (fun x => x * (3 # 2))%Q in
  mupdate m1 j i (fun x => x * (3 # 2))%Q.

Definition boost_cluster (m : Matrix) (cluster : list nat) : Matrix :=
  fold_left (fun m i =>
    fold_left (fun m j => if Nat.eqb i j then m else boost m i j) cluster m)
    cluster m.

Definition _initialize_pheromones (self : t) : outcome t :=
  match stops self, clusters self with
  | Some points, Some cls =>
      let n := List.length points in
      let m := fill_diagonal (mconst n (1 * initial_pheromone self)%Q) 0%Q in
      Ok (set_pheromone_matrix self (Some (fold_left boost_cluster cls m)))
  | _, _ => Raise (RuntimeError "Stops and clusters must be initialized")
  end.

(** *** [_construct_solution] *)

(** The weights of one selection: zero everywhere, then one entry for each
    unvisited position. *)
Definition selection_weights (pheromone visibility : Matrix) (a b : Q) (n current : nat)
    (unvisited : list nat) : list Q :=
  fold_left (fun probabilities next_city =>
    let pheromone_part := fpow (mget pheromone current next_city) a in
    let visibility_part := fpow (mget visibility current next_city) b in
    list_set probabilities next_city (pheromone_part * visibility_part)%Q)
    unvisited (repeat 0%Q n).

(** Draw, and draw again [while next_city not in unvisited]; at most [fuel]
    redraws. *)
Fixpoint select (fuel : nat) (g : Rng) (probabilities : list Q) (unvisited : list nat)
  : outcome (nat * Rng) :=
  let draw := random_choices g probabilities in
  if existsb (Nat.eqb (fst draw)) unvisited then Ok draw
  else match fuel with
       | O => Timeout
       | S fuel' => select fuel' (snd draw) probabilities unvisited
       end.

(** The loop [while unvisited].  Every pass removes one position, so the
    number of passes is the length of [unvisited]; [passes] is that bound. *)
Fixpoint visit (passes fuel : nat) (points : list Point) (pheromone visibility : Matrix)
    (a b : Q) (g : Rng) (current : nat) (unvisited : list nat) (route : list Point)
  : outcome (list Point * Rng) :=
  match unvisited, passes with
  | [], _ => Ok (route, g)
  | _ :: _, O => Timeout
  | _ :: _, S passes' =>
      let n := List.length points in
      let probabilities :=
        normalize_matrix (selection_weights pheromone visibility a b n current unvisited) in
      let* draw := select fuel g probabilities unvisited in
      let next_city := fst draw in
      visit passes' fuel points pheromone visibility a b (snd draw) next_city
            (remove_first next_city unvisited)
            (route ++ [nth next_city points (0, 0)%Q])
  end.

Definition _construct_solution (self : t) (g : Rng) (fuel : nat)
  : outcome (list Point * Rng) :=
  match stops self, pheromone_matrix self, visibility_matrix self with
  | Some points, Some pheromone, Some visibility =>
      let n := List.length points in
      let unvisited := seq 1 (n - 1) in
      let* rg := visit (List.length unvisited) fuel points pheromone visibility
                       (alpha self) (beta self) g 0 unvisited [nth 0 points (0, 0)%Q] in
      if return_to_depot self
      then Ok (fst rg ++ [nth 0 points (0, 0)%Q], snd rg)
      else Ok rg
  | _, _, _ => Raise (RuntimeError "Algorithm not properly initialized")
  end.

(** *** [_update_pheromones] *)

(** Add [c] on both directions of every leg of [route]; the positions are
    found again by value with [self.stops.index]. *)
Fixpoint deposit (points route : list Point) (c : Q) (m : Matrix) : outcome Matrix :=
  match route with
  | p :: ((q :: _) as rest) =>
      let* current := index_of points p in
      let* next_stop := index_of points q in
      let m1 := mupdate m current next_stop (fun x => x + c)%Q in
      let m2 := mupdate m1 next_stop current (fun x => x + c)%Q in
      deposit points rest c m2
  | _ => Ok m
  end.

Definition _update_pheromones (self : t) (ant_routes : list (list Point))
    (ant_distances : list Q) : outcome t :=
  match stops self, pheromone_matrix self with
  | Some points, Some pheromone =>
      let evaporated := map (map (fun x => x * (1 - evaporation_rate self))%Q) pheromone in
      let* best_ant_idx := argmin ant_distances in
      let best_route := nth best_ant_idx ant_routes [] in
      let best_distance := nth best_ant_idx ant_distances 0%Q in
      let* m := for_each (combine ant_routes ant_distances)
                  (fun m rd =>
                     let* contribution := py_div 1 (snd rd + (1 # 10000000000))%Q in
                     deposit points (fst rd) contribution m)
                  evaporated in
      let* elitist_contribution :=
        py_div (elitist_factor self) (best_distance + (1 # 10000000000))%Q in
      let* m' := deposit points best_route elitist_contribution m in
      Ok (set_pheromone_matrix self (Some m'))
  | _, _ => Raise (RuntimeError "Algorithm not properly initialized")
  end.

(** *** [optimize_route] *)

(** The two nested loops that fill [self.distance_matrix]. *)
Definition fill_distances (points : list Point) : Matrix :=
  let n := List.length points in
  fold_left (fun m i =>
    fold_left (fun m j =>
      if Nat.eqb i j then m
      else
        let m1 := mset m i j
                    (euclidean_distance (nth i points (0, 0)%Q) (nth j points (0, 0)%Q)) in
        mset m1 j i (mget m1 i j))
      (seq 0 n) m)
    (seq 0 n) (mconst n 0%Q).

(** The loop [for ant in range(self.num_ants)] of one round. *)
Fixpoint ants (k fuel : nat) (self : t) (g : Rng) (ant_routes : list (list Point))
    (ant_distances : list Q) : outcome (t * Rng * list (list Point) * list Q) :=
  match k with
  | O => Ok (self, g, ant_routes, ant_distances)
  | S k' =>
      let* rg := _construct_solution self g fuel in
      let route := fst rg in
      let distance := total_route_distance route (return_to_depot self) in
      let self' :=
        if xlt distance (best_distance self)
        then set_best self (Some route) (Fin distance)
        else self in
      ants k' fuel self' (snd rg) (ant_routes ++ [route]) (ant_distances ++ [distance])
  end.

(** The loop [for iteration in range(self.iterations)]. *)
Fixpoint rounds (k fuel : nat) (self : t) (g : Rng) : outcome (t * Rng) :=
  match k with
  | O => Ok (self, g)
  | S k' =>
      let* r := ants (Z.to_nat (num_ants self)) fuel self g [] [] in
      let '(self1, g1, ant_routes, ant_distances) := r in
      let* self2 := _update_pheromones self1 ant_routes ant_distances in
      rounds k' fuel self2 g1
  end.

(** The part of [optimize_route] between the length test and the main loop:
    the optimizer with its stops, matrices, clusters and initial pheromone. *)
Definition prepare (self : t) (stops : list Point) (g : Rng) : outcome (t * Rng) :=
  let self1 := set_stops self (Some stops) in
  let self2 := set_distance_matrix self1 (Some (fill_distances stops)) in
  let* visibility := calculate_visibility_matrix stops in
  let self3 := set_visibility_matrix self2 (Some visibility) in
  let* cg := _cluster_stops self3 g in
  let self4 := set_clusters self3 (Some (fst cg)) in
  let* self5 := _initialize_pheromones self4 in
  Ok (self5, snd cg).

(** The value returned, the optimizer after the call, and the generator. *)
Definition optimize_route (self : t) (stops : list Point) (g : Rng) (fuel : nat)
  : outcome (option (list Point) * t * Rng) :=
  match stops with
  | [] => Raise (ValueError "Stops list cannot be empty")
  | _ :: _ =>
      if (List.length stops <=? 2)%nat then Ok (Some stops, self, g)
      else
        let* sg := prepare self stops g in
        let* r := rounds (Z.to_nat (iterations (fst sg))) fuel (fst sg) (snd sg) in
        Ok (best_route (fst r), fst r, snd r)
  end.

End WithRuntime.
End CIACO.

(** ** Order.py and Truck.py *)

Module Order.

Record t : Type := mk {
  order_id : string;
  weight : Q;
  pickup : Point;
  dropoff : Point
}.

End Order.

Module Truck.

(** [route] is [None] once the optimizer has handed back [None]. *)
Record t : Type := mk {
  truck_id : string;
  current_location : Point;
  max_capacity : Q;
  assigned_orders : list Order.t;
  route : option (list Point);
  remaining_capacity : Q
}.

Definition __init__ (truck_id : string) (current_location : Point) (max_capacity : Q) : t :=
  mk truck_id current_location max_capacity [] (Some [current_location]) max_capacity.

(** [sum(order.weight for order in self.assigned_orders)] starts from 0 and
    adds from the left. *)
Definition update_capacity (self : t) : t :=
  let used_capacity := fold_left (fun acc order => (acc + Order.weight order)%Q)
                                 (assigned_orders self) 0%Q in
  mk (truck_id self) (current_location self) (max_capacity self) (assigned_orders self)
     (route self) (max_capacity self - used_capacity)%Q.

Definition add_order (self : t) (order : Order.t) : t :=
  update_capacity
    (mk (truck_id self) (current_location self) (max_capacity self)
        (assigned_orders self ++ [order]) (route self) (remaining_capacity self)).

Definition set_route (self : t) (r : option (list Point)) : t :=
  mk (truck_id self) (current_location self) (max_capacity self) (assigned_orders self)
     r (remaining_capacity self).

End Truck.

(** ** deliveryManagementSystem.py

    What the methods print is not part of the model.  Every entry of
    [trucks] is a [Truck] object of its own. *)

Module DeliveryManagementSystem.
Import helper_functions.

Record t : Type := mk {
  trucks : list Truck.t;
  ciaco_optimizer : CIACO.t
}.

(** [CIACO()] with all its defaults. *)
Definition __init__ : outcome t :=
  let* c := CIACO.__init__ 10 50 1 2 (1 # 10) 1 true 3 2 in
  Ok (mk [] c).

Definition add_truck (self : t) (truck : Truck.t) : t :=
  mk (trucks self ++ [truck]) (ciaco_optimizer self).

(** [list(dict.fromkeys(l))]: first occurrences, in order. *)
Fixpoint unique_from (seen : list Point) (l : list Point) : list Point :=
  match l with
  | [] => []
  | p :: rest =>
      if existsb (point_eqb p) seen then unique_from seen rest
      else p :: unique_from (seen ++ [p]) rest
  end.

Definition unique (l : list Point) : list Point := unique_from [] l.

(** Positions in [self.trucks] of the trucks with room for the order. *)
Definition candidate_trucks (self : t) (order : Order.t) : list nat :=
  filter (fun i =>
            match nth_error (trucks self) i with
            | Some truck => Qle_bool (Order.weight order) (Truck.remaining_capacity truck)
            | None => false
            end)
         (seq 0 (List.length (trucks self))).

Section WithRuntime.
Context {RT : Runtime}.

(** [total_route_distance(optimized_route)]: [None] is falsy, hence 0.0. *)
Definition route_distance (r : option (list Point)) : Q :=
  match r with
  | None => 0%Q
  | Some stops => total_route_distance stops true
  end.

(** The acceptance test of the source,
    [new_distance <= current_distance * 1.2 or current_distance == 0]. *)
Definition gate (current_distance new_distance : Q) : bool :=
  Qle_bool new_distance (fmul current_distance (12 # 10)) || Qeq_bool current_distance 0.

(** The body of [for truck in candidate_trucks] up to the test: the optimized
    route, whether it is accepted, and the optimizer and generator after. *)
Definition evaluate (opt : CIACO.t) (truck : Truck.t) (order : Order.t) (g : Rng)
    (fuel : nat) : outcome (option (list Point) * bool * CIACO.t * Rng) :=
  match Truck.route truck with
  | None => Raise AttributeError
  | Some r =>
      let new_stops := unique (r ++ [Order.pickup order; Order.dropoff order]) in
      let* res := CIACO.optimize_route opt new_stops g fuel in
      let '(optimized_route, opt', g') := res in
      let current_distance := total_route_distance r true in
      let new_distance := route_distance optimized_route in
      Ok (optimized_route, gate current_distance new_distance, opt', g')
  end.

Fixpoint try_candidates (candidates : list nat) (self : t) (order : Order.t) (g : Rng)
    (fuel : nat) : outcome (option Truck.t * t * Rng) :=
  match candidates with
  | [] => Ok (None, self, g)
  | i :: rest =>
      match nth_error (trucks self) i with
      | None => Raise IndexError
      | Some truck =>
          let* ev := evaluate (ciaco_optimizer self) truck order g fuel in
          let '(optimized_route, accepted, opt', g') := ev in
          if accepted
          then
            let truck' := Truck.set_route (Truck.add_order truck order) optimized_route in
            Ok (Some truck', mk (list_set (trucks self) i truck') opt', g')
          else try_candidates rest (mk (trucks self) opt') order g' fuel
      end
  end.

Definition assign_new_order (self : t) (order : Order.t) (g : Rng) (fuel : nat)
  : outcome (option Truck.t * t * Rng) :=
  match candidate_trucks self order with
  | [] => Ok (None, self, g)
  | candidates => try_candidates candidates self order g fuel
  end.

End WithRuntime.
End DeliveryManagementSystem.

(** ** dynamic_routing.py: class [DynamicRoutingSystem]

    The fields [last_update] and the H3 cell identifiers are written and
    never read back by the methods below; they, the map and the spreadsheet
    loader are left out.  [datetime.now()] is read anew in every call of
    [_can_meet_time_window]: the readings are the argument [clock]. *)

(** A [dict] with string keys, in insertion order. *)
Definition dict (V : Type) : Type := list (string * V).

Fixpoint dict_get {V : Type} (d : dict V) (k : string) : option V :=
  match d with
  | [] => None
  | (k', v) :: rest => if String.eqb k' k then Some v else dict_get rest k
  end.

(** [d[k] = v] *)
Fixpoint dict_set {V : Type} (d : dict V) (k : string) (v : V) : dict V :=
  match d with
  | [] => [(k, v)]
  | (k', v') :: rest =>
      if String.eqb k' k then (k', v) :: rest else (k', v') :: dict_set rest k v
  end.

(** [del d[k]]: no entry for [k] remains. *)
Definition dict_del {V : Type} (d : dict V) (k : string) : dict V :=
  filter (fun kv => negb (String.eqb (fst kv) k)) d.

(** The keys of a [dict] are unique. *)
Definition dict_wf {V : Type} (d : dict V) : Prop := NoDup (map fst d).

(** [d[k]] *)
Definition dict_item {V : Type} (d : dict V) (k : string) : outcome V :=
  match dict_get d k with
  | Some v => Ok v
  | None => Raise (KeyError k)
  end.

(** [l.remove(x)] on a list of identifiers. *)
Fixpoint remove_id (x : string) (l : list string) : list string :=
  match l with
  | [] => []
  | y :: t => if String.eqb y x then t else y :: remove_id x t
  end.

Module DynamicRoutingSystem.

(** A naive [datetime]: the microseconds since [datetime.min]. *)
Definition datetime : Type := Z.

(** What [datetime.now()] returns inside the call of [_can_meet_time_window]
    for each truck.  [find_suitable_truck] makes at most one such call for a
    truck, so that every run of it is the run on one [Clock]. *)
Definition Clock : Type := string -> datetime.

(** The nearest integer, the even one of two that are equally near. *)
Definition round_half_even (q : Q) : Z :=
  let below := Qfloor q in
  let rest := (q - inject_Z below)%Q in
  if Qltb rest (1 # 2) then below
  else if Qltb (1 # 2) rest then (below + 1)%Z
  else if Z.even below then below else (below + 1)%Z.

(** [timedelta(hours=h)]: the microseconds in [h] hours, rounded.  The
    [OverflowError] of a duration of more than 999999999 days, or of a date
    after the year 9999, is outside the model, as the overflow of floats
    is. *)
Definition timedelta_hours (h : Q) : Z :=
  round_half_even (h * inject_Z 3600000000).

Inductive status : Type := pending | in_progress | completed.

Definition status_eqb (a b : status) : bool :=
  match a, b with
  | pending, pending | in_progress, in_progress | completed, completed => true
  | _, _ => false
  end.

Record truck : Type := mk_truck {
  max_capacity : Q;
  current_capacity : Q;
  current_location : Point;
  current_route : option (list Point);
  deliveries_of : list string;
  total_weight : Q
}.

Record delivery : Type := mk_delivery {
  pickup : Point;
  dropoff : Point;
  weight : Q;
  delivery_status : status;
  assigned_truck : option string;
  time_window : option (datetime * datetime)
}.

Record t : Type := mk {
  trucks : dict truck;
  deliveries : dict delivery;
  ciaco : CIACO.t
}.

Definition __init__ : outcome t :=
  let* c := CIACO.default 10 50 in
  Ok (mk [] [] c).

Definition add_truck (self : t) (truck_id : string) (max_capacity : Q)
    (current_location : Point) : t :=
  mk (dict_set (trucks self) truck_id
        (mk_truck max_capacity max_capacity current_location (Some []) [] 0))
     (deliveries self) (ciaco self).

Definition add_delivery (self : t) (delivery_id : string) (pickup dropoff : Point)
    (weight : Q) (time_window : option (datetime * datetime)) : t :=
  mk (trucks self)
     (dict_set (deliveries self) delivery_id
        (mk_delivery pickup dropoff weight pending None time_window))
     (ciaco self).

Definition set_status (d : delivery) (s : status) (owner : option string) : delivery :=
  mk_delivery (pickup d) (dropoff d) (weight d) s owner (time_window d).

Section WithRuntime.
Context {RT : Runtime}.

Definition _calculate_distance (point1 point2 : Point) : Q :=
  sqrt ((fst point1 - fst point2) ^ 2 + (snd point1 - snd point2) ^ 2)%Q.

(** Python's [max(a, b)]. *)
Definition py_max (a b : datetime) : datetime := if (a <? b)%Z then b else a.

(** [now] is what [datetime.now()] returns in this call.  The legs to the
    dropoff and the buffer of 15 minutes, computed after the time to the
    pickup, are not read by the answer. *)
Definition _can_meet_time_window (self : t) (truck_id : string) (d : delivery)
    (start_time end_time : datetime) (now : datetime) : outcome bool :=
  let* truck := dict_item (trucks self) truck_id in
  let current_time := now in
  if (end_time <? current_time)%Z then Ok false
  else
    let effective_start := py_max current_time start_time in
    let distance_to_pickup := _calculate_distance (current_location truck) (pickup d) in
    let estimated_time_to_pickup :=
      (effective_start + timedelta_hours (distance_to_pickup / 80))%Z in
    Ok (estimated_time_to_pickup <=? end_time)%Z.

(** The loop over [self.trucks.items()]; the accumulator is
    [(best_truck, min_distance)]. *)
Definition find_suitable_truck (self : t) (delivery_id : string) (clock : Clock)
  : outcome (option string) :=
  let* d := dict_item (deliveries self) delivery_id in
  let* best :=
    for_each (trucks self)
      (fun (acc : option string * xfloat) (item : string * truck) =>
         let (truck_id, truck) := item in
         if Qltb (max_capacity truck) (total_weight truck + weight d)%Q then Ok acc
         else if Qle_bool (weight d) (current_capacity truck) then
           let* on_time :=
             match time_window d with
             | Some (start_time, end_time) =>
                 _can_meet_time_window self truck_id d start_time end_time
                                       (clock truck_id)
             | None => Ok true
             end in
           if on_time then
             let distance := _calculate_distance (current_location truck) (pickup d) in
             if xlt distance (snd acc) then Ok (Some truck_id, Fin distance) else Ok acc
           else Ok acc
         else Ok acc)
      (None, Inf) in
  Ok (fst best).

(** The stops handed to the optimizer for one truck. *)
Definition route_stops (self : t) (truck_id new_delivery_id : string)
  : outcome (list Point) :=
  let* truck := dict_item (trucks self) truck_id in
  let* new_delivery := dict_item (deliveries self) new_delivery_id in
  let* stops :=
    for_each (deliveries_of truck)
      (fun stops delivery_id =>
         let* d := dict_item (deliveries self) delivery_id in
         if status_eqb (delivery_status d) in_progress
         then Ok (stops ++ [dropoff d]) else Ok stops)
      [current_location truck] in
  Ok (stops ++ [pickup new_delivery; dropoff new_delivery]).

Definition optimize_route (self : t) (truck_id new_delivery_id : string) (g : Rng)
    (fuel : nat) : outcome (option (list Point) * t * Rng) :=
  let* stops := route_stops self truck_id new_delivery_id in
  let* res := CIACO.optimize_route (ciaco self) stops g fuel in
  let '(optimized_route, c, g') := res in
  Ok (optimized_route, mk (trucks self) (deliveries self) c, g').

(** Bind a delivery to a truck and recompute the truck's route: the common
    tail of [assign_delivery] and of the reassignment in
    [handle_truck_breakdown]. *)
Definition bind_delivery (self : t) (delivery_id truck_id : string) (g : Rng)
    (fuel : nat) : outcome (t * Rng) :=
  let* tr := dict_item (trucks self) truck_id in
  let* d := dict_item (deliveries self) delivery_id in
  let d' := set_status d in_progress (Some truck_id) in
  let tr' := mk_truck (max_capacity tr) (current_capacity tr - weight d)%Q
                      (current_location tr) (current_route tr)
                      (deliveries_of tr ++ [delivery_id])
                      (total_weight tr + weight d)%Q in
  let self1 := mk (dict_set (trucks self) truck_id tr')
                  (dict_set (deliveries self) delivery_id d') (ciaco self) in
  let* res := optimize_route self1 truck_id delivery_id g fuel in
  let '(optimized_route, self2, g') := res in
  let* tr2 := dict_item (trucks self2) truck_id in
  let tr3 := mk_truck (max_capacity tr2) (current_capacity tr2) (current_location tr2)
                      optimized_route (deliveries_of tr2) (total_weight tr2) in
  Ok (mk (dict_set (trucks self2) truck_id tr3) (deliveries self2) (ciaco self2), g').

(** [if not truck_id]: [None] and the empty string are falsy. *)
Definition truthy (truck_id : option string) : option string :=
  match truck_id with
  | Some EmptyString => None
  | other => other
  end.

Definition assign_delivery (self : t) (delivery_id : string) (clock : Clock) (g : Rng)
    (fuel : nat) : outcome (bool * t * Rng) :=
  match dict_get (deliveries self) delivery_id with
  | None => Ok (false, self, g)
  | Some d =>
      if negb (status_eqb (delivery_status d) pending) then Ok (false, self, g)
      else
        let* found := find_suitable_truck self delivery_id clock in
        match truthy found with
        | None => Ok (false, self, g)
        | Some truck_id =>
            let* sg := bind_delivery self delivery_id truck_id g fuel in
            Ok (true, fst sg, snd sg)
        end
  end.

(** *** [update_truck_status] *)

(** One step of [for delivery_id in truck['deliveries']]: the list iterator
    holds a position [i] into the list object, which the body may shorten. *)
Definition status_step (self : t) (truck_id : string) (new_location : Point)
    (delivery_id : string) : outcome t :=
  let* d := dict_item (deliveries self) delivery_id in
  if status_eqb (delivery_status d) in_progress then
    if Qltb (_calculate_distance new_location (dropoff d)) (1 # 100) then
      let* tr := dict_item (trucks self) truck_id in
      let d' := set_status d completed (assigned_truck d) in
      let tr' := mk_truck (max_capacity tr) (current_capacity tr + weight d)%Q
                          (current_location tr) (current_route tr)
                          (remove_id delivery_id (deliveries_of tr))
                          (total_weight tr - weight d)%Q in
      Ok (mk (dict_set (trucks self) truck_id tr')
             (dict_set (deliveries self) delivery_id d') (ciaco self))
    else Ok self
  else Ok self.

(** The iterator stops as soon as [i] is past the end of the list as it is
    then.  The list never grows, so [bound], the length at the start, covers
    every pass. *)
Fixpoint status_loop (bound i : nat) (self : t) (truck_id : string) (new_location : Point)
  : outcome t :=
  match bound with
  | O => Ok self
  | S bound' =>
      let* tr := dict_item (trucks self) truck_id in
      match nth_error (deliveries_of tr) i with
      | None => Ok self
      | Some delivery_id =>
          let* self' := status_step self truck_id new_location delivery_id in
          status_loop bound' (S i) self' truck_id new_location
      end
  end.

Definition update_truck_status (self : t) (truck_id : string) (new_location : Point)
  : outcome t :=
  let* tr := dict_item (trucks self) truck_id in
  let tr' := mk_truck (max_capacity tr) (current_capacity tr) new_location
                      (current_route tr) (deliveries_of tr) (total_weight tr) in
  let self1 := mk (dict_set (trucks self) truck_id tr') (deliveries self) (ciaco self) in
  status_loop (List.length (deliveries_of tr')) 0 self1 truck_id new_location.

(** *** [handle_truck_breakdown] *)

(** The entries of [failed_delivery_objects]. *)
Record failed : Type := mk_failed {
  failed_id : string;
  failed_weight : Q;
  failed_status : status
}.

(** The first loop: record each delivery of the broken truck and reset it. *)
Definition detach (self : t) (failed_deliveries : list string)
  : outcome (t * list failed) :=
  for_each failed_deliveries
    (fun (acc : t * list failed) delivery_id =>
       let (s, objects) := acc in
       let* d := dict_item (deliveries s) delivery_id in
       let object := mk_failed delivery_id (weight d) (delivery_status d) in
       Ok (mk (trucks s)
              (dict_set (deliveries s) delivery_id (set_status d pending None))
              (ciaco s),
           objects ++ [object]))
    (self, []).

(** [sort(key=weight, reverse=True)]: stable, heaviest first. *)
Fixpoint insert_by_weight (x : failed) (l : list failed) : list failed :=
  match l with
  | [] => [x]
  | y :: rest =>
      if Qltb (failed_weight x) (failed_weight y)
      then y :: insert_by_weight x rest
      else x :: y :: rest
  end.

Definition sort_by_weight (l : list failed) : list failed :=
  fold_right insert_by_weight [] l.

(** The search of the reassignment loop, with its lenient capacity test. *)
Definition find_replacement (self : t) (delivery_id : string) : outcome (option string) :=
  let* best :=
    for_each (trucks self)
      (fun (acc : option string * xfloat) (item : string * truck) =>
         let (tid, truck) := item in
         let* d := dict_item (deliveries self) delivery_id in
         if Qle_bool (weight d * (9 # 10))%Q (current_capacity truck) then
           let distance := _calculate_distance (current_location truck) (pickup d) in
           if xlt distance (snd acc) then Ok (Some tid, Fin distance) else Ok acc
         else Ok acc)
      (None, Inf) in
  Ok (fst best).

(** The reassignment loop; the accumulator is [success], the lines printed,
    the system and the generator. *)
Definition reassign_one (fuel : nat) (acc : bool * list string * t * Rng) (object : failed)
  : outcome (bool * list string * t * Rng) :=
  let '(success, printed, self, g) := acc in
  let delivery_id := failed_id object in
  let* new_truck_id := find_replacement self delivery_id in
  match truthy new_truck_id with
  | Some tid =>
      let* sg := bind_delivery self delivery_id tid g fuel in
      Ok (success, printed, fst sg, snd sg)
  | None =>
      Ok (false, printed ++ [("Failed to reassign delivery " ++ delivery_id)%string], self, g)
  end.

(** The value returned, the lines printed, the system and the generator. *)
Definition handle_truck_breakdown (self : t) (truck_id : string) (g : Rng) (fuel : nat)
  : outcome (bool * list string * t * Rng) :=
  match dict_get (trucks self) truck_id with
  | None => Ok (false, [], self, g)
  | Some broken =>
      let failed_deliveries := deliveries_of broken in
      let* detached := detach self failed_deliveries in
      let (self1, failed_delivery_objects) := detached in
      let self2 := mk (dict_del (trucks self1) truck_id) (deliveries self1) (ciaco self1) in
      let sorted := sort_by_weight failed_delivery_objects in
      for_each sorted (reassign_one fuel) (true, [], self2, g)
  end.

End WithRuntime.
End DynamicRoutingSystem.

(** ** test_scenarios.py and test_dynamic_routing.py: callers of the registry

    The maps drawn by [visualize_routes], the pauses of [time.sleep] and
    what is printed are left out, except for the outcome printed for each
    reassignment. *)

Module TestScenarios.
Import DynamicRoutingSystem.
Section WithRuntime.
Context {RT : Runtime}.

(** The second half of [scenario_4_emergency_rerouting]: truck T1 is taken
    out of the registry by hand and [assign_delivery] is called for each
    entry of its list.  [clock k] is the clock of the call number [k]; the
    result holds, for each delivery, the outcome that is printed. *)
Definition emergency_rerouting (routing_system : t) (clock : nat -> Clock) (g : Rng)
    (fuel : nat) : outcome (list (string * bool) * t * Rng) :=
  match dict_get (trucks routing_system) "T1" with
  | None => Ok ([], routing_system, g)
  | Some truck =>
      let failed_deliveries := deliveries_of truck in
      let removed := mk (dict_del (trucks routing_system) "T1")
                        (deliveries routing_system) (ciaco routing_system) in
      for_each (combine (seq 0 (List.length failed_deliveries)) failed_deliveries)
        (fun (acc : list (string * bool) * t * Rng) (item : nat * string) =>
           let '(printed, s, g) := acc in
           let* r := assign_delivery s (snd item) (clock (fst item)) g fuel in
           let '(success, s', g') := r in
           Ok (printed ++ [(snd item, success)], s', g'))
        ([], removed, g)
  end.

End WithRuntime.
End TestScenarios.

Module test_dynamic_routing.
Import DynamicRoutingSystem.
Section WithRuntime.
Context {RT : Runtime}.

(** The loop [for _ in range(duration_minutes)] of
    [simulate_truck_movement]; [route] is the list bound before the loop. *)
Fixpoint movement (minutes : nat) (routing_system : t) (truck_id : string)
    (route : list Point) (current_point : nat) : outcome t :=
  match minutes with
  | O => Ok routing_system
  | S minutes' =>
      if (List.length route <=? S current_point)%nat then Ok routing_system
      else
        let next_point := S current_point in
        let next_location := nth next_point route (0, 0)%Q in
        let* moved := update_truck_status routing_system truck_id next_location in
        movement minutes' moved truck_id route next_point
  end.

(** [if not truck['current_route']: return] covers [None] and the empty
    list. *)
Definition simulate_truck_movement (routing_system : t) (truck_id : string)
    (duration_minutes : nat) : outcome t :=
  let* truck := dict_item (trucks routing_system) truck_id in
  match current_route truck with
  | None | Some [] => Ok routing_system
  | Some route => movement duration_minutes routing_system truck_id route 0
  end.

End WithRuntime.
End test_dynamic_routing.

(** ** aco_visualization.py and improved_aco_visualization.py:
       [assign_orders_to_trucks]

    The method is the same in both classes up to what it prints.  Trucks
    and orders are the [Truck] and [Order] objects held by two dictionaries;
    a truck found by a search is changed through its key. *)

Module ACOVisualization.
Import Truck.

Record t : Type := mk {
  trucks : dict Truck.t;
  orders : dict Order.t
}.

(** [truck.assigned_orders = []; truck.update_capacity()] *)
Definition reset (truck : Truck.t) : Truck.t :=
  update_capacity
    (Truck.mk (truck_id truck) (current_location truck) (max_capacity truck) []
              (route truck) (remaining_capacity truck)).

(** [best_truck.add_order(order)] for the truck found, if any. *)
Definition give (trucks : dict Truck.t) (best_truck : option string) (order : Order.t)
  : outcome (dict Truck.t) :=
  match best_truck with
  | None => Ok trucks
  | Some key =>
      let* truck := dict_item trucks key in
      Ok (dict_set trucks key (add_order truck order))
  end.

(** The search of the strategy "greedy": the first truck of the largest
    remaining capacity among those with room, starting from -1. *)
Definition greedy_search (trucks : dict Truck.t) (order : Order.t) : option string :=
  fst (fold_left
         (fun (acc : option string * Q) (item : string * Truck.t) =>
            let (key, truck) := item in
            if Qle_bool (Order.weight order) (remaining_capacity truck)
               && Qltb (snd acc) (remaining_capacity truck)
            then (Some key, remaining_capacity truck)
            else acc)
         trucks (None, (-1)%Q)).

(** [sorted(..., key=..., reverse=True)]: stable, largest key first. *)
Fixpoint insert_desc {A : Type} (key : A -> Q) (x : A) (l : list A) : list A :=
  match l with
  | [] => [x]
  | y :: rest =>
      if Qltb (key x) (key y) then y :: insert_desc key x rest else x :: y :: rest
  end.

Definition sorted_desc {A : Type} (key : A -> Q) (l : list A) : list A :=
  fold_right (insert_desc key) [] l.

(** The loop [for j in range(len(sorted_trucks))] of the strategy
    "balanced", which stops at the first truck with room. *)
Fixpoint rotate (js : list nat) (i : nat) (sorted_trucks : list string)
    (trucks : dict Truck.t) (order : Order.t) : outcome (dict Truck.t) :=
  match js with
  | [] => Ok trucks
  | j :: rest =>
      let truck_idx := ((i + j) mod List.length sorted_trucks)%nat in
      match nth_error sorted_trucks truck_idx with
      | None => Raise IndexError
      | Some key =>
          let* truck := dict_item trucks key in
          if Qle_bool (Order.weight order) (remaining_capacity truck)
          then Ok (dict_set trucks key (add_order truck order))
          else rotate rest i sorted_trucks trucks order
      end
  end.

Section WithRuntime.
Context {RT : Runtime}.

Definition _calculate_distance (point1 point2 : Point) : Q :=
  sqrt ((fst point1 - fst point2) ^ 2 + (snd point1 - snd point2) ^ 2)%Q.

(** The search of the strategy "nearest". *)
Definition nearest_search (trucks : dict Truck.t) (order : Order.t) : option string :=
  fst (fold_left
         (fun (acc : option string * xfloat) (item : string * Truck.t) =>
            let (key, truck) := item in
            if Qle_bool (Order.weight order) (remaining_capacity truck) then
              let distance := _calculate_distance (current_location truck)
                                                  (Order.pickup order) in
              if xlt distance (snd acc) then (Some key, Fin distance) else acc
            else acc)
         trucks (None, Inf)).

Definition assign_orders_to_trucks (self : t) (strategy : string) : outcome t :=
  match trucks self with
  | [] => Raise (ValueError "No trucks created. Call create_trucks first.")
  | _ :: _ =>
      match orders self with
      | [] => Raise (ValueError "No orders created. Call create_orders first.")
      | _ :: _ =>
          let cleared := map (fun item => (fst item, reset (snd item))) (trucks self) in
          let* assigned :=
            if String.eqb strategy "greedy" then
              for_each (orders self)
                (fun trucks item => give trucks (greedy_search trucks (snd item)) (snd item))
                cleared
            else if String.eqb strategy "balanced" then
              let sorted_orders := sorted_desc (fun item => Order.weight (snd item))
                                               (orders self) in
              let sorted_trucks :=
                map fst (sorted_desc (fun item => max_capacity (snd item)) cleared) in
              for_each (combine (seq 0 (List.length sorted_orders)) sorted_orders)
                (fun trucks item =>
                   rotate (seq 0 (List.length sorted_trucks)) (fst item) sorted_trucks
                          trucks (snd (snd item)))
                cleared
            else if String.eqb strategy "nearest" then
              for_each (orders self)
                (fun trucks item => give trucks (nearest_search trucks (snd item)) (snd item))
                cleared
            else Ok cleared in
          Ok (mk assigned (orders self))
      end
  end.

End WithRuntime.
End ACOVisualization.

(** ** A concrete runtime

    Used to run the model on concrete inputs.  [sqrt_exact] is the square
    root wherever it is rational, [pow_int] is the power for integral
    exponents, and the generator is a counter: [random.choices] walks
    round-robin through the positions of non-zero weight, [random.sample]
    takes the first [k] positions. *)

Module Concrete.

Definition sqrt_exact (q : Q) : Q :=
  Z.sqrt (Qnum q * Zpos (Qden q)) # Qden q.

Definition pow_int (x y : Q) : Q :=
  Qpower x (Qnum y / Zpos (Qden y))%Z.

(** Positions of [w] holding a non-zero weight. *)
Definition support (w : list Q) : list nat :=
  filter (fun i => negb (Qeq_bool (nth i w 0%Q) 0)) (seq 0 (List.length w)).

Definition choices (g : nat) (w : list Q) : nat * nat :=
  let s := support w in
  (nth (g mod List.length s) s 0%nat, S g).

Definition sample (g : nat) (n k : nat) : list nat * nat :=
  (firstn k (seq 0 n), S g).

#[export] Instance runtime : Runtime := {
  sqrt := sqrt_exact;
  fpow := pow_int;
  fmul := Qmult;
  Rng := nat;
  random_choices := choices;
  random_sample := sample
}.

End Concrete.

(** * Properties *)

(** ** Results of [bind] and [for_each] *)

Lemma bind_Ok {A B : Type} (m : outcome A) (k : A -> outcome B) (b : B) :
  bind m k = Ok b -> exists a, m = Ok a /\ k a = Ok b.
Proof.
  destruct m as [a | e |]; simpl; intros H; try discriminate.
  exists a; split; [reflexivity | exact H].
Qed.

Lemma bind_Raise {A B : Type} (m : outcome A) (k : A -> outcome B) (e : exn) :
  bind m k = Raise e -> m = Raise e \/ exists a, m = Ok a /\ k a = Raise e.
Proof.
  destruct m as [a | e' |]; simpl; intros H; try discriminate.
  - right; exists a; split; [reflexivity | exact H].
  - left; inversion H; reflexivity.
Qed.

Lemma for_each_Raise {A B : Type} (l : list B) (body : A -> B -> outcome A) (e : exn) :
  (forall a x, body a x <> Raise e) ->
  forall a, for_each l body a <> Raise e.
Proof.
  intros Hbody; induction l as [| x l IH]; intros a; simpl.
  - discriminate.
  - intros H; apply bind_Raise in H; destruct H as [H | [a' [_ H]]].
    + exact (Hbody _ _ H).
    + exact (IH _ H).
Qed.

(** An invariant of the accumulator carried through a [for] loop. *)
Lemma for_each_invariant {A B : Type} (P : A -> Prop) (l : list B)
    (body : A -> B -> outcome A) :
  (forall a x a', In x l -> P a -> body a x = Ok a' -> P a') ->
  forall a a', P a -> for_each l body a = Ok a' -> P a'.
Proof.
  induction l as [| x l IH]; intros Hbody a a' Ha H; simpl in H.
  - inversion H; subst; exact Ha.
  - apply bind_Ok in H; destruct H as [a1 [H1 H2]].
    apply IH with (a := a1); auto.
    + intros; eapply Hbody; eauto; right; assumption.
    + eapply Hbody; eauto; left; reflexivity.
Qed.

(** The exception raised for an empty stop list. *)
Definition input_error : exn := ValueError "Stops list cannot be empty".

Ltac not_input_error :=
  repeat match goal with
  | |- _ <> _ => intro
  | H : bind _ _ = Raise _ |- _ =>
      apply bind_Raise in H; destruct H as [H | [? [? H]]]
  | H : Ok _ = Raise _ |- _ => discriminate H
  | H : Timeout = Raise _ |- _ => discriminate H
  | H : Raise _ = Raise input_error |- _ => discriminate H
  | H : (if ?c then _ else _) = Raise _ |- _ => destruct c
  | H : match ?x with _ => _ end = Raise _ |- _ => destruct x
  end.

Section OptimizerNeverReportsEmptyInput.
Context {RT : Runtime}.
Import helper_functions CIACO.

Lemma visibility_no_input_error stops :
  calculate_visibility_matrix stops <> Raise input_error.
Proof.
  unfold calculate_visibility_matrix.
  apply for_each_Raise; intros a i.
  apply for_each_Raise; intros b j.
  unfold py_div; not_input_error.
Qed.

Lemma take_rows_no_input_error points sample :
  take_rows points sample <> Raise input_error.
Proof.
  induction sample as [| i rest IH]; simpl; not_input_error.
  - exact (IH H).
Qed.

Lemma assign_points_no_input_error points centroids k :
  assign_points points centroids k <> Raise input_error.
Proof.
  unfold assign_points. apply for_each_Raise; intros a ip.
  unfold argmin, append_at; not_input_error.
Qed.

Lemma kmeans_no_input_error more points centroids k :
  kmeans more points centroids k <> Raise input_error.
Proof.
  revert centroids; induction more as [| more IH]; intros centroids; simpl;
    not_input_error; try (eapply assign_points_no_input_error; eassumption).
  eapply IH; eassumption.
Qed.

Lemma cluster_stops_no_input_error self g :
  _cluster_stops self g <> Raise input_error.
Proof.
  unfold _cluster_stops; not_input_error.
  - eapply take_rows_no_input_error; eassumption.
  - eapply kmeans_no_input_error; eassumption.
Qed.

Lemma select_no_input_error fuel g w unvisited :
  select fuel g w unvisited <> Raise input_error.
Proof.
  revert g; induction fuel as [| fuel IH]; intros g; simpl; not_input_error.
  eapply IH; eassumption.
Qed.

Lemma visit_no_input_error passes fuel points ph vis a b g current unvisited route :
  visit passes fuel points ph vis a b g current unvisited route <> Raise input_error.
Proof.
  revert g current unvisited route; induction passes as [| passes IH];
    intros g current unvisited route; destruct unvisited as [| u us]; simpl;
    not_input_error.
  - eapply select_no_input_error; eassumption.
  - eapply IH; eassumption.
Qed.

Lemma construct_no_input_error self g fuel :
  _construct_solution self g fuel <> Raise input_error.
Proof.
  unfold _construct_solution; not_input_error;
    eapply visit_no_input_error; eassumption.
Qed.

Lemma index_of_no_input_error points p : index_of points p <> Raise input_error.
Proof.
  unfold index_of; generalize 0%nat; induction points as [| q points IH];
    intros i; simpl; not_input_error.
  eapply IH; eassumption.
Qed.

Lemma deposit_no_input_error points route c m :
  deposit points route c m <> Raise input_error.
Proof.
  revert m; induction route as [| p route IH]; intros m; simpl; [discriminate |].
  destruct route as [| q rest]; [discriminate |].
  not_input_error; try (eapply index_of_no_input_error; eassumption).
  eapply IH; eassumption.
Qed.

Lemma update_pheromones_no_input_error self routes dists :
  _update_pheromones self routes dists <> Raise input_error.
Proof.
  unfold _update_pheromones, argmin, py_div; not_input_error;
    try (eapply deposit_no_input_error; eassumption).
  all: try (revert H; apply for_each_Raise; intros; unfold py_div; not_input_error;
       eapply deposit_no_input_error; eassumption).
Qed.

Lemma ants_no_input_error k fuel self g routes dists :
  ants k fuel self g routes dists <> Raise input_error.
Proof.
  revert self g routes dists; induction k as [| k IH]; intros self g routes dists;
    simpl; not_input_error.
  - eapply construct_no_input_error; eassumption.
  - eapply IH; eassumption.
Qed.

Lemma rounds_no_input_error k fuel self g :
  rounds k fuel self g <> Raise input_error.
Proof.
  revert self g; induction k as [| k IH]; intros self g; simpl; not_input_error.
  - eapply ants_no_input_error; eassumption.
  - eapply update_pheromones_no_input_error; eassumption.
  - eapply IH; eassumption.
Qed.

Lemma prepare_no_input_error self stops g :
  prepare self stops g <> Raise input_error.
Proof.
  unfold prepare. intros H.
  apply bind_Raise in H; destruct H as [H | [vis [_ H]]];
    [exact (visibility_no_input_error _ H) |].
  apply bind_Raise in H; destruct H as [H | [cg [_ H]]];
    [exact (cluster_stops_no_input_error _ _ H) |].
  apply bind_Raise in H; destruct H as [H | [self5 [_ H]]]; [| discriminate H].
  unfold _initialize_pheromones in H; simpl in H. discriminate H.
Qed.

(** What [prepare] leaves in the optimizer. *)
Lemma prepare_fields self stops g self' g' :
  prepare self stops g = Ok (self', g') ->
  CIACO.stops self' = Some stops /\
  pheromone_matrix self' <> None /\ visibility_matrix self' <> None /\
  best_route self' = best_route self /\ best_distance self' = best_distance self /\
  return_to_depot self' = return_to_depot self /\
  num_ants self' = num_ants self /\ iterations self' = iterations self.
Proof.
  unfold prepare. intros H.
  apply bind_Ok in H; destruct H as [vis [_ H]].
  apply bind_Ok in H; destruct H as [cg [_ H]].
  apply bind_Ok in H; destruct H as [self5 [H5 H]].
  inversion H; subst self' g'; clear H.
  unfold _initialize_pheromones in H5; simpl in H5.
  inversion H5; subst self5; clear H5. simpl.
  repeat split; try reflexivity; discriminate.
Qed.

End OptimizerNeverReportsEmptyInput.

(** ** Short stop lists *)

(** C9.  [optimize_route] raises the input error on the empty stop list and
    on no other; a stop list of one or two entries is returned as it is,
    with the optimizer and the random generator untouched, whatever the
    state of the optimizer. *)
Theorem optimize_route_short_input {RT : Runtime} (self : CIACO.t) (g : Rng) (fuel : nat) :
  CIACO.optimize_route self [] g fuel = Raise input_error /\
  (forall (a : Point) (rest : list Point),
      CIACO.optimize_route self (a :: rest) g fuel <> Raise input_error) /\
  (forall a : Point,
      CIACO.optimize_route self [a] g fuel = Ok (Some [a], self, g)) /\
  (forall a b : Point,
      CIACO.optimize_route self [a; b] g fuel = Ok (Some [a; b], self, g)).
Proof.
  split; [reflexivity |]. split; [| split; reflexivity].
  intros a rest. unfold CIACO.optimize_route.
  destruct (List.length (a :: rest) <=? 2)%nat; [discriminate |].
  intros H.
  apply bind_Raise in H; destruct H as [H | [sg [_ H]]];
    [exact (prepare_no_input_error _ _ _ H) |].
  apply bind_Raise in H; destruct H as [H | [r [_ H]]];
    [exact (rounds_no_input_error _ _ _ _ H) | discriminate H].
Qed.

(** ** The capacity of a [Truck] *)

(** The sum of the weights of a list of orders. *)
Fixpoint load (orders : list Order.t) : Q :=
  match orders with
  | [] => 0
  | order :: rest => Order.weight order + load rest
  end.

Lemma load_app (l1 l2 : list Order.t) : load (l1 ++ l2) == load l1 + load l2.
Proof.
  induction l1 as [| o l1 IH]; simpl.
  - ring.
  - rewrite IH; ring.
Qed.

Lemma used_capacity_load (orders : list Order.t) (acc : Q) :
  fold_left (fun acc order => acc + Order.weight order) orders acc == acc + load orders.
Proof.
  revert acc; induction orders as [| o orders IH]; intros acc; simpl.
  - ring.
  - rewrite IH; ring.
Qed.

Lemma add_order_remaining (truck : Truck.t) (order : Order.t) :
  Truck.remaining_capacity (Truck.add_order truck order)
  == Truck.max_capacity truck - load (Truck.assigned_orders truck ++ [order]).
Proof.
  unfold Truck.add_order, Truck.update_capacity; simpl.
  rewrite used_capacity_load; ring.
Qed.

Lemma add_orders_fields (orders : list Order.t) (truck : Truck.t) :
  Truck.assigned_orders (fold_left Truck.add_order orders truck)
    = Truck.assigned_orders truck ++ orders /\
  Truck.max_capacity (fold_left Truck.add_order orders truck) = Truck.max_capacity truck.
Proof.
  revert truck; induction orders as [| o orders IH]; intros truck; simpl.
  - rewrite app_nil_r; split; reflexivity.
  - destruct (IH (Truck.add_order truck o)) as [H1 H2].
    rewrite H1, H2; simpl. rewrite <- app_assoc; split; reflexivity.
Qed.

Lemma add_orders_remaining (orders : list Order.t) (truck : Truck.t) :
  Truck.remaining_capacity truck
    == Truck.max_capacity truck - load (Truck.assigned_orders truck) ->
  Truck.remaining_capacity (fold_left Truck.add_order orders truck)
    == Truck.max_capacity truck - load (Truck.assigned_orders truck ++ orders).
Proof.
  revert truck; induction orders as [| o orders IH]; intros truck Hinv; simpl.
  - rewrite app_nil_r; exact Hinv.
  - rewrite IH.
    + simpl. rewrite <- app_assoc; reflexivity.
    + rewrite add_order_remaining; simpl; reflexivity.
Qed.

(** C10.  A truck built by the constructor and given any sequence of
    orders by [add_order] holds exactly these orders, keeps its maximum
    capacity, and its remaining capacity is the maximum capacity minus the
    sum of the weights of its orders.  A single [add_order] re-establishes
    this from any truck, because the remaining capacity is recomputed from
    the list; the value is negative exactly when the load exceeds the
    maximum capacity. *)
Theorem truck_remaining_capacity :
  (forall (truck_id : string) (location : Point) (capacity : Q) (orders : list Order.t),
      let truck := fold_left Truck.add_order orders (Truck.__init__ truck_id location capacity) in
      Truck.assigned_orders truck = orders /\
      Truck.max_capacity truck = capacity /\
      Truck.remaining_capacity truck == capacity - load orders) /\
  (forall (truck : Truck.t) (order : Order.t),
      let truck' := Truck.add_order truck order in
      Truck.assigned_orders truck' = Truck.assigned_orders truck ++ [order] /\
      Truck.max_capacity truck' = Truck.max_capacity truck /\
      Truck.remaining_capacity truck'
        == Truck.max_capacity truck' - load (Truck.assigned_orders truck') /\
      (Truck.remaining_capacity truck' < 0
         <-> Truck.max_capacity truck' < load (Truck.assigned_orders truck'))).
Proof.
  split.
  - intros truck_id location capacity orders truck.
    destruct (add_orders_fields orders (Truck.__init__ truck_id location capacity))
      as [H1 H2].
    split; [exact H1 |]. split; [exact H2 |].
    unfold truck. rewrite add_orders_remaining; simpl; [reflexivity | ring].
  - intros truck order truck'.
    assert (Hrem := add_order_remaining truck order).
    split; [reflexivity |]. split; [reflexivity |].
    split; [exact Hrem |].
    unfold truck'. rewrite Hrem. simpl. split; intros H; lra.
Qed.

(** ** The route built by one ant *)

(** [route] visits the depot first, then every other stop once, and ends
    with the depot again when [return_to_depot] holds. *)
Definition is_tour (points : list Point) (return_to_depot : bool) (route : list Point)
  : Prop :=
  match points with
  | [] => False
  | depot :: others =>
      exists rest, Permutation rest others /\
                   route = depot :: rest ++ (if return_to_depot then [depot] else [])
  end.

Lemma remove_first_perm (x : nat) (l : list nat) :
  In x l -> Permutation l (x :: remove_first x l).
Proof.
  induction l as [| y l IH]; simpl; intros Hin; [contradiction |].
  destruct (Nat.eqb_spec y x) as [-> | Hne].
  - reflexivity.
  - destruct Hin as [-> | Hin]; [contradiction Hne; reflexivity |].
    rewrite perm_swap. constructor. apply IH; exact Hin.
Qed.

Lemma existsb_eqb_In (x : nat) (l : list nat) :
  existsb (Nat.eqb x) l = true <-> In x l.
Proof.
  rewrite existsb_exists; split.
  - intros [y [Hy Heq]]. apply Nat.eqb_eq in Heq; subst; exact Hy.
  - intros H; exists x; split; [exact H | apply Nat.eqb_refl].
Qed.

Lemma map_nth_seq {A : Type} (d : A) (l : list A) :
  map (fun i => nth i l d) (seq 0 (List.length l)) = l.
Proof.
  induction l as [| a l IH]; simpl; [reflexivity |].
  f_equal. rewrite <- seq_shift, map_map. simpl. exact IH.
Qed.

Section AntRoute.
Context {RT : Runtime}.
Import helper_functions CIACO.

Lemma select_in fuel g w unvisited x g' :
  select fuel g w unvisited = Ok (x, g') -> In x unvisited.
Proof.
  revert g; induction fuel as [| fuel IH]; intros g; simpl;
    destruct (existsb _ unvisited) eqn:E; intros H; try discriminate.
  - inversion H as [H1]. rewrite <- existsb_eqb_In, <- E.
    destruct (random_choices g w); simpl in *; inversion H1; subst; reflexivity.
  - inversion H as [H1]. rewrite <- existsb_eqb_In, <- E.
    destruct (random_choices g w); simpl in *; inversion H1; subst; reflexivity.
  - eapply IH; eassumption.
Qed.

Lemma visit_route passes fuel points ph vis a b :
  forall g current unvisited route r g',
    visit passes fuel points ph vis a b g current unvisited route = Ok (r, g') ->
    exists order, Permutation order unvisited /\
                  r = route ++ map (fun i => nth i points (0, 0)) order.
Proof.
  induction passes as [| passes IH]; intros g current unvisited route r g' H;
    destruct unvisited as [| u us]; simpl in H; try discriminate.
  - inversion H; subst. exists []; split; [constructor | now rewrite app_nil_r].
  - inversion H; subst. exists []; split; [constructor | now rewrite app_nil_r].
  - apply bind_Ok in H; destruct H as [[x g1] [Hsel H]]; simpl in H.
    apply select_in in Hsel.
    apply IH in H; destruct H as [order [Hperm ->]].
    exists (x :: order); split.
    + rewrite (remove_first_perm _ _ Hsel). constructor; exact Hperm.
    + rewrite <- app_assoc; reflexivity.
Qed.

Lemma construct_is_tour self g fuel points r g' :
  stops self = Some points -> points <> [] ->
  _construct_solution self g fuel = Ok (r, g') ->
  is_tour points (return_to_depot self) r.
Proof.
  intros Hs Hne H. unfold _construct_solution in H. rewrite Hs in H.
  destruct (pheromone_matrix self) as [ph |]; [| discriminate].
  destruct (visibility_matrix self) as [vis |]; [| discriminate].
  apply bind_Ok in H; destruct H as [[r0 g0] [Hv H]].
  apply visit_route in Hv; destruct Hv as [order [Hperm ->]].
  destruct points as [| depot others]; [contradiction Hne; reflexivity |].
  simpl. exists (map (fun i => nth i (depot :: others) (0, 0)) order). split.
  - simpl in Hperm. rewrite Nat.sub_0_r in Hperm.
    rewrite (Permutation_map _ Hperm).
    rewrite <- seq_shift, map_map. simpl. rewrite map_nth_seq. reflexivity.
  - simpl in H. destruct (return_to_depot self); inversion H; subst; simpl;
      rewrite ?app_nil_r; reflexivity.
Qed.

(** The best route known to an optimizer working on [points]: none yet, with
    an infinite best distance, or a tour of [points]. *)
Definition best_is_tour (points : list Point) (self : t) : Prop :=
  stops self = Some points /\
  match best_route self with
  | None => best_distance self = Inf
  | Some r => is_tour points (return_to_depot self) r
  end.

Lemma ants_best_is_tour points k fuel :
  points <> [] ->
  forall self g routes dists self' g' routes' dists',
    best_is_tour points self ->
    ants k fuel self g routes dists = Ok (self', g', routes', dists') ->
    best_is_tour points self' /\
    (k <> 0%nat -> best_route self' <> None) /\
    num_ants self' = num_ants self /\ iterations self' = iterations self.
Proof.
  intros Hne; induction k as [| k IH];
    intros self g routes dists self' g' routes' dists' Hinv H; simpl in H.
  - inversion H; subst. split; [exact Hinv |].
    split; [intros Hk; contradiction Hk; reflexivity | split; reflexivity].
  - apply bind_Ok in H; destruct H as [[route g1] [Hc H]]; simpl in H.
    destruct Hinv as [Hs Hb].
    assert (Htour := construct_is_tour _ _ _ _ _ _ Hs Hne Hc).
    assert (Hstep : exists self1,
               ants k fuel self1 g1 (routes ++ [route])
                    (dists ++ [total_route_distance route (return_to_depot self)])
                 = Ok (self', g', routes', dists') /\
               best_is_tour points self1 /\ best_route self1 <> None /\
               num_ants self1 = num_ants self /\ iterations self1 = iterations self).
    { destruct (xlt _ (best_distance self)) eqn:E;
        eexists; (split; [exact H |]).
      - repeat split; simpl; auto. discriminate.
      - split; [split; [exact Hs | exact Hb] |].
        split; [| split; reflexivity].
        intros Hnone. rewrite Hnone in Hb. rewrite Hb in E. discriminate E. }
    clear H. destruct Hstep as [self1 [H Hinv1]].
    destruct Hinv1 as [Hinv1 [Hsome [Hn1 Hi1]]].
    destruct (IH _ _ _ _ _ _ _ _ Hinv1 H) as [Hinv' [_ [Hn Hi]]].
    repeat split; try apply Hinv'; try congruence.
    intros _.
    destruct k as [| k'].
    + simpl in H. inversion H; subst. exact Hsome.
    + apply (IH _ _ _ _ _ _ _ _ Hinv1 H). discriminate.
Qed.

Lemma update_pheromones_fields self routes dists self' :
  _update_pheromones self routes dists = Ok self' ->
  stops self' = stops self /\ best_route self' = best_route self /\
  best_distance self' = best_distance self /\
  return_to_depot self' = return_to_depot self /\
  num_ants self' = num_ants self /\ iterations self' = iterations self.
Proof.
  unfold _update_pheromones.
  destruct (stops self) eqn:Es; [| discriminate].
  destruct (pheromone_matrix self) eqn:Ep; [| discriminate].
  intros H.
  repeat (apply bind_Ok in H; destruct H as [? [_ H]]).
  inversion H; subst; simpl. repeat split; congruence.
Qed.

Lemma rounds_best_is_tour points k fuel :
  points <> [] ->
  forall self g self' g',
    best_is_tour points self ->
    (0 < num_ants self)%Z ->
    rounds k fuel self g = Ok (self', g') ->
    best_is_tour points self' /\
    ((k <> 0%nat \/ best_route self <> None) -> best_route self' <> None).
Proof.
  intros Hne; induction k as [| k IH]; intros self g self' g' Hinv Hants H;
    simpl in H.
  - inversion H; subst. split; [exact Hinv |]. intros [Hk | Hb]; [| exact Hb].
    contradiction Hk; reflexivity.
  - apply bind_Ok in H; destruct H as [[[[self1 g1] rs] ds] [Ha H]].
    apply bind_Ok in H; destruct H as [self2 [Hu H]].
    destruct (ants_best_is_tour _ _ _ Hne _ _ _ _ _ _ _ _ Hinv Ha)
      as [Hinv1 [Hsome1 [Hn1 _]]].
    destruct (update_pheromones_fields _ _ _ _ Hu) as [Hs [Hb [Hd [Hr [Hn2 _]]]]].
    assert (Hinv2 : best_is_tour points self2).
    { destruct Hinv1 as [Hs1 Hb1]. split; [congruence |].
      rewrite Hb, Hd, Hr. exact Hb1. }
    assert (Hants2 : (0 < num_ants self2)%Z) by (rewrite Hn2, Hn1; exact Hants).
    destruct (IH _ _ _ _ Hinv2 Hants2 H) as [Hinv' Hsome'].
    split; [exact Hinv' |]. intros _. apply Hsome'. right. rewrite Hb.
    apply Hsome1. intros Hz.
    assert (Z.to_nat (num_ants self) <> 0)%nat by lia. contradiction.
Qed.

End AntRoute.

(** ** Enough fuel

    [settles P f]: from some amount of fuel on, [f] returns one and the same
    result, and this result satisfies [P]. *)

Definition settles {A : Type} (P : A -> Prop) (f : nat -> outcome A) : Prop :=
  exists fuel0 a, P a /\ forall fuel, (fuel0 <= fuel)%nat -> f fuel = Ok a.

Lemma settles_ret {A : Type} (P : A -> Prop) (f : nat -> outcome A) (a : A) :
  P a -> (forall fuel, f fuel = Ok a) -> settles P f.
Proof. intros Ha Hf; exists 0%nat, a; split; [exact Ha | intros; apply Hf]. Qed.

Lemma settles_bind {A B : Type} (P : A -> Prop) (Q : B -> Prop)
    (f : nat -> outcome A) (k : A -> nat -> outcome B) :
  settles P f ->
  (forall a, P a -> settles Q (k a)) ->
  settles Q (fun fuel => bind (f fuel) (fun a => k a fuel)).
Proof.
  intros [f0 [a [Ha Hf]]] Hk.
  destruct (Hk a Ha) as [f1 [b [Hb Hkb]]].
  exists (Nat.max f0 f1), b; split; [exact Hb |].
  intros fuel Hfuel. rewrite Hf by lia. simpl. apply Hkb; lia.
Qed.

Lemma settles_weaken {A : Type} (P Q : A -> Prop) (f : nat -> outcome A) :
  (forall a, P a -> Q a) -> settles P f -> settles Q f.
Proof.
  intros HPQ [f0 [a [Ha Hf]]]; exists f0, a; split; [apply HPQ; exact Ha | exact Hf].
Qed.

Lemma settles_ext {A : Type} (P : A -> Prop) (f f' : nat -> outcome A) :
  (forall fuel, f fuel = f' fuel) -> settles P f -> settles P f'.
Proof.
  intros Heq [f0 [a [Ha Hf]]]; exists f0, a; split; [exact Ha |].
  intros fuel Hfuel; rewrite <- Heq; apply Hf; exact Hfuel.
Qed.

(** A [for] loop whose body returns under an invariant returns. *)
Lemma for_each_returns {A B : Type} (P : A -> Prop) (l : list B)
    (body : A -> B -> outcome A) :
  (forall a x, In x l -> P a -> exists a', body a x = Ok a' /\ P a') ->
  forall a, P a -> exists a', for_each l body a = Ok a' /\ P a'.
Proof.
  induction l as [| x l IH]; intros Hbody a Ha; simpl.
  - exists a; split; [reflexivity | exact Ha].
  - destruct (Hbody a x (or_introl eq_refl) Ha) as [a1 [H1 Ha1]].
    rewrite H1; simpl. apply IH; [| exact Ha1].
    intros; apply Hbody; [right |]; assumption.
Qed.

(** ** Arithmetic facts used below *)

Lemma Qeq_bool_false_iff (a b : Q) : Qeq_bool a b = false <-> ~ a == b.
Proof.
  split.
  - intros H Heq. apply Qeq_bool_iff in Heq. congruence.
  - intros H. destruct (Qeq_bool a b) eqn:E; [| reflexivity].
    apply Qeq_bool_iff in E. contradiction.
Qed.

Lemma Qltb_true_iff (a b : Q) : Qltb a b = true <-> a < b.
Proof.
  unfold Qltb. rewrite negb_true_iff. split.
  - intros H. apply Qnot_le_lt. intros Hle. apply Qle_bool_iff in Hle. congruence.
  - intros H. destruct (Qle_bool b a) eqn:E; [| reflexivity].
    apply Qle_bool_iff in E. lra.
Qed.

Lemma Qltb_false_iff (a b : Q) : Qltb a b = false <-> b <= a.
Proof.
  unfold Qltb. rewrite negb_false_iff. apply Qle_bool_iff.
Qed.

Lemma py_div_pos (a b : Q) : 0 < b -> py_div a b = Ok (a / b).
Proof.
  intros Hb. unfold py_div.
  destruct (Qeq_bool b 0) eqn:E; [| reflexivity].
  apply Qeq_bool_iff in E. lra.
Qed.

Lemma point_eqb_refl (p : Point) : point_eqb p p = true.
Proof.
  unfold point_eqb. apply andb_true_intro; split; apply Qeq_bool_iff; reflexivity.
Qed.

Lemma nth_list_set_same {A : Type} (l : list A) (i : nat) (x d : A) :
  (i < List.length l)%nat -> nth i (list_set l i x) d = x.
Proof.
  revert i; induction l as [| a l IH]; intros i Hi; simpl in *; [lia |].
  destruct i as [| i]; simpl; [reflexivity | apply IH; lia].
Qed.

Lemma nth_list_set_other {A : Type} (l : list A) (i j : nat) (x d : A) :
  i <> j -> nth j (list_set l i x) d = nth j l d.
Proof.
  revert i j; induction l as [| a l IH]; intros i j Hij; simpl; [reflexivity |].
  destruct i as [| i], j as [| j]; simpl; try reflexivity.
  - contradiction Hij; reflexivity.
  - apply IH; lia.
Qed.

Lemma length_list_set {A : Type} (l : list A) (i : nat) (x : A) :
  List.length (list_set l i x) = List.length l.
Proof.
  revert i; induction l as [| a l IH]; intros i; simpl; [reflexivity |].
  destruct i; simpl; [reflexivity | rewrite IH; reflexivity].
Qed.

Lemma Qsum_acc (l : list Q) (acc : Q) : fold_left Qplus l acc == acc + Qsum l.
Proof.
  unfold Qsum. revert acc; induction l as [| x l IH]; intros acc; simpl.
  - ring.
  - rewrite IH, (IH (0 + x)). ring.
Qed.

Lemma Qsum_cons (x : Q) (l : list Q) : Qsum (x :: l) == x + Qsum l.
Proof. unfold Qsum at 1; simpl. rewrite Qsum_acc. ring. Qed.

(** A list of rationals with a non-zero sum holds a non-zero entry. *)
Lemma Qsum_nonzero (l : list Q) :
  ~ Qsum l == 0 -> exists i, (i < List.length l)%nat /\ ~ nth i l 0 == 0.
Proof.
  induction l as [| x l IH]; intros H.
  - contradiction H; reflexivity.
  - destruct (Qeq_dec x 0) as [Hx | Hx].
    + destruct IH as [i [Hi Hnz]].
      * intros Hs. apply H. rewrite Qsum_cons, Hx, Hs. ring.
      * exists (S i); simpl; split; [lia | exact Hnz].
    + exists 0%nat; simpl; split; [lia | exact Hx].
Qed.

(** ** The weights handed to [random.choices]

    The library raises [ValueError] when the weights do not add up to a
    positive number.  The weights the optimizer passes are the result of
    [normalize_matrix] and add up to 1, so this never happens; the field
    [random_choices] of the runtime has no error case. *)

Lemma Qsum_map_const (c : Q) (l : list Q) :
  Qsum (map (fun _ => c) l) == inject_Z (Z.of_nat (List.length l)) * c.
Proof.
  induction l as [| x l IH].
  - unfold Qsum; simpl. ring.
  - cbn [map List.length]. rewrite Qsum_cons, IH, Nat2Z.inj_succ.
    unfold Z.succ. rewrite inject_Z_plus. ring.
Qed.

Lemma Qsum_map_div (t : Q) (l : list Q) :
  Qsum (map (fun x => x / t) l) == Qsum l / t.
Proof.
  induction l as [| x l IH].
  - unfold Qsum; simpl. unfold Qdiv. ring.
  - cbn [map]. rewrite !Qsum_cons, IH. unfold Qdiv. ring.
Qed.

Lemma normalize_matrix_total (w : list Q) :
  w <> [] -> Qsum (helper_functions.normalize_matrix w) == 1.
Proof.
  intros Hne. unfold helper_functions.normalize_matrix.
  destruct (Qeq_bool (Qsum w) 0) eqn:E.
  - rewrite Qsum_map_const.
    assert (Hn : ~ inject_Z (Z.of_nat (List.length w)) == 0).
    { destruct w as [| x w]; [contradiction Hne; reflexivity |].
      unfold Qeq; simpl. lia. }
    field. exact Hn.
  - apply Qeq_bool_false_iff in E. rewrite Qsum_map_div. field. exact E.
Qed.

(** ** The optimizer returns *)

Section OptimizerReturns.
Context {RT : Runtime}.
Import helper_functions CIACO.

Hypothesis sqrt_ok : sqrt_nonneg RT.
Hypothesis sample_ok : sample_in_range RT.
Hypothesis choices_ok : choices_fair RT.

Lemma euclidean_distance_nonneg (p q : Point) : 0 <= euclidean_distance p q.
Proof. unfold euclidean_distance; apply sqrt_ok. Qed.

Lemma legs_nonneg (stops : list Point) (acc : Q) : 0 <= acc -> 0 <= legs acc stops.
Proof.
  revert acc; induction stops as [| a stops IH]; intros acc Hacc; simpl; [exact Hacc |].
  destruct stops as [| b rest]; [exact Hacc |].
  apply IH. pose proof (euclidean_distance_nonneg a b). lra.
Qed.

Lemma total_route_distance_nonneg (stops : list Point) (rtd : bool) :
  0 <= total_route_distance stops rtd.
Proof.
  unfold total_route_distance. destruct stops as [| first rest]; [lra |].
  pose proof (legs_nonneg (first :: rest) 0 ltac:(lra)) as Hl.
  destruct (rtd && _); [| exact Hl].
  pose proof (euclidean_distance_nonneg (last (first :: rest) first) first). lra.
Qed.

Lemma visibility_returns (stops : list Point) :
  exists visibility, calculate_visibility_matrix stops = Ok visibility.
Proof.
  unfold calculate_visibility_matrix.
  destruct (for_each_returns (fun _ : Matrix => True)
              (seq 0 (List.length stops))
              (fun visibility i =>
                 for_each (seq 0 (List.length stops)) (fun visibility j =>
                   if Nat.eqb i j then Ok visibility
                   else
                     let distance := euclidean_distance (nth i stops (0, 0)%Q)
                                                        (nth j stops (0, 0)%Q) in
                     let* v := py_div 1 (distance + (1 # 1000000))%Q in
                     Ok (mset visibility i j v))
                   visibility)) with (a := mconst (List.length stops) 0)
    as [m [Hm _]]; [| exact I | exists m; exact Hm].
  intros a i _ _.
  destruct (for_each_returns (fun _ : Matrix => True) (seq 0 (List.length stops))
              (fun visibility j =>
                 if Nat.eqb i j then Ok visibility
                 else
                   let distance := euclidean_distance (nth i stops (0, 0)%Q)
                                                      (nth j stops (0, 0)%Q) in
                   let* v := py_div 1 (distance + (1 # 1000000))%Q in
                   Ok (mset visibility i j v))) with (a := a)
    as [m [Hm _]]; [| exact I | exists m; split; [exact Hm | exact I]].
  intros b j _ _. destruct (Nat.eqb i j); [exists b; split; [reflexivity | exact I] |].
  cbv zeta. rewrite py_div_pos.
  - simpl. eexists; split; [reflexivity | exact I].
  - pose proof (euclidean_distance_nonneg (nth i stops (0, 0)) (nth j stops (0, 0))).
    lra.
Qed.

(** *** Clustering *)

Lemma argmin_from_bound (l : list Q) :
  forall best besti i, (besti < i)%nat ->
    (argmin_from best besti i l < i + List.length l)%nat.
Proof.
  induction l as [| x l IH]; intros best besti i Hb; simpl; [lia |].
  destruct (Qltb x best).
  - specialize (IH x i (S i) ltac:(lia)). lia.
  - specialize (IH best besti (S i) ltac:(lia)). lia.
Qed.

Lemma argmin_returns (l : list Q) :
  l <> [] -> exists i, argmin l = Ok i /\ (i < List.length l)%nat.
Proof.
  destruct l as [| x l]; intros H; [contradiction H; reflexivity |].
  simpl. eexists; split; [reflexivity |].
  pose proof (argmin_from_bound l x 0%nat 1%nat ltac:(lia)). simpl; lia.
Qed.

(** Some cluster has a member. *)
Definition has_member (clusters : list (list nat)) : Prop :=
  exists c, In c clusters /\ c <> [].

Lemma append_at_returns (clusters : list (list nat)) (idx i : nat) :
  (idx < List.length clusters)%nat ->
  exists clusters', append_at clusters idx i = Ok clusters' /\
                    List.length clusters' = List.length clusters /\
                    has_member clusters'.
Proof.
  intros Hidx. unfold append_at.
  destruct (nth_error clusters idx) as [c |] eqn:E.
  - eexists; split; [reflexivity |]. split; [apply length_list_set |].
    exists (c ++ [i]); split.
    + assert (Hin : In (nth idx (list_set clusters idx (c ++ [i])) [])
                       (list_set clusters idx (c ++ [i]))).
      { apply nth_In. rewrite length_list_set; exact Hidx. }
      rewrite nth_list_set_same in Hin by exact Hidx. exact Hin.
    + destruct c; discriminate.
  - apply nth_error_None in E. lia.
Qed.

Lemma append_at_keeps_member (clusters clusters' : list (list nat)) (idx i : nat) :
  append_at clusters idx i = Ok clusters' -> has_member clusters'.
Proof.
  unfold append_at. destruct (nth_error clusters idx) as [c |] eqn:E; [| discriminate].
  intros H. assert (Hidx : (idx < List.length clusters)%nat).
  { apply nth_error_Some. congruence. }
  destruct (append_at_returns clusters idx i Hidx) as [cl [Hcl [_ Hm]]].
  unfold append_at in Hcl. rewrite E in Hcl. congruence.
Qed.

Lemma assign_points_returns (points centroids : list Point) (k : nat) :
  centroids <> [] -> (List.length centroids <= k)%nat ->
  exists clusters, assign_points points centroids k = Ok clusters /\
                   List.length clusters = k /\
                   (points <> [] -> has_member clusters).
Proof.
  intros Hne Hk. unfold assign_points.
  set (body := fun (clusters : list (list nat)) (ip : nat * Point) =>
                 let distances :=
                   map (fun centroid => euclidean_distance (snd ip) centroid) centroids in
                 let* cluster_idx := argmin distances in
                 append_at clusters cluster_idx (fst ip)).
  assert (Hbody : forall a x, List.length a = k ->
             exists a', body a x = Ok a' /\ List.length a' = k /\ has_member a').
  { intros a x Ha. unfold body. cbv zeta.
    destruct (argmin_returns
                (map (fun centroid => euclidean_distance (snd x) centroid) centroids))
      as [idx [Hidx Hlt]].
    { destruct centroids; [contradiction Hne; reflexivity | discriminate]. }
    rewrite Hidx; simpl. rewrite length_map in Hlt.
    destruct (append_at_returns a idx (fst x)) as [a' [Ha' [Hlen Hm]]]; [lia |].
    exists a'; split; [exact Ha' |]. split; [congruence | exact Hm]. }
  destruct (combine (seq 0 (List.length points)) points) as [| x l] eqn:El.
  - simpl. eexists; split; [reflexivity |]. split; [apply repeat_length |].
    intros Hp. destruct points; [contradiction Hp; reflexivity | discriminate El].
  - simpl. destruct (Hbody (repeat [] k) x (repeat_length _ _)) as [a1 [H1 [Hl1 Hm1]]].
    rewrite H1; simpl.
    destruct (for_each_returns (fun a => List.length a = k /\ has_member a) l body)
      with (a := a1) as [a' [Ha' [Hl' Hm']]].
    + intros a y _ [Ha _]. destruct (Hbody a y Ha) as [a' [E1 [E2 E3]]].
      exists a'; repeat split; assumption.
    + split; assumption.
    + exists a'; split; [exact Ha' |]. split; [exact Hl' | intros _; exact Hm'].
Qed.

Lemma update_centroids_length (points : list Point) (clusters : list (list nat)) :
  (List.length (update_centroids points clusters) <= List.length clusters)%nat /\
  (has_member clusters -> update_centroids points clusters <> []).
Proof.
  unfold update_centroids. induction clusters as [| c clusters [IH1 IH2]]; simpl.
  - split; [lia |]. intros [c [[] _]].
  - split.
    + rewrite length_app. destruct c; simpl; lia.
    + intros [c' [[<- | Hin] Hc']].
      * destruct c; [contradiction Hc'; reflexivity | discriminate].
      * intros Hnil. apply app_eq_nil in Hnil. destruct Hnil as [_ Hnil].
        apply IH2; [exists c'; split; assumption | exact Hnil].
Qed.

Lemma kmeans_returns (points : list Point) (k : nat) :
  points <> [] ->
  forall more centroids,
    centroids <> [] -> (List.length centroids <= k)%nat ->
    exists clusters, kmeans more points centroids k = Ok clusters.
Proof.
  intros Hp; induction more as [| more IH]; intros centroids Hne Hk; simpl;
    destruct (assign_points_returns points centroids k Hne Hk) as [cl [Hcl [Hlen Hm]]];
    rewrite Hcl; simpl;
    destruct (_ && _); try (eexists; reflexivity).
  destruct (update_centroids_length points cl) as [H1 H2].
  apply IH; [apply H2; apply Hm; exact Hp | lia].
Qed.

Lemma take_rows_returns (points : list Point) (sample : list nat) :
  Forall (fun i => (i < List.length points)%nat) sample ->
  exists rows, take_rows points sample = Ok rows /\
               List.length rows = List.length sample.
Proof.
  induction sample as [| i rest IH]; intros H; simpl.
  - exists []; split; reflexivity.
  - inversion H as [| ? ? Hi Hrest]; subst.
    destruct (nth_error points i) as [p |] eqn:E.
    + destruct (IH Hrest) as [rows [Hrows Hlen]]. rewrite Hrows; simpl.
      eexists; split; [reflexivity | simpl; congruence].
    + apply nth_error_None in E. lia.
Qed.

Lemma cluster_stops_returns (self : t) (g : Rng) (points : list Point) :
  stops self = Some points -> points <> [] -> (0 < num_clusters self)%Z ->
  exists cg, _cluster_stops self g = Ok cg.
Proof.
  intros Hs Hp Hk. unfold _cluster_stops. rewrite Hs.
  destruct (Z.of_nat (List.length points) <=? num_clusters self)%Z eqn:E;
    [eexists; reflexivity |].
  apply Z.leb_gt in E. cbv zeta.
  destruct (sample_ok g (List.length points) (Z.to_nat (num_clusters self)) ltac:(lia))
    as [Hlen Hrange].
  destruct (take_rows_returns points _ Hrange) as [rows [Hrows Hl]].
  rewrite Hrows; cbn [bind].
  destruct (kmeans_returns points (Z.to_nat (num_clusters self)) Hp 99 rows)
    as [cl Hcl].
  - intros ->. simpl in Hl. rewrite Hlen in Hl. lia.
  - rewrite Hl, Hlen. lia.
  - rewrite Hcl; cbn [bind]. eexists; reflexivity.
Qed.

(** *** One selection *)

Lemma select_hits (w : list Q) (unvisited : list nat) (k : nat) :
  forall g,
    In (fst (random_choices (redraw k g w) w)) unvisited ->
    exists draw, In (fst draw) unvisited /\
                 forall fuel, (k <= fuel)%nat -> select fuel g w unvisited = Ok draw.
Proof.
  induction k as [| k IH]; intros g Hin.
  - simpl in Hin. exists (random_choices g w); split; [exact Hin |].
    intros fuel _. apply existsb_eqb_In in Hin.
    destruct fuel; simpl; rewrite Hin; reflexivity.
  - destruct (existsb (Nat.eqb (fst (random_choices g w))) unvisited) eqn:E.
    + exists (random_choices g w); split; [apply existsb_eqb_In; exact E |].
      intros fuel _. destruct fuel; simpl; rewrite E; reflexivity.
    + simpl in Hin. destruct (IH _ Hin) as [draw [Hd Hfuel]].
      exists draw; split; [exact Hd |].
      intros fuel Hle. destruct fuel as [| fuel]; [lia |].
      simpl. rewrite E. apply Hfuel. lia.
Qed.

Lemma select_settles (g : Rng) (w : list Q) (unvisited : list nat) :
  (exists i, In i unvisited /\ ~ nth i w 0 == 0) ->
  settles (fun draw => In (fst draw) unvisited) (fun fuel => select fuel g w unvisited).
Proof.
  intros Hsupport. destruct (choices_ok g w unvisited Hsupport) as [k Hk].
  destruct (select_hits w unvisited k g Hk) as [draw [Hd Hfuel]].
  exists k, draw; split; assumption.
Qed.

Lemma nth_fold_list_set (f : nat -> Q) (l : list nat) :
  forall (init : list Q) (i : nat),
    ~ In i l ->
    nth i (fold_left (fun acc j => list_set acc j (f j)) l init) 0 = nth i init 0.
Proof.
  induction l as [| j l IH]; intros init i Hnot; simpl; [reflexivity |].
  rewrite IH by (intros H; apply Hnot; right; exact H).
  apply nth_list_set_other. intros ->. apply Hnot; left; reflexivity.
Qed.

Lemma length_fold_list_set (f : nat -> Q) (l : list nat) :
  forall init : list Q,
    List.length (fold_left (fun acc j => list_set acc j (f j)) l init) = List.length init.
Proof.
  induction l as [| j l IH]; intros init; simpl; [reflexivity |].
  rewrite IH. apply length_list_set.
Qed.

Lemma selection_weights_outside ph vis a b n current unvisited i :
  ~ In i unvisited -> nth i (selection_weights ph vis a b n current unvisited) 0 = 0.
Proof.
  intros Hnot. unfold selection_weights.
  rewrite (nth_fold_list_set
             (fun j => fpow (mget ph current j) a * fpow (mget vis current j) b))
    by exact Hnot.
  destruct (Nat.lt_ge_cases i n) as [Hlt | Hge].
  - apply nth_repeat_lt; exact Hlt.
  - apply nth_overflow. rewrite repeat_length; exact Hge.
Qed.

Lemma selection_weights_length ph vis a b n current unvisited :
  List.length (selection_weights ph vis a b n current unvisited) = n.
Proof.
  unfold selection_weights.
  rewrite (length_fold_list_set
             (fun j => fpow (mget ph current j) a * fpow (mget vis current j) b)).
  apply repeat_length.
Qed.

Lemma nth_map_in_range (f : Q -> Q) (l : list Q) (i : nat) (d d' : Q) :
  (i < List.length l)%nat -> nth i (map f l) d = f (nth i l d').
Proof.
  intros Hi. rewrite (nth_indep _ d (f d')) by (rewrite length_map; exact Hi).
  apply map_nth.
Qed.

(** After normalisation some unvisited position has a non-zero weight. *)
Lemma normalize_support (w : list Q) (unvisited : list nat) :
  unvisited <> [] ->
  (forall i, In i unvisited -> (i < List.length w)%nat) ->
  (forall i, ~ In i unvisited -> nth i w 0 = 0) ->
  exists i, In i unvisited /\ ~ nth i (normalize_matrix w) 0 == 0.
Proof.
  intros Hne Hrange Hout. unfold normalize_matrix.
  destruct (Qeq_bool (Qsum w) 0) eqn:E.
  - destruct unvisited as [| u us]; [contradiction Hne; reflexivity |].
    exists u; split; [left; reflexivity |].
    assert (Hu : (u < List.length w)%nat) by (apply Hrange; left; reflexivity).
    rewrite (nth_map_in_range _ w u 0 0 Hu).
    assert (Hn : 0 < inject_Z (Z.of_nat (List.length w))).
    { unfold Qlt; simpl. lia. }
    intros H0. apply (Qmult_inj_r _ _ (inject_Z (Z.of_nat (List.length w)))) in H0.
    + field_simplify in H0; lra.
    + lra.
  - apply Qeq_bool_false_iff in E.
    destruct (Qsum_nonzero w E) as [i [Hi Hnz]].
    exists i; split.
    + destruct (in_dec Nat.eq_dec i unvisited) as [Hin | Hnot]; [exact Hin |].
      rewrite (Hout i Hnot) in Hnz. contradiction Hnz; reflexivity.
    + rewrite (nth_map_in_range _ w i 0 0 Hi). intros H0. apply Hnz.
      apply (Qmult_inj_r _ _ (/ Qsum w)).
      * intros Hinv. apply E. rewrite <- (Qinv_involutive (Qsum w)), Hinv. reflexivity.
      * rewrite Qmult_0_l. exact H0.
Qed.

(** *** One ant *)

Lemma remove_first_length (x : nat) (l : list nat) :
  In x l -> S (List.length (remove_first x l)) = List.length l.
Proof.
  intros Hin. apply remove_first_perm in Hin.
  apply Permutation_length in Hin. simpl in Hin. lia.
Qed.

Lemma remove_first_subset (x i : nat) (l : list nat) :
  In i (remove_first x l) -> In i l.
Proof.
  induction l as [| y l IH]; simpl; [tauto |].
  destruct (Nat.eqb y x); simpl; tauto.
Qed.

Lemma visit_settles points ph vis a b :
  forall passes g current unvisited route,
    (List.length unvisited <= passes)%nat ->
    (forall i, In i unvisited -> (i < List.length points)%nat) ->
    settles (fun _ => True)
      (fun fuel => visit passes fuel points ph vis a b g current unvisited route).
Proof.
  induction passes as [| passes IH]; intros g current unvisited route Hlen Hrange.
  - destruct unvisited as [| u us]; [| simpl in Hlen; lia].
    apply settles_ret with (a := (route, g)); [exact I | reflexivity].
  - destruct unvisited as [| u us].
    { apply settles_ret with (a := (route, g)); [exact I | reflexivity]. }
    set (w := normalize_matrix
                (selection_weights ph vis a b (List.length points) current (u :: us))).
    apply settles_ext with
      (f := fun fuel =>
              bind (select fuel g w (u :: us))
                   (fun draw =>
                      visit passes fuel points ph vis a b (snd draw) (fst draw)
                            (remove_first (fst draw) (u :: us))
                            (route ++ [nth (fst draw) points (0, 0)])));
      [reflexivity |].
    apply settles_bind with (P := fun draw => In (fst draw) (u :: us)).
    + apply select_settles. apply normalize_support.
      * discriminate.
      * intros i Hi. rewrite selection_weights_length. apply Hrange; exact Hi.
      * intros i Hi. apply selection_weights_outside; exact Hi.
    + intros draw Hd. apply IH.
      * pose proof (remove_first_length _ _ Hd) as Hl.
        change (List.length (u :: us)) with (S (List.length us)) in Hl, Hlen. lia.
      * intros i Hi. apply Hrange. eapply remove_first_subset; exact Hi.
Qed.

(** The optimizer holds the stops and both matrices. *)
Definition ready (points : list Point) (self : t) : Prop :=
  stops self = Some points /\ pheromone_matrix self <> None /\
  visibility_matrix self <> None.

Lemma settles_result {A : Type} (P Q : A -> Prop) (f : nat -> outcome A) :
  (forall fuel a, f fuel = Ok a -> Q a) -> settles P f -> settles Q f.
Proof.
  intros HQ [f0 [a [_ Hf]]]. exists f0, a; split; [| exact Hf].
  apply (HQ f0). apply Hf. lia.
Qed.

Lemma construct_settles (points : list Point) (self : t) (g : Rng) :
  ready points self -> points <> [] ->
  settles (fun rg => is_tour points (return_to_depot self) (fst rg))
          (fun fuel => _construct_solution self g fuel).
Proof.
  intros [Hs [Hp Hv]] Hne.
  apply settles_result with (P := fun _ : list Point * Rng => True).
  { intros fuel [r g'] H. eapply construct_is_tour; eassumption. }
  unfold _construct_solution. rewrite Hs.
  destruct (pheromone_matrix self) as [ph |]; [| contradiction Hp; reflexivity].
  destruct (visibility_matrix self) as [vis |]; [| contradiction Hv; reflexivity].
  apply settles_bind with (P := fun _ : list Point * Rng => True).
  - apply visit_settles; [lia |].
    intros i Hi. apply in_seq in Hi. lia.
  - intros rg _. destruct (return_to_depot self);
      eapply settles_ret; [exact I | reflexivity | exact I | reflexivity].
Qed.

(** *** The pheromone update *)

Lemma index_of_returns (points : list Point) (p : Point) :
  In p points -> exists i, index_of points p = Ok i.
Proof.
  unfold index_of. generalize 0%nat.
  induction points as [| q points IH]; intros n Hin; simpl; [contradiction |].
  destruct (point_eqb q p) eqn:E; [eexists; reflexivity |].
  destruct Hin as [-> | Hin]; [rewrite point_eqb_refl in E; discriminate |].
  apply IH; exact Hin.
Qed.

Lemma deposit_returns (points route : list Point) (c : Q) :
  (forall p, In p route -> In p points) ->
  forall m, exists m', deposit points route c m = Ok m'.
Proof.
  induction route as [| p route IH]; intros Hin m; simpl; [eexists; reflexivity |].
  destruct route as [| q rest]; [eexists; reflexivity |].
  destruct (index_of_returns points p) as [i Hi]; [apply Hin; left; reflexivity |].
  destruct (index_of_returns points q) as [j Hj];
    [apply Hin; right; left; reflexivity |].
  rewrite Hi; cbn [bind]. rewrite Hj; cbn [bind].
  apply IH. intros x Hx. apply Hin. right; exact Hx.
Qed.

Lemma is_tour_in (points : list Point) (rtd : bool) (route : list Point) :
  is_tour points rtd route -> forall p, In p route -> In p points.
Proof.
  destruct points as [| depot others]; simpl; [contradiction |].
  intros [rest [Hperm ->]] p [<- | Hin]; [left; reflexivity |].
  apply in_app_or in Hin. destruct Hin as [Hin | Hin].
  - right. eapply Permutation_in; eassumption.
  - destruct rtd; simpl in Hin; [| contradiction].
    destruct Hin as [<- | []]. left; reflexivity.
Qed.

(** The routes and lengths collected during one round. *)
Definition collected (points : list Point) (routes : list (list Point)) (dists : list Q)
  : Prop :=
  Forall (fun r => forall p, In p r -> In p points) routes /\
  Forall (fun d => 0 <= d) dists.

Lemma nth_nonneg (dists : list Q) (i : nat) :
  Forall (fun d => 0 <= d) dists -> 0 <= nth i dists 0.
Proof.
  intros H. destruct (Nat.lt_ge_cases i (List.length dists)) as [Hlt | Hge].
  - rewrite Forall_forall in H. apply H. apply nth_In; exact Hlt.
  - rewrite nth_overflow by exact Hge. lra.
Qed.

Lemma update_pheromones_returns (points : list Point) (self : t)
    (routes : list (list Point)) (dists : list Q) :
  ready points self -> collected points routes dists -> dists <> [] ->
  exists self', _update_pheromones self routes dists = Ok self' /\ ready points self'.
Proof.
  intros [Hs [Hp Hv]] [Hroutes Hdists] Hne. unfold _update_pheromones. rewrite Hs.
  destruct (pheromone_matrix self) as [ph |] eqn:Eph; [| contradiction Hp; reflexivity].
  destruct (argmin_returns dists Hne) as [idx [Hidx _]]. rewrite Hidx; cbn [bind].
  destruct (for_each_returns (fun _ : Matrix => True) (combine routes dists)
              (fun m rd =>
                 let* contribution := py_div 1 (snd rd + (1 # 10000000000)) in
                 deposit points (fst rd) contribution m))
    with (a := map (map (fun x => x * (1 - evaporation_rate self))) ph)
    as [m [Hm _]]; [| exact I |].
  { intros a [r d] Hin _. simpl.
    assert (Hr : forall p, In p r -> In p points).
    { rewrite Forall_forall in Hroutes. apply Hroutes.
      eapply in_combine_l; exact Hin. }
    assert (Hd : 0 <= d).
    { rewrite Forall_forall in Hdists. apply Hdists.
      eapply in_combine_r; exact Hin. }
    rewrite py_div_pos by lra. cbn [bind].
    destruct (deposit_returns points r (1 / (d + (1 # 10000000000))) Hr a) as [m' Hm'].
    exists m'; split; [exact Hm' | exact I]. }
  rewrite Hm; cbn [bind].
  pose proof (nth_nonneg dists idx Hdists) as Hbest.
  rewrite py_div_pos by lra. cbn [bind].
  destruct (deposit_returns points (nth idx routes [])
              (elitist_factor self / (nth idx dists 0 + (1 # 10000000000)))) with (m := m)
    as [m' Hm'].
  { destruct (Nat.lt_ge_cases idx (List.length routes)) as [Hlt | Hge].
    - rewrite Forall_forall in Hroutes. apply Hroutes. apply nth_In; exact Hlt.
    - rewrite nth_overflow by exact Hge. intros p []. }
  rewrite Hm'; cbn [bind]. eexists; split; [reflexivity |].
  split; [exact Hs |]. split; [discriminate | exact Hv].
Qed.

(** *** Rounds *)

Lemma ants_settle (points : list Point) :
  points <> [] ->
  forall k self g routes dists,
    ready points self -> collected points routes dists ->
    settles (fun r => let '(self', _, routes', dists') := r in
                      ready points self' /\ collected points routes' dists' /\
                      List.length dists' = (List.length dists + k)%nat /\
                      num_ants self' = num_ants self /\
                      iterations self' = iterations self)
            (fun fuel => ants k fuel self g routes dists).
Proof.
  intros Hne; induction k as [| k IH]; intros self g routes dists Hready Hcol.
  - apply settles_ret with (a := (self, g, routes, dists)); [| reflexivity].
    split; [exact Hready |]. split; [exact Hcol |].
    split; [lia | split; reflexivity].
  - apply settles_ext with
      (f := fun fuel =>
              bind (_construct_solution self g fuel)
                   (fun rg =>
                      ants k fuel
                        (if xlt (total_route_distance (fst rg) (return_to_depot self))
                                (best_distance self)
                         then set_best self (Some (fst rg))
                                (Fin (total_route_distance (fst rg) (return_to_depot self)))
                         else self)
                        (snd rg) (routes ++ [fst rg])
                        (dists ++ [total_route_distance (fst rg) (return_to_depot self)])));
      [reflexivity |].
    eapply settles_bind; [apply construct_settles; eassumption |].
    intros [route g1] Htour; simpl in Htour; simpl fst; simpl snd.
    set (self1 := if xlt _ _ then _ else self).
    assert (H1 : ready points self1 /\ num_ants self1 = num_ants self
                 /\ iterations self1 = iterations self).
    { unfold self1; destruct (xlt _ _); repeat split; try reflexivity; apply Hready. }
    destruct H1 as [Hready1 [Hn1 Hi1]].
    eapply settles_weaken; [| apply IH; [exact Hready1 |]].
    + intros [[[self' g'] routes'] dists'] [Hr [Hc [Hl [Hn Hi]]]].
      split; [exact Hr |]. split; [exact Hc |].
      split; [rewrite Hl, length_app; simpl; lia | split; congruence].
    + destruct Hcol as [Hroutes Hdists]. split.
      * apply Forall_app; split; [exact Hroutes |].
        constructor; [| constructor]. apply is_tour_in with (rtd := return_to_depot self).
        exact Htour.
      * apply Forall_app; split; [exact Hdists |].
        constructor; [| constructor]. apply total_route_distance_nonneg.
Qed.

Lemma rounds_settle (points : list Point) :
  points <> [] ->
  forall k self g,
    ready points self -> (0 < num_ants self)%Z ->
    settles (fun _ => True) (fun fuel => rounds k fuel self g).
Proof.
  intros Hne; induction k as [| k IH]; intros self g Hready Hants.
  - apply settles_ret with (a := (self, g)); [exact I | reflexivity].
  - apply settles_ext with
      (f := fun fuel =>
              bind (ants (Z.to_nat (num_ants self)) fuel self g [] [])
                   (fun r =>
                      let '(self1, g1, ant_routes, ant_distances) := r in
                      let* self2 := _update_pheromones self1 ant_routes ant_distances in
                      rounds k fuel self2 g1));
      [reflexivity |].
    eapply settles_bind.
    + apply ants_settle; [exact Hne | exact Hready |].
      split; constructor.
    + intros [[[self1 g1] rs] ds] [Hready1 [Hcol [Hlen [Hn _]]]].
      destruct (update_pheromones_returns points self1 rs ds Hready1 Hcol)
        as [self2 [Hu Hready2]].
      { intros ->. simpl in Hlen. lia. }
      apply settles_ext with (f := fun fuel => rounds k fuel self2 g1).
      * intros fuel. rewrite Hu. reflexivity.
      * apply IH; [exact Hready2 |].
        destruct (update_pheromones_fields _ _ _ _ Hu) as [_ [_ [_ [_ [Hn2 _]]]]].
        rewrite Hn2, Hn. exact Hants.
Qed.

Lemma prepare_returns (self : t) (stops : list Point) (g : Rng) :
  stops <> [] -> (0 < num_clusters self)%Z ->
  exists sg, prepare self stops g = Ok sg.
Proof.
  intros Hne Hk. unfold prepare.
  destruct (visibility_returns stops) as [vis Hvis]. rewrite Hvis; cbn [bind].
  set (self3 := set_visibility_matrix _ (Some vis)).
  destruct (cluster_stops_returns self3 g stops eq_refl Hne Hk) as [cg Hcg].
  rewrite Hcg; cbn [bind].
  unfold _initialize_pheromones, self3.
  cbn [CIACO.stops CIACO.clusters set_clusters set_visibility_matrix
       set_distance_matrix set_stops bind].
  eexists; reflexivity.
Qed.

Lemma optimize_route_settles (self : t) (stops : list Point) (g : Rng) :
  stops <> [] -> (0 < num_ants self)%Z -> (0 < num_clusters self)%Z ->
  settles (fun _ => True) (fun fuel => optimize_route self stops g fuel).
Proof.
  intros Hne Hants Hk. unfold optimize_route.
  destruct stops as [| depot others] eqn:Est; [contradiction Hne; reflexivity |].
  rewrite <- Est in *. clear Hne.
  assert (Hne : stops <> []) by (rewrite Est; discriminate).
  destruct (List.length stops <=? 2)%nat.
  { apply settles_ret with (a := (Some stops, self, g)); [exact I | reflexivity]. }
  destruct (prepare_returns self stops g Hne Hk) as [[self5 g5] Hprep].
  rewrite Hprep; cbn [bind fst snd].
  destruct (prepare_fields _ _ _ _ _ Hprep) as [Hs [Hp [Hv [_ [_ [_ [Hn _]]]]]]].
  eapply settles_bind.
  - apply (rounds_settle stops Hne); [| rewrite Hn; exact Hants].
    split; [exact Hs |]. split; assumption.
  - intros r _. eapply settles_ret; [exact I | reflexivity].
Qed.

End OptimizerReturns.

(** ** Routes are tours of the stops *)

(** [route] is a permutation of [stops] that starts at the depot, followed
    by the depot once more when [return_to_depot] holds. *)
Definition tour_of (stops : list Point) (return_to_depot : bool) (route : list Point)
  : Prop :=
  exists tour,
    Permutation tour stops /\
    hd_error tour = hd_error stops /\
    route = tour ++ (if return_to_depot then firstn 1 stops else []).

Lemma is_tour_tour_of (stops : list Point) (rtd : bool) (route : list Point) :
  is_tour stops rtd route -> tour_of stops rtd route.
Proof.
  destruct stops as [| depot others]; simpl; [contradiction |].
  intros [rest [Hperm ->]]. exists (depot :: rest). split; [| split].
  - constructor; exact Hperm.
  - reflexivity.
  - reflexivity.
Qed.

(** The stops are pairwise distinct. *)
Fixpoint distinct (l : list Point) : bool :=
  match l with
  | [] => true
  | p :: rest => negb (existsb (point_eqb p) rest) && distinct rest
  end.

Lemma init_fields num_ants iterations alpha beta evaporation_rate initial_pheromone
    return_to_depot num_clusters elitist_factor self :
  CIACO.__init__ num_ants iterations alpha beta evaporation_rate initial_pheromone
                 return_to_depot num_clusters elitist_factor = Ok self ->
  self = CIACO.mk num_ants iterations alpha beta evaporation_rate initial_pheromone
                  return_to_depot num_clusters elitist_factor
                  None None None None Inf None None /\
  (0 < num_ants)%Z /\ (0 < iterations)%Z /\ (0 < num_clusters)%Z /\
  0 <= alpha /\ 0 <= beta /\ 0 <= evaporation_rate <= 1 /\
  0 < initial_pheromone /\ 1 <= elitist_factor.
Proof.
  unfold CIACO.__init__.
  destruct (num_ants <=? 0)%Z eqn:E1; [discriminate |].
  destruct (iterations <=? 0)%Z eqn:E2; [discriminate |].
  destruct (Qltb alpha 0) eqn:E3; [discriminate |].
  destruct (Qltb beta 0) eqn:E4; [discriminate |].
  destruct (Qle_bool 0 evaporation_rate && Qle_bool evaporation_rate 1) eqn:E5;
    [| discriminate].
  destruct (Qle_bool initial_pheromone 0) eqn:E6; [discriminate |].
  destruct (num_clusters <=? 0)%Z eqn:E7; [discriminate |].
  destruct (Qltb elitist_factor 1) eqn:E8; [discriminate |].
  simpl. intros H; inversion H; subst; clear H.
  apply Z.leb_gt in E1, E2, E7.
  apply Qltb_false_iff in E3, E4, E8.
  apply andb_prop in E5; destruct E5 as [E5 E5'].
  apply Qle_bool_iff in E5, E5'.
  assert (0 < initial_pheromone).
  { apply Qnot_le_lt. intros Hle. apply Qle_bool_iff in Hle. congruence. }
  repeat split; assumption.
Qed.

Section ConfigurationIsKept.
Context {RT : Runtime}.
Import CIACO.

Lemma ants_return_to_depot k fuel :
  forall self g routes dists self' g' routes' dists',
    ants k fuel self g routes dists = Ok (self', g', routes', dists') ->
    return_to_depot self' = return_to_depot self.
Proof.
  induction k as [| k IH]; intros self g routes dists self' g' routes' dists' H;
    simpl in H.
  - inversion H; reflexivity.
  - apply bind_Ok in H; destruct H as [rg [_ H]].
    apply IH in H. rewrite H. destruct (xlt _ _); reflexivity.
Qed.

Lemma rounds_return_to_depot k fuel :
  forall self g self' g',
    rounds k fuel self g = Ok (self', g') ->
    return_to_depot self' = return_to_depot self.
Proof.
  induction k as [| k IH]; intros self g self' g' H; simpl in H.
  - inversion H; reflexivity.
  - apply bind_Ok in H; destruct H as [[[[self1 g1] rs] ds] [Ha H]].
    apply bind_Ok in H; destruct H as [self2 [Hu H]].
    apply IH in H. apply ants_return_to_depot in Ha.
    destruct (update_pheromones_fields _ _ _ _ Hu) as [_ [_ [_ [Hr _]]]].
    congruence.
Qed.

End ConfigurationIsKept.

(** ** The concrete runtime obeys the library contracts *)

Module ConcreteFacts.
Import Concrete.

Lemma sqrt_exact_nonneg : sqrt_nonneg runtime.
Proof.
  intros x. unfold sqrt; simpl. unfold sqrt_exact, Qle; simpl.
  pose proof (Z.sqrt_nonneg (Qnum x * Z.pos (Qden x))). lia.
Qed.

Lemma sample_range : sample_in_range runtime.
Proof.
  intros g n k Hk. simpl. split.
  - rewrite length_firstn, length_seq. lia.
  - apply Forall_forall. intros i Hi.
    assert (Hin : In i (seq 0 n)).
    { rewrite <- (firstn_skipn k (seq 0 n)). apply in_or_app; left; exact Hi. }
    apply in_seq in Hin. lia.
Qed.

Lemma redraw_counter (k : nat) (w : list Q) :
  forall g : nat, redraw k (g : Rng) w = (g + k)%nat.
Proof.
  induction k as [| k IH]; intros g; simpl.
  - lia.
  - rewrite IH. lia.
Qed.

Lemma support_spec (w : list Q) (i : nat) :
  In i (support w) <-> ~ nth i w 0 == 0.
Proof.
  unfold support. rewrite filter_In, in_seq, negb_true_iff, Qeq_bool_false_iff.
  split; [tauto |]. intros H. split; [| exact H].
  split; [lia |]. simpl.
  destruct (Nat.lt_ge_cases i (List.length w)) as [Hlt | Hge]; [exact Hlt |].
  rewrite nth_overflow in H by exact Hge. contradiction H; reflexivity.
Qed.

Lemma round_robin_fair : choices_fair runtime.
Proof.
  intros g w target [i [Hin Hnz]].
  apply support_spec in Hnz.
  destruct (In_nth _ _ 0%nat Hnz) as [p [Hp Hnth]].
  set (m := List.length (support w)) in *.
  exists (p + (m - g mod m))%nat.
  rewrite redraw_counter. simpl. unfold choices; simpl. fold m.
  replace ((g + (p + (m - g mod m))) mod m)%nat with p; [rewrite Hnth; exact Hin |].
  assert (Hm : (m <> 0)%nat) by lia.
  pose proof (Nat.mod_upper_bound g m Hm) as Hb.
  pose proof (Nat.div_mod_eq g m) as Hg.
  apply Nat.mod_unique with (q := S (g / m)); [exact Hp |]. nia.
Qed.

End ConcreteFacts.

(** A fresh optimizer returns a tour of its stops, if it returns. *)
Lemma fresh_optimize_route_is_tour {RT : Runtime}
    (num_ants iterations : Z) (alpha beta evaporation_rate initial_pheromone : Q)
    (return_to_depot : bool) (num_clusters : Z) (elitist_factor : Q)
    (stops : list Point) (g : Rng) (fuel : nat)
    (r : option (list Point)) (self' : CIACO.t) (g' : Rng) :
  (0 < num_ants)%Z -> (0 < iterations)%Z -> (2 < List.length stops)%nat ->
  CIACO.optimize_route
    (CIACO.mk num_ants iterations alpha beta evaporation_rate
       initial_pheromone return_to_depot num_clusters elitist_factor
       None None None None Inf None None) stops g fuel
  = Ok (r, self', g') ->
  exists route, r = Some route /\ tour_of stops return_to_depot route.
Proof.
  intros Hants Hiter Hlen H.
  assert (Hne : stops <> []) by (intros ->; simpl in Hlen; lia).
  unfold CIACO.optimize_route in H.
  destruct stops as [| depot others] eqn:Est; [contradiction Hne; reflexivity |].
  rewrite <- Est in *.
  destruct (Nat.leb_spec (List.length stops) 2) as [Hle | _]; [lia |].
  apply bind_Ok in H; destruct H as [[self5 g5] [Hprep H]].
  apply bind_Ok in H; destruct H as [[self6 g6] [Hr H]].
  inversion H; subst r self' g'; clear H. simpl fst in *. simpl snd in *.
  destruct (prepare_fields _ _ _ _ _ Hprep)
    as [Hs [_ [_ [Hbr [Hbd [Hrtd [Hn Hi]]]]]]].
  simpl in Hbr, Hbd, Hrtd, Hn, Hi.
  pose proof Hr as Hr0. apply rounds_return_to_depot in Hr0.
  apply rounds_best_is_tour with (points := stops) in Hr.
  - destruct Hr as [[_ Hbest] Hsome].
    destruct (CIACO.best_route self6) as [route |] eqn:Eb.
    + exists route; split; [reflexivity |]. apply is_tour_tour_of.
      rewrite <- Hrtd, <- Hr0. exact Hbest.
    + exfalso. apply Hsome; [| reflexivity]. left. rewrite Hi. lia.
  - exact Hne.
  - split; [exact Hs |]. rewrite Hbr, Hbd. reflexivity.
  - rewrite Hn. exact Hants.
Qed.

(** C1.  Take an optimizer as the constructor builds it and a list of more
    than two pairwise distinct stops.  Whenever [optimize_route] returns, the
    value is a route that is a permutation of the stops starting at the
    depot (the stop at position 0), with the depot appended once more when
    [return_to_depot] is set.  And it does return: with a square root that
    is never negative, a [random.sample] that yields positions of the
    population and a [random.choices] that is fair, the rejection loops end,
    so that from some amount of fuel on the call returns one such route. *)
Theorem optimize_route_is_tour {RT : Runtime}
    (num_ants iterations : Z) (alpha beta evaporation_rate initial_pheromone : Q)
    (return_to_depot : bool) (num_clusters : Z) (elitist_factor : Q)
    (self : CIACO.t) (stops : list Point) :
  CIACO.__init__ num_ants iterations alpha beta evaporation_rate initial_pheromone
                 return_to_depot num_clusters elitist_factor = Ok self ->
  distinct stops = true ->
  (2 < List.length stops)%nat ->
  (forall g fuel r self' g',
      CIACO.optimize_route self stops g fuel = Ok (r, self', g') ->
      exists route, r = Some route /\ tour_of stops return_to_depot route) /\
  (sqrt_nonneg RT -> sample_in_range RT -> choices_fair RT ->
   forall g,
     settles (fun res => exists route,
                fst (fst res) = Some route /\ tour_of stops return_to_depot route)
             (fun fuel => CIACO.optimize_route self stops g fuel)).
Proof.
  intros Hinit _ Hlen.
  destruct (init_fields _ _ _ _ _ _ _ _ _ _ Hinit)
    as [-> [Hants [Hiter [Hk _]]]].
  assert (Hne : stops <> []) by (intros ->; simpl in Hlen; lia).
  split.
  - intros g fuel r self' g' H.
    eapply fresh_optimize_route_is_tour; [| | | exact H]; assumption.
  - intros Hsqrt Hsample Hfair g.
    eapply settles_result; [| apply optimize_route_settles; assumption].
    intros fuel [[r self'] g'] H. simpl.
    eapply fresh_optimize_route_is_tour; [| | | exact H]; assumption.
Qed.

(** The theorem at the corners of a 3 x 4 rectangle, on the concrete
    runtime, with two ants and two rounds. *)
Lemma optimize_route_is_tour_witness :
  let stops : list Point := [(0, 0); (3, 0); (3, 4); (0, 4)] in
  let self := CIACO.mk 2 2 1 2 (1 # 10) 1 true 3 2 None None None None Inf None None in
  CIACO.__init__ 2 2 1 2 (1 # 10) 1 true 3 2 = Ok self /\
  distinct stops = true /\
  (2 < List.length stops)%nat /\
  (forall g fuel r self' g',
      CIACO.optimize_route (RT := Concrete.runtime) self stops g fuel = Ok (r, self', g') ->
      exists route, r = Some route /\ tour_of stops true route) /\
  (forall g,
     settles (fun res => exists route,
                fst (fst res) = Some route /\ tour_of stops true route)
             (fun fuel => CIACO.optimize_route (RT := Concrete.runtime) self stops g fuel)).
Proof.
  intros stops self.
  split; [reflexivity |]. split; [reflexivity |]. split; [simpl; lia |].
  destruct (optimize_route_is_tour (RT := Concrete.runtime) 2 2 1 2 (1 # 10) 1 true 3 2
              self stops) as [Hpartial Htotal];
    [reflexivity | reflexivity | simpl; lia |].
  split; [exact Hpartial |].
  apply Htotal.
  - exact ConcreteFacts.sqrt_exact_nonneg.
  - exact ConcreteFacts.sample_range.
  - exact ConcreteFacts.round_robin_fair.
Defined.

(** ** Dictionaries *)

Lemma dict_get_set_same {V : Type} (d : dict V) (k : string) (v : V) :
  dict_get (dict_set d k v) k = Some v.
Proof.
  induction d as [| [k' v'] d IH]; simpl.
  - rewrite String.eqb_refl; reflexivity.
  - destruct (String.eqb k' k) eqn:E; simpl; rewrite E; [reflexivity | exact IH].
Qed.

Lemma dict_get_set_other {V : Type} (d : dict V) (k k' : string) (v : V) :
  k' <> k -> dict_get (dict_set d k v) k' = dict_get d k'.
Proof.
  intros Hne. induction d as [| [k0 v0] d IH]; simpl.
  - destruct (String.eqb_spec k k'); [congruence | reflexivity].
  - destruct (String.eqb_spec k0 k) as [-> | Hk]; simpl.
    + destruct (String.eqb_spec k k'); [congruence | reflexivity].
    + destruct (String.eqb_spec k0 k'); [reflexivity | exact IH].
Qed.

Lemma dict_set_set {V : Type} (d : dict V) (k : string) (v1 v2 : V) :
  dict_set (dict_set d k v1) k v2 = dict_set d k v2.
Proof.
  induction d as [| [k' v'] d IH]; simpl.
  - rewrite String.eqb_refl; reflexivity.
  - destruct (String.eqb k' k) eqn:E; simpl; rewrite E; [reflexivity |].
    rewrite IH; reflexivity.
Qed.

Lemma dict_get_del_same {V : Type} (d : dict V) (k : string) :
  dict_get (dict_del d k) k = None.
Proof.
  induction d as [| [k' v'] d IH]; simpl; [reflexivity |].
  destruct (String.eqb k' k) eqn:E; simpl; [exact IH |].
  rewrite E. exact IH.
Qed.

Lemma dict_get_del_other {V : Type} (d : dict V) (k k' : string) :
  k' <> k -> dict_get (dict_del d k) k' = dict_get d k'.
Proof.
  intros Hne. induction d as [| [k0 v0] d IH]; simpl; [reflexivity |].
  destruct (String.eqb_spec k0 k) as [-> | Hk]; simpl.
  - destruct (String.eqb_spec k k'); [congruence | exact IH].
  - destruct (String.eqb_spec k0 k'); [reflexivity | exact IH].
Qed.

Lemma dict_get_In {V : Type} (d : dict V) (k : string) (v : V) :
  dict_get d k = Some v -> In (k, v) d.
Proof.
  induction d as [| [k' v'] d IH]; simpl; [discriminate |].
  destruct (String.eqb_spec k' k) as [-> | Hk].
  - intros H; inversion H; left; reflexivity.
  - intros H; right; apply IH; exact H.
Qed.

Lemma dict_In_get {V : Type} (d : dict V) (k : string) (v : V) :
  dict_wf d -> In (k, v) d -> dict_get d k = Some v.
Proof.
  unfold dict_wf. induction d as [| [k' v'] d IH]; simpl; intros Hwf Hin;
    [contradiction |].
  inversion Hwf as [| ? ? Hnot Hrest]; subst.
  destruct Hin as [Heq | Hin].
  - inversion Heq; subst. rewrite String.eqb_refl; reflexivity.
  - destruct (String.eqb_spec k' k) as [-> | Hk]; [| apply IH; assumption].
    exfalso. apply Hnot. apply in_map_iff. exists (k, v); split; [reflexivity | exact Hin].
Qed.

Lemma dict_In_some {V : Type} (d : dict V) (k : string) (v : V) :
  In (k, v) d -> dict_get d k <> None.
Proof.
  induction d as [| [k' v'] d IH]; simpl; [contradiction |].
  intros [Heq | Hin].
  - inversion Heq; subst. rewrite String.eqb_refl; discriminate.
  - destruct (String.eqb k' k); [discriminate | apply IH; exact Hin].
Qed.

Lemma dict_set_keys {V : Type} (d : dict V) (k : string) (v : V) :
  dict_get d k <> None -> map fst (dict_set d k v) = map fst d.
Proof.
  induction d as [| [k' v'] d IH]; simpl; [intros H; contradiction H; reflexivity |].
  destruct (String.eqb_spec k' k) as [-> | Hk]; simpl; [reflexivity |].
  intros H. rewrite IH by exact H. reflexivity.
Qed.

Lemma dict_set_wf {V : Type} (d : dict V) (k : string) (v : V) :
  dict_wf d -> dict_wf (dict_set d k v).
Proof.
  unfold dict_wf. induction d as [| [k' v'] d IH]; simpl; intros Hwf.
  - constructor; [intros [] | constructor].
  - inversion Hwf as [| ? ? Hnot Hrest]; subst.
    destruct (String.eqb_spec k' k) as [-> | Hk]; simpl.
    + constructor; assumption.
    + constructor; [| apply IH; exact Hrest].
      intros Hin. apply in_map_iff in Hin. destruct Hin as [[k0 v0] [Hk0 Hin]].
      simpl in Hk0; subst k0.
      destruct (dict_get d k) eqn:Eg.
      * apply Hnot. rewrite <- (dict_set_keys d k v) by congruence.
        apply in_map_iff. exists (k', v0); split; [reflexivity | exact Hin].
      * apply dict_In_some in Hin. rewrite dict_get_set_other in Hin by exact Hk.
        apply Hin. clear - Hnot.
        induction d as [| [k1 v1] d IH]; simpl; [reflexivity |].
        destruct (String.eqb_spec k1 k') as [-> | H1].
        -- exfalso; apply Hnot; left; reflexivity.
        -- apply IH. intros H; apply Hnot; right; exact H.
Qed.

Lemma dict_del_wf {V : Type} (d : dict V) (k : string) :
  dict_wf d -> dict_wf (dict_del d k).
Proof.
  unfold dict_wf, dict_del. induction d as [| [k' v'] d IH]; simpl; intros Hwf.
  - constructor.
  - inversion Hwf as [| ? ? Hnot Hrest]; subst.
    destruct (String.eqb k' k); simpl; [apply IH; exact Hrest |].
    constructor; [| apply IH; exact Hrest].
    intros Hin. apply Hnot. apply in_map_iff in Hin.
    destruct Hin as [kv [Hkv Hin]]. apply filter_In in Hin.
    apply in_map_iff. exists kv; split; [exact Hkv | apply Hin].
Qed.

(** ** Assignment under the capacity constraints *)

Section Assignment.
Context {RT : Runtime}.
Import DynamicRoutingSystem.

Lemma dict_item_Ok {V : Type} (d : dict V) (k : string) (v : V) :
  dict_item d k = Ok v <-> dict_get d k = Some v.
Proof.
  unfold dict_item. destruct (dict_get d k); split; intros H;
    inversion H; reflexivity.
Qed.

Lemma dict_get_set_same_item {V : Type} (d : dict V) (k : string) (v : V) :
  dict_item (dict_set d k v) k = Ok v.
Proof. unfold dict_item. rewrite dict_get_set_same. reflexivity. Qed.

(** The truck that [find_suitable_truck] names passes both capacity tests. *)
Lemma find_suitable_truck_fits (self : t) (delivery_id : string) (clock : Clock)
    (truck_id : string) :
  find_suitable_truck self delivery_id clock = Ok (Some truck_id) ->
  exists tr d,
    In (truck_id, tr) (trucks self) /\
    dict_get (deliveries self) delivery_id = Some d /\
    weight d <= current_capacity tr /\
    total_weight tr + weight d <= max_capacity tr.
Proof.
  unfold find_suitable_truck. intros H.
  apply bind_Ok in H; destruct H as [d [Hd H]]. apply dict_item_Ok in Hd.
  apply bind_Ok in H; destruct H as [best [Hbest H]].
  inversion H as [Hfst]; clear H.
  pose proof (fun Hstep Hinit =>
                for_each_invariant
                  (fun acc : option string * xfloat =>
                     forall tid, fst acc = Some tid ->
                       exists tr, In (tid, tr) (trucks self) /\
                                  weight d <= current_capacity tr /\
                                  total_weight tr + weight d <= max_capacity tr)
                  _ _ Hstep _ _ Hinit Hbest) as Hinv.
  destruct (Hinv) with (tid := truck_id) as [tr [Hin [H1 H2]]].
  - clear. intros a [tid tr] a' Hin Ha Hstep. simpl in Hstep.
    destruct (Qltb (max_capacity tr) (total_weight tr + weight d)) eqn:E1;
      [inversion Hstep; subst; exact Ha |].
    destruct (Qle_bool (weight d) (current_capacity tr)) eqn:E2;
      [| inversion Hstep; subst; exact Ha].
    apply bind_Ok in Hstep; destruct Hstep as [on_time [_ Hstep]].
    destruct on_time; [| inversion Hstep; subst; exact Ha].
    cbv zeta in Hstep. destruct (xlt _ (snd a));
      [| inversion Hstep; subst; exact Ha].
    inversion Hstep; subst; clear Hstep. simpl.
    intros tid' Htid; inversion Htid; subst tid'.
    exists tr; split; [exact Hin |].
    apply Qltb_false_iff in E1. apply Qle_bool_iff in E2. split; assumption.
  - simpl; discriminate.
  - exact Hfst.
  - exists tr, d. repeat split; assumption.
Qed.

Lemma truthy_Some (found : option string) (truck_id : string) :
  truthy found = Some truck_id -> found = Some truck_id.
Proof.
  destruct found as [[| c s] |]; simpl; intros H; inversion H; reflexivity.
Qed.

(** What [bind_delivery] changes: the record of the delivery, the record of
    the truck, and the optimizer. *)
Lemma bind_delivery_effect (self : t) (delivery_id truck_id : string) (g : Rng)
    (fuel : nat) (self' : t) (g' : Rng) :
  bind_delivery self delivery_id truck_id g fuel = Ok (self', g') ->
  exists tr d route,
    dict_get (trucks self) truck_id = Some tr /\
    dict_get (deliveries self) delivery_id = Some d /\
    deliveries self'
      = dict_set (deliveries self) delivery_id (set_status d in_progress (Some truck_id)) /\
    trucks self'
      = dict_set (trucks self) truck_id
          (mk_truck (max_capacity tr) (current_capacity tr - weight d)
                    (current_location tr) route
                    (deliveries_of tr ++ [delivery_id])
                    (total_weight tr + weight d)).
Proof.
  unfold bind_delivery. intros H.
  apply bind_Ok in H; destruct H as [tr [Htr H]]. apply dict_item_Ok in Htr.
  apply bind_Ok in H; destruct H as [d [Hd H]]. apply dict_item_Ok in Hd.
  cbv zeta in H.
  apply bind_Ok in H; destruct H as [[[route self2] g2] [Hopt H]].
  unfold optimize_route in Hopt.
  apply bind_Ok in Hopt; destruct Hopt as [stops [_ Hopt]].
  apply bind_Ok in Hopt; destruct Hopt as [[[r c] g3] [_ Hopt]].
  inversion Hopt; subst route self2 g2; clear Hopt.
  simpl in H. rewrite dict_get_set_same_item in H.
  simpl in H. inversion H; subst self' g'; clear H. simpl.
  exists tr, d, r. repeat split; try assumption.
  rewrite dict_set_set. reflexivity.
Qed.

End Assignment.

(** C2.  When [assign_delivery] answers [True], the delivery was pending and
    is now in progress and bound to a truck whose remaining capacity covered
    its weight and whose committed weight plus this weight stayed within
    the maximum capacity; the committed weight of that truck grows by the
    weight and is still within its maximum capacity, and no other truck and
    no other delivery is touched.  When it answers [False] the registry is
    as before.  Hence trucks that were within capacity before the call are
    within capacity after it. *)
Theorem assign_delivery_respects_capacity {RT : Runtime}
    (self : DynamicRoutingSystem.t) (delivery_id : string)
    (clock : DynamicRoutingSystem.Clock) (g : Rng)
    (fuel : nat) (ok : bool) (self' : DynamicRoutingSystem.t) (g' : Rng) :
  dict_wf (DynamicRoutingSystem.trucks self) ->
  DynamicRoutingSystem.assign_delivery self delivery_id clock g fuel = Ok (ok, self', g') ->
  (if ok then
     exists truck_id tr d tr',
       dict_get (DynamicRoutingSystem.trucks self) truck_id = Some tr /\
       dict_get (DynamicRoutingSystem.deliveries self) delivery_id = Some d /\
       DynamicRoutingSystem.delivery_status d = DynamicRoutingSystem.pending /\
       DynamicRoutingSystem.weight d <= DynamicRoutingSystem.current_capacity tr /\
       DynamicRoutingSystem.total_weight tr + DynamicRoutingSystem.weight d
         <= DynamicRoutingSystem.max_capacity tr /\
       dict_get (DynamicRoutingSystem.deliveries self') delivery_id
         = Some (DynamicRoutingSystem.set_status d DynamicRoutingSystem.in_progress
                   (Some truck_id)) /\
       dict_get (DynamicRoutingSystem.trucks self') truck_id = Some tr' /\
       DynamicRoutingSystem.total_weight tr'
         = DynamicRoutingSystem.total_weight tr + DynamicRoutingSystem.weight d /\
       DynamicRoutingSystem.max_capacity tr' = DynamicRoutingSystem.max_capacity tr /\
       DynamicRoutingSystem.total_weight tr' <= DynamicRoutingSystem.max_capacity tr' /\
       (forall other, other <> truck_id ->
          dict_get (DynamicRoutingSystem.trucks self') other
          = dict_get (DynamicRoutingSystem.trucks self) other) /\
       (forall other, other <> delivery_id ->
          dict_get (DynamicRoutingSystem.deliveries self') other
          = dict_get (DynamicRoutingSystem.deliveries self) other)
   else
     DynamicRoutingSystem.trucks self' = DynamicRoutingSystem.trucks self /\
     DynamicRoutingSystem.deliveries self' = DynamicRoutingSystem.deliveries self) /\
  ((forall id tr, dict_get (DynamicRoutingSystem.trucks self) id = Some tr ->
      DynamicRoutingSystem.total_weight tr <= DynamicRoutingSystem.max_capacity tr) ->
   forall id tr, dict_get (DynamicRoutingSystem.trucks self') id = Some tr ->
      DynamicRoutingSystem.total_weight tr <= DynamicRoutingSystem.max_capacity tr).
Proof.
  intros Hwf H. unfold DynamicRoutingSystem.assign_delivery in H.
  destruct (dict_get (DynamicRoutingSystem.deliveries self) delivery_id) as [d |] eqn:Ed;
    [| inversion H; subst; split; [split; reflexivity | auto]].
  destruct (DynamicRoutingSystem.status_eqb (DynamicRoutingSystem.delivery_status d)
              DynamicRoutingSystem.pending) eqn:Est; simpl in H;
    [| inversion H; subst; split; [split; reflexivity | auto]].
  apply bind_Ok in H; destruct H as [found [Hfound H]].
  destruct (DynamicRoutingSystem.truthy found) as [truck_id |] eqn:Et;
    [| inversion H; subst; split; [split; reflexivity | auto]].
  apply truthy_Some in Et; subst found.
  apply bind_Ok in H; destruct H as [[s1 g1] [Hbind H]].
  inversion H; subst ok self' g'; clear H.
  apply find_suitable_truck_fits in Hfound.
  destruct Hfound as [tr [d0 [Hin [Hd0 [Hcap Htot]]]]].
  rewrite Ed in Hd0; inversion Hd0; subst d0; clear Hd0.
  apply (dict_In_get _ _ _ Hwf) in Hin.
  apply bind_delivery_effect in Hbind.
  destruct Hbind as [tr0 [d0 [route [Htr0 [Hd0 [Hdel Htrucks]]]]]].
  rewrite Hin in Htr0; inversion Htr0; subst tr0; clear Htr0.
  rewrite Ed in Hd0; inversion Hd0; subst d0; clear Hd0.
  assert (Hother : forall other, other <> truck_id ->
            dict_get (DynamicRoutingSystem.trucks s1) other
            = dict_get (DynamicRoutingSystem.trucks self) other).
  { intros other Hne. rewrite Htrucks. apply dict_get_set_other; exact Hne. }
  split.
  - eexists truck_id, tr, d, _.
    split; [exact Hin |]. split; [reflexivity |].
    split; [destruct (DynamicRoutingSystem.delivery_status d);
            try discriminate Est; reflexivity |].
    split; [exact Hcap |]. split; [exact Htot |].
    split; [rewrite Hdel; apply dict_get_set_same |].
    split; [rewrite Htrucks; apply dict_get_set_same |].
    split; [reflexivity |]. split; [reflexivity |].
    split; [exact Htot |]. split; [exact Hother |].
    intros other Hne. rewrite Hdel. apply dict_get_set_other; exact Hne.
  - intros Hall id tr1 Hget.
    destruct (String.eqb_spec id truck_id) as [-> | Hne].
    + rewrite Htrucks, dict_get_set_same in Hget.
      inversion Hget; subst tr1; simpl. exact Htot.
    + rewrite Hother in Hget by exact Hne. eapply Hall; exact Hget.
Qed.

(** ** Concrete registries

    All run on the concrete runtime, with an optimizer of one ant and one
    round. *)

Module Scenario.
Import DynamicRoutingSystem.
Open Scope string_scope.

Definition small_optimizer : CIACO.t :=
  CIACO.mk 1 1 1 2 (1 # 10) 1 true 3 2 None None None None Inf None None.

(** A truck of capacity 1000 that already carries 600, and a pending
    delivery of weight 300. *)
Definition loaded : t :=
  mk [("T1", mk_truck 1000 400 (0, 0) (Some []) ["D0"] 600)]
     [("D0", mk_delivery (0, 0) (4, 0) 600 in_progress (Some "T1") None);
      ("D1", mk_delivery (1, 0) (2, 0) 300 pending None None)]
     small_optimizer.

Definition loaded_assigned : bool * t * nat :=
  Eval vm_compute in
    match assign_delivery (RT := Concrete.runtime) loaded "D1" (fun _ => 0%Z) 0%nat 5 with
    | Ok r => r
    | _ => (false, loaded, 0%nat)
    end.

End Scenario.
(** The theorem on the truck that carries 600 of 1000 and takes 300 more. *)
Lemma assign_delivery_respects_capacity_witness :
  dict_wf (DynamicRoutingSystem.trucks Scenario.loaded) /\
  DynamicRoutingSystem.assign_delivery (RT := Concrete.runtime)
    Scenario.loaded "D1" (fun _ => 0%Z) 0%nat 5
  = Ok (true, snd (fst Scenario.loaded_assigned), snd Scenario.loaded_assigned) /\
  exists tr',
    dict_get (DynamicRoutingSystem.trucks (snd (fst Scenario.loaded_assigned))) "T1"
      = Some tr' /\
    DynamicRoutingSystem.total_weight tr' <= DynamicRoutingSystem.max_capacity tr'.
Proof.
  assert (Hwf : dict_wf (DynamicRoutingSystem.trucks Scenario.loaded)).
  { unfold dict_wf; simpl. constructor; [intros [] | constructor]. }
  assert (Hrun : DynamicRoutingSystem.assign_delivery (RT := Concrete.runtime)
                   Scenario.loaded "D1" (fun _ => 0%Z) 0%nat 5
                 = Ok (true, snd (fst Scenario.loaded_assigned),
                       snd Scenario.loaded_assigned))
    by (vm_compute; reflexivity).
  split; [exact Hwf |]. split; [exact Hrun |].
  destruct (assign_delivery_respects_capacity (RT := Concrete.runtime)
              Scenario.loaded "D1" (fun _ => 0%Z) 0%nat 5 true
              (snd (fst Scenario.loaded_assigned)) (snd Scenario.loaded_assigned)
              Hwf Hrun) as [H _].
  destruct H as [truck_id [tr [d [tr' [Htr [_ [_ [_ [_ [_ [Htr' [_ [_ [Hle _]]]]]]]]]]]]]].
  assert (truck_id = "T1"%string).
  { unfold Scenario.loaded in Htr. cbn [DynamicRoutingSystem.trucks dict_get] in Htr.
    destruct (String.eqb_spec "T1" truck_id); [congruence | discriminate]. }
  subst truck_id. exists tr'; split; assumption.
Defined.

(** ** Breakdown of a truck *)

(** An invariant of a [for] loop that also names the elements already
    processed. *)
Lemma for_each_prefix {A B : Type} (P : list B -> A -> Prop) (body : A -> B -> outcome A) :
  forall (l pre : list B) (a a' : A),
    (forall done x a0 a1, In x l -> P done a0 -> body a0 x = Ok a1 -> P (done ++ [x]) a1) ->
    P pre a -> for_each l body a = Ok a' -> P (pre ++ l) a'.
Proof.
  induction l as [| x l IH]; intros pre a a' Hbody Ha H; simpl in H.
  - inversion H; subst. rewrite app_nil_r. exact Ha.
  - apply bind_Ok in H; destruct H as [a1 [H1 H2]].
    replace (pre ++ x :: l) with ((pre ++ [x]) ++ l) by (rewrite <- app_assoc; reflexivity).
    apply IH with (a := a1); [| | exact H2].
    + intros done y a0 a2 Hy. apply Hbody. right; exact Hy.
    + eapply Hbody; [left; reflexivity | exact Ha | exact H1].
Qed.

Section Breakdown.
Context {RT : Runtime}.
Import DynamicRoutingSystem.

(** The delivery is pending and has no truck. *)
Definition is_pending (s : t) (id : string) : Prop :=
  exists d, dict_get (deliveries s) id = Some d /\
            delivery_status d = pending /\ assigned_truck d = None.

(** The delivery is in progress on a truck of the registry. *)
Definition is_bound (s : t) (id : string) : Prop :=
  exists d truck_id,
    dict_get (deliveries s) id = Some d /\
    delivery_status d = in_progress /\ assigned_truck d = Some truck_id /\
    dict_get (trucks s) truck_id <> None.

Lemma pending_not_bound (s : t) (id : string) : is_pending s id -> ~ is_bound s id.
Proof.
  intros [d [Hd [Hs _]]] [d' [t' [Hd' [Hs' _]]]]. congruence.
Qed.

Lemma detach_effect (self : t) (ids : list string) (self1 : t) (objects : list failed) :
  detach self ids = Ok (self1, objects) ->
  trucks self1 = trucks self /\ ciaco self1 = ciaco self /\
  map failed_id objects = ids /\
  (forall id, In id ids -> is_pending self1 id) /\
  (forall id, dict_get (deliveries self) id <> None ->
              dict_get (deliveries self1) id <> None).
Proof.
  unfold detach. intros H.
  pose proof (fun Hbody Hinit =>
                for_each_prefix
                  (fun (pre : list string) (acc : t * list failed) =>
                     trucks (fst acc) = trucks self /\ ciaco (fst acc) = ciaco self /\
                     map failed_id (snd acc) = pre /\
                     (forall id, In id pre -> is_pending (fst acc) id) /\
                     (forall id, dict_get (deliveries self) id <> None ->
                                 dict_get (deliveries (fst acc)) id <> None))
                  _ ids [] (self, []) (self1, objects) Hbody Hinit H) as Hloop.
  simpl in Hloop. apply Hloop; clear Hloop H.
  - intros done x [s objs] [s' objs'] _ [Ht [Hc [Hm [Hp Hk]]]] Hstep. simpl in *.
    apply bind_Ok in Hstep; destruct Hstep as [d [Hd Hstep]].
    inversion Hstep; subst s' objs'; clear Hstep. simpl.
    split; [exact Ht |]. split; [exact Hc |].
    split; [rewrite map_app, Hm; reflexivity |]. split.
    + intros id Hin.
      destruct (String.eqb_spec id x) as [-> | Hne].
      * exists (set_status d pending None). simpl.
        rewrite dict_get_set_same. repeat split; reflexivity.
      * apply in_app_or in Hin. destruct Hin as [Hin | [Hx | []]]; [| congruence].
        destruct (Hp id Hin) as [d0 [Hd0 Hrest]].
        exists d0. simpl. rewrite dict_get_set_other by exact Hne. split; assumption.
    + intros id Hid. destruct (String.eqb_spec id x) as [-> | Hne].
      * rewrite dict_get_set_same; discriminate.
      * rewrite dict_get_set_other by exact Hne. apply Hk; exact Hid.
  - repeat split; try reflexivity; [intros id [] | intros id Hid; exact Hid].
Qed.

Lemma insert_by_weight_perm (x : failed) (l : list failed) :
  Permutation (insert_by_weight x l) (x :: l).
Proof.
  induction l as [| y l IH]; simpl; [reflexivity |].
  destruct (Qltb (failed_weight x) (failed_weight y)); [| reflexivity].
  rewrite IH. apply perm_swap.
Qed.

Lemma sort_by_weight_perm (l : list failed) : Permutation (sort_by_weight l) l.
Proof.
  induction l as [| x l IH]; simpl; [constructor |].
  rewrite insert_by_weight_perm. constructor; exact IH.
Qed.

(** One pass of the reassignment loop: the delivery is bound to a truck of
    the registry, or nothing changes but the flag and the output. *)
Lemma reassign_one_effect (fuel : nat) (success : bool) (printed : list string) (s : t)
    (g : Rng) (x : failed) (acc' : bool * list string * t * Rng) :
  reassign_one fuel (success, printed, s, g) x = Ok acc' ->
  (exists s' g' truck_id tr d route,
      acc' = (success, printed, s', g') /\
      dict_get (trucks s) truck_id = Some tr /\
      dict_get (deliveries s) (failed_id x) = Some d /\
      deliveries s'
        = dict_set (deliveries s) (failed_id x)
            (set_status d in_progress (Some truck_id)) /\
      trucks s'
        = dict_set (trucks s) truck_id
            (mk_truck (max_capacity tr) (current_capacity tr - weight d)
                      (current_location tr) route
                      (deliveries_of tr ++ [failed_id x])
                      (total_weight tr + weight d))) \/
  acc' = (false,
          printed ++ [("Failed to reassign delivery " ++ failed_id x)%string], s, g).
Proof.
  unfold reassign_one. intros H.
  apply bind_Ok in H; destruct H as [found [_ H]].
  destruct (truthy found) as [truck_id |].
  - apply bind_Ok in H; destruct H as [[s' g'] [Hbind H]].
    inversion H; subst acc'; clear H.
    apply bind_delivery_effect in Hbind.
    destruct Hbind as [tr [d [route [Htr [Hd [Hdel Htrucks]]]]]].
    left. exists s', g', truck_id, tr, d, route. repeat split; assumption.
  - right. inversion H; reflexivity.
Qed.

(** The status recorded for a delivery. *)
Definition has_status (s : t) (id : string) (st : status) : Prop :=
  exists d, dict_get (deliveries s) id = Some d /\ delivery_status d = st.

(** The line printed for a delivery that found no truck. *)
Definition failure_line (id : string) : string :=
  ("Failed to reassign delivery " ++ id)%string.

Lemma append_inj (p a b : string) : (p ++ a)%string = (p ++ b)%string -> a = b.
Proof.
  induction p as [| c p IH]; simpl; intros H; [exact H |].
  inversion H. apply IH; assumption.
Qed.

Lemma failure_line_inj (a b : string) : failure_line a = failure_line b -> a = b.
Proof. apply append_inj. Qed.

Lemma dict_set_registered {V : Type} (d : dict V) (k k' : string) (v : V) :
  dict_get d k' <> None -> dict_get (dict_set d k v) k' <> None.
Proof.
  intros H. destruct (String.eqb_spec k' k) as [-> | Hne].
  - rewrite dict_get_set_same; discriminate.
  - rewrite dict_get_set_other by exact Hne. exact H.
Qed.

(** What holds after the deliveries [pre] went through the reassignment
    loop; [broken] is the truck removed and [owned] its deliveries. *)
Definition reassigned (broken : string) (owned : list string) (start : t)
    (pre : list failed) (acc : bool * list string * t * Rng) : Prop :=
  let '(success, printed, s, _) := acc in
  dict_get (trucks s) broken = None /\
  (forall id, In id owned -> is_pending s id \/ is_bound s id) /\
  (forall id, dict_get (deliveries start) id <> None ->
              dict_get (deliveries s) id <> None) /\
  (forall id, In id owned -> ~ In id (map failed_id pre) -> is_pending s id) /\
  (NoDup (map failed_id pre) ->
     (success = true <->
        forall id, In id (map failed_id pre) -> has_status s id in_progress) /\
     (forall id, In (failure_line id) printed <->
                 In id (map failed_id pre) /\ has_status s id pending)).

Lemma reassign_step (fuel : nat) (broken : string) (owned : list string) (start : t)
    (done : list failed) (x : failed) (acc acc' : bool * list string * t * Rng) :
  In (failed_id x) owned ->
  reassigned broken owned start done acc ->
  reassign_one fuel acc x = Ok acc' ->
  reassigned broken owned start (done ++ [x]) acc'.
Proof.
  destruct acc as [[[success printed] s] g].
  intros Hx [Hgone [Hall [Hkeys [Hrest Hreport]]]] Hstep.
  assert (Hxpending : ~ In (failed_id x) (map failed_id done) ->
                      has_status s (failed_id x) pending).
  { intros Hnot. destruct (Hrest _ Hx Hnot) as [d [Hd [Hs _]]].
    exists d; split; assumption. }
  apply reassign_one_effect in Hstep.
  destruct Hstep as [[s' [g' [truck_id [tr [d [route [-> [Htr [Hd [Hdel Htrucks]]]]]]]]]] | ->].
  - (* the delivery was bound to [truck_id] *)
    assert (Hne : truck_id <> broken) by (intros ->; congruence).
    assert (Hsame : forall id, id <> failed_id x ->
              dict_get (deliveries s') id = dict_get (deliveries s) id).
    { intros id Hid. rewrite Hdel. apply dict_get_set_other; exact Hid. }
    assert (Hreg : forall k, dict_get (trucks s) k <> None ->
                             dict_get (trucks s') k <> None).
    { intros k Hk. rewrite Htrucks. apply dict_set_registered; exact Hk. }
    assert (Hxbound : is_bound s' (failed_id x)).
    { exists (set_status d in_progress (Some truck_id)), truck_id.
      split; [rewrite Hdel; apply dict_get_set_same |].
      split; [reflexivity |]. split; [reflexivity |].
      rewrite Htrucks, dict_get_set_same; discriminate. }
    assert (Hpend : forall id, id <> failed_id x -> is_pending s id -> is_pending s' id).
    { intros id Hid [d0 [Hd0 Hst]]. exists d0. rewrite Hsame by exact Hid.
      split; assumption. }
    assert (Hstat : forall id st, id <> failed_id x ->
              (has_status s' id st <-> has_status s id st)).
    { intros id st Hid. unfold has_status. rewrite Hsame by exact Hid. reflexivity. }
    unfold reassigned.
    split; [rewrite Htrucks, dict_get_set_other by (intros E; apply Hne; symmetry; exact E);
            exact Hgone |].
    split.
    { intros id Hid. destruct (String.eqb_spec id (failed_id x)) as [-> | Hneq];
        [right; exact Hxbound |].
      destruct (Hall id Hid) as [Hp | [d0 [t0 [Hd0 [Hs0 [Ha0 Hr0]]]]]].
      - left; apply Hpend; assumption.
      - right. exists d0, t0. rewrite Hsame by exact Hneq.
        repeat split; try assumption. apply Hreg; exact Hr0. }
    split.
    { intros id Hid. rewrite Hdel. apply dict_set_registered. apply Hkeys; exact Hid. }
    split.
    { intros id Hid Hnot. rewrite map_app, in_app_iff in Hnot. simpl in Hnot.
      apply Hpend; [intros ->; tauto |]. apply Hrest; [exact Hid | tauto]. }
    intros Hnodup. rewrite map_app in Hnodup. simpl in Hnodup.
    apply NoDup_remove in Hnodup. rewrite app_nil_r in Hnodup.
    destruct Hnodup as [Hnodup Hfresh].
    destruct (Hreport Hnodup) as [Hsucc Hlines].
    assert (Hxprog : has_status s' (failed_id x) in_progress).
    { destruct Hxbound as [d0 [t0 [Hd0 [Hs0 _]]]]. exists d0; split; assumption. }
    split.
    + rewrite Hsucc. split.
      * intros Hdone id Hid. rewrite map_app, in_app_iff in Hid. simpl in Hid.
        destruct Hid as [Hid | [<- | []]]; [| exact Hxprog].
        apply Hstat; [intros ->; contradiction | apply Hdone; exact Hid].
      * intros Hdone id Hid. apply Hstat; [intros ->; contradiction |].
        apply Hdone. rewrite map_app, in_app_iff. left; exact Hid.
    + intros id. rewrite Hlines, map_app, in_app_iff. simpl. split.
      * intros [Hid Hst]. split; [left; exact Hid |].
        apply Hstat; [intros ->; contradiction | exact Hst].
      * intros [[Hid | [<- | []]] Hst].
        -- split; [exact Hid |]. apply Hstat; [intros ->; contradiction | exact Hst].
        -- destruct Hxprog as [d1 [Hd1 Hs1]]. destruct Hst as [d2 [Hd2 Hs2]].
           rewrite Hd1 in Hd2. inversion Hd2; subst d2. congruence.
  - (* no truck was found *)
    unfold reassigned.
    split; [exact Hgone |]. split; [exact Hall |]. split; [exact Hkeys |].
    split.
    { intros id Hid Hnot. apply Hrest; [exact Hid |].
      intros Hin. apply Hnot. rewrite map_app, in_app_iff. left; exact Hin. }
    intros Hnodup. rewrite map_app in Hnodup. simpl in Hnodup.
    apply NoDup_remove in Hnodup. rewrite app_nil_r in Hnodup.
    destruct Hnodup as [Hnodup Hfresh].
    destruct (Hreport Hnodup) as [Hsucc Hlines].
    specialize (Hxpending Hfresh).
    split.
    + split; [discriminate |]. intros Hdone. exfalso.
      destruct (Hdone (failed_id x)) as [d1 [Hd1 Hs1]].
      { rewrite map_app, in_app_iff. right; left; reflexivity. }
      destruct Hxpending as [d2 [Hd2 Hs2]]. rewrite Hd1 in Hd2.
      inversion Hd2; subst d2. congruence.
    + intros id. rewrite in_app_iff, Hlines, map_app, in_app_iff. simpl. split.
      * intros [[Hid Hst] | [Heq | []]].
        -- split; [left; exact Hid | exact Hst].
        -- apply failure_line_inj in Heq. subst id.
           split; [right; left; reflexivity | exact Hxpending].
      * intros [[Hid | [<- | []]] Hst].
        -- left; split; assumption.
        -- right; left; reflexivity.
Qed.

(** The whole of [handle_truck_breakdown] on a truck of the registry. *)
Lemma breakdown_outcome (self : t) (truck_id : string) (broken : truck) (g : Rng)
    (fuel : nat) (res : bool * list string * t * Rng) :
  dict_get (trucks self) truck_id = Some broken ->
  handle_truck_breakdown self truck_id g fuel = Ok res ->
  exists objects,
    Permutation (map failed_id objects) (deliveries_of broken) /\
    reassigned truck_id (deliveries_of broken) self objects res.
Proof.
  intros Hbroken H. unfold handle_truck_breakdown in H. rewrite Hbroken in H.
  apply bind_Ok in H; destruct H as [[self1 objects] [Hdetach H]].
  apply detach_effect in Hdetach.
  destruct Hdetach as [Ht [_ [Hids [Hpending Hkeys]]]].
  exists (sort_by_weight objects). split.
  { rewrite <- Hids. apply Permutation_map. apply sort_by_weight_perm. }
  pose proof (fun Hbody Hinit =>
                for_each_prefix
                  (reassigned truck_id (deliveries_of broken) self)
                  _ (sort_by_weight objects) [] _ res Hbody Hinit H) as Hloop.
  apply Hloop; clear Hloop H.
  - intros done x a0 a1 Hin Hinv Hstep.
    eapply reassign_step; [| exact Hinv | exact Hstep].
    rewrite <- Hids. apply in_map_iff. exists x; split; [reflexivity |].
    eapply Permutation_in; [apply sort_by_weight_perm | exact Hin].
  - unfold reassigned. simpl.
    split; [apply dict_get_del_same |].
    split; [intros id Hid; left; destruct (Hpending id Hid) as [d Hd]; exists d; exact Hd |].
    split; [exact Hkeys |].
    split; [intros id Hid _; destruct (Hpending id Hid) as [d Hd]; exists d; exact Hd |].
    intros _. split.
    + split; [intros _ id [] | reflexivity].
    + intros id. split; [intros [] | intros [[] _]].
Qed.

End Breakdown.

Module BreakdownScenario.
Import DynamicRoutingSystem.
Open Scope string_scope.

(** Truck T1 carries E2 (1500) and E1 (2000); T2 is empty and can take
    [capacity]. *)
Definition fleet (capacity : Q) : t :=
  mk [("T1", mk_truck 5000 1500 (0, 0) (Some []) ["E2"; "E1"] 3500);
      ("T2", mk_truck capacity capacity (3, 0) (Some []) [] 0)]
     [("E1", mk_delivery (1, 0) (2, 0) 2000 in_progress (Some "T1") None);
      ("E2", mk_delivery (2, 0) (5, 0) 1500 in_progress (Some "T1") None)]
     Scenario.small_optimizer.

Definition broken_truck : truck :=
  mk_truck 5000 1500 (0, 0) (Some []) ["E2"; "E1"] 3500.

Definition after (capacity : Q) : bool * list string * t * nat :=
  match handle_truck_breakdown (RT := Concrete.runtime) (fleet capacity) "T1" 0%nat 5 with
  | Ok r => r
  | _ => (false, [], fleet capacity, 0%nat)
  end.

(** T2 takes 3000: E1 is rebound, E2 stays pending. *)
Definition partial : bool * list string * t * nat := Eval vm_compute in after 3000.

(** T2 takes 1000: nothing is rebound. *)
Definition nothing : bool * list string * t * nat := Eval vm_compute in after 1000.

End BreakdownScenario.

(** C3.  After [handle_truck_breakdown] on a truck of the registry, the
    truck is gone, and each delivery it held is still in the registry and is
    either in progress and bound to another truck that is still registered,
    or pending with no truck.  No delivery leaves the registry. *)
Theorem breakdown_keeps_every_delivery {RT : Runtime}
    (self : DynamicRoutingSystem.t) (truck_id : string)
    (broken : DynamicRoutingSystem.truck) (g : Rng) (fuel : nat)
    (success : bool) (printed : list string) (self' : DynamicRoutingSystem.t) (g' : Rng) :
  dict_get (DynamicRoutingSystem.trucks self) truck_id = Some broken ->
  DynamicRoutingSystem.handle_truck_breakdown self truck_id g fuel
    = Ok (success, printed, self', g') ->
  dict_get (DynamicRoutingSystem.trucks self') truck_id = None /\
  (forall id, In id (DynamicRoutingSystem.deliveries_of broken) ->
     exists d,
       dict_get (DynamicRoutingSystem.deliveries self') id = Some d /\
       ((DynamicRoutingSystem.delivery_status d = DynamicRoutingSystem.in_progress /\
         exists other,
           DynamicRoutingSystem.assigned_truck d = Some other /\
           other <> truck_id /\
           dict_get (DynamicRoutingSystem.trucks self') other <> None) \/
        (DynamicRoutingSystem.delivery_status d = DynamicRoutingSystem.pending /\
         DynamicRoutingSystem.assigned_truck d = None))) /\
  (forall id, dict_get (DynamicRoutingSystem.deliveries self) id <> None ->
              dict_get (DynamicRoutingSystem.deliveries self') id <> None).
Proof.
  intros Hbroken H.
  destruct (breakdown_outcome _ _ _ _ _ _ Hbroken H) as [objects [_ Hinv]].
  destruct Hinv as [Hgone [Hall [Hkeys _]]].
  split; [exact Hgone |]. split; [| exact Hkeys].
  intros id Hid. destruct (Hall id Hid) as [[d [Hd [Hs Ha]]] | [d [other [Hd [Hs [Ha Hr]]]]]].
  - exists d; split; [exact Hd |]. right; split; assumption.
  - exists d; split; [exact Hd |]. left; split; [exact Hs |].
    exists other; split; [exact Ha |]. split; [| exact Hr].
    intros ->. contradiction.
Qed.

(** The theorem where T2 has room for E1 only. *)
Lemma breakdown_keeps_every_delivery_witness :
  dict_get (DynamicRoutingSystem.trucks (BreakdownScenario.fleet 3000)) "T1"
    = Some BreakdownScenario.broken_truck /\
  DynamicRoutingSystem.handle_truck_breakdown (RT := Concrete.runtime)
    (BreakdownScenario.fleet 3000) "T1" 0%nat 5
    = Ok (false, ["Failed to reassign delivery E2"%string],
          snd (fst BreakdownScenario.partial), snd BreakdownScenario.partial) /\
  dict_get (DynamicRoutingSystem.trucks (snd (fst BreakdownScenario.partial))) "T1" = None /\
  forall id, dict_get (DynamicRoutingSystem.deliveries (BreakdownScenario.fleet 3000)) id
               <> None ->
             dict_get (DynamicRoutingSystem.deliveries (snd (fst BreakdownScenario.partial))) id
               <> None.
Proof.
  assert (Hbroken : dict_get (DynamicRoutingSystem.trucks (BreakdownScenario.fleet 3000)) "T1"
                    = Some BreakdownScenario.broken_truck) by reflexivity.
  assert (Hrun : DynamicRoutingSystem.handle_truck_breakdown (RT := Concrete.runtime)
                   (BreakdownScenario.fleet 3000) "T1" 0%nat 5
                 = Ok (false, ["Failed to reassign delivery E2"%string],
                       snd (fst BreakdownScenario.partial), snd BreakdownScenario.partial))
    by (vm_compute; reflexivity).
  split; [exact Hbroken |]. split; [exact Hrun |].
  destruct (breakdown_keeps_every_delivery (RT := Concrete.runtime) _ _ _ _ _ _ _ _ _
              Hbroken Hrun) as [Hgone [_ Hkeys]].
  split; [exact Hgone | exact Hkeys].
Defined.

(** C5, as the code has it.  [handle_truck_breakdown] returns one boolean.
    For a truck that is not registered it is [False], nothing is printed and
    nothing changes.  For a registered truck, whatever its list of
    deliveries, it is [True] exactly when no reassignment failed, that is
    when nothing is printed, and then every delivery of the truck ends in
    progress; every line printed names a delivery of the truck.  When the
    list has no repetition, it is [True] exactly when every delivery of the
    truck ends in progress, and the lines printed name exactly the
    deliveries that end pending. *)
Theorem breakdown_returns_one_boolean {RT : Runtime}
    (self : DynamicRoutingSystem.t) (truck_id : string) (g : Rng) (fuel : nat)
    (success : bool) (printed : list string) (self' : DynamicRoutingSystem.t) (g' : Rng) :
  DynamicRoutingSystem.handle_truck_breakdown self truck_id g fuel
    = Ok (success, printed, self', g') ->
  match dict_get (DynamicRoutingSystem.trucks self) truck_id with
  | None => success = false /\ printed = [] /\ self' = self /\ g' = g
  | Some broken =>
      (success = true <-> printed = []) /\
      (success = true ->
       forall id, In id (DynamicRoutingSystem.deliveries_of broken) ->
                  has_status self' id DynamicRoutingSystem.in_progress) /\
      (forall line, In line printed ->
         exists id, In id (DynamicRoutingSystem.deliveries_of broken) /\
                    line = failure_line id) /\
      (NoDup (DynamicRoutingSystem.deliveries_of broken) ->
       (success = true <->
          forall id, In id (DynamicRoutingSystem.deliveries_of broken) ->
                     has_status self' id DynamicRoutingSystem.in_progress) /\
       (forall id, In (failure_line id) printed <->
                   In id (DynamicRoutingSystem.deliveries_of broken) /\
                   has_status self' id DynamicRoutingSystem.pending))
  end.
Proof.
  intros H.
  destruct (dict_get (DynamicRoutingSystem.trucks self) truck_id) as [broken |] eqn:Eb.
  2:{ unfold DynamicRoutingSystem.handle_truck_breakdown in H. rewrite Eb in H.
      inversion H; subst. repeat split; reflexivity. }
  assert (Hloop : exists objects start,
             Permutation (map DynamicRoutingSystem.failed_id objects)
                         (DynamicRoutingSystem.deliveries_of broken) /\
             for_each objects (DynamicRoutingSystem.reassign_one fuel) (true, [], start, g)
             = Ok (success, printed, self', g')).
  { pose proof H as Hrun. unfold DynamicRoutingSystem.handle_truck_breakdown in Hrun.
    rewrite Eb in Hrun.
    apply bind_Ok in Hrun; destruct Hrun as [[self1 objects] [Hdetach Hrun]].
    apply detach_effect in Hdetach. destruct Hdetach as [_ [_ [Hids _]]].
    exists (DynamicRoutingSystem.sort_by_weight objects). eexists.
    split; [| exact Hrun].
    rewrite <- Hids. apply Permutation_map. apply sort_by_weight_perm. }
  destruct Hloop as [objects [start [Hperm Hrun]]].
  assert (Hflag :
            (success = true <-> printed = []) /\
            (success = true ->
             forall id, In id (map DynamicRoutingSystem.failed_id objects) ->
                        has_status self' id DynamicRoutingSystem.in_progress) /\
            (forall line, In line printed ->
               exists id, In id (map DynamicRoutingSystem.failed_id objects) /\
                          line = failure_line id)).
  { apply (for_each_prefix
             (fun (pre : list DynamicRoutingSystem.failed)
                  (acc : bool * list string * DynamicRoutingSystem.t * Rng) =>
                (fst (fst (fst acc)) = true <-> snd (fst (fst acc)) = []) /\
                (fst (fst (fst acc)) = true ->
                 forall id, In id (map DynamicRoutingSystem.failed_id pre) ->
                            has_status (snd (fst acc)) id DynamicRoutingSystem.in_progress) /\
                (forall line, In line (snd (fst (fst acc))) ->
                   exists id, In id (map DynamicRoutingSystem.failed_id pre) /\
                              line = failure_line id))
             (DynamicRoutingSystem.reassign_one fuel) objects []
             (true, [], start, g) (success, printed, self', g')); [| | exact Hrun].
    - intros pre x [[[ok lines] s] g0] acc' _ [Hok [Hdone Hlines]] Hstep.
      cbn [fst snd] in Hok, Hdone, Hlines.
      apply reassign_one_effect in Hstep.
      destruct Hstep
        as [[s' [g1 [tid [tr [d [route [-> [_ [_ [Hdel _]]]]]]]]]] | ->]; cbn [fst snd].
      + split; [exact Hok |]. split.
        * intros Hyes id Hid. rewrite map_app in Hid. apply in_app_or in Hid.
          destruct (String.eqb_spec id (DynamicRoutingSystem.failed_id x)) as [-> | Hne].
          -- eexists. rewrite Hdel, dict_get_set_same. split; reflexivity.
          -- destruct Hid as [Hid | [Hx | []]]; [| congruence].
             destruct (Hdone Hyes id Hid) as [d0 [Hd0 Hs0]].
             exists d0. rewrite Hdel, dict_get_set_other by exact Hne. split; assumption.
        * intros line Hline. destruct (Hlines line Hline) as [id [Hid Heq]].
          exists id. split; [| exact Heq]. rewrite map_app. apply in_or_app. left; exact Hid.
      + split; [split; [discriminate | intros E; destruct lines; discriminate E] |].
        split; [discriminate |].
        intros line Hline. apply in_app_or in Hline. rewrite map_app.
        destruct Hline as [Hline | [<- | []]].
        * destruct (Hlines line Hline) as [id [Hid Heq]].
          exists id. split; [apply in_or_app; left; exact Hid | exact Heq].
        * exists (DynamicRoutingSystem.failed_id x).
          split; [apply in_or_app; right; left; reflexivity | reflexivity].
    - cbn [fst snd]. split; [split; reflexivity |].
      split; [intros _ id [] | intros line []]. }
  destruct Hflag as [Hnone [Hall Hnames]].
  split; [exact Hnone |]. split.
  { intros Hyes id Hid. apply (Hall Hyes).
    eapply Permutation_in; [symmetry; exact Hperm | exact Hid]. }
  split.
  { intros line Hline. destruct (Hnames line Hline) as [id [Hid Heq]].
    exists id. split; [| exact Heq]. eapply Permutation_in; [exact Hperm | exact Hid]. }
  intros Hnodup.
  destruct (breakdown_outcome _ _ _ _ _ _ Eb H) as [objects' [Hperm' Hinv]].
  destruct Hinv as [_ [_ [_ [_ Hreport]]]].
  destruct Hreport as [Hsucc Hlines].
  { eapply Permutation_NoDup; [symmetry; exact Hperm' | exact Hnodup]. }
  split.
  + rewrite Hsucc. split; intros Hevery id Hid; apply Hevery.
    * eapply Permutation_in; [symmetry; exact Hperm' | exact Hid].
    * eapply Permutation_in; [exact Hperm' | exact Hid].
  + intros id. rewrite Hlines. split; intros [Hid Hst]; (split; [| exact Hst]).
    * eapply Permutation_in; [exact Hperm' | exact Hid].
    * eapply Permutation_in; [symmetry; exact Hperm' | exact Hid].
Qed.

(** The theorem where T2 has room for E1 only: [False] is returned and the
    line printed names E2. *)
Lemma breakdown_returns_one_boolean_witness :
  DynamicRoutingSystem.handle_truck_breakdown (RT := Concrete.runtime)
    (BreakdownScenario.fleet 3000) "T1" 0%nat 5
    = Ok (false, ["Failed to reassign delivery E2"%string],
          snd (fst BreakdownScenario.partial), snd BreakdownScenario.partial) /\
  (false = true <-> ["Failed to reassign delivery E2"%string] = []) /\
  (false = true <->
     forall id, In id ["E2"; "E1"]%string ->
                has_status (snd (fst BreakdownScenario.partial)) id
                           DynamicRoutingSystem.in_progress) /\
  (forall id, In (failure_line id) ["Failed to reassign delivery E2"%string] <->
              In id ["E2"; "E1"]%string /\
              has_status (snd (fst BreakdownScenario.partial)) id
                         DynamicRoutingSystem.pending).
Proof.
  assert (Hrun : DynamicRoutingSystem.handle_truck_breakdown (RT := Concrete.runtime)
                   (BreakdownScenario.fleet 3000) "T1" 0%nat 5
                 = Ok (false, ["Failed to reassign delivery E2"%string],
                       snd (fst BreakdownScenario.partial), snd BreakdownScenario.partial))
    by (vm_compute; reflexivity).
  split; [exact Hrun |].
  pose proof (breakdown_returns_one_boolean (RT := Concrete.runtime) _ _ _ _ _ _ _ _ Hrun)
    as H.
  change (dict_get (DynamicRoutingSystem.trucks (BreakdownScenario.fleet 3000)) "T1")
    with (Some BreakdownScenario.broken_truck) in H.
  cbv beta iota in H. destruct H as [Hnone [_ [_ Hexact]]].
  split; [exact Hnone |]. apply Hexact.
  repeat constructor; simpl; intuition discriminate.
Defined.

(** The value returned by [handle_truck_breakdown] would tell, for each
    delivery of the broken truck, how the delivery ended. *)
Definition returned_value_tells_each_delivery (RT : Runtime) : Prop :=
  exists decode : bool -> string -> DynamicRoutingSystem.status,
    forall self truck_id broken g fuel success printed self' g' id,
      dict_get (DynamicRoutingSystem.trucks self) truck_id = Some broken ->
      DynamicRoutingSystem.handle_truck_breakdown self truck_id g fuel
        = Ok (success, printed, self', g') ->
      In id (DynamicRoutingSystem.deliveries_of broken) ->
      has_status self' id (decode success id).

(** C5 as stated fails.  With room for E1 only, and with room for nothing,
    the value returned is [False] both times, while E1 ends in progress in
    the first run and pending in the second. *)
Lemma breakdown_result_is_collapsed :
  ~ returned_value_tells_each_delivery Concrete.runtime.
Proof.
  intros [decode Hdecode].
  assert (Hpartial : DynamicRoutingSystem.handle_truck_breakdown (RT := Concrete.runtime)
                       (BreakdownScenario.fleet 3000) "T1" 0%nat 5
                     = Ok (false, snd (fst (fst BreakdownScenario.partial)),
                           snd (fst BreakdownScenario.partial),
                           snd BreakdownScenario.partial)).
  { vm_compute; reflexivity. }
  assert (Hnothing : DynamicRoutingSystem.handle_truck_breakdown (RT := Concrete.runtime)
                       (BreakdownScenario.fleet 1000) "T1" 0%nat 5
                     = Ok (false, snd (fst (fst BreakdownScenario.nothing)),
                           snd (fst BreakdownScenario.nothing),
                           snd BreakdownScenario.nothing)).
  { vm_compute; reflexivity. }
  assert (H1 := Hdecode (BreakdownScenario.fleet 3000) "T1"%string
                  BreakdownScenario.broken_truck _ _ _ _ _ _ "E1"%string
                  eq_refl Hpartial (or_intror (or_introl eq_refl))).
  assert (H2 := Hdecode (BreakdownScenario.fleet 1000) "T1"%string
                  BreakdownScenario.broken_truck _ _ _ _ _ _ "E1"%string
                  eq_refl Hnothing (or_intror (or_introl eq_refl))).
  destruct H1 as [d1 [Hd1 Hs1]]. destruct H2 as [d2 [Hd2 Hs2]].
  vm_compute in Hd1. vm_compute in Hd2.
  inversion Hd1; subst d1. inversion Hd2; subst d2.
  simpl in Hs1, Hs2. congruence.
Qed.

(** ** Several deliveries completed by one move *)

Module CompletionScenario.
Import DynamicRoutingSystem.
Open Scope string_scope.

(** Truck T1 carries D1 and D2, both to be dropped at (5, 0). *)
Definition two_at_one_place : t :=
  mk [("T1", mk_truck 1000 400 (0, 0) (Some []) ["D1"; "D2"] 600)]
     [("D1", mk_delivery (1, 0) (5, 0) 400 in_progress (Some "T1") None);
      ("D2", mk_delivery (2, 0) (5, 0) 200 in_progress (Some "T1") None)]
     Scenario.small_optimizer.

End CompletionScenario.

(** C4 fails on the code.  The truck moves to (5, 0), the dropoff of both
    its deliveries.  D1 is completed and taken off the list of the truck,
    which shortens the list under the iterator, so that D2 is never looked
    at: it stays in progress, stays on the list, and its weight of 200 is
    neither given back to the remaining capacity nor taken off the committed
    weight. *)
Theorem update_truck_status_skips_next {RT : Runtime} :
  Qltb (sqrt 0) (1 # 100) = true ->
  exists s',
    DynamicRoutingSystem.update_truck_status
      CompletionScenario.two_at_one_place "T1" (5, 0) = Ok s' /\
    Qltb (DynamicRoutingSystem._calculate_distance (5, 0) (5, 0)) (1 # 100) = true /\
    has_status s' "D1" DynamicRoutingSystem.completed /\
    has_status s' "D2" DynamicRoutingSystem.in_progress /\
    dict_get (DynamicRoutingSystem.trucks s') "T1"
      = Some (DynamicRoutingSystem.mk_truck 1000 800 (5, 0) (Some []) ["D2"%string] 200).
Proof.
  intros Hnear.
  assert (Hd : Qltb (DynamicRoutingSystem._calculate_distance (5, 0) (5, 0)) (1 # 100)
               = true) by exact Hnear.
  unfold DynamicRoutingSystem.update_truck_status, CompletionScenario.two_at_one_place.
  cbn -[DynamicRoutingSystem._calculate_distance Qltb].
  rewrite Hd. cbn -[DynamicRoutingSystem._calculate_distance Qltb].
  eexists; split; [reflexivity |]. split; [reflexivity |].
  split; [eexists; split; reflexivity |].
  split; [eexists; split; reflexivity |].
  vm_compute. reflexivity.
Qed.

(** The same on the concrete runtime. *)
Lemma update_truck_status_skips_next_witness :
  Qltb (sqrt (Runtime := Concrete.runtime) 0) (1 # 100) = true /\
  exists s',
    DynamicRoutingSystem.update_truck_status (RT := Concrete.runtime)
      CompletionScenario.two_at_one_place "T1" (5, 0) = Ok s' /\
    Qltb (DynamicRoutingSystem._calculate_distance (RT := Concrete.runtime) (5, 0) (5, 0))
         (1 # 100) = true /\
    has_status s' "D1" DynamicRoutingSystem.completed /\
    has_status s' "D2" DynamicRoutingSystem.in_progress /\
    dict_get (DynamicRoutingSystem.trucks s') "T1"
      = Some (DynamicRoutingSystem.mk_truck 1000 800 (5, 0) (Some []) ["D2"%string] 200).
Proof.
  split; [reflexivity |].
  apply (update_truck_status_skips_next (RT := Concrete.runtime)). reflexivity.
Defined.

(** ** State kept between two calls of the optimizer *)

Module TwoCalls.

Definition first_stops : list Point := [(0, 0); (1, 0); (2, 0)].
Definition second_stops : list Point := [(0, 0); (10, 0); (20, 0)].

(** The optimizer and the generator after [optimize_route] on [first_stops]. *)
Definition after_first : option (list Point) * CIACO.t * nat :=
  Eval vm_compute in
    match CIACO.optimize_route (RT := Concrete.runtime)
            Scenario.small_optimizer first_stops 0%nat 5 with
    | Ok r => r
    | _ => (None, Scenario.small_optimizer, 0%nat)
    end.

End TwoCalls.

(** ** The route-acceptance gate of [assign_new_order] *)

Section OrderIntake.
Context {RT : Runtime}.
Import DeliveryManagementSystem.

(** The candidates [cands], evaluated one after the other on the trucks
    [trucks], were all turned down; the optimizer and the generator go from
    [(opt, g)] to [(opt', g')]. *)
Inductive all_rejected (trucks : list Truck.t) (order : Order.t) (fuel : nat)
  : list nat -> CIACO.t -> Rng -> CIACO.t -> Rng -> Prop :=
| rejected_nil (opt : CIACO.t) (g : Rng) :
    all_rejected trucks order fuel [] opt g opt g
| rejected_cons (i : nat) (rest : list nat) (truck : Truck.t)
    (route : option (list Point)) (opt opt1 opt' : CIACO.t) (g g1 g' : Rng) :
    nth_error trucks i = Some truck ->
    evaluate opt truck order g fuel = Ok (route, false, opt1, g1) ->
    all_rejected trucks order fuel rest opt1 g1 opt' g' ->
    all_rejected trucks order fuel (i :: rest) opt g opt' g'.



Lemma try_candidates_outcome (order : Order.t) (fuel : nat) (trucks0 : list Truck.t) :
  forall (candidates : list nat) (opt : CIACO.t) (g : Rng)
         (res : option Truck.t) (self' : t) (g' : Rng),
    try_candidates candidates (mk trucks0 opt) order g fuel = Ok (res, self', g') ->
    match res with
    | None =>
        trucks self' = trucks0 /\
        all_rejected trucks0 order fuel candidates opt g (ciaco_optimizer self') g'
    | Some truck' =>
        exists before i after truck route opt1 g1,
          candidates = before ++ i :: after /\
          all_rejected trucks0 order fuel before opt g opt1 g1 /\
          nth_error trucks0 i = Some truck /\
          evaluate opt1 truck order g1 fuel = Ok (route, true, ciaco_optimizer self', g') /\
          truck' = Truck.set_route (Truck.add_order truck order) route /\
          trucks self' = list_set trucks0 i truck'
    end.
Proof.
  induction candidates as [| i rest IH]; intros opt g res self' g' H; simpl in H.
  - inversion H; subst. simpl. split; [reflexivity | constructor].
  - destruct (nth_error trucks0 i) as [truck |] eqn:Et; [| discriminate].
    apply bind_Ok in H; destruct H as [[[[route accepted] opt1] g1] [Hev H]].
    destruct accepted.
    + inversion H; subst; clear H. simpl.
      exists [], i, rest, truck, route, opt, g.
      split; [reflexivity |]. split; [constructor |]. split; [exact Et |].
      split; [exact Hev |]. split; reflexivity.
    + apply IH in H. destruct res as [truck' |].
      * destruct H as [before [j [after [tr [r [o1 [g2 [Hc [Hrej [Hn [He [Ht Hl]]]]]]]]]]]].
        exists (i :: before), j, after, tr, r, o1, g2.
        split; [simpl; rewrite Hc; reflexivity |].
        split; [econstructor; eassumption |].
        repeat split; assumption.
      * destruct H as [Htr Hrej]. split; [exact Htr |].
        econstructor; eassumption.
Qed.

End OrderIntake.

Module OrderScenario.
Import DeliveryManagementSystem.
Open Scope string_scope.

(** Truck A is on a route of length 2; truck B is idle at (5, 0). *)
Definition busy : Truck.t := Truck.mk "A" (0, 0) 1000 [] (Some [(0, 0); (1, 0)]) 1000.
Definition idle : Truck.t := Truck.__init__ "B" (5, 0) 1000.
Definition fleet : t := mk [busy; idle] Scenario.small_optimizer.

(** An order far away from both. *)
Definition far : Order.t := Order.mk "O1" 100 (10, 0) (20, 0).

Definition assigned : option Truck.t * t * nat :=
  Eval vm_compute in
    match assign_new_order (RT := Concrete.runtime) fleet far 0%nat 5 with
    | Ok r => r
    | _ => (None, fleet, 0%nat)
    end.

Definition served : Truck.t :=
  Truck.mk "B" (5, 0) 1000 [far] (Some [(5, 0); (10, 0); (20, 0); (5, 0)]) 900.

End OrderScenario.

(** ** The initial pheromone inside a cluster *)

Module FiveStops.

(** Five stops on a line, in the groups {0}, {1, 2}, {3, 4}. *)
Definition stops : list Point := [(0, 0); (1, 0); (2, 0); (5, 0); (6, 0)].

End FiveStops.

(** ** Entries of a square matrix *)

(** [m] has [n] rows of length [n]. *)
Definition square (n : nat) (m : Matrix) : Prop :=
  List.length m = n /\ Forall (fun row => List.length row = n) m.

Lemma square_row (n : nat) (m : Matrix) (i : nat) :
  square n m -> (i < n)%nat -> List.length (nth i m []) = n.
Proof.
  intros [Hlen Hrows] Hi. rewrite Forall_forall in Hrows.
  apply Hrows. apply nth_In. lia.
Qed.

Lemma Forall_list_set {A : Type} (P : A -> Prop) (l : list A) (i : nat) (x : A) :
  Forall P l -> P x -> Forall P (list_set l i x).
Proof.
  intros Hl Hx. revert i; induction Hl as [| a l Ha Hl IH]; intros i; simpl.
  - constructor.
  - destruct i; constructor; auto.
Qed.

Lemma mset_square (n : nat) (m : Matrix) (i j : nat) (x : Q) :
  square n m -> (i < n)%nat -> square n (mset m i j x).
Proof.
  intros Hsq Hi. pose proof (square_row n m i Hsq Hi) as Hrow.
  destruct Hsq as [Hlen Hrows]. unfold mset. split.
  - rewrite length_list_set. exact Hlen.
  - apply Forall_list_set; [exact Hrows |]. rewrite length_list_set. exact Hrow.
Qed.

Lemma mget_mset (n : nat) (m : Matrix) (i j a b : nat) (x : Q) :
  square n m -> (i < n)%nat -> (j < n)%nat ->
  mget (mset m i j x) a b = if Nat.eqb a i && Nat.eqb b j then x else mget m a b.
Proof.
  intros Hsq Hi Hj. pose proof (square_row n m i Hsq Hi) as Hrow.
  destruct Hsq as [Hlen _]. unfold mget, mset.
  destruct (Nat.eqb_spec a i) as [-> | Hai]; simpl.
  - rewrite nth_list_set_same by lia.
    destruct (Nat.eqb_spec b j) as [-> | Hbj].
    + apply nth_list_set_same. lia.
    + apply nth_list_set_other. intros E; apply Hbj; symmetry; exact E.
  - rewrite nth_list_set_other by (intros E; apply Hai; symmetry; exact E).
    reflexivity.
Qed.

Lemma mupdate_square (n : nat) (m : Matrix) (i j : nat) (f : Q -> Q) :
  square n m -> (i < n)%nat -> square n (mupdate m i j f).
Proof. intros; unfold mupdate; apply mset_square; assumption. Qed.

Lemma mget_mupdate (n : nat) (m : Matrix) (i j a b : nat) (f : Q -> Q) :
  square n m -> (i < n)%nat -> (j < n)%nat ->
  mget (mupdate m i j f) a b
  = if Nat.eqb a i && Nat.eqb b j then f (mget m i j) else mget m a b.
Proof. intros; unfold mupdate; apply mget_mset with (n := n); assumption. Qed.

Lemma mconst_square (n : nat) (v : Q) : square n (mconst n v).
Proof.
  unfold mconst. split; [apply repeat_length |].
  apply Forall_forall. intros row Hrow. apply repeat_spec in Hrow. subst row.
  apply repeat_length.
Qed.

Lemma mget_mconst (n : nat) (v : Q) (a b : nat) :
  (a < n)%nat -> (b < n)%nat -> mget (mconst n v) a b = v.
Proof.
  intros Ha Hb. unfold mget, mconst.
  rewrite nth_repeat_lt by exact Ha. apply nth_repeat_lt; exact Hb.
Qed.

Lemma fill_diagonal_from (n : nat) (v : Q) (l : list nat) :
  forall m : Matrix,
    square n m -> Forall (fun i => (i < n)%nat) l ->
    square n (fold_left (fun acc i => mset acc i i v) l m) /\
    forall a b,
      mget (fold_left (fun acc i => mset acc i i v) l m) a b
      = if Nat.eqb a b && existsb (Nat.eqb a) l then v else mget m a b.
Proof.
  induction l as [| i l IH]; intros m Hsq Hl; simpl.
  - split; [exact Hsq |]. intros a b. rewrite andb_false_r. reflexivity.
  - inversion Hl as [| ? ? Hi Hrest]; subst.
    destruct (IH (mset m i i v) (mset_square n m i i v Hsq Hi) Hrest) as [Hsq' Hget].
    split; [exact Hsq' |]. intros a b. rewrite Hget.
    rewrite (mget_mset n m i i a b v Hsq Hi Hi).
    destruct (Nat.eqb_spec a b) as [-> | Hab]; simpl.
    + destruct (Nat.eqb_spec b i) as [-> | Hbi]; simpl.
      * destruct (existsb (Nat.eqb i) l); reflexivity.
      * reflexivity.
    + destruct (Nat.eqb_spec a i) as [-> | Hai]; simpl; [| reflexivity].
      destruct (Nat.eqb_spec b i) as [-> | Hbi]; [contradiction Hab; reflexivity |].
      reflexivity.
Qed.

Lemma fill_diagonal_spec (n : nat) (m : Matrix) (v : Q) :
  square n m ->
  square n (fill_diagonal m v) /\
  forall a b, (a < n)%nat ->
    mget (fill_diagonal m v) a b = if Nat.eqb a b then v else mget m a b.
Proof.
  intros Hsq. unfold fill_diagonal. destruct Hsq as [Hlen Hrows]. rewrite Hlen.
  destruct (fill_diagonal_from n v (seq 0 n) m (conj Hlen Hrows)) as [Hsq' Hget].
  { apply Forall_forall. intros i Hi. apply in_seq in Hi. lia. }
  split; [exact Hsq' |]. intros a b Ha. rewrite Hget.
  assert (E : existsb (Nat.eqb a) (seq 0 n) = true).
  { apply existsb_eqb_In. apply in_seq. lia. }
  rewrite E, andb_true_r. reflexivity.
Qed.

(** ** The boost of [_initialize_pheromones], entry by entry *)

Definition inb (x : nat) (l : list nat) : bool := existsb (Nat.eqb x) l.

Lemma inb_In (x : nat) (l : list nat) : inb x l = true <-> In x l.
Proof. apply existsb_eqb_In. Qed.

Lemma inb_not_In (x : nat) (l : list nat) : inb x l = false <-> ~ In x l.
Proof.
  rewrite <- inb_In. destruct (inb x l); split; intros H; try reflexivity;
    try discriminate; try (intros E; discriminate E).
  contradiction H; reflexivity.
Qed.

Lemma mget_boost (n : nat) (m : Matrix) (i j a b : nat) :
  square n m -> (i < n)%nat -> (j < n)%nat -> i <> j ->
  square n (CIACO.boost m i j) /\
  mget (CIACO.boost m i j) a b
  = if Nat.eqb a i && Nat.eqb b j || Nat.eqb a j && Nat.eqb b i
    then mget m a b * (3 # 2) else mget m a b.
Proof.
  intros Hsq Hi Hj Hij. unfold CIACO.boost.
  pose proof (mupdate_square n m i j (fun x => x * (3 # 2)) Hsq Hi) as Hsq1.
  split; [apply mupdate_square; assumption |].
  rewrite (mget_mupdate n _ j i a b _ Hsq1 Hj Hi).
  rewrite !(mget_mupdate n m i j _ _ _ Hsq Hi Hj).
  assert (Eji : Nat.eqb j i = false) by (apply Nat.eqb_neq; congruence).
  rewrite Eji. cbn [andb].
  destruct (Nat.eqb_spec a i) as [Hai | Hai], (Nat.eqb_spec b j) as [Hbj | Hbj],
           (Nat.eqb_spec a j) as [Haj | Haj], (Nat.eqb_spec b i) as [Hbi | Hbi];
    cbn [andb orb]; try reflexivity;
    try (exfalso; congruence); subst; reflexivity.
Qed.

(** The inner loop [for j in cluster], for one [i]. *)
Lemma boost_row (n i : nat) (l : list nat) :
  (i < n)%nat ->
  forall m : Matrix,
    square n m -> NoDup l -> Forall (fun j => (j < n)%nat) l ->
    square n (fold_left (fun m j => if Nat.eqb i j then m else CIACO.boost m i j) l m) /\
    forall a b,
      mget (fold_left (fun m j => if Nat.eqb i j then m else CIACO.boost m i j) l m) a b
      == mget m a b *
         (if Nat.eqb a i && inb b l && negb (Nat.eqb b i)
             || Nat.eqb b i && inb a l && negb (Nat.eqb a i)
          then 3 # 2 else 1).
Proof.
  intros Hi. induction l as [| j l IH]; intros m Hsq Hnd Hl; simpl.
  - split; [exact Hsq |]. intros a b. rewrite !andb_false_r. simpl. ring.
  - inversion Hnd as [| ? ? Hfresh Hnd']; subst.
    inversion Hl as [| ? ? Hj Hl']; subst.
    apply inb_not_In in Hfresh.
    destruct (Nat.eqb_spec i j) as [<- | Hij].
    + destruct (IH m Hsq Hnd' Hl') as [Hsq' Hget]. split; [exact Hsq' |].
      intros a b. rewrite Hget. unfold inb in *. simpl.
      destruct (Nat.eqb_spec a i), (Nat.eqb_spec b i); subst; simpl;
        rewrite ?Hfresh, ?andb_false_r; simpl; reflexivity.
    + destruct (mget_boost n m i j 0 0 Hsq Hi Hj Hij) as [Hsq1 _].
      destruct (IH _ Hsq1 Hnd' Hl') as [Hsq' Hget]. split; [exact Hsq' |].
      intros a b. rewrite Hget.
      rewrite (proj2 (mget_boost n m i j a b Hsq Hi Hj Hij)).
      unfold inb in *. simpl.
      destruct (Nat.eqb_spec a i), (Nat.eqb_spec b i),
               (Nat.eqb_spec a j), (Nat.eqb_spec b j); subst; simpl;
        try contradiction; try (contradiction Hij; reflexivity);
        rewrite ?Hfresh, ?andb_false_r, ?andb_true_r; simpl;
        repeat match goal with
               | |- context [existsb ?f l] => destruct (existsb f l)
               end;
        simpl; ring.
Qed.

(** The two nested loops over one cluster. *)
Lemma boost_rows (n : nat) (c : list nat) :
  NoDup c -> Forall (fun j => (j < n)%nat) c ->
  forall (lo : list nat) (m : Matrix),
    square n m -> NoDup lo -> Forall (fun i => (i < n)%nat) lo ->
    let result :=
      fold_left (fun m i =>
                   fold_left (fun m j => if Nat.eqb i j then m else CIACO.boost m i j) c m)
                lo m in
    square n result /\
    forall a b,
      mget result a b
      == mget m a b *
         ((if inb a lo && inb b c && negb (Nat.eqb a b) then 3 # 2 else 1) *
          (if inb b lo && inb a c && negb (Nat.eqb a b) then 3 # 2 else 1)).
Proof.
  intros Hc Hcn. induction lo as [| i lo IH]; intros m Hsq Hnd Hl; simpl.
  - split; [exact Hsq |]. intros a b. ring.
  - inversion Hnd as [| ? ? Hfresh Hnd']; subst.
    inversion Hl as [| ? ? Hi Hl']; subst.
    apply inb_not_In in Hfresh.
    destruct (boost_row n i c Hi m Hsq Hc Hcn) as [Hsq1 Hget1].
    destruct (IH _ Hsq1 Hnd' Hl') as [Hsq' Hget]. split; [exact Hsq' |].
    intros a b. rewrite Hget, Hget1. unfold inb in *. simpl.
    destruct (Nat.eqb_spec a i) as [Hai | Hai], (Nat.eqb_spec b i) as [Hbi | Hbi];
      subst; simpl.
    + rewrite Nat.eqb_refl. rewrite !andb_false_r. simpl. ring.
    + assert (E : Nat.eqb i b = false) by (apply Nat.eqb_neq; congruence).
      rewrite E, Hfresh. simpl. rewrite !andb_true_r.
      repeat match goal with
             | |- context [existsb ?f ?l] => destruct (existsb f l)
             end; simpl; ring.
    + assert (E : Nat.eqb a i = false) by (apply Nat.eqb_neq; congruence).
      rewrite E, Hfresh. simpl. rewrite !andb_true_r.
      repeat match goal with
             | |- context [existsb ?f ?l] => destruct (existsb f l)
             end; simpl; ring.
    + ring.
Qed.

Lemma boost_cluster_entries (n : nat) (c : list nat) (m : Matrix) :
  square n m -> NoDup c -> Forall (fun j => (j < n)%nat) c ->
  square n (CIACO.boost_cluster m c) /\
  forall a b,
    mget (CIACO.boost_cluster m c) a b
    == mget m a b * (if inb a c && inb b c && negb (Nat.eqb a b) then 9 # 4 else 1).
Proof.
  intros Hsq Hc Hcn.
  destruct (boost_rows n c Hc Hcn c m Hsq Hc Hcn) as [Hsq' Hget].
  split; [exact Hsq' |]. intros a b. unfold CIACO.boost_cluster. rewrite Hget.
  rewrite (andb_comm (inb b c) (inb a c)).
  destruct (inb a c && inb b c && negb (Nat.eqb a b)); ring.
Qed.

(** [a] and [b] lie in one cluster. *)
Definition same_cluster (cls : list (list nat)) (a b : nat) : bool :=
  existsb (fun c => inb a c && inb b c) cls.

Lemma same_cluster_elsewhere (cls : list (list nat)) (a b : nat) :
  ~ In a (List.concat cls) -> same_cluster cls a b = false.
Proof.
  induction cls as [| c cls IH]; simpl; intros Hnot; [reflexivity |].
  rewrite IH by (intros H; apply Hnot; apply in_or_app; right; exact H).
  assert (E : inb a c = false).
  { apply inb_not_In. intros H; apply Hnot; apply in_or_app; left; exact H. }
  rewrite E. reflexivity.
Qed.

Lemma same_cluster_sym (cls : list (list nat)) (a b : nat) :
  same_cluster cls a b = same_cluster cls b a.
Proof.
  unfold same_cluster. induction cls as [| c cls IH]; simpl; [reflexivity |].
  rewrite IH, (andb_comm (inb a c)). reflexivity.
Qed.

Lemma NoDup_app_apart {A : Type} (l1 l2 : list A) (a : A) :
  NoDup (l1 ++ l2) -> In a l1 -> ~ In a l2.
Proof.
  induction l1 as [| x l1 IH]; simpl; intros Hnd Hin; [contradiction |].
  inversion Hnd as [| ? ? Hx Hrest]; subst.
  destruct Hin as [-> | Hin]; [| apply IH; assumption].
  intros H2. apply Hx. apply in_or_app; right; exact H2.
Qed.

(** The loop [for cluster in self.clusters] over disjoint clusters. *)
Lemma boost_clusters_entries (n : nat) (cls : list (list nat)) :
  forall m : Matrix,
    square n m -> NoDup (List.concat cls) -> Forall (fun j => (j < n)%nat) (List.concat cls) ->
    square n (fold_left CIACO.boost_cluster cls m) /\
    forall a b,
      mget (fold_left CIACO.boost_cluster cls m) a b
      == mget m a b * (if same_cluster cls a b && negb (Nat.eqb a b) then 9 # 4 else 1).
Proof.
  induction cls as [| c cls IH]; intros m Hsq Hnd Hall; simpl.
  - split; [exact Hsq |]. intros a b. ring.
  - simpl in Hnd, Hall. apply Forall_app in Hall. destruct Hall as [Hcn Halln].
    pose proof (NoDup_app_remove_l _ _ Hnd) as Hnd'.
    pose proof (NoDup_app_remove_r _ _ Hnd) as Hc.
    destruct (boost_cluster_entries n c m Hsq Hc Hcn) as [Hsq1 Hget1].
    destruct (IH _ Hsq1 Hnd' Halln) as [Hsq' Hget]. split; [exact Hsq' |].
    intros a b. rewrite Hget, Hget1.
    destruct (inb a c) eqn:Ea; simpl.
    + assert (Hs : same_cluster cls a b = false).
      { apply same_cluster_elsewhere. apply inb_In in Ea.
        exact (NoDup_app_apart _ _ _ Hnd Ea). }
      rewrite Hs, orb_false_r.
      destruct (inb b c), (Nat.eqb a b); simpl; ring.
    + destruct (same_cluster cls a b && negb (Nat.eqb a b)); ring.
Qed.

(** ** The clusters are a partition of the positions *)

Lemma concat_singletons (l : list nat) : List.concat (map (fun i => [i]) l) = l.
Proof. induction l as [| i l IH]; simpl; [reflexivity | rewrite IH; reflexivity]. Qed.

Lemma concat_repeat_nil (k : nat) : List.concat (repeat (@nil nat) k) = [].
Proof. induction k as [| k IH]; simpl; [reflexivity | exact IH]. Qed.

Lemma map_fst_combine {A B : Type} (l1 : list A) :
  forall l2 : list B, List.length l1 = List.length l2 -> map fst (combine l1 l2) = l1.
Proof.
  induction l1 as [| a l1 IH]; intros [| b l2] H; simpl in *; try discriminate;
    [reflexivity |].
  rewrite IH by lia. reflexivity.
Qed.

Lemma concat_list_set_app (l : list (list nat)) :
  forall (idx i : nat) (c : list nat),
    nth_error l idx = Some c ->
    Permutation (List.concat (list_set l idx (c ++ [i]))) (List.concat l ++ [i]).
Proof.
  induction l as [| c0 l IH]; intros idx i c H.
  - destruct idx; discriminate H.
  - destruct idx as [| idx]; simpl in *.
    + inversion H; subst c0. rewrite <- !app_assoc.
      apply Permutation_app_head. apply Permutation_app_comm.
    + rewrite (IH idx i c H). rewrite app_assoc. reflexivity.
Qed.

Section Partition.
Context {RT : Runtime}.
Import CIACO.

Lemma assign_points_partition (points centroids : list Point) (k : nat)
    (cls : list (list nat)) :
  assign_points points centroids k = Ok cls ->
  Permutation (List.concat cls) (seq 0 (List.length points)).
Proof.
  unfold assign_points. intros H.
  pose proof (fun Hbody Hinit =>
                for_each_prefix
                  (fun (pre : list (nat * Point)) (acc : list (list nat)) =>
                     Permutation (List.concat acc) (map fst pre))
                  _ _ [] _ cls Hbody Hinit H) as Hloop.
  cbn [app] in Hloop. rewrite map_fst_combine in Hloop by apply length_seq.
  apply Hloop; clear Hloop H.
  - intros done x a0 a1 _ Hperm Hstep.
    apply bind_Ok in Hstep; destruct Hstep as [idx [_ Hstep]].
    unfold append_at in Hstep.
    destruct (nth_error a0 idx) as [c |] eqn:E; [| discriminate].
    inversion Hstep; subst a1; clear Hstep.
    rewrite (concat_list_set_app a0 idx (fst x) c E), map_app. simpl.
    apply Permutation_app_tail. exact Hperm.
  - rewrite concat_repeat_nil. constructor.
Qed.

Lemma kmeans_partition (points : list Point) (k : nat) :
  forall (more : nat) (centroids : list Point) (cls : list (list nat)),
    kmeans more points centroids k = Ok cls ->
    Permutation (List.concat cls) (seq 0 (List.length points)).
Proof.
  induction more as [| more IH]; intros centroids cls H; simpl in H;
    apply bind_Ok in H; destruct H as [cl [Hcl H]];
    destruct (_ && _); try (inversion H; subst; eapply assign_points_partition; eassumption).
  eapply IH; exact H.
Qed.

Lemma cluster_stops_partition (self : t) (g : Rng) (points : list Point)
    (cls : list (list nat)) (g' : Rng) :
  stops self = Some points ->
  _cluster_stops self g = Ok (cls, g') ->
  Permutation (List.concat cls) (seq 0 (List.length points)).
Proof.
  intros Hs H. unfold _cluster_stops in H. rewrite Hs in H.
  destruct (Z.of_nat (List.length points) <=? num_clusters self)%Z.
  - inversion H; subst. rewrite concat_singletons. reflexivity.
  - cbv zeta in H.
    apply bind_Ok in H; destruct H as [centroids [_ H]].
    apply bind_Ok in H; destruct H as [cl [Hk H]].
    inversion H; subst. eapply kmeans_partition; exact Hk.
Qed.

(** What the code does where C7 speaks of a factor 1.5: right after the
    initialization in [optimize_route] the clusters are a partition of the
    positions, the diagonal of the pheromone matrix is 0, an entry across
    two clusters is the initial pheromone, and an entry inside a cluster is
    the initial pheromone times 1.5 times 1.5. *)
Lemma initial_pheromone_entries (self : t) (points : list Point) (g : Rng)
    (self' : t) (g' : Rng) :
  prepare self points g = Ok (self', g') ->
  exists cls m,
    clusters self' = Some cls /\ pheromone_matrix self' = Some m /\
    Permutation (List.concat cls) (seq 0 (List.length points)) /\
    forall a b, (a < List.length points)%nat -> (b < List.length points)%nat ->
      mget m a b ==
      if Nat.eqb a b then 0
      else if same_cluster cls a b
           then initial_pheromone self * (3 # 2) * (3 # 2)
           else initial_pheromone self.
Proof.
  unfold prepare. intros H.
  apply bind_Ok in H; destruct H as [vis [_ H]].
  apply bind_Ok in H; destruct H as [[cls g1] [Hcl H]].
  apply bind_Ok in H; destruct H as [self5 [H5 H]].
  inversion H; subst self5 g'; clear H.
  apply cluster_stops_partition with (points := points) in Hcl; [| reflexivity].
  unfold _initialize_pheromones in H5. cbn in H5.
  inversion H5; subst self'; clear H5. cbn.
  eexists cls, _. split; [reflexivity |]. split; [reflexivity |].
  split; [exact Hcl |]. intros a b Ha Hb.
  set (n := List.length points) in *.
  destruct (fill_diagonal_spec n (mconst n (1 * initial_pheromone self)) 0
              (mconst_square n _)) as [Hsq0 Hget0].
  destruct (boost_clusters_entries n cls _ Hsq0) as [_ Hget].
  - eapply Permutation_NoDup; [symmetry; exact Hcl | apply seq_NoDup].
  - apply Forall_forall. intros i Hi.
    apply (Permutation_in _ Hcl) in Hi. apply in_seq in Hi. lia.
  - rewrite Hget, (Hget0 a b Ha), (mget_mconst n _ a b Ha Hb).
    destruct (Nat.eqb a b); simpl.
    + rewrite andb_false_r. ring.
    + rewrite andb_true_r. destruct (same_cluster cls a b); ring.
Qed.

End Partition.

(** ** The best route across calls *)

Section BestAcrossCalls.
Context {RT : Runtime}.
Import helper_functions CIACO.

(** [best_distance] is the length of [best_route]. *)
Definition best_consistent (self : t) : Prop :=
  match best_route self with
  | None => best_distance self = Inf
  | Some r => best_distance self = Fin (total_route_distance r (return_to_depot self))
  end.

Lemma ants_best_consistent k fuel :
  forall self g routes dists self' g' routes' dists',
    best_consistent self ->
    ants k fuel self g routes dists = Ok (self', g', routes', dists') ->
    best_consistent self'.
Proof.
  induction k as [| k IH]; intros self g routes dists self' g' routes' dists' Hc H;
    simpl in H.
  - inversion H; subst; exact Hc.
  - apply bind_Ok in H; destruct H as [rg [_ H]].
    eapply IH; [| exact H].
    destruct (xlt _ (best_distance self)); [reflexivity | exact Hc].
Qed.

Lemma rounds_best_consistent k fuel :
  forall self g self' g',
    best_consistent self ->
    rounds k fuel self g = Ok (self', g') ->
    best_consistent self'.
Proof.
  induction k as [| k IH]; intros self g self' g' Hc H; simpl in H.
  - inversion H; subst; exact Hc.
  - apply bind_Ok in H; destruct H as [[[[self1 g1] rs] ds] [Ha H]].
    apply bind_Ok in H; destruct H as [self2 [Hu H]].
    eapply IH; [| exact H].
    apply ants_best_consistent in Ha; [| exact Hc].
    destruct (update_pheromones_fields _ _ _ _ Hu) as [_ [Hb [Hd [Hr _]]]].
    unfold best_consistent in *. rewrite Hb, Hd, Hr. exact Ha.
Qed.

(** No tour of [points] is shorter than the best distance on record. *)
Definition unbeatable (points : list Point) (self : t) : Prop :=
  forall r, is_tour points (return_to_depot self) r ->
            xlt (total_route_distance r (return_to_depot self)) (best_distance self) = false.

Lemma ants_best_kept points k fuel :
  points <> [] ->
  forall self g routes dists self' g' routes' dists',
    stops self = Some points -> unbeatable points self ->
    ants k fuel self g routes dists = Ok (self', g', routes', dists') ->
    best_route self' = best_route self /\ best_distance self' = best_distance self /\
    stops self' = stops self /\ return_to_depot self' = return_to_depot self.
Proof.
  intros Hne. induction k as [| k IH];
    intros self g routes dists self' g' routes' dists' Hs Hun H; simpl in H.
  - inversion H; subst. repeat split; reflexivity.
  - apply bind_Ok in H; destruct H as [[route g1] [Hc H]]. simpl in H.
    pose proof (construct_is_tour _ _ _ _ _ _ Hs Hne Hc) as Htour.
    rewrite (Hun _ Htour) in H.
    eapply IH; eassumption.
Qed.

Lemma rounds_best_kept points k fuel :
  points <> [] ->
  forall self g self' g',
    stops self = Some points -> unbeatable points self ->
    rounds k fuel self g = Ok (self', g') ->
    best_route self' = best_route self /\ best_distance self' = best_distance self.
Proof.
  intros Hne. induction k as [| k IH]; intros self g self' g' Hs Hun H; simpl in H.
  - inversion H; subst. split; reflexivity.
  - apply bind_Ok in H; destruct H as [[[[self1 g1] rs] ds] [Ha H]].
    apply bind_Ok in H; destruct H as [self2 [Hu H]].
    destruct (ants_best_kept points _ _ Hne _ _ _ _ _ _ _ _ Hs Hun Ha)
      as [Hb1 [Hd1 [Hs1 Hr1]]].
    destruct (update_pheromones_fields _ _ _ _ Hu) as [Hs2 [Hb2 [Hd2 [Hr2 _]]]].
    destruct (IH self2 g1 self' g') as [Hb Hd]; [congruence | | exact H |].
    + intros r Hr. rewrite Hr2, Hr1 in *. rewrite Hd2, Hd1. apply Hun. exact Hr.
    + split; congruence.
Qed.

End BestAcrossCalls.

(** A tour of three stops is one of two routes. *)
Lemma three_stop_tours (p0 p1 p2 : Point) (r : list Point) :
  is_tour [p0; p1; p2] true r ->
  r = [p0; p1; p2; p0] \/ r = [p0; p2; p1; p0].
Proof.
  simpl. intros [rest [Hperm ->]].
  apply Permutation_sym, Permutation_length_2_inv in Hperm.
  destruct Hperm as [-> | ->]; [left | right]; reflexivity.
Qed.

Ltac evaluate_under_sqrt :=
  repeat match goal with
         | |- context [sqrt ?x] =>
             let v := eval vm_compute in x in progress change x with v
         end.

Section TwoCallsAnyGenerator.
Context {RT : Runtime}.
Import helper_functions.

Hypothesis sqrt_0 : sqrt 0 = 0.
Hypothesis sqrt_1 : sqrt 1 = 1.
Hypothesis sqrt_4 : sqrt 4 = 2.
Hypothesis sqrt_100 : sqrt 100 = 10.
Hypothesis sqrt_400 : sqrt 400 = 20.

Lemma first_tours_length (r : list Point) :
  is_tour TwoCalls.first_stops true r -> total_route_distance r true = 4.
Proof.
  intros H. apply three_stop_tours in H. destruct H as [-> | ->];
    unfold total_route_distance, legs, euclidean_distance; cbn -[sqrt Qplus];
    evaluate_under_sqrt; rewrite ?sqrt_0, ?sqrt_1, ?sqrt_4; reflexivity.
Qed.

Lemma second_tours_length (r : list Point) :
  is_tour TwoCalls.second_stops true r -> total_route_distance r true = 40.
Proof.
  intros H. apply three_stop_tours in H. destruct H as [-> | ->];
    unfold total_route_distance, legs, euclidean_distance; cbn -[sqrt Qplus];
    evaluate_under_sqrt; rewrite ?sqrt_0, ?sqrt_100, ?sqrt_400; reflexivity.
Qed.

Lemma second_call_keeps_first_route
    (num_ants iterations : Z) (alpha beta evaporation_rate initial_pheromone : Q)
    (num_clusters : Z) (elitist_factor : Q) (self c1 c2 : CIACO.t)
    (g g1 g2 g3 : Rng) (fuel fuel' : nat) (r1 r2 : option (list Point)) :
  CIACO.__init__ num_ants iterations alpha beta evaporation_rate initial_pheromone
                 true num_clusters elitist_factor = Ok self ->
  CIACO.optimize_route self TwoCalls.first_stops g fuel = Ok (r1, c1, g1) ->
  CIACO.optimize_route c1 TwoCalls.second_stops g2 fuel' = Ok (r2, c2, g3) ->
  r2 = r1 /\
  exists route, r1 = Some route /\
                is_tour TwoCalls.first_stops true route.
Proof.
  intros Hinit H1 H2.
  destruct (init_fields _ _ _ _ _ _ _ _ _ _ Hinit) as [-> [Hants [Hiter _]]].
  (* the first call *)
  unfold CIACO.optimize_route, TwoCalls.first_stops in H1. cbn [List.length Nat.leb] in H1.
  apply bind_Ok in H1; destruct H1 as [[s1 gs1] [Hprep1 H1]].
  apply bind_Ok in H1; destruct H1 as [[s1' gs1'] [Hr1 H1]].
  inversion H1; subst r1 c1 g1; clear H1. cbn [fst snd] in *.
  destruct (prepare_fields _ _ _ _ _ Hprep1)
    as [Hs1 [_ [_ [Hbr1 [Hbd1 [Hrtd1 [Hn1 Hi1]]]]]]].
  cbn in Hbr1, Hbd1, Hrtd1, Hn1, Hi1.
  assert (Hcons : best_consistent s1').
  { eapply rounds_best_consistent; [| exact Hr1].
    unfold best_consistent. rewrite Hbr1, Hbd1. reflexivity. }
  pose proof (rounds_return_to_depot _ _ _ _ _ _ Hr1) as Hrtd1'.
  assert (Hne1 : [(0, 0); (1, 0); (2, 0)] <> ([] : list Point)) by discriminate.
  assert (Hstart : best_is_tour [(0, 0); (1, 0); (2, 0)] s1).
  { split; [exact Hs1 |]. rewrite Hbr1, Hbd1. reflexivity. }
  assert (Hants1 : (0 < CIACO.num_ants s1)%Z) by (rewrite Hn1; exact Hants).
  destruct (rounds_best_is_tour _ _ _ Hne1 _ _ _ _ Hstart Hants1 Hr1)
    as [[_ Hbest] Hsome].
  destruct (CIACO.best_route s1') as [route |] eqn:Eroute;
    [| exfalso; apply Hsome; [left; rewrite Hi1; lia | reflexivity]].
  rewrite Hrtd1', Hrtd1 in Hbest.
  unfold best_consistent in Hcons. rewrite Eroute, Hrtd1', Hrtd1 in Hcons.
  rewrite (first_tours_length route Hbest) in Hcons.
  (* the second call *)
  unfold CIACO.optimize_route, TwoCalls.second_stops in H2. cbn [List.length Nat.leb] in H2.
  apply bind_Ok in H2; destruct H2 as [[s2 gs2] [Hprep2 H2]].
  apply bind_Ok in H2; destruct H2 as [[s2' gs2'] [Hr2 H2]].
  inversion H2; subst r2 c2 g3; clear H2. cbn [fst snd] in *.
  destruct (prepare_fields _ _ _ _ _ Hprep2)
    as [Hs2 [_ [_ [Hbr2 [Hbd2 [Hrtd2 _]]]]]].
  assert (Hne2 : [(0, 0); (10, 0); (20, 0)] <> ([] : list Point)) by discriminate.
  assert (Hun : unbeatable [(0, 0); (10, 0); (20, 0)] s2).
  { intros r Hr. rewrite Hrtd2, Hrtd1', Hrtd1 in *.
    rewrite (second_tours_length r Hr), Hbd2, Hcons. reflexivity. }
  destruct (rounds_best_kept _ _ _ Hne2 _ _ _ _ Hs2 Hun Hr2) as [Hkept _].
  split; [congruence |]. exists route; split; [reflexivity | exact Hbest].
Qed.

End TwoCallsAnyGenerator.

(** C6 fails on the code.  [optimize_route] sets the stops, the three
    matrices and the clusters anew at every call, but [best_route] and
    [best_distance] are set by the constructor only.  Take a fresh optimizer
    with [return_to_depot], whatever the generator does: after a call on
    three stops one unit apart, all of whose tours have length 4, a call on
    three stops ten units apart, whose tours have length 40, finds nothing
    shorter and returns the route of the first call, which is a tour of the
    first stop list and not of the second; a fresh optimizer returns a tour
    of the second stop list on the same input. *)
Theorem second_call_returns_first_route {RT : Runtime}
    (num_ants iterations : Z) (alpha beta evaporation_rate initial_pheromone : Q)
    (num_clusters : Z) (elitist_factor : Q) (self c1 c2 : CIACO.t)
    (g g1 g2 g3 : Rng) (fuel fuel' : nat) (r1 r2 : option (list Point)) :
  sqrt 0 = 0 -> sqrt 1 = 1 -> sqrt 4 = 2 -> sqrt 100 = 10 -> sqrt 400 = 20 ->
  CIACO.__init__ num_ants iterations alpha beta evaporation_rate initial_pheromone
                 true num_clusters elitist_factor = Ok self ->
  CIACO.optimize_route self TwoCalls.first_stops g fuel = Ok (r1, c1, g1) ->
  CIACO.optimize_route c1 TwoCalls.second_stops g2 fuel' = Ok (r2, c2, g3) ->
  r2 = r1 /\
  (exists route, r2 = Some route /\
                 tour_of TwoCalls.first_stops true route /\
                 ~ tour_of TwoCalls.second_stops true route) /\
  (forall r3 c3 g4,
      CIACO.optimize_route self TwoCalls.second_stops g2 fuel' = Ok (r3, c3, g4) ->
      r3 <> r2 /\
      exists route, r3 = Some route /\ tour_of TwoCalls.second_stops true route).
Proof.
  intros H0 H1 H4 H100 H400 Hinit Hfirst Hsecond.
  destruct (second_call_keeps_first_route H0 H1 H4 H100 H400
              _ _ _ _ _ _ _ _ _ _ _ _ _ _ _ _ _ _ _ Hinit Hfirst Hsecond)
    as [Heq [route [Hr1 Htour]]].
  assert (Hnot : ~ tour_of TwoCalls.second_stops true route).
  { intros [tour [Hperm [_ Hroute]]].
    assert (Hin : In ((10, 0) : Point) tour).
    { eapply Permutation_in; [symmetry; exact Hperm |]. right; left; reflexivity. }
    assert (Hin' : In ((10, 0) : Point) route).
    { rewrite Hroute. apply in_or_app; left; exact Hin. }
    apply three_stop_tours in Htour.
    destruct Htour as [-> | ->]; simpl in Hin';
      destruct Hin' as [E | [E | [E | [E | []]]]]; discriminate E. }
  split; [exact Heq |]. split.
  - exists route. split; [congruence |].
    split; [apply is_tour_tour_of; exact Htour | exact Hnot].
  - intros r3 c3 g4 Hfresh.
    destruct (init_fields _ _ _ _ _ _ _ _ _ _ Hinit) as [Hself [Hants [Hiter _]]].
    rewrite Hself in Hfresh.
    apply fresh_optimize_route_is_tour in Hfresh;
      [| exact Hants | exact Hiter | simpl; lia].
    destruct Hfresh as [route' [Hr3 Htour']].
    split; [| exists route'; split; assumption].
    intros E. apply Hnot. rewrite Heq, Hr1, Hr3 in E. inversion E; subst. exact Htour'.
Qed.

Module TwoCallsRun.

(** The second call, on the optimizer and the generator left by the first. *)
Definition after_second : option (list Point) * CIACO.t * nat :=
  Eval vm_compute in
    match CIACO.optimize_route (RT := Concrete.runtime)
            (snd (fst TwoCalls.after_first)) TwoCalls.second_stops
            (snd TwoCalls.after_first) 5 with
    | Ok r => r
    | _ => (None, Scenario.small_optimizer, 0%nat)
    end.

End TwoCallsRun.

(** The theorem on the concrete runtime, with one ant and one round: both
    calls return [(0,0); (1,0); (2,0); (0,0)]. *)
Lemma second_call_returns_first_route_witness :
  CIACO.optimize_route (RT := Concrete.runtime)
    Scenario.small_optimizer TwoCalls.first_stops 0%nat 5
    = Ok (Some [(0, 0); (1, 0); (2, 0); (0, 0)],
          snd (fst TwoCalls.after_first), snd TwoCalls.after_first) /\
  CIACO.optimize_route (RT := Concrete.runtime)
    (snd (fst TwoCalls.after_first)) TwoCalls.second_stops (snd TwoCalls.after_first) 5
    = Ok (Some [(0, 0); (1, 0); (2, 0); (0, 0)],
          snd (fst TwoCallsRun.after_second), snd TwoCallsRun.after_second) /\
  ~ tour_of TwoCalls.second_stops true [(0, 0); (1, 0); (2, 0); (0, 0)].
Proof.
  assert (Hfirst : CIACO.optimize_route (RT := Concrete.runtime)
                     Scenario.small_optimizer TwoCalls.first_stops 0%nat 5
                   = Ok (Some [(0, 0); (1, 0); (2, 0); (0, 0)],
                         snd (fst TwoCalls.after_first), snd TwoCalls.after_first))
    by (vm_compute; reflexivity).
  assert (Hsecond : CIACO.optimize_route (RT := Concrete.runtime)
                      (snd (fst TwoCalls.after_first)) TwoCalls.second_stops
                      (snd TwoCalls.after_first) 5
                    = Ok (Some [(0, 0); (1, 0); (2, 0); (0, 0)],
                          snd (fst TwoCallsRun.after_second),
                          snd TwoCallsRun.after_second))
    by (vm_compute; reflexivity).
  split; [exact Hfirst |]. split; [exact Hsecond |].
  destruct (second_call_returns_first_route (RT := Concrete.runtime)
              1 1 1 2 (1 # 10) 1 3 2 Scenario.small_optimizer _ _ _ _ _ _ _ _ _ _
              eq_refl eq_refl eq_refl eq_refl eq_refl eq_refl Hfirst Hsecond)
    as [_ [[route [Hr [_ Hnot]]] _]].
  inversion Hr; subst route. exact Hnot.
Defined.

(** *** More stops than clusters: some cluster holds two positions *)

Lemma crowded_list (cls : list (list nat)) :
  (List.length cls < List.length (List.concat cls))%nat ->
  exists c, In c cls /\ (2 <= List.length c)%nat.
Proof.
  induction cls as [| c cls IH]; simpl; intros H; [lia |].
  rewrite length_app in H.
  destruct (le_lt_dec 2 (List.length c)) as [Hc | Hc].
  - exists c; split; [left; reflexivity | exact Hc].
  - destruct IH as [c' [Hin Hc']]; [lia |].
    exists c'; split; [right; exact Hin | exact Hc'].
Qed.

Section CrowdedCluster.
Context {RT : Runtime}.
Import CIACO.

Lemma assign_points_length (points centroids : list Point) (k : nat)
    (cls : list (list nat)) :
  assign_points points centroids k = Ok cls -> List.length cls = k.
Proof.
  unfold assign_points. intros H.
  pose proof (fun Hbody Hinit =>
                for_each_invariant (fun acc : list (list nat) => List.length acc = k)
                  _ _ Hbody _ _ Hinit H) as Hloop.
  apply Hloop; [| apply repeat_length].
  intros a x a' _ Ha Hstep.
  apply bind_Ok in Hstep; destruct Hstep as [idx [_ Hstep]].
  unfold append_at in Hstep. destruct (nth_error a idx); [| discriminate].
  inversion Hstep; subst a'. rewrite length_list_set. exact Ha.
Qed.

Lemma kmeans_length (points : list Point) (k : nat) :
  forall (more : nat) (centroids : list Point) (cls : list (list nat)),
    kmeans more points centroids k = Ok cls -> List.length cls = k.
Proof.
  induction more as [| more IH]; intros centroids cls H; simpl in H;
    apply bind_Ok in H; destruct H as [cl [Hcl H]];
    destruct (_ && _); try (inversion H; subst; eapply assign_points_length; eassumption).
  eapply IH; exact H.
Qed.

(** With more stops than clusters, two distinct positions share a cluster. *)
Lemma crowded_cluster (self : t) (g : Rng) (points : list Point)
    (cls : list (list nat)) (g' : Rng) :
  stops self = Some points ->
  (0 <= num_clusters self < Z.of_nat (List.length points))%Z ->
  _cluster_stops self g = Ok (cls, g') ->
  exists a b, (a < List.length points)%nat /\ (b < List.length points)%nat /\
              a <> b /\ same_cluster cls a b = true.
Proof.
  intros Hs Hmore H.
  pose proof (cluster_stops_partition _ _ _ _ _ Hs H) as Hperm.
  assert (Hlen : (List.length cls < List.length points)%nat).
  { unfold _cluster_stops in H. rewrite Hs in H.
    destruct (Z.leb_spec (Z.of_nat (List.length points)) (num_clusters self)); [lia |].
    cbv zeta in H.
    apply bind_Ok in H; destruct H as [centroids [_ H]].
    apply bind_Ok in H; destruct H as [cl [Hk H]].
    inversion H; subst. rewrite (kmeans_length _ _ _ _ _ Hk). lia. }
  destruct (crowded_list cls) as [c [Hc Hc2]].
  { rewrite (Permutation_length Hperm), length_seq. exact Hlen. }
  assert (Hnd : NoDup c).
  { assert (Hall : NoDup (List.concat cls)).
    { eapply Permutation_NoDup; [symmetry; exact Hperm | apply seq_NoDup]. }
    clear - Hall Hc. induction cls as [| c0 cls IH]; [contradiction |].
    simpl in Hall. destruct Hc as [-> | Hc].
    - eapply NoDup_app_remove_r; exact Hall.
    - apply IH; [exact Hc | eapply NoDup_app_remove_l; exact Hall]. }
  destruct c as [| a [| b rest]]; simpl in Hc2; try lia.
  assert (Hin : forall x, In x (a :: b :: rest) -> (x < List.length points)%nat).
  { intros x Hx.
    assert (Hx' : In x (List.concat cls)).
    { apply in_concat. exists (a :: b :: rest); split; assumption. }
    apply (Permutation_in _ Hperm) in Hx'. apply in_seq in Hx'. lia. }
  exists a, b.
  split; [apply Hin; left; reflexivity |].
  split; [apply Hin; right; left; reflexivity |].
  split.
  - intros ->. inversion Hnd as [| ? ? Hnot _]; subst. apply Hnot. left; reflexivity.
  - unfold same_cluster. apply existsb_exists. exists (a :: b :: rest).
    split; [exact Hc |]. apply andb_true_intro; split; apply inb_In;
      [left; reflexivity | right; left; reflexivity].
Qed.

End CrowdedCluster.

Module FivePrepared.

(** The optimizer right after the initialization on the five stops. *)
Definition prepared : CIACO.t :=
  Eval vm_compute in
    match CIACO.prepare (RT := Concrete.runtime)
            Scenario.small_optimizer FiveStops.stops 0%nat with
    | Ok r => fst r
    | _ => Scenario.small_optimizer
    end.

End FivePrepared.

(** C7, as the code has it.  The loop of [_initialize_pheromones] meets a
    pair of one cluster in both orders and multiplies both entries each
    time.  Hence, right after the initialization in [optimize_route],
    whatever the stops and the generator: the clusters are a partition of
    the positions, the diagonal is 0, an entry across two clusters is the
    initial pheromone, and an entry inside a cluster is the initial
    pheromone times 9/4, that is 1.5 times 1.5, which is not the initial
    pheromone times 1.5 unless that is 0.  Such an entry exists as soon as
    there are more stops than clusters. *)
Theorem cluster_boost_is_applied_twice {RT : Runtime}
    (self : CIACO.t) (points : list Point) (g : Rng) (self' : CIACO.t) (g' : Rng) :
  CIACO.prepare self points g = Ok (self', g') ->
  exists cls m,
    CIACO.clusters self' = Some cls /\ CIACO.pheromone_matrix self' = Some m /\
    Permutation (List.concat cls) (seq 0 (List.length points)) /\
    ((0 <= CIACO.num_clusters self < Z.of_nat (List.length points))%Z ->
     exists a b, (a < List.length points)%nat /\ (b < List.length points)%nat /\
                 a <> b /\ same_cluster cls a b = true) /\
    forall a b, (a < List.length points)%nat -> (b < List.length points)%nat ->
      (a = b -> mget m a b == 0) /\
      (a <> b -> same_cluster cls a b = false ->
         mget m a b == CIACO.initial_pheromone self) /\
      (a <> b -> same_cluster cls a b = true ->
         mget m a b == CIACO.initial_pheromone self * (9 # 4) /\
         (~ CIACO.initial_pheromone self == 0 ->
          ~ mget m a b == CIACO.initial_pheromone self * (3 # 2))).
Proof.
  intros H. destruct (initial_pheromone_entries _ _ _ _ _ H) as [cls [m [Hc [Hm [Hp Hget]]]]].
  exists cls, m. split; [exact Hc |]. split; [exact Hm |]. split; [exact Hp |].
  split.
  { intros Hmore. unfold CIACO.prepare in H.
    apply bind_Ok in H; destruct H as [vis [_ H]].
    apply bind_Ok in H; destruct H as [[cls0 g1] [Hcl H]].
    apply bind_Ok in H; destruct H as [self5 [H5 H]].
    inversion H; subst self5 g'; clear H.
    unfold CIACO._initialize_pheromones in H5. cbn in H5.
    inversion H5; subst self'; clear H5. cbn in Hc. inversion Hc; subst cls0.
    eapply crowded_cluster; [| | exact Hcl]; [reflexivity | exact Hmore]. }
  intros a b Ha Hb. specialize (Hget a b Ha Hb).
  split; [| split].
  - intros ->. rewrite Nat.eqb_refl in Hget. exact Hget.
  - intros Hab Hs. apply Nat.eqb_neq in Hab. rewrite Hab, Hs in Hget. exact Hget.
  - intros Hab Hs. apply Nat.eqb_neq in Hab. rewrite Hab, Hs in Hget.
    split; [rewrite Hget; ring |].
    intros Hnz E. rewrite Hget in E. apply Hnz.
    assert (E' : CIACO.initial_pheromone self * (3 # 4) == 0) by lra. lra.
Qed.

(** The theorem on five stops on a line with initial pheromone 1: the
    clusters are {0}, {1, 2}, {3, 4} and the entries (1,2), (2,1), (3,4),
    (4,3) are 9/4. *)
Lemma cluster_boost_is_applied_twice_witness :
  exists (c : CIACO.t) (g : nat),
    CIACO.prepare (RT := Concrete.runtime) Scenario.small_optimizer FiveStops.stops 0%nat
      = Ok (c, g) /\
    CIACO.clusters c = Some [[0]; [1; 2]; [3; 4]]%nat /\
    CIACO.pheromone_matrix c
      = Some [[0; 1; 1; 1; 1]; [1; 0; 9 # 4; 1; 1]; [1; 9 # 4; 0; 1; 1];
              [1; 1; 1; 0; 9 # 4]; [1; 1; 1; 9 # 4; 0]] /\
    ~ (9 # 4 == CIACO.initial_pheromone Scenario.small_optimizer * (3 # 2)).
Proof.
  eexists _, _.
  assert (Hrun : CIACO.prepare (RT := Concrete.runtime)
                   Scenario.small_optimizer FiveStops.stops 0%nat
                 = Ok (FivePrepared.prepared, 1%nat)) by (vm_compute; reflexivity).
  split; [exact Hrun |]. split; [reflexivity |]. split; [reflexivity |].
  destruct (cluster_boost_is_applied_twice (RT := Concrete.runtime) _ _ _ _ _ Hrun)
    as [cls [m [Hc [Hm [_ [_ Hget]]]]]].
  inversion Hc; subst cls. inversion Hm; subst m.
  destruct (Hget 1%nat 2%nat ltac:(simpl; lia) ltac:(simpl; lia)) as [_ [_ Hsame]].
  destruct (Hsame ltac:(discriminate) eq_refl) as [_ Hnot].
  intros E. apply Hnot; [discriminate |]. exact E.
Defined.

(** C7 as stated: right after the initialization on more than two distinct
    stops, an entry inside a cluster is the initial pheromone times 1.5. *)
Definition boost_is_applied_once (RT : Runtime) : Prop :=
  forall (self : CIACO.t) (points : list Point) (g : Rng) (self' : CIACO.t) (g' : Rng)
         (cls : list (list nat)) (m : Matrix) (a b : nat),
    (2 < List.length points)%nat -> NoDup points ->
    CIACO.prepare self points g = Ok (self', g') ->
    CIACO.clusters self' = Some cls -> CIACO.pheromone_matrix self' = Some m ->
    (a < List.length points)%nat -> (b < List.length points)%nat -> a <> b ->
    same_cluster cls a b = true ->
    mget m a b == CIACO.initial_pheromone self * (3 # 2).

(** C7 as stated fails.  On the five stops, with initial pheromone 1, the
    stops 1 and 2 share a cluster and the entry (1, 2) is 9/4. *)
Lemma cluster_boost_is_applied_once_fails :
  ~ boost_is_applied_once Concrete.runtime.
Proof.
  intros Honce.
  assert (Hrun : CIACO.prepare (RT := Concrete.runtime)
                   Scenario.small_optimizer FiveStops.stops 0%nat
                 = Ok (FivePrepared.prepared, 1%nat)) by (vm_compute; reflexivity).
  assert (Hdistinct : NoDup FiveStops.stops).
  { unfold FiveStops.stops. repeat constructor; simpl; intuition discriminate. }
  pose proof (Honce Scenario.small_optimizer FiveStops.stops 0%nat
                FivePrepared.prepared 1%nat _ _ 1%nat 2%nat
                ltac:(simpl; lia) Hdistinct Hrun eq_refl eq_refl
                ltac:(simpl; lia) ltac:(simpl; lia) ltac:(discriminate) eq_refl) as H.
  vm_compute in H. discriminate H.
Qed.

(** * Further properties of the embedded code *)

(** ** The length of a route *)

Section RouteLength.
Context {RT : Runtime}.
Import helper_functions.

Lemma legs_acc (stops : list Point) :
  forall acc : Q, legs acc stops == acc + legs 0 stops.
Proof.
  induction stops as [| a stops IH]; intros acc; simpl; [ring |].
  destruct stops as [| b rest]; [ring |].
  rewrite IH. rewrite (IH (0 + euclidean_distance a b)). ring.
Qed.

Lemma legs_split (l1 : list Point) (p : Point) (l2 : list Point) :
  legs 0 (l1 ++ p :: l2) == legs 0 (l1 ++ [p]) + legs 0 (p :: l2).
Proof.
  induction l1 as [| a l1 IH].
  - simpl app. change (legs 0 [p]) with 0. ring.
  - destruct l1 as [| b l1].
    + change (legs 0 ([a] ++ p :: l2))
        with (legs (0 + euclidean_distance a p) (p :: l2)).
      change (legs 0 ([a] ++ [p])) with (0 + euclidean_distance a p).
      pose proof (legs_acc (p :: l2) (0 + euclidean_distance a p)). lra.
    + change (legs 0 ((a :: b :: l1) ++ p :: l2))
        with (legs (0 + euclidean_distance a b) ((b :: l1) ++ p :: l2)).
      change (legs 0 ((a :: b :: l1) ++ [p]))
        with (legs (0 + euclidean_distance a b) ((b :: l1) ++ [p])).
      pose proof (legs_acc ((b :: l1) ++ p :: l2) (0 + euclidean_distance a b)).
      pose proof (legs_acc ((b :: l1) ++ [p]) (0 + euclidean_distance a b)).
      lra.
Qed.

Lemma open_route_distance (stops : list Point) :
  total_route_distance stops false = legs 0 stops.
Proof. destruct stops; reflexivity. Qed.

End RouteLength.

(** X1.  The length of a route.  An empty route and a route of one stop
    have length 0, closed or not.  Closing a route of two or more stops adds
    exactly the leg from its last stop back to its first.  The length of an
    open route is additive: cut at any stop, it is the length up to that
    stop plus the length from it.  No length is negative. *)
Theorem total_route_distance_composes {RT : Runtime} :
  sqrt_nonneg RT ->
  (forall (rtd : bool) (p : Point),
      helper_functions.total_route_distance [] rtd = 0 /\
      helper_functions.total_route_distance [p] rtd = 0) /\
  (forall (a b : Point) (rest : list Point),
      helper_functions.total_route_distance (a :: b :: rest) true
      = helper_functions.total_route_distance (a :: b :: rest) false
        + helper_functions.euclidean_distance (last (b :: rest) a) a) /\
  (forall (l1 : list Point) (p : Point) (l2 : list Point),
      helper_functions.total_route_distance (l1 ++ p :: l2) false
      == helper_functions.total_route_distance (l1 ++ [p]) false
         + helper_functions.total_route_distance (p :: l2) false) /\
  (forall (stops : list Point) (rtd : bool),
      0 <= helper_functions.total_route_distance stops rtd).
Proof.
  intros Hsqrt. split; [| split; [| split]].
  - intros rtd p. split; [reflexivity |]. destruct rtd; reflexivity.
  - intros a b rest. reflexivity.
  - intros l1 p l2. rewrite !open_route_distance. apply legs_split.
  - intros stops rtd. apply total_route_distance_nonneg. exact Hsqrt.
Qed.

(** The theorem on the concrete runtime; the walk (0,0), (3,0), (3,4) is 7
    long, and 12 once closed. *)
Lemma total_route_distance_composes_witness :
  sqrt_nonneg Concrete.runtime /\
  helper_functions.total_route_distance (RT := Concrete.runtime)
    [(0, 0); (3, 0); (3, 4)] false == 7 /\
  helper_functions.total_route_distance (RT := Concrete.runtime)
    [(0, 0); (3, 0); (3, 4)] true == 12 /\
  0 <= helper_functions.total_route_distance (RT := Concrete.runtime)
         [(0, 0); (3, 0); (3, 4)] true.
Proof.
  pose proof (total_route_distance_composes (RT := Concrete.runtime)
                ConcreteFacts.sqrt_exact_nonneg) as [_ [_ [_ Hnonneg]]].
  split; [exact ConcreteFacts.sqrt_exact_nonneg |].
  split; [vm_compute; reflexivity |]. split; [vm_compute; reflexivity |].
  apply Hnonneg.
Defined.

(** ** The visibility matrix *)

Section Visibility.
Context {RT : Runtime}.
Import helper_functions.

(** The entry the source writes at [(i, j)]. *)
Definition visibility_entry (stops : list Point) (i j : nat) : Q :=
  1 / (euclidean_distance (nth i stops (0, 0)) (nth j stops (0, 0)) + (1 # 1000000)).

(** The body of the loop over [j]. *)
Definition visibility_cell (stops : list Point) (i : nat) (visibility : Matrix) (j : nat)
  : outcome Matrix :=
  if Nat.eqb i j then Ok visibility
  else
    let distance := euclidean_distance (nth i stops (0, 0)) (nth j stops (0, 0)) in
    let* v := py_div 1 (distance + (1 # 1000000)) in
    Ok (mset visibility i j v).

Lemma py_div_Ok (a b v : Q) : py_div a b = Ok v -> v = a / b /\ ~ b == 0.
Proof.
  unfold py_div. destruct (Qeq_bool b 0) eqn:E; [discriminate |].
  intros H; inversion H; split; [reflexivity |].
  apply Qeq_bool_false_iff; exact E.
Qed.

Lemma py_div_Raise (a b : Q) (e : exn) : py_div a b = Raise e -> e = ZeroDivisionError.
Proof.
  unfold py_div. destruct (Qeq_bool b 0); intros H; inversion H; reflexivity.
Qed.

Lemma visibility_row (stops : list Point) (n i : nat) :
  (i < n)%nat ->
  forall (js : list nat) (vis vis' : Matrix),
    Forall (fun j => (j < n)%nat) js ->
    square n vis ->
    for_each js (visibility_cell stops i) vis = Ok vis' ->
    square n vis' /\
    forall a b,
      mget vis' a b
      = if Nat.eqb a i && inb b js && negb (Nat.eqb i b)
        then visibility_entry stops i b else mget vis a b.
Proof.
  intros Hi. induction js as [| j js IH]; intros vis vis' Hjs Hsq H; simpl in H.
  - inversion H; subst. split; [exact Hsq |]. intros a b.
    rewrite andb_false_r. reflexivity.
  - inversion Hjs as [| ? ? Hj Hjs']; subst.
    apply bind_Ok in H; destruct H as [vis1 [Hcell H]].
    unfold visibility_cell in Hcell.
    destruct (Nat.eqb_spec i j) as [-> | Hij].
    + inversion Hcell; subst vis1.
      destruct (IH _ _ Hjs' Hsq H) as [Hsq' Hget]. split; [exact Hsq' |].
      intros a b. rewrite Hget. unfold inb; simpl.
      destruct (Nat.eqb_spec b j) as [-> | Hbj]; simpl; [| reflexivity].
      rewrite Nat.eqb_refl, !andb_false_r. reflexivity.
    + cbv zeta in Hcell. apply bind_Ok in Hcell; destruct Hcell as [v [Hv Hcell]].
      apply py_div_Ok in Hv. destruct Hv as [-> _].
      inversion Hcell; subst vis1; clear Hcell.
      destruct (IH _ _ Hjs' (mset_square n vis i j _ Hsq Hi) H) as [Hsq' Hget].
      split; [exact Hsq' |].
      intros a b. rewrite Hget. rewrite (mget_mset n) by assumption.
      unfold inb; simpl.
      destruct (Nat.eqb_spec a i) as [-> | Hai]; simpl; [| reflexivity].
      destruct (Nat.eqb_spec b j) as [-> | Hbj]; simpl.
      * destruct (Nat.eqb_spec i j) as [E | _]; [contradiction |]. simpl.
        destruct (existsb (Nat.eqb j) js); reflexivity.
      * reflexivity.
Qed.

Lemma visibility_rows (stops : list Point) (n : nat) :
  forall (rows : list nat) (vis vis' : Matrix),
    Forall (fun i => (i < n)%nat) rows ->
    square n vis ->
    for_each rows (fun visibility i => for_each (seq 0 n) (visibility_cell stops i) visibility)
             vis = Ok vis' ->
    square n vis' /\
    forall a b, (b < n)%nat ->
      mget vis' a b
      = if inb a rows && negb (Nat.eqb a b)
        then visibility_entry stops a b else mget vis a b.
Proof.
  induction rows as [| i rows IH]; intros vis vis' Hrows Hsq H; simpl in H.
  - inversion H; subst. split; [exact Hsq |]. intros a b _. reflexivity.
  - inversion Hrows as [| ? ? Hi Hrows']; subst.
    apply bind_Ok in H; destruct H as [vis1 [Hrow H]].
    apply (visibility_row stops n i Hi) in Hrow; [| | exact Hsq].
    2:{ apply Forall_forall. intros j Hj. apply in_seq in Hj. lia. }
    destruct Hrow as [Hsq1 Hget1].
    destruct (IH _ _ Hrows' Hsq1 H) as [Hsq' Hget]. split; [exact Hsq' |].
    intros a b Hb. rewrite Hget by exact Hb. rewrite Hget1.
    assert (Hin : inb b (seq 0 n) = true) by (apply inb_In, in_seq; lia).
    rewrite Hin. unfold inb; simpl.
    destruct (Nat.eqb_spec a i) as [-> | Hai]; simpl.
    + destruct (Nat.eqb i b); destruct (existsb (Nat.eqb i) rows); reflexivity.
    + reflexivity.
Qed.

Lemma visibility_entries (stops : list Point) (vis : Matrix) :
  calculate_visibility_matrix stops = Ok vis ->
  square (List.length stops) vis /\
  forall i j, (i < List.length stops)%nat -> (j < List.length stops)%nat ->
    mget vis i j = if Nat.eqb i j then 0 else visibility_entry stops i j.
Proof.
  unfold calculate_visibility_matrix. intros H.
  set (n := List.length stops) in *.
  destruct (visibility_rows stops n (seq 0 n) (mconst n 0) vis) as [Hsq Hget].
  - apply Forall_forall. intros i Hi. apply in_seq in Hi. lia.
  - apply mconst_square.
  - exact H.
  - split; [exact Hsq |]. intros i j Hi Hj. rewrite Hget by exact Hj.
    assert (Hin : inb i (seq 0 n) = true) by (apply inb_In, in_seq; lia).
    rewrite Hin. simpl. destruct (Nat.eqb i j); simpl; [| reflexivity].
    apply mget_mconst; assumption.
Qed.

Lemma visibility_raises (stops : list Point) (e : exn) :
  calculate_visibility_matrix stops = Raise e -> e = ZeroDivisionError.
Proof.
  unfold calculate_visibility_matrix.
  generalize (mconst (List.length stops) 0).
  generalize (seq 0 (List.length stops)) at 1.
  intros rows. induction rows as [| i rows IH]; intros vis H; simpl in H; [discriminate |].
  apply bind_Raise in H. destruct H as [H | [vis1 [_ H]]]; [| exact (IH _ H)].
  clear IH. revert vis H. generalize (seq 0 (List.length stops)).
  intros js. induction js as [| j js IH]; intros vis H; simpl in H; [discriminate |].
  apply bind_Raise in H. destruct H as [H | [vis1 [_ H]]]; [| exact (IH _ H)].
  destruct (Nat.eqb i j); [discriminate |].
  apply bind_Raise in H. destruct H as [H | [v [_ H]]]; [| discriminate].
  exact (py_div_Raise _ _ _ H).
Qed.

End Visibility.

(** X2.  The visibility matrix of [n] stops has [n] rows of [n] entries;
    its diagonal is 0 and the entry at [(i, j)] is 1 / (d + 1e-6) for the
    distance [d] from stop [i] to stop [j], which is positive.  The function
    returns whenever the square root is never negative; the only exception
    it can raise at all is the division by zero. *)
Theorem visibility_matrix_entries {RT : Runtime} (stops : list Point) :
  sqrt_nonneg RT ->
  (exists vis,
      helper_functions.calculate_visibility_matrix stops = Ok vis /\
      square (List.length stops) vis /\
      forall i j, (i < List.length stops)%nat -> (j < List.length stops)%nat ->
        (i = j -> mget vis i j = 0) /\
        (i <> j ->
           mget vis i j
           = 1 / (helper_functions.euclidean_distance (nth i stops (0, 0)) (nth j stops (0, 0))
                  + (1 # 1000000)) /\
           0 < mget vis i j)) /\
  (forall e, helper_functions.calculate_visibility_matrix stops = Raise e ->
             e = ZeroDivisionError).
Proof.
  intros Hsqrt. split; [| apply visibility_raises].
  destruct (visibility_returns Hsqrt stops) as [vis Hvis].
  exists vis. split; [exact Hvis |].
  destruct (visibility_entries _ _ Hvis) as [Hsq Hget]. split; [exact Hsq |].
  intros i j Hi Hj. rewrite (Hget i j Hi Hj). split.
  - intros ->. rewrite Nat.eqb_refl. reflexivity.
  - intros Hij. apply Nat.eqb_neq in Hij. rewrite Hij. split; [reflexivity |].
    unfold visibility_entry.
    pose proof (euclidean_distance_nonneg Hsqrt (nth i stops (0, 0)) (nth j stops (0, 0))).
    apply Qlt_shift_div_l; lra.
Qed.

(** The theorem on two stops five apart, on the concrete runtime. *)
Lemma visibility_matrix_entries_witness :
  sqrt_nonneg Concrete.runtime /\
  exists vis,
    helper_functions.calculate_visibility_matrix (RT := Concrete.runtime) [(0, 0); (3, 4)]
      = Ok vis /\
    mget vis 0 0 = 0 /\ 0 < mget vis 0 1 /\ mget vis 0 1 == 1000000 # 5000001.
Proof.
  split; [exact ConcreteFacts.sqrt_exact_nonneg |].
  destruct (visibility_matrix_entries (RT := Concrete.runtime) [(0, 0); (3, 4)]
              ConcreteFacts.sqrt_exact_nonneg) as [[vis [Hvis [_ Hget]]] _].
  exists vis. split; [exact Hvis |].
  destruct (Hget 0%nat 0%nat ltac:(simpl; lia) ltac:(simpl; lia)) as [H00 _].
  destruct (Hget 0%nat 1%nat ltac:(simpl; lia) ltac:(simpl; lia)) as [_ H01].
  destruct (H01 ltac:(discriminate)) as [Heq Hpos].
  split; [apply H00; reflexivity |]. split; [exact Hpos |].
  rewrite Heq. vm_compute. reflexivity.
Defined.

(** ** Normalized weights *)

Lemma Qsum_nonneg (l : list Q) : (forall x, In x l -> 0 <= x) -> 0 <= Qsum l.
Proof.
  induction l as [| x l IH]; intros H.
  - unfold Qsum; simpl. lra.
  - rewrite Qsum_cons.
    pose proof (H x (or_introl eq_refl)).
    pose proof (IH (fun y Hy => H y (or_intror Hy))). lra.
Qed.

Lemma Qsum_member_le (l : list Q) (x : Q) :
  (forall y, In y l -> 0 <= y) -> In x l -> x <= Qsum l.
Proof.
  induction l as [| y l IH]; intros Hpos Hin; [contradiction |].
  rewrite Qsum_cons.
  pose proof (Hpos y (or_introl eq_refl)) as Hy.
  pose proof (Qsum_nonneg l (fun z Hz => Hpos z (or_intror Hz))) as Hl.
  destruct Hin as [-> | Hin]; [lra |].
  pose proof (IH (fun z Hz => Hpos z (or_intror Hz)) Hin). lra.
Qed.

(** X3.  On weights that are not negative, as the optimizer supplies them,
    [normalize_matrix] returns a sequence of the same length whose entries
    lie between 0 and 1 and sum to 1.  The total is 0 exactly when every
    weight is 0, and every entry is then 1 / size; otherwise the total is
    positive and entry [i] is the weight divided by the total. *)
Theorem normalize_matrix_sums_to_one (w : list Q) :
  w <> [] ->
  (forall x, In x w -> 0 <= x) ->
  List.length (helper_functions.normalize_matrix w) = List.length w /\
  (Qsum w == 0 <-> forall x, In x w -> x == 0) /\
  ((forall x, In x w -> x == 0) ->
     forall i, (i < List.length w)%nat ->
       nth i (helper_functions.normalize_matrix w) 0
       = 1 / inject_Z (Z.of_nat (List.length w))) /\
  ((exists x, In x w /\ ~ x == 0) ->
     0 < Qsum w /\
     forall i, (i < List.length w)%nat ->
       nth i (helper_functions.normalize_matrix w) 0 = nth i w 0 / Qsum w) /\
  (forall y, In y (helper_functions.normalize_matrix w) -> 0 <= y <= 1) /\
  Qsum (helper_functions.normalize_matrix w) == 1.
Proof.
  intros Hne Hpos.
  assert (Hzero : Qsum w == 0 <-> forall x, In x w -> x == 0).
  { split.
    - intros Hz x Hx. pose proof (Qsum_member_le w x Hpos Hx). pose proof (Hpos x Hx). lra.
    - intros Hall. clear Hne Hpos. induction w as [| y w IH]; [reflexivity |].
      rewrite Qsum_cons, (Hall y (or_introl eq_refl)), IH; [ring |].
      intros x Hx. apply Hall. right. exact Hx. }
  assert (Hsize : 0 < inject_Z (Z.of_nat (List.length w))).
  { destruct w as [| x0 w']; [contradiction Hne; reflexivity |].
    unfold Qlt; simpl. lia. }
  split; [| split; [exact Hzero | split; [| split; [| split]]]].
  - unfold helper_functions.normalize_matrix.
    destruct (Qeq_bool (Qsum w) 0); apply length_map.
  - intros Hall i Hi. unfold helper_functions.normalize_matrix.
    apply Hzero in Hall. apply Qeq_bool_iff in Hall. rewrite Hall.
    apply (nth_map_in_range (fun _ => 1 / inject_Z (Z.of_nat (List.length w))) w i 0 0 Hi).
  - intros [x [Hx Hnz]].
    assert (Hnot : ~ Qsum w == 0) by (intros Hz; apply Hnz; apply Hzero; assumption).
    split.
    + pose proof (Qsum_nonneg w Hpos).
      destruct (Qlt_le_dec 0 (Qsum w)) as [Hlt | Hle]; [exact Hlt |].
      exfalso. apply Hnot. lra.
    + intros i Hi. unfold helper_functions.normalize_matrix.
      apply Qeq_bool_false_iff in Hnot. rewrite Hnot.
      apply (nth_map_in_range (fun x => x / Qsum w) w i 0 0 Hi).
  - intros y Hy. unfold helper_functions.normalize_matrix in Hy.
    destruct (Qeq_bool (Qsum w) 0) eqn:E; apply in_map_iff in Hy;
      destruct Hy as [x [<- Hx]].
    + split; [apply Qle_shift_div_l; [exact Hsize | lra] |].
      apply Qle_shift_div_r; [exact Hsize |].
      assert (1 <= inject_Z (Z.of_nat (List.length w))).
      { destruct w as [| x0 w']; [contradiction Hne; reflexivity |].
        unfold Qle; simpl. lia. }
      lra.
    + apply Qeq_bool_false_iff in E.
      pose proof (Qsum_nonneg w Hpos) as Hs. pose proof (Hpos x Hx) as Hx0.
      pose proof (Qsum_member_le w x Hpos Hx) as Hle.
      assert (Hlt : 0 < Qsum w).
      { destruct (Qlt_le_dec 0 (Qsum w)) as [Hlt | Hle']; [exact Hlt |].
        exfalso. apply E. lra. }
      split; [apply Qle_shift_div_l; [exact Hlt | lra] |].
      apply Qle_shift_div_r; [exact Hlt | lra].
  - apply normalize_matrix_total; exact Hne.
Qed.

(** The theorem on the weights 0, 0, 0 and on 1, 3. *)
Lemma normalize_matrix_sums_to_one_witness :
  helper_functions.normalize_matrix [0; 0; 0] = [1 / 3; 1 / 3; 1 / 3] /\
  helper_functions.normalize_matrix [1; 3] = [1 / (0 + 1 + 3); 3 / (0 + 1 + 3)] /\
  Qsum (helper_functions.normalize_matrix [0; 0; 0]) == 1 /\
  Qsum (helper_functions.normalize_matrix [1; 3]) == 1.
Proof.
  split; [reflexivity |]. split; [reflexivity |]. split.
  - apply (normalize_matrix_sums_to_one [0; 0; 0]); [discriminate |].
    intros x [<- | [<- | [<- | []]]]; lra.
  - apply (normalize_matrix_sums_to_one [1; 3]); [discriminate |].
    intros x [<- | [<- | []]]; lra.
Defined.

(** ** The constructor of the optimizer *)

(** The parameters the constructor accepts. *)
Definition valid_parameters (num_ants iterations : Z) (alpha beta evaporation_rate
    initial_pheromone : Q) (num_clusters : Z) (elitist_factor : Q) : Prop :=
  (0 < num_ants)%Z /\ (0 < iterations)%Z /\ (0 < num_clusters)%Z /\
  0 <= alpha /\ 0 <= beta /\ 0 <= evaporation_rate <= 1 /\
  0 < initial_pheromone /\ 1 <= elitist_factor.

Lemma Qle_bool_false_iff (a b : Q) : Qle_bool a b = false <-> b < a.
Proof.
  split.
  - intros H. apply Qnot_le_lt. intros Hle. apply Qle_bool_iff in Hle. congruence.
  - intros H. destruct (Qle_bool a b) eqn:E; [| reflexivity].
    apply Qle_bool_iff in E. lra.
Qed.

(** X4.  [CIACO.__init__] returns an optimizer exactly when every parameter
    is in its range; the optimizer then holds the parameters as given, no
    matrix, no stops, no clusters, no best route, and an infinite best
    distance.  In every other case it raises a [ValueError], and nothing
    else. *)
Theorem init_accepts_valid_parameters
    (num_ants iterations : Z) (alpha beta evaporation_rate initial_pheromone : Q)
    (return_to_depot : bool) (num_clusters : Z) (elitist_factor : Q) :
  let result := CIACO.__init__ num_ants iterations alpha beta evaporation_rate
                  initial_pheromone return_to_depot num_clusters elitist_factor in
  let valid := valid_parameters num_ants iterations alpha beta evaporation_rate
                 initial_pheromone num_clusters elitist_factor in
  (valid <->
   result = Ok (CIACO.mk num_ants iterations alpha beta evaporation_rate
                  initial_pheromone return_to_depot num_clusters elitist_factor
                  None None None None Inf None None)) /\
  (~ valid <-> exists msg, result = Raise (ValueError msg)) /\
  ((exists self, result = Ok self) \/ (exists msg, result = Raise (ValueError msg))).
Proof.
  intros result valid.
  assert (Hok : forall self, result = Ok self -> valid).
  { intros self H. apply init_fields in H. unfold valid, valid_parameters. tauto. }
  assert (Hcases : (valid /\ result = Ok (CIACO.mk num_ants iterations alpha beta
                      evaporation_rate initial_pheromone return_to_depot num_clusters
                      elitist_factor None None None None Inf None None))
                   \/ exists msg, result = Raise (ValueError msg)).
  { unfold result, CIACO.__init__.
    destruct (num_ants <=? 0)%Z eqn:E1; [right; eexists; reflexivity |].
    destruct (iterations <=? 0)%Z eqn:E2; [right; eexists; reflexivity |].
    destruct (Qltb alpha 0) eqn:E3; [right; eexists; reflexivity |].
    destruct (Qltb beta 0) eqn:E4; [right; eexists; reflexivity |].
    destruct (Qle_bool 0 evaporation_rate && Qle_bool evaporation_rate 1) eqn:E5;
      [| right; eexists; reflexivity].
    destruct (Qle_bool initial_pheromone 0) eqn:E6; [right; eexists; reflexivity |].
    destruct (num_clusters <=? 0)%Z eqn:E7; [right; eexists; reflexivity |].
    destruct (Qltb elitist_factor 1) eqn:E8; [right; eexists; reflexivity |].
    left. split; [| reflexivity]. simpl.
    apply Z.leb_gt in E1, E2, E7. apply Qltb_false_iff in E3, E4, E8.
    apply andb_prop in E5. destruct E5 as [E5 E5'].
    apply Qle_bool_iff in E5, E5'. apply Qle_bool_false_iff in E6.
    unfold valid, valid_parameters. tauto. }
  assert (Hvalid : valid -> result = Ok (CIACO.mk num_ants iterations alpha beta
                      evaporation_rate initial_pheromone return_to_depot num_clusters
                      elitist_factor None None None None Inf None None)).
  { unfold valid, valid_parameters, result, CIACO.__init__.
    intros [H1 [H2 [H7 [H3 [H4 [[H5 H5'] [H6 H8]]]]]]].
    apply Z.leb_gt in H1, H2, H7. rewrite H1, H2, H7.
    apply Qltb_false_iff in H3, H4, H8. rewrite H3, H4, H8.
    apply Qle_bool_iff in H5, H5'. rewrite H5, H5'.
    apply Qle_bool_false_iff in H6. rewrite H6. reflexivity. }
  split; [| split].
  - split; [exact Hvalid | intros H; exact (Hok _ H)].
  - split.
    + intros Hv. destruct Hcases as [[H _] | H]; [contradiction | exact H].
    + intros [msg H] Hv. rewrite (Hvalid Hv) in H. discriminate.
  - destruct Hcases as [[_ H] | H]; [left; eexists; exact H | right; exact H].
Qed.

(** ** The clusters of the stops *)

(** X5.  [_cluster_stops] raises [RuntimeError] on an optimizer without
    stops.  Otherwise the clusters it returns are a partition of the
    positions of the stops: every position is in exactly one cluster.  With
    no more stops than [num_clusters] every stop is a cluster of its own and
    the random generator is not used; with more stops there are exactly
    [num_clusters] clusters, some of which may be empty.  The method returns
    whenever [random.sample] yields positions of its population. *)
Theorem cluster_stops_is_partition {RT : Runtime} (self : CIACO.t) (g : Rng) :
  match CIACO.stops self with
  | None => CIACO._cluster_stops self g = Raise (RuntimeError "Stops not initialized")
  | Some points =>
      let n := List.length points in
      (forall cls g',
          CIACO._cluster_stops self g = Ok (cls, g') ->
          Permutation (List.concat cls) (seq 0 n) /\
          NoDup (List.concat cls) /\
          ((Z.of_nat n <= CIACO.num_clusters self)%Z ->
             cls = map (fun i => [i]) (seq 0 n) /\ g' = g) /\
          ((CIACO.num_clusters self < Z.of_nat n)%Z ->
             List.length cls = Z.to_nat (CIACO.num_clusters self))) /\
      (sample_in_range RT -> points <> [] -> (0 < CIACO.num_clusters self)%Z ->
       exists cg, CIACO._cluster_stops self g = Ok cg)
  end.
Proof.
  destruct (CIACO.stops self) as [points |] eqn:Es.
  - intros n. split.
    + intros cls g' H.
      pose proof (cluster_stops_partition self g points cls g' Es H) as Hperm.
      split; [exact Hperm |].
      split; [eapply Permutation_NoDup; [symmetry; exact Hperm | apply seq_NoDup] |].
      unfold CIACO._cluster_stops in H. rewrite Es in H. fold n in H.
      destruct (Z.leb_spec (Z.of_nat n) (CIACO.num_clusters self)) as [Hle | Hgt].
      * inversion H; subst. split; [intros _; split; reflexivity | lia].
      * split; [lia |]. intros _. cbv zeta in H.
        apply bind_Ok in H; destruct H as [centroids [_ H]].
        apply bind_Ok in H; destruct H as [cl [Hk H]].
        inversion H; subst. eapply kmeans_length; exact Hk.
    + intros Hsample Hne Hk. eapply cluster_stops_returns; eassumption.
  - unfold CIACO._cluster_stops. rewrite Es. reflexivity.
Qed.

(** The theorem on five stops on a line and three clusters, on the concrete
    runtime. *)
Lemma cluster_stops_is_partition_witness :
  let self := CIACO.set_stops Scenario.small_optimizer (Some FiveStops.stops) in
  CIACO._cluster_stops (RT := Concrete.runtime) self 0%nat
    = Ok ([[0]; [1; 2]; [3; 4]]%nat, 1%nat) /\
  Permutation (List.concat [[0]; [1; 2]; [3; 4]]%nat) (seq 0 5) /\
  List.length [[0]; [1; 2]; [3; 4]]%nat = 3%nat.
Proof.
  intros self.
  assert (Hrun : CIACO._cluster_stops (RT := Concrete.runtime) self 0%nat
                 = Ok ([[0]; [1; 2]; [3; 4]]%nat, 1%nat)) by (vm_compute; reflexivity).
  split; [exact Hrun |].
  pose proof (cluster_stops_is_partition (RT := Concrete.runtime) self 0%nat) as H.
  simpl in H. destruct H as [H _].
  destruct (H _ _ Hrun) as [Hperm [_ [_ Hlen]]].
  split; [exact Hperm |]. apply Hlen. reflexivity.
Defined.

(** ** What a call of the optimizer keeps *)

(** The nine parameters given to the constructor. *)
Definition parameters (self : CIACO.t) : Z * Z * Q * Q * Q * Q * bool * Z * Q :=
  (CIACO.num_ants self, CIACO.iterations self, CIACO.alpha self, CIACO.beta self,
   CIACO.evaporation_rate self, CIACO.initial_pheromone self,
   CIACO.return_to_depot self, CIACO.num_clusters self, CIACO.elitist_factor self).

(** [a <= b] on distances that may be infinite. *)
Definition xle (a b : xfloat) : Prop :=
  match a, b with
  | _, Inf => True
  | Fin x, Fin y => x <= y
  | Inf, Fin _ => False
  end.

Lemma xle_refl (a : xfloat) : xle a a.
Proof. destruct a; simpl; [lra | exact I]. Qed.

Lemma xle_trans (a b c : xfloat) : xle a b -> xle b c -> xle a c.
Proof. destruct a, b, c; simpl; try tauto; lra. Qed.

Lemma xlt_xle (d : Q) (x : xfloat) : xlt d x = true -> xle (Fin d) x.
Proof.
  destruct x as [q |]; simpl; [| trivial].
  intros H. apply Qltb_true_iff in H. lra.
Qed.

Section CallKeeps.
Context {RT : Runtime}.
Import helper_functions CIACO.

Lemma ants_keep k fuel :
  forall self g routes dists self' g' routes' dists',
    ants k fuel self g routes dists = Ok (self', g', routes', dists') ->
    parameters self' = parameters self /\
    stops self' = stops self /\
    xle (best_distance self') (best_distance self).
Proof.
  induction k as [| k IH]; intros self g routes dists self' g' routes' dists' H;
    simpl in H.
  - inversion H; subst. repeat split; try reflexivity. apply xle_refl.
  - apply bind_Ok in H; destruct H as [rg [_ H]].
    apply IH in H. destruct H as [Hp [Hs Hb]].
    destruct (xlt _ (best_distance self)) eqn:E.
    + rewrite Hp, Hs. repeat split; try reflexivity.
      eapply xle_trans; [exact Hb |]. simpl best_distance. apply xlt_xle; exact E.
    + repeat split; assumption.
Qed.

Lemma update_pheromones_keeps self routes dists self' :
  _update_pheromones self routes dists = Ok self' ->
  parameters self' = parameters self /\ stops self' = stops self /\
  best_distance self' = best_distance self.
Proof.
  unfold _update_pheromones.
  destruct (stops self) eqn:Es; [| discriminate].
  destruct (pheromone_matrix self) eqn:Ep; [| discriminate].
  intros H.
  repeat (apply bind_Ok in H; destruct H as [? [_ H]]).
  inversion H; subst; simpl. repeat split; congruence.
Qed.

Lemma rounds_keep k fuel :
  forall self g self' g',
    rounds k fuel self g = Ok (self', g') ->
    parameters self' = parameters self /\
    stops self' = stops self /\
    xle (best_distance self') (best_distance self).
Proof.
  induction k as [| k IH]; intros self g self' g' H; simpl in H.
  - inversion H; subst. repeat split; try reflexivity. apply xle_refl.
  - apply bind_Ok in H; destruct H as [[[[self1 g1] rs] ds] [Ha H]].
    apply bind_Ok in H; destruct H as [self2 [Hu H]].
    apply IH in H. apply ants_keep in Ha. apply update_pheromones_keeps in Hu.
    destruct H as [Hp [Hs Hb]]. destruct Ha as [Hp1 [Hs1 Hb1]].
    destruct Hu as [Hp2 [Hs2 Hb2]].
    split; [congruence |]. split; [congruence |].
    eapply xle_trans; [exact Hb |]. rewrite Hb2. exact Hb1.
Qed.

Lemma prepare_keeps self points g self' g' :
  prepare self points g = Ok (self', g') ->
  parameters self' = parameters self /\ stops self' = Some points /\
  best_route self' = best_route self /\ best_distance self' = best_distance self.
Proof.
  unfold prepare. intros H.
  apply bind_Ok in H; destruct H as [vis [_ H]].
  apply bind_Ok in H; destruct H as [cg [_ H]].
  apply bind_Ok in H; destruct H as [self5 [H5 H]].
  inversion H; subst self' g'; clear H.
  unfold _initialize_pheromones in H5; simpl in H5.
  inversion H5; subst self5; clear H5. simpl.
  repeat split; reflexivity.
Qed.

End CallKeeps.

(** The parameters after a call, for the callers below. *)
Lemma optimize_route_parameters {RT : Runtime}
    (self : CIACO.t) (stops : list Point) (g : Rng) (fuel : nat)
    (r : option (list Point)) (self' : CIACO.t) (g' : Rng) :
  CIACO.optimize_route self stops g fuel = Ok (r, self', g') ->
  parameters self' = parameters self.
Proof.
  intros H. unfold CIACO.optimize_route in H.
  destruct stops as [| depot others] eqn:Est; [discriminate |]. rewrite <- Est in *.
  destruct (List.length stops <=? 2)%nat; [inversion H; subst; reflexivity |].
  apply bind_Ok in H; destruct H as [[self5 g5] [Hprep H]].
  apply bind_Ok in H; destruct H as [[self6 g6] [Hr H]].
  inversion H; subst r self' g'; clear H. simpl fst in *. simpl snd in *.
  destruct (prepare_keeps _ _ _ _ _ Hprep) as [Hp _].
  destruct (rounds_keep _ _ _ _ _ _ Hr) as [Hp' _]. congruence.
Qed.

(** ** The order intake returns *)

Section OrderIntakeReturns.
Context {RT : Runtime}.
Import DeliveryManagementSystem.

Hypothesis sqrt_ok : sqrt_nonneg RT.
Hypothesis sample_ok : sample_in_range RT.
Hypothesis choices_ok : choices_fair RT.




End OrderIntakeReturns.



(** X6.  A call of [optimize_route] that returns never changes a parameter
    of the optimizer, and the best distance on record never grows.  On more
    than two stops the optimizer keeps the stop list, the value returned is
    the best route on record, and where the record was consistent before the
    call (the best distance is the length of the best route, or infinite with
    no route) it is consistent after it. *)
Theorem optimize_route_keeps_parameters {RT : Runtime}
    (self : CIACO.t) (stops : list Point) (g : Rng) (fuel : nat)
    (r : option (list Point)) (self' : CIACO.t) (g' : Rng) :
  CIACO.optimize_route self stops g fuel = Ok (r, self', g') ->
  parameters self' = parameters self /\
  xle (CIACO.best_distance self') (CIACO.best_distance self) /\
  ((2 < List.length stops)%nat ->
     CIACO.stops self' = Some stops /\
     r = CIACO.best_route self' /\
     (best_consistent (RT := RT) self -> best_consistent (RT := RT) self')).
Proof.
  intros H. unfold CIACO.optimize_route in H.
  destruct stops as [| depot others] eqn:Est; [discriminate |]. rewrite <- Est in *.
  destruct (Nat.leb_spec (List.length stops) 2) as [Hle | Hgt].
  - inversion H; subst. split; [reflexivity |]. split; [apply xle_refl | lia].
  - apply bind_Ok in H; destruct H as [[self5 g5] [Hprep H]].
    apply bind_Ok in H; destruct H as [[self6 g6] [Hr H]].
    inversion H; subst r self' g'; clear H. simpl fst in *. simpl snd in *.
    destruct (prepare_keeps _ _ _ _ _ Hprep) as [Hp [Hs [Hbr Hbd]]].
    destruct (rounds_keep _ _ _ _ _ _ Hr) as [Hp' [Hs' Hb']].
    split; [congruence |]. split; [rewrite <- Hbd; exact Hb' |].
    intros _. split; [congruence |]. split; [reflexivity |].
    intros Hc. eapply rounds_best_consistent; [| exact Hr].
    unfold best_consistent in *. rewrite Hbr, Hbd.
    assert (Hrtd : CIACO.return_to_depot self5 = CIACO.return_to_depot self).
    { unfold parameters in Hp. congruence. }
    rewrite Hrtd. exact Hc.
Qed.

(** The theorem on three stops in a row, on the concrete runtime: the
    route returned is 4 long and 4 is the best distance on record. *)
Lemma optimize_route_keeps_parameters_witness :
  CIACO.optimize_route (RT := Concrete.runtime)
    Scenario.small_optimizer TwoCalls.first_stops 0%nat 5
    = Ok (Some [(0, 0); (1, 0); (2, 0); (0, 0)],
          snd (fst TwoCalls.after_first), snd TwoCalls.after_first) /\
  parameters (snd (fst TwoCalls.after_first)) = parameters Scenario.small_optimizer /\
  best_consistent (RT := Concrete.runtime) (snd (fst TwoCalls.after_first)) /\
  CIACO.best_distance (snd (fst TwoCalls.after_first)) = Fin 4.
Proof.
  assert (Hrun : CIACO.optimize_route (RT := Concrete.runtime)
                   Scenario.small_optimizer TwoCalls.first_stops 0%nat 5
                 = Ok (Some [(0, 0); (1, 0); (2, 0); (0, 0)],
                       snd (fst TwoCalls.after_first), snd TwoCalls.after_first))
    by (vm_compute; reflexivity).
  split; [exact Hrun |].
  destruct (optimize_route_keeps_parameters (RT := Concrete.runtime) _ _ _ _ _ _ _ Hrun)
    as [Hp [_ Hmore]].
  split; [exact Hp |].
  destruct (Hmore ltac:(simpl; lia)) as [_ [_ Hc]].
  split; [apply Hc; reflexivity | reflexivity].
Defined.

(** ** Loops that look for the nearest truck passing a test *)

Lemma for_each_ext {A B : Type} (l : list B) (f f' : A -> B -> outcome A) :
  (forall a x, f a x = f' a x) -> forall a, for_each l f a = for_each l f' a.
Proof.
  intros Heq. induction l as [| x l IH]; intros a; simpl; [reflexivity |].
  rewrite Heq. destruct (f' a x); simpl; [apply IH | reflexivity | reflexivity].
Qed.

Section NearestScan.
Variable T : Type.
Variable test : string * T -> outcome bool.
Variable dist : T -> Q.

(** The common shape of the two search loops: keep the first item of the
    smallest distance among the items that pass the test. *)
Definition scan_step (acc : option string * xfloat) (item : string * T)
  : outcome (option string * xfloat) :=
  let* ok := test item in
  if ok then
    if xlt (dist (snd item)) (snd acc)
    then Ok (Some (fst item), Fin (dist (snd item)))
    else Ok acc
  else Ok acc.

Definition scanned (pre : list (string * T)) (acc : option string * xfloat) : Prop :=
  match fst acc with
  | None => snd acc = Inf /\ forall item, In item pre -> test item <> Ok true
  | Some id =>
      exists tr before after,
        pre = before ++ (id, tr) :: after /\
        test (id, tr) = Ok true /\
        snd acc = Fin (dist tr) /\
        (forall item, In item before -> test item = Ok true -> dist tr < dist (snd item)) /\
        (forall item, In item after -> test item = Ok true -> dist tr <= dist (snd item))
  end.

Lemma scan_result (items : list (string * T)) (best : option string * xfloat) :
  for_each items scan_step (None, Inf) = Ok best -> scanned items best.
Proof.
  intros H.
  apply (for_each_prefix scanned scan_step items [] (None, Inf) best); [| | exact H].
  - clear H. intros pre x [o m] acc' _ Hinv Hstep. unfold scan_step in Hstep.
    apply bind_Ok in Hstep; destruct Hstep as [ok [Htest Hstep]].
    simpl snd in Hstep. unfold scanned in *. simpl fst in Hinv. simpl snd in Hinv.
    destruct ok.
    + destruct (xlt (dist (snd x)) m) eqn:E.
      * inversion Hstep; subst acc'; clear Hstep. simpl.
        exists (snd x), pre, []. destruct x as [xid xtr]. simpl in *.
        split; [reflexivity |]. split; [exact Htest |]. split; [reflexivity |].
        split; [| intros item []].
        destruct o as [id |].
        -- destruct Hinv as [tr [before [after [Hpre [Hp [Hm [Hb Ha]]]]]]].
           subst m. simpl in E. apply Qltb_true_iff in E.
           intros item Hin Hpass. subst pre. apply in_app_or in Hin.
           destruct Hin as [Hin | [<- | Hin]].
           ++ pose proof (Hb item Hin Hpass). lra.
           ++ simpl. exact E.
           ++ pose proof (Ha item Hin Hpass). lra.
        -- destruct Hinv as [_ Hnone]. intros item Hin Hpass.
           exfalso. exact (Hnone item Hin Hpass).
      * inversion Hstep; subst acc'; clear Hstep. simpl.
        destruct o as [id |].
        -- destruct Hinv as [tr [before [after [Hpre [Hp [Hm [Hb Ha]]]]]]].
           exists tr, before, (after ++ [x]).
           split; [subst pre; rewrite <- app_assoc; reflexivity |].
           split; [exact Hp |]. split; [exact Hm |]. split; [exact Hb |].
           intros item Hin Hpass. apply in_app_or in Hin.
           destruct Hin as [Hin | [<- | []]]; [exact (Ha item Hin Hpass) |].
           subst m. simpl in E. apply Qltb_false_iff in E. exact E.
        -- destruct Hinv as [Hm _]. subst m. discriminate E.
    + inversion Hstep; subst acc'; clear Hstep. simpl.
      destruct o as [id |].
      * destruct Hinv as [tr [before [after [Hpre [Hp [Hm [Hb Ha]]]]]]].
        exists tr, before, (after ++ [x]).
        split; [subst pre; rewrite <- app_assoc; reflexivity |].
        split; [exact Hp |]. split; [exact Hm |]. split; [exact Hb |].
        intros item Hin Hpass. apply in_app_or in Hin.
        destruct Hin as [Hin | [<- | []]]; [exact (Ha item Hin Hpass) |].
        rewrite Htest in Hpass. discriminate Hpass.
      * destruct Hinv as [Hm Hnone]. split; [exact Hm |].
        intros item Hin Hpass. apply in_app_or in Hin.
        destruct Hin as [Hin | [<- | []]]; [exact (Hnone item Hin Hpass) |].
        rewrite Htest in Hpass. discriminate Hpass.
  - simpl. split; [reflexivity | intros item []].
Qed.

End NearestScan.

(** ** The truck chosen for a delivery *)

Section SuitableTruck.
Context {RT : Runtime}.
Import DynamicRoutingSystem.

(** The tests of [find_suitable_truck] on one truck, in the order of the
    source. *)
Definition suitable_test (self : t) (d : delivery) (clock : Clock)
    (item : string * truck)
  : outcome bool :=
  let (truck_id, truck) := item in
  if Qltb (max_capacity truck) (total_weight truck + weight d) then Ok false
  else if Qle_bool (weight d) (current_capacity truck) then
    match time_window d with
    | Some (start_time, end_time) =>
        _can_meet_time_window self truck_id d start_time end_time (clock truck_id)
    | None => Ok true
    end
  else Ok false.

(** The distance [find_suitable_truck] minimises. *)
Definition to_pickup (d : delivery) (truck : truck) : Q :=
  _calculate_distance (current_location truck) (pickup d).



Lemma find_suitable_truck_scan (self : t) (delivery_id : string) (clock : Clock)
    (d : delivery) :
  dict_get (deliveries self) delivery_id = Some d ->
  find_suitable_truck self delivery_id clock
  = let* best := for_each (trucks self)
                   (scan_step truck (suitable_test self d clock) (to_pickup d))
                   (None, Inf) in
    Ok (fst best).
Proof.
  intros Hd. unfold find_suitable_truck, dict_item. rewrite Hd. simpl.
  rewrite (for_each_ext (trucks self) _
             (scan_step truck (suitable_test self d clock) (to_pickup d))); [reflexivity |].
  intros acc [truck_id tr]. unfold scan_step, suitable_test, to_pickup.
  destruct (Qltb (max_capacity tr) (total_weight tr + weight d)); [reflexivity |].
  destruct (Qle_bool (weight d) (current_capacity tr)); reflexivity.
Qed.


(** [find_suitable_truck] returns for every registered delivery. *)
Lemma find_suitable_truck_returns (self : t) (delivery_id : string) (clock : Clock)
    (d : delivery) :
  dict_get (deliveries self) delivery_id = Some d ->
  exists found, find_suitable_truck self delivery_id clock = Ok found.
Proof.
  intros Ed. rewrite (find_suitable_truck_scan _ _ _ _ Ed).
  destruct (for_each_returns (fun _ => True) (trucks self)
              (scan_step _ (suitable_test self d clock) (to_pickup d)))
    with (a := (@None string, Inf)) as [best [Hbest _]]; [| exact I |].
  - intros acc [truck_id tr] Hin _. unfold scan_step, suitable_test.
    destruct (Qltb _ _); [eexists; split; [reflexivity | exact I] |].
    destruct (Qle_bool _ _); [| eexists; split; [reflexivity | exact I]].
    destruct (time_window d) as [[start_time end_time] |].
    + unfold _can_meet_time_window, dict_item.
      destruct (dict_get (trucks self) truck_id) eqn:Et;
        [| exfalso; exact (dict_In_some _ _ _ Hin Et)].
      simpl. destruct (end_time <? clock truck_id)%Z; simpl;
        [eexists; split; [reflexivity | exact I] |].
      destruct (_ <=? end_time)%Z; simpl;
        [| eexists; split; [reflexivity | exact I]].
      destruct (xlt _ _); eexists; split; try reflexivity; exact I.
    + simpl. destruct (xlt _ _); eexists; split; try reflexivity; exact I.
  - rewrite Hbest. simpl. eexists; reflexivity.
Qed.

End SuitableTruck.

Module NearestScenario.
Import DynamicRoutingSystem.
Open Scope string_scope.

(** T1 is too small; T2 and T3 are both next to the pickup, T4 is closer
    still but has not enough room left. *)
Definition fleet : t :=
  mk [("T1", mk_truck 100 100 (4, 0) (Some []) [] 0);
      ("T2", mk_truck 1000 1000 (3, 0) (Some []) [] 0);
      ("T3", mk_truck 1000 1000 (5, 0) (Some []) [] 0);
      ("T4", mk_truck 1000 200 (4, 0) (Some []) ["D0"] 800)]
     [("D0", mk_delivery (0, 0) (9, 0) 800 in_progress (Some "T4") None);
      ("D1", mk_delivery (4, 0) (8, 0) 300 pending None None)]
     Scenario.small_optimizer.

End NearestScenario.




(** ** The stops handed to the optimizer for a truck *)

Section RouteStops.
Context {RT : Runtime}.
Import DynamicRoutingSystem.

(** The dropoffs collected from the list of a truck: those of its
    deliveries in progress, in the order of the list. *)
Definition in_progress_dropoffs (ds : dict delivery) (ids : list string) : list Point :=
  flat_map (fun id =>
              match dict_get ds id with
              | Some d => if status_eqb (delivery_status d) in_progress
                          then [dropoff d] else []
              | None => []
              end) ids.

Lemma in_progress_dropoffs_app (ds : dict delivery) (l1 l2 : list string) :
  in_progress_dropoffs ds (l1 ++ l2)
  = in_progress_dropoffs ds l1 ++ in_progress_dropoffs ds l2.
Proof. unfold in_progress_dropoffs. apply flat_map_app. Qed.

(** The body of the loop over the list of the truck. *)
Definition collect_step (ds : dict delivery) (stops : list Point) (delivery_id : string)
  : outcome (list Point) :=
  let* d := dict_item ds delivery_id in
  if status_eqb (delivery_status d) in_progress
  then Ok (stops ++ [dropoff d]) else Ok stops.

Lemma collect_dropoffs (ds : dict delivery) (ids : list string) :
  forall stops stops',
    for_each ids (collect_step ds) stops = Ok stops' ->
    stops' = stops ++ in_progress_dropoffs ds ids.
Proof.
  induction ids as [| id ids IH]; intros stops stops' H; simpl in H.
  - inversion H. simpl. rewrite app_nil_r. reflexivity.
  - apply bind_Ok in H; destruct H as [stops1 [Hstep H]].
    apply bind_Ok in Hstep; destruct Hstep as [d [Hd Hstep]].
    apply dict_item_Ok in Hd. apply IH in H. subst stops'.
    simpl. rewrite Hd.
    destruct (status_eqb (delivery_status d) in_progress);
      inversion Hstep; subst stops1; [rewrite <- app_assoc |]; reflexivity.
Qed.

Lemma collect_dropoffs_returns (ds : dict delivery) (ids : list string) :
  (forall id, In id ids -> dict_get ds id <> None) ->
  forall stops,
    for_each ids (collect_step ds) stops = Ok (stops ++ in_progress_dropoffs ds ids).
Proof.
  induction ids as [| id ids IH]; intros Hreg stops; cbn [for_each].
  - simpl. rewrite app_nil_r. reflexivity.
  - destruct (dict_get ds id) as [d |] eqn:Ed;
      [| exfalso; exact (Hreg id (or_introl eq_refl) Ed)].
    assert (Hstep : collect_step ds stops id
                    = Ok (stops ++ in_progress_dropoffs ds [id])).
    { unfold collect_step, dict_item, in_progress_dropoffs. simpl. rewrite Ed. simpl.
      destruct (status_eqb (delivery_status d) in_progress);
        [reflexivity | rewrite app_nil_r; reflexivity]. }
    rewrite Hstep. cbn [bind].
    rewrite IH by (intros x Hx; apply Hreg; right; exact Hx).
    rewrite <- app_assoc, <- in_progress_dropoffs_app. reflexivity.
Qed.

Lemma route_stops_shape (self : t) (truck_id new_delivery_id : string)
    (stops : list Point) :
  route_stops self truck_id new_delivery_id = Ok stops ->
  exists tr d,
    dict_get (trucks self) truck_id = Some tr /\
    dict_get (deliveries self) new_delivery_id = Some d /\
    stops = current_location tr
            :: in_progress_dropoffs (deliveries self) (deliveries_of tr)
               ++ [pickup d; dropoff d].
Proof.
  unfold route_stops. intros H.
  apply bind_Ok in H; destruct H as [tr [Htr H]]. apply dict_item_Ok in Htr.
  apply bind_Ok in H; destruct H as [d [Hd H]]. apply dict_item_Ok in Hd.
  apply bind_Ok in H; destruct H as [collected [Hloop H]].
  apply collect_dropoffs in Hloop. inversion H; subst stops collected; clear H.
  exists tr, d. split; [exact Htr |]. split; [exact Hd |]. reflexivity.
Qed.

Lemma route_stops_returns (self : t) (truck_id new_delivery_id : string)
    (tr : truck) (d : delivery) :
  dict_get (trucks self) truck_id = Some tr ->
  dict_get (deliveries self) new_delivery_id = Some d ->
  (forall id, In id (deliveries_of tr) -> dict_get (deliveries self) id <> None) ->
  route_stops self truck_id new_delivery_id
  = Ok (current_location tr
        :: in_progress_dropoffs (deliveries self) (deliveries_of tr)
           ++ [pickup d; dropoff d]).
Proof.
  intros Htr Hd Hreg. unfold route_stops, dict_item. rewrite Htr, Hd.
  cbn [bind]. fold (dict_item (V := delivery)). fold (collect_step (deliveries self)).
  rewrite (collect_dropoffs_returns (deliveries self) (deliveries_of tr) Hreg).
  reflexivity.
Qed.

(** [bind_delivery], with the call of the optimizer it makes. *)
Lemma bind_delivery_run (self : t) (delivery_id truck_id : string) (g : Rng)
    (fuel : nat) (self' : t) (g' : Rng) :
  bind_delivery self delivery_id truck_id g fuel = Ok (self', g') ->
  exists tr d route,
    dict_get (trucks self) truck_id = Some tr /\
    dict_get (deliveries self) delivery_id = Some d /\
    deliveries self'
      = dict_set (deliveries self) delivery_id (set_status d in_progress (Some truck_id)) /\
    trucks self'
      = dict_set (trucks self) truck_id
          (mk_truck (max_capacity tr) (current_capacity tr - weight d)
                    (current_location tr) route
                    (deliveries_of tr ++ [delivery_id])
                    (total_weight tr + weight d)) /\
    CIACO.optimize_route (ciaco self)
      (current_location tr
       :: in_progress_dropoffs (deliveries self') (deliveries_of tr)
          ++ [dropoff d; pickup d; dropoff d]) g fuel
      = Ok (route, ciaco self', g').
Proof.
  unfold bind_delivery. intros H.
  apply bind_Ok in H; destruct H as [tr [Htr H]]. apply dict_item_Ok in Htr.
  apply bind_Ok in H; destruct H as [d [Hd H]]. apply dict_item_Ok in Hd.
  cbv zeta in H.
  apply bind_Ok in H; destruct H as [[[route self2] g2] [Hopt H]].
  unfold optimize_route in Hopt.
  apply bind_Ok in Hopt; destruct Hopt as [stops [Hstops Hopt]].
  apply bind_Ok in Hopt; destruct Hopt as [[[r c] g3] [Hrun Hopt]].
  inversion Hopt; subst route self2 g2; clear Hopt.
  cbn [trucks deliveries ciaco] in H, Hrun. rewrite dict_get_set_same_item in H.
  cbn [bind] in H. inversion H; subst self' g'; clear H.
  cbn [trucks deliveries ciaco max_capacity current_capacity current_location
       deliveries_of total_weight].
  apply route_stops_shape in Hstops. cbn [trucks deliveries] in Hstops.
  destruct Hstops as [tr1 [d1 [Htr1 [Hd1 Hstops]]]].
  rewrite dict_get_set_same in Htr1. rewrite dict_get_set_same in Hd1.
  inversion Htr1; subst tr1; clear Htr1. inversion Hd1; subst d1; clear Hd1.
  cbn [current_location deliveries_of pickup dropoff set_status] in Hstops.
  rewrite in_progress_dropoffs_app in Hstops.
  assert (Hlast : in_progress_dropoffs
                    (dict_set (deliveries self) delivery_id
                       (set_status d in_progress (Some truck_id))) [delivery_id]
                  = [dropoff d]).
  { unfold in_progress_dropoffs. cbn [flat_map]. rewrite dict_get_set_same.
    reflexivity. }
  rewrite Hlast, <- app_assoc in Hstops. cbn [app] in Hstops. subst stops.
  exists tr, d, r. split; [exact Htr |]. split; [exact Hd |].
  split; [reflexivity |]. split; [rewrite dict_set_set; reflexivity |]. exact Hrun.
Qed.

End RouteStops.

(** X8.  When [assign_delivery] answers [True], the route of the chosen
    truck is what the optimizer returned for this stop list: the position of
    the truck, the dropoffs of the deliveries in progress on its list, and
    then the dropoff, the pickup and the dropoff of the new delivery.  The
    new dropoff is there twice, because the delivery is put on the list of
    the truck and set in progress before the stops are collected.  The list
    has at least four stops, so the optimizer never answers through its
    shortcut for one or two stops. *)
Theorem assign_delivery_requests_route {RT : Runtime}
    (self : DynamicRoutingSystem.t) (delivery_id : string)
    (clock : DynamicRoutingSystem.Clock) (g : Rng)
    (fuel : nat) (self' : DynamicRoutingSystem.t) (g' : Rng) :
  DynamicRoutingSystem.assign_delivery self delivery_id clock g fuel = Ok (true, self', g') ->
  exists truck_id tr tr' d stops,
    dict_get (DynamicRoutingSystem.trucks self) truck_id = Some tr /\
    dict_get (DynamicRoutingSystem.deliveries self) delivery_id = Some d /\
    dict_get (DynamicRoutingSystem.trucks self') truck_id = Some tr' /\
    stops = DynamicRoutingSystem.current_location tr
            :: in_progress_dropoffs (DynamicRoutingSystem.deliveries self')
                 (DynamicRoutingSystem.deliveries_of tr)
               ++ [DynamicRoutingSystem.dropoff d; DynamicRoutingSystem.pickup d;
                   DynamicRoutingSystem.dropoff d] /\
    (4 <= List.length stops)%nat /\
    CIACO.optimize_route (DynamicRoutingSystem.ciaco self) stops g fuel
      = Ok (DynamicRoutingSystem.current_route tr', DynamicRoutingSystem.ciaco self', g').
Proof.
  intros H. unfold DynamicRoutingSystem.assign_delivery in H.
  destruct (dict_get (DynamicRoutingSystem.deliveries self) delivery_id) as [d |] eqn:Ed;
    [| discriminate].
  destruct (negb _); [discriminate |].
  apply bind_Ok in H; destruct H as [found [_ H]].
  destruct (DynamicRoutingSystem.truthy found) as [truck_id |]; [| discriminate].
  apply bind_Ok in H; destruct H as [[s1 g1] [Hbind H]].
  inversion H; subst s1 g1; clear H.
  apply bind_delivery_run in Hbind.
  destruct Hbind as [tr [d0 [route [Htr [Hd0 [_ [Htrucks Hrun]]]]]]].
  rewrite Ed in Hd0. inversion Hd0; subst d0; clear Hd0.
  eexists truck_id, tr, _, d, _.
  split; [exact Htr |]. split; [reflexivity |].
  split; [rewrite Htrucks; apply dict_get_set_same |].
  split; [reflexivity |]. split; [| exact Hrun].
  simpl. rewrite length_app. simpl. lia.
Qed.

(** The theorem on the truck that already carries D0: the optimizer is
    asked for the stops (0,0), (4,0), (2,0), (1,0), (2,0). *)
Lemma assign_delivery_requests_route_witness :
  DynamicRoutingSystem.assign_delivery (RT := Concrete.runtime) Scenario.loaded "D1"
    (fun _ => 0%Z) 0%nat 5
    = Ok (true, snd (fst Scenario.loaded_assigned), snd Scenario.loaded_assigned) /\
  exists route c g',
    CIACO.optimize_route (RT := Concrete.runtime) Scenario.small_optimizer
      [(0, 0); (4, 0); (2, 0); (1, 0); (2, 0)] 0%nat 5 = Ok (route, c, g').
Proof.
  assert (Hrun : DynamicRoutingSystem.assign_delivery (RT := Concrete.runtime)
                   Scenario.loaded "D1" (fun _ => 0%Z) 0%nat 5
                 = Ok (true, snd (fst Scenario.loaded_assigned),
                       snd Scenario.loaded_assigned))
    by (vm_compute; reflexivity).
  split; [exact Hrun |].
  destruct (assign_delivery_requests_route (RT := Concrete.runtime) _ _ _ _ _ _ _ Hrun)
    as [truck_id [tr [tr' [d [stops [Htr [Hd [_ [Hstops [_ Hopt]]]]]]]]]].
  apply dict_get_In in Htr. destruct Htr as [Htr | []].
  inversion Htr; subst truck_id tr; clear Htr.
  cbn in Hd. inversion Hd; subst d; clear Hd.
  eexists _, _, _. cbn in Hstops. subst stops. exact Hopt.
Defined.

(** ** What a move of a truck changes *)

Lemma remove_id_incl (x : string) (l : list string) : incl (remove_id x l) l.
Proof.
  induction l as [| y l IH]; simpl; [intros a [] |].
  destruct (String.eqb y x).
  - intros a Ha; right; exact Ha.
  - intros a [<- | Ha]; [left; reflexivity | right; apply IH; exact Ha].
Qed.

Section Move.
Context {RT : Runtime}.
Import DynamicRoutingSystem.

(** The delivery [id] was completed by the move to [loc]. *)
Definition completed_by_move (before after : t) (ids : list string) (loc : Point)
    (id : string) : Prop :=
  exists d,
    dict_get (deliveries before) id = Some d /\
    In id ids /\
    delivery_status d = in_progress /\
    _calculate_distance loc (dropoff d) < 1 # 100 /\
    dict_get (deliveries after) id = Some (set_status d completed (assigned_truck d)).

(** What holds during the loop of [update_truck_status]; [start] is the
    registry with the new location written and [tr0] its record of the
    truck. *)
Definition moved (start : t) (truck_id : string) (tr0 : truck) (loc : Point) (s : t)
  : Prop :=
  (exists tr,
      dict_get (trucks s) truck_id = Some tr /\
      max_capacity tr = max_capacity tr0 /\
      current_location tr = current_location tr0 /\
      current_route tr = current_route tr0 /\
      incl (deliveries_of tr) (deliveries_of tr0) /\
      current_capacity tr + total_weight tr == current_capacity tr0 + total_weight tr0) /\
  (forall other, other <> truck_id ->
     dict_get (trucks s) other = dict_get (trucks start) other) /\
  ciaco s = ciaco start /\
  map fst (trucks s) = map fst (trucks start) /\
  (map fst (deliveries s) = map fst (deliveries start)) /\
  (forall id,
     dict_get (deliveries s) id = dict_get (deliveries start) id \/
     completed_by_move start s (deliveries_of tr0) loc id).

Lemma status_step_moved (start : t) (truck_id : string) (tr0 : truck) (loc : Point)
    (s s' : t) (tr : truck) (delivery_id : string) :
  moved start truck_id tr0 loc s ->
  dict_get (trucks s) truck_id = Some tr ->
  In delivery_id (deliveries_of tr) ->
  status_step s truck_id loc delivery_id = Ok s' ->
  moved start truck_id tr0 loc s'.
Proof.
  intros Hinv Htr Hin H. unfold status_step in H.
  apply bind_Ok in H; destruct H as [d [Hd H]]. apply dict_item_Ok in Hd.
  destruct (status_eqb (delivery_status d) in_progress) eqn:Est;
    [| inversion H; subst; exact Hinv].
  destruct (Qltb (_calculate_distance loc (dropoff d)) (1 # 100)) eqn:Enear;
    [| inversion H; subst; exact Hinv].
  apply bind_Ok in H; destruct H as [tr1 [Htr1 H]]. apply dict_item_Ok in Htr1.
  rewrite Htr in Htr1. inversion Htr1; subst tr1; clear Htr1.
  inversion H; subst s'; clear H.
  destruct Hinv as [[tr2 [Htr2 [Hmax [Hloc [Hroute [Hincl Hsum]]]]]]
                      [Hother [Hc [Hkt [Hkd Hdel]]]]].
  rewrite Htr in Htr2. inversion Htr2; subst tr2; clear Htr2.
  assert (Hstart : dict_get (deliveries start) delivery_id = Some d).
  { destruct (Hdel delivery_id) as [E | [d0 [_ [_ [_ [_ E]]]]]]; [congruence |].
    rewrite Hd in E. inversion E; subst d. discriminate Est. }
  unfold moved. cbn [trucks deliveries ciaco].
  split; [| split; [| split; [| split; [| split]]]].
  - eexists. split; [apply dict_get_set_same |]. cbn.
    split; [exact Hmax |]. split; [exact Hloc |]. split; [exact Hroute |]. split.
    + intros a Ha. apply Hincl. eapply remove_id_incl; exact Ha.
    + rewrite <- Hsum. ring.
  - intros other Hne. rewrite dict_get_set_other by exact Hne. apply Hother; exact Hne.
  - exact Hc.
  - rewrite dict_set_keys by (rewrite Htr; discriminate). exact Hkt.
  - rewrite dict_set_keys by (rewrite Hd; discriminate). exact Hkd.
  - intros id. destruct (String.eqb_spec id delivery_id) as [-> | Hne].
    + right. exists d. split; [exact Hstart |].
      split; [apply Hincl; exact Hin |].
      split; [destruct (delivery_status d); try discriminate Est; reflexivity |].
      split; [apply Qltb_true_iff; exact Enear |]. apply dict_get_set_same.
    + rewrite dict_get_set_other by exact Hne.
      destruct (Hdel id) as [E | [d0 [H1 [H2 [H3 [H4 H5]]]]]]; [left; exact E |].
      right. exists d0. repeat split; try assumption.
      cbn [deliveries]. rewrite dict_get_set_other by exact Hne. exact H5.

Qed.

Lemma status_loop_moved (start : t) (truck_id : string) (tr0 : truck) (loc : Point) :
  forall (bound i : nat) (s s' : t),
    moved start truck_id tr0 loc s ->
    status_loop bound i s truck_id loc = Ok s' ->
    moved start truck_id tr0 loc s'.
Proof.
  induction bound as [| bound IH]; intros i s s' Hinv H; simpl in H.
  - inversion H; subst; exact Hinv.
  - apply bind_Ok in H; destruct H as [tr [Htr H]]. apply dict_item_Ok in Htr.
    destruct (nth_error (deliveries_of tr) i) as [delivery_id |] eqn:En;
      [| inversion H; subst; exact Hinv].
    apply bind_Ok in H; destruct H as [s1 [Hstep H]].
    eapply IH; [| exact H].
    eapply status_step_moved; [exact Hinv | exact Htr | | exact Hstep].
    eapply nth_error_In; exact En.
Qed.

(** What [update_truck_status] changes. *)
Lemma update_truck_status_effect (self : t) (truck_id : string) (loc : Point)
    (tr : truck) (self' : t) :
  dict_get (trucks self) truck_id = Some tr ->
  update_truck_status self truck_id loc = Ok self' ->
  let tr0 := mk_truck (max_capacity tr) (current_capacity tr) loc
                      (current_route tr) (deliveries_of tr) (total_weight tr) in
  moved (mk (dict_set (trucks self) truck_id tr0) (deliveries self) (ciaco self))
        truck_id tr0 loc self'.
Proof.
  intros Htr H tr0. unfold update_truck_status, dict_item in H. rewrite Htr in H.
  cbn [bind] in H. fold tr0 in H.
  eapply status_loop_moved; [| exact H].
  unfold moved. cbn [trucks deliveries ciaco].
  split; [| split; [| split; [| split; [| split]]]]; try reflexivity.
  - exists tr0. split; [apply dict_get_set_same |].
    repeat split; try reflexivity. apply incl_refl.
  - intros id. left. reflexivity.
Qed.

End Move.

Module MoveScenario.
Import DynamicRoutingSystem.

(** The registry after T1, carrying D1 and D2, has moved to (5, 0). *)
Definition arrived : t :=
  Eval vm_compute in
    match update_truck_status (RT := Concrete.runtime)
            CompletionScenario.two_at_one_place "T1" (5, 0) with
    | Ok s => s
    | _ => CompletionScenario.two_at_one_place
    end.

End MoveScenario.

(** X10.  [update_truck_status] raises [KeyError] for a truck that is not
    registered.  For a registered truck it writes the new location and
    touches nothing else of the registry except through completions: a
    delivery record changes only by going from in progress to completed, and
    only for a delivery on the list of this truck whose dropoff is less than
    0.01 from the new location.  The list of the truck only loses entries,
    the sum of its remaining capacity and committed weight stays the same,
    and every other truck and the optimizer are untouched. *)
Theorem update_truck_status_completes_arrivals {RT : Runtime}
    (self : DynamicRoutingSystem.t) (truck_id : string) (loc : Point) :
  match dict_get (DynamicRoutingSystem.trucks self) truck_id with
  | None =>
      DynamicRoutingSystem.update_truck_status self truck_id loc
      = Raise (KeyError truck_id)
  | Some tr =>
      forall self',
        DynamicRoutingSystem.update_truck_status self truck_id loc = Ok self' ->
        (exists tr',
            dict_get (DynamicRoutingSystem.trucks self') truck_id = Some tr' /\
            DynamicRoutingSystem.current_location tr' = loc /\
            DynamicRoutingSystem.max_capacity tr' = DynamicRoutingSystem.max_capacity tr /\
            DynamicRoutingSystem.current_route tr' = DynamicRoutingSystem.current_route tr /\
            incl (DynamicRoutingSystem.deliveries_of tr')
                 (DynamicRoutingSystem.deliveries_of tr) /\
            DynamicRoutingSystem.current_capacity tr' + DynamicRoutingSystem.total_weight tr'
            == DynamicRoutingSystem.current_capacity tr
               + DynamicRoutingSystem.total_weight tr) /\
        (forall other, other <> truck_id ->
           dict_get (DynamicRoutingSystem.trucks self') other
           = dict_get (DynamicRoutingSystem.trucks self) other) /\
        (forall id,
           dict_get (DynamicRoutingSystem.deliveries self') id
           = dict_get (DynamicRoutingSystem.deliveries self) id \/
           completed_by_move self self' (DynamicRoutingSystem.deliveries_of tr) loc id) /\
        DynamicRoutingSystem.ciaco self' = DynamicRoutingSystem.ciaco self
  end.
Proof.
  destruct (dict_get (DynamicRoutingSystem.trucks self) truck_id) as [tr |] eqn:Etr.
  - intros self' H.
    pose proof (update_truck_status_effect self truck_id loc tr self' Etr H) as Hm.
    cbv zeta in Hm.
    destruct Hm as [[tr' [Htr' [Hmax [Hloc [Hroute [Hincl Hsum]]]]]]
                      [Hother [Hc [_ [_ Hdel]]]]].
    cbn in Hmax, Hloc, Hroute, Hincl, Hsum, Hother, Hc.
    split; [exists tr'; repeat split; assumption |].
    split.
    + intros other Hne. rewrite Hother by exact Hne.
      apply dict_get_set_other; exact Hne.
    + split; [| exact Hc]. intros id. destruct (Hdel id) as [E | E]; [left | right]; exact E.
  - unfold DynamicRoutingSystem.update_truck_status, dict_item. rewrite Etr. reflexivity.
Qed.

(** The theorem on the move of T1 to (5, 0): D1 is completed, the record
    of D2 is as before. *)
Lemma update_truck_status_completes_arrivals_witness :
  DynamicRoutingSystem.update_truck_status (RT := Concrete.runtime)
    CompletionScenario.two_at_one_place "T1" (5, 0) = Ok MoveScenario.arrived /\
  completed_by_move (RT := Concrete.runtime) CompletionScenario.two_at_one_place
    MoveScenario.arrived ["D1"; "D2"]%string (5, 0) "D1" /\
  dict_get (DynamicRoutingSystem.deliveries MoveScenario.arrived) "D2"
  = dict_get (DynamicRoutingSystem.deliveries CompletionScenario.two_at_one_place) "D2".
Proof.
  assert (Hrun : DynamicRoutingSystem.update_truck_status (RT := Concrete.runtime)
                   CompletionScenario.two_at_one_place "T1" (5, 0)
                 = Ok MoveScenario.arrived) by (vm_compute; reflexivity).
  split; [exact Hrun |].
  pose proof (update_truck_status_completes_arrivals (RT := Concrete.runtime)
                CompletionScenario.two_at_one_place "T1" (5, 0)) as H.
  cbn [dict_get DynamicRoutingSystem.trucks CompletionScenario.two_at_one_place
       String.eqb Ascii.eqb Bool.eqb] in H.
  destruct (H _ Hrun) as [_ [_ [Hdel _]]].
  split.
  - destruct (Hdel "D1"%string) as [E | E]; [discriminate E | exact E].
  - reflexivity.
Defined.

(** ** A delivery that was assigned *)

Section AssignedOnce.
Context {RT : Runtime}.
Import DynamicRoutingSystem.

(** The registries reached from [s] by calls of [add_truck],
    [assign_delivery] and [update_truck_status], and of [add_delivery] for
    deliveries other than [delivery_id]: by any calls but the handling of a
    breakdown and a new registration of the delivery. *)
Inductive reached (delivery_id : string) (s : t) : t -> Prop :=
| reached_at_once : reached delivery_id s s
| reached_add_truck (s1 : t) (truck_id : string) (capacity : Q) (location : Point) :
    reached delivery_id s s1 ->
    reached delivery_id s (add_truck s1 truck_id capacity location)
| reached_add_delivery (s1 : t) (id : string) (p q : Point) (w : Q)
    (window : option (datetime * datetime)) :
    id <> delivery_id ->
    reached delivery_id s s1 ->
    reached delivery_id s (add_delivery s1 id p q w window)
| reached_assign (s1 : t) (id : string) (clock : Clock) (g : Rng) (fuel : nat)
    (ok : bool) (s2 : t) (g' : Rng) :
    reached delivery_id s s1 ->
    assign_delivery s1 id clock g fuel = Ok (ok, s2, g') ->
    reached delivery_id s s2
| reached_move (s1 : t) (truck_id : string) (location : Point) (s2 : t) :
    reached delivery_id s s1 ->
    update_truck_status s1 truck_id location = Ok s2 ->
    reached delivery_id s s2.

(** The delivery is registered and no longer pending. *)
Definition taken (s : t) (delivery_id : string) : Prop :=
  exists d, dict_get (deliveries s) delivery_id = Some d /\ delivery_status d <> pending.

Lemma assign_delivery_keeps_taken (s : t) (id : string) (clock : Clock) (g : Rng)
    (fuel : nat) (ok : bool) (s' : t) (g' : Rng) (delivery_id : string) :
  assign_delivery s id clock g fuel = Ok (ok, s', g') ->
  (ok = true -> taken s' id) /\ (taken s delivery_id -> taken s' delivery_id).
Proof.
  unfold assign_delivery. intros H.
  destruct (dict_get (deliveries s) id) as [d |] eqn:Ed;
    [| inversion H; subst; split; [discriminate | tauto]].
  destruct (negb _); [inversion H; subst; split; [discriminate | tauto] |].
  apply bind_Ok in H; destruct H as [found [_ H]].
  destruct (truthy found) as [truck_id |];
    [| inversion H; subst; split; [discriminate | tauto]].
  apply bind_Ok in H; destruct H as [[s1 g1] [Hbind H]].
  inversion H; subst ok s' g'; clear H. cbn [fst].
  apply bind_delivery_effect in Hbind.
  destruct Hbind as [tr [d0 [route [_ [_ [Hdel _]]]]]].
  assert (Hid : taken s1 id).
  { exists (set_status d0 in_progress (Some truck_id)).
    rewrite Hdel, dict_get_set_same. split; [reflexivity | discriminate]. }
  split; [intros _; exact Hid |].
  intros [d1 [Hd1 Hs1]]. destruct (String.eqb_spec delivery_id id) as [-> | Hne];
    [exact Hid |].
  exists d1. rewrite Hdel, dict_get_set_other by exact Hne. split; assumption.
Qed.

Lemma update_truck_status_keeps_taken (s : t) (truck_id : string) (location : Point)
    (s' : t) (delivery_id : string) :
  update_truck_status s truck_id location = Ok s' ->
  taken s delivery_id -> taken s' delivery_id.
Proof.
  intros H [d [Hd Hs]].
  destruct (dict_get (trucks s) truck_id) as [tr |] eqn:Etr.
  2:{ unfold update_truck_status, dict_item in H. rewrite Etr in H. discriminate H. }
  pose proof (update_truck_status_effect s truck_id location tr s' Etr H) as Hm.
  cbv zeta in Hm. destruct Hm as [_ [_ [_ [_ [_ Hdel]]]]].
  cbn [deliveries] in Hdel.
  destruct (Hdel delivery_id) as [Hsame | [d1 [_ [_ [_ [_ Hdone]]]]]].
  - exists d. rewrite Hsame. split; assumption.
  - exists (set_status d1 completed (assigned_truck d1)).
    split; [exact Hdone | discriminate].
Qed.

End AssignedOnce.

(** X9.  A delivery is assigned once.  After [assign_delivery] has answered
    [True] for it, it is no longer pending, and it stays so through every
    later call of [add_truck], [assign_delivery], [update_truck_status] and
    of [add_delivery] for other deliveries; in each registry reached this
    way a call of [assign_delivery] for it answers [False] and changes
    nothing, whatever the clock, the generator and the fuel.  Only
    [handle_truck_breakdown], which sets the deliveries of the broken truck
    back to pending, and a new [add_delivery] of the same delivery are left
    out. *)
Theorem assign_delivery_only_once {RT : Runtime}
    (self : DynamicRoutingSystem.t) (delivery_id : string)
    (clock : DynamicRoutingSystem.Clock) (g : Rng) (fuel : nat)
    (self' : DynamicRoutingSystem.t) (g' : Rng) :
  DynamicRoutingSystem.assign_delivery self delivery_id clock g fuel = Ok (true, self', g') ->
  forall later : DynamicRoutingSystem.t,
    reached delivery_id self' later ->
    taken later delivery_id /\
    forall (clock' : DynamicRoutingSystem.Clock) (g2 : Rng) (fuel' : nat),
      DynamicRoutingSystem.assign_delivery later delivery_id clock' g2 fuel'
      = Ok (false, later, g2).
Proof.
  intros H later Hreached.
  assert (Htaken : taken later delivery_id).
  { induction Hreached as [| s1 truck_id capacity location _ IH
                           | s1 id p q w window Hne _ IH
                           | s1 id clock1 g1 fuel1 ok s2 g3 _ IH Hrun
                           | s1 truck_id location s2 _ IH Hrun].
    - exact (proj1 (assign_delivery_keeps_taken _ _ _ _ _ _ _ _ delivery_id H) eq_refl).
    - exact IH.
    - destruct IH as [d [Hd Hs]]. exists d.
      unfold DynamicRoutingSystem.add_delivery. cbn [DynamicRoutingSystem.deliveries].
      rewrite dict_get_set_other by (intros E; apply Hne; symmetry; exact E).
      split; assumption.
    - exact (proj2 (assign_delivery_keeps_taken _ _ _ _ _ _ _ _ delivery_id Hrun) IH).
    - exact (update_truck_status_keeps_taken _ _ _ _ _ Hrun IH). }
  split; [exact Htaken |].
  intros clock' g2 fuel'. destruct Htaken as [d [Hd Hs]].
  unfold DynamicRoutingSystem.assign_delivery. rewrite Hd.
  destruct (DynamicRoutingSystem.delivery_status d); try reflexivity.
  contradiction Hs; reflexivity.
Qed.

(** The theorem on the truck that carries D0 and takes D1: after the truck
    has moved and another truck has been added, D1 is still refused. *)
Lemma assign_delivery_only_once_witness :
  DynamicRoutingSystem.assign_delivery (RT := Concrete.runtime) Scenario.loaded "D1"
    (fun _ => 0%Z) 0%nat 5
    = Ok (true, snd (fst Scenario.loaded_assigned), snd Scenario.loaded_assigned) /\
  exists moved_on,
    DynamicRoutingSystem.update_truck_status (RT := Concrete.runtime)
      (snd (fst Scenario.loaded_assigned)) "T1" (3, 0) = Ok moved_on /\
    DynamicRoutingSystem.assign_delivery (RT := Concrete.runtime)
      (DynamicRoutingSystem.add_truck moved_on "T9" 500 (1, 1)) "D1" (fun _ => 7%Z) 3%nat 0
    = Ok (false, DynamicRoutingSystem.add_truck moved_on "T9" 500 (1, 1), 3%nat).
Proof.
  assert (Hrun : DynamicRoutingSystem.assign_delivery (RT := Concrete.runtime)
                   Scenario.loaded "D1" (fun _ => 0%Z) 0%nat 5
                 = Ok (true, snd (fst Scenario.loaded_assigned),
                       snd Scenario.loaded_assigned))
    by (vm_compute; reflexivity).
  split; [exact Hrun |].
  destruct (DynamicRoutingSystem.update_truck_status (RT := Concrete.runtime)
              (snd (fst Scenario.loaded_assigned)) "T1" (3, 0)) as [moved_on | e |] eqn:Emove;
    [| vm_compute in Emove; discriminate Emove | vm_compute in Emove; discriminate Emove].
  exists moved_on. split; [reflexivity |].
  apply (assign_delivery_only_once (RT := Concrete.runtime) _ _ _ _ _ _ _ Hrun).
  apply reached_add_truck.
  eapply reached_move; [apply reached_at_once | exact Emove].
Defined.

(** ** The replacement truck after a breakdown *)

Section Replacement.
Context {RT : Runtime}.
Import DynamicRoutingSystem.

(** The only test of the reassignment loop: the remaining capacity covers
    nine tenths of the weight. *)
Definition lenient_test (d : delivery) (item : string * truck) : outcome bool :=
  Ok (Qle_bool (weight d * (9 # 10)) (current_capacity (snd item))).

Lemma find_replacement_scan (self : t) (delivery_id : string) (d : delivery) :
  dict_get (deliveries self) delivery_id = Some d ->
  find_replacement self delivery_id
  = let* best := for_each (trucks self)
                   (scan_step truck (lenient_test d) (to_pickup d)) (None, Inf) in
    Ok (fst best).
Proof.
  intros Hd. unfold find_replacement.
  rewrite (for_each_ext (trucks self) _
             (scan_step truck (lenient_test d) (to_pickup d))); [reflexivity |].
  intros acc [truck_id tr]. unfold scan_step, lenient_test, to_pickup, dict_item.
  rewrite Hd. reflexivity.
Qed.

Lemma find_replacement_unregistered (self : t) (delivery_id : string)
    (found : option string) :
  dict_get (deliveries self) delivery_id = None ->
  find_replacement self delivery_id = Ok found -> found = None.
Proof.
  intros Hd. unfold find_replacement.
  destruct (trucks self) as [| [truck_id tr] rest]; simpl.
  - intros H; inversion H; reflexivity.
  - unfold dict_item. rewrite Hd. simpl. discriminate.
Qed.

(** What [find_replacement] answers for a registered delivery. *)
Lemma find_replacement_answer (self : t) (delivery_id : string) (d : delivery)
    (found : option string) :
  dict_get (deliveries self) delivery_id = Some d ->
  find_replacement self delivery_id = Ok found ->
  match found with
  | None => forall truck_id tr, In (truck_id, tr) (trucks self) ->
                                current_capacity tr < weight d * (9 # 10)
  | Some truck_id =>
      exists tr before after,
        trucks self = before ++ (truck_id, tr) :: after /\
        weight d * (9 # 10) <= current_capacity tr /\
        (forall other tr', In (other, tr') before ->
                           weight d * (9 # 10) <= current_capacity tr' ->
                           to_pickup d tr < to_pickup d tr') /\
        (forall other tr', In (other, tr') after ->
                           weight d * (9 # 10) <= current_capacity tr' ->
                           to_pickup d tr <= to_pickup d tr')
  end.
Proof.
  intros Hd H. rewrite (find_replacement_scan _ _ _ Hd) in H.
  apply bind_Ok in H; destruct H as [best [Hscan H]].
  inversion H; subst found; clear H.
  apply scan_result in Hscan. unfold scanned, lenient_test in Hscan.
  assert (Hpass : forall item : string * truck,
             Ok (Qle_bool (weight d * (9 # 10)) (current_capacity (snd item))) = Ok true
             <-> weight d * (9 # 10) <= current_capacity (snd item)).
  { intros item. rewrite <- Qle_bool_iff. split; intros E; [inversion E | rewrite E];
      reflexivity. }
  destruct (fst best) as [truck_id |].
  - destruct Hscan as [tr [before [after [Hsplit [Hp [_ [Hb Ha]]]]]]].
    exists tr, before, after. split; [exact Hsplit |].
    split; [apply (Hpass (truck_id, tr)); exact Hp |]. split.
    + intros other tr' Hin Hfit. apply (Hb (other, tr') Hin).
      apply (Hpass (other, tr')); exact Hfit.
    + intros other tr' Hin Hfit. apply (Ha (other, tr') Hin).
      apply (Hpass (other, tr')); exact Hfit.
  - destruct Hscan as [_ Hnone]. intros truck_id tr Hin.
    apply Qnot_le_lt. intros Hfit. apply (Hnone (truck_id, tr) Hin).
    apply (Hpass (truck_id, tr)); exact Hfit.
Qed.

(** One pass of the reassignment loop, with the test the chosen truck
    passed. *)
Lemma reassign_one_cases (fuel : nat) (success : bool) (printed : list string) (s : t)
    (g : Rng) (x : failed) (acc' : bool * list string * t * Rng) :
  dict_wf (trucks s) ->
  reassign_one fuel (success, printed, s, g) x = Ok acc' ->
  (exists s' g' truck_id tr d,
      acc' = (success, printed, s', g') /\
      bind_delivery s (failed_id x) truck_id g fuel = Ok (s', g') /\
      dict_get (trucks s) truck_id = Some tr /\
      dict_get (deliveries s) (failed_id x) = Some d /\
      weight d * (9 # 10) <= current_capacity tr) \/
  acc' = (false, printed ++ [failure_line (failed_id x)], s, g).
Proof.
  intros Hwf H. unfold reassign_one in H.
  apply bind_Ok in H; destruct H as [found [Hfound H]].
  destruct (truthy found) as [truck_id |] eqn:Et.
  - apply truthy_Some in Et. subst found.
    apply bind_Ok in H; destruct H as [[s' g'] [Hbind H]].
    inversion H; subst acc'; clear H. left.
    destruct (dict_get (deliveries s) (failed_id x)) as [d |] eqn:Ed.
    + pose proof (find_replacement_answer _ _ _ _ Ed Hfound) as Hans.
      destruct Hans as [tr [before [after [Hsplit [Hfit _]]]]].
      exists s', g', truck_id, tr, d.
      split; [reflexivity |]. split; [exact Hbind |].
      split; [| split; [reflexivity | exact Hfit]].
      apply dict_In_get; [exact Hwf |]. rewrite Hsplit.
      apply in_or_app; right; left; reflexivity.
    + apply (find_replacement_unregistered _ _ _ Ed) in Hfound. discriminate.
  - right. inversion H; reflexivity.
Qed.

End Replacement.

(** ** An invariant of the registry *)

(** The keys of both dictionaries are unique; for every truck the remaining
    capacity and the committed weight add up to the maximum capacity, and
    every entry of its list is a registered delivery; the optimizer has at
    least one ant and one cluster. *)
Definition registry_ok (s : DynamicRoutingSystem.t) : Prop :=
  dict_wf (DynamicRoutingSystem.trucks s) /\
  dict_wf (DynamicRoutingSystem.deliveries s) /\
  (forall id tr,
      dict_get (DynamicRoutingSystem.trucks s) id = Some tr ->
      DynamicRoutingSystem.current_capacity tr + DynamicRoutingSystem.total_weight tr
      == DynamicRoutingSystem.max_capacity tr /\
      forall x, In x (DynamicRoutingSystem.deliveries_of tr) ->
                dict_get (DynamicRoutingSystem.deliveries s) x <> None) /\
  (0 < CIACO.num_ants (DynamicRoutingSystem.ciaco s))%Z /\
  (0 < CIACO.num_clusters (DynamicRoutingSystem.ciaco s))%Z.

Lemma parameters_positive (c c' : CIACO.t) :
  parameters c' = parameters c ->
  (0 < CIACO.num_ants c)%Z /\ (0 < CIACO.num_clusters c)%Z ->
  (0 < CIACO.num_ants c')%Z /\ (0 < CIACO.num_clusters c')%Z.
Proof.
  unfold parameters. intros H [Ha Hk]. inversion H. split; congruence.
Qed.

Section RegistryInvariant.
Context {RT : Runtime}.
Import DynamicRoutingSystem.

Lemma init_registry_ok (s : t) : __init__ = Ok s -> registry_ok s.
Proof.
  unfold __init__, CIACO.default. intros H.
  apply bind_Ok in H; destruct H as [c [Hc H]].
  apply init_fields in Hc. destruct Hc as [-> _].
  inversion H; subst s; clear H. unfold registry_ok; simpl.
  split; [constructor |]. split; [constructor |].
  split; [intros id tr E; discriminate E |]. split; reflexivity.
Qed.

Lemma add_truck_registry_ok (s : t) (truck_id : string) (capacity : Q) (loc : Point) :
  registry_ok s -> registry_ok (add_truck s truck_id capacity loc).
Proof.
  intros [Hwt [Hwd [Htr Hc]]]. unfold registry_ok, add_truck; cbn [trucks deliveries ciaco].
  split; [apply dict_set_wf; exact Hwt |]. split; [exact Hwd |].
  split; [| exact Hc]. intros id tr Hget.
  destruct (String.eqb_spec id truck_id) as [-> | Hne].
  - rewrite dict_get_set_same in Hget. inversion Hget; subst tr; clear Hget. simpl.
    split; [ring | intros x []].
  - rewrite dict_get_set_other in Hget by exact Hne. apply Htr with (id := id); exact Hget.
Qed.

Lemma add_delivery_registry_ok (s : t) (delivery_id : string) (p q : Point) (w : Q)
    (window : option (DynamicRoutingSystem.datetime * DynamicRoutingSystem.datetime)) :
  registry_ok s -> registry_ok (add_delivery s delivery_id p q w window).
Proof.
  intros [Hwt [Hwd [Htr Hc]]]. unfold registry_ok, add_delivery; cbn [trucks deliveries ciaco].
  split; [exact Hwt |]. split; [apply dict_set_wf; exact Hwd |].
  split; [| exact Hc]. intros id tr Hget.
  destruct (Htr id tr Hget) as [Hsum Hreg]. split; [exact Hsum |].
  intros x Hx. apply dict_set_registered. apply Hreg; exact Hx.
Qed.

Lemma bind_delivery_registry_ok (s : t) (delivery_id truck_id : string) (g : Rng)
    (fuel : nat) (s' : t) (g' : Rng) :
  registry_ok s ->
  bind_delivery s delivery_id truck_id g fuel = Ok (s', g') ->
  registry_ok s'.
Proof.
  intros [Hwt [Hwd [Htr Hc]]] H. apply bind_delivery_run in H.
  destruct H as [tr [d [route [Hget [Hd [Hdel [Htrucks Hrun]]]]]]].
  apply optimize_route_parameters in Hrun. rename Hrun into Hp.
  unfold registry_ok. rewrite Hdel, Htrucks.
  split; [apply dict_set_wf; exact Hwt |]. split; [apply dict_set_wf; exact Hwd |].
  split; [| exact (parameters_positive _ _ Hp Hc)].
  intros id tr1 Hget1. destruct (String.eqb_spec id truck_id) as [-> | Hne].
  - rewrite dict_get_set_same in Hget1. inversion Hget1; subst tr1; clear Hget1. simpl.
    destruct (Htr truck_id tr Hget) as [Hsum Hreg]. split; [rewrite <- Hsum; ring |].
    intros x Hx. apply in_app_or in Hx. destruct Hx as [Hx | [<- | []]].
    + apply dict_set_registered. apply Hreg; exact Hx.
    + rewrite dict_get_set_same. discriminate.
  - rewrite dict_get_set_other in Hget1 by exact Hne.
    destruct (Htr id tr1 Hget1) as [Hsum Hreg]. split; [exact Hsum |].
    intros x Hx. apply dict_set_registered. apply Hreg; exact Hx.
Qed.

Lemma assign_delivery_registry_ok (s : t) (delivery_id : string) (clock : Clock) (g : Rng)
    (fuel : nat) (ok : bool) (s' : t) (g' : Rng) :
  registry_ok s ->
  assign_delivery s delivery_id clock g fuel = Ok (ok, s', g') ->
  registry_ok s'.
Proof.
  intros Hok H. unfold assign_delivery in H.
  destruct (dict_get (deliveries s) delivery_id) as [d |];
    [| inversion H; subst; exact Hok].
  destruct (negb _); [inversion H; subst; exact Hok |].
  apply bind_Ok in H; destruct H as [found [_ H]].
  destruct (truthy found) as [truck_id |]; [| inversion H; subst; exact Hok].
  apply bind_Ok in H; destruct H as [[s1 g1] [Hbind H]].
  inversion H; subst ok s' g'; clear H.
  eapply bind_delivery_registry_ok; eassumption.
Qed.

Lemma keys_registered {V : Type} (d d' : dict V) (k : string) :
  map fst d' = map fst d -> dict_get d k <> None -> dict_get d' k <> None.
Proof.
  intros Hkeys Hk. destruct (dict_get d k) as [v |] eqn:E; [| contradiction Hk; reflexivity].
  apply dict_get_In in E. apply (in_map fst) in E. rewrite <- Hkeys in E.
  apply in_map_iff in E. destruct E as [[k' v'] [Hfst Hin]]. simpl in Hfst. subst k'.
  eapply dict_In_some; exact Hin.
Qed.

Lemma update_truck_status_registry_ok (s : t) (truck_id : string) (loc : Point) (s' : t) :
  registry_ok s ->
  update_truck_status s truck_id loc = Ok s' ->
  registry_ok s'.
Proof.
  intros [Hwt [Hwd [Htr Hc]]] H.
  destruct (dict_get (trucks s) truck_id) as [tr |] eqn:Eget.
  2:{ unfold update_truck_status, dict_item in H. rewrite Eget in H. discriminate H. }
  pose proof (update_truck_status_effect s truck_id loc tr s' Eget H) as Hm.
  cbv zeta in Hm.
  destruct Hm as [[tr' [Htr' [Hmax [_ [_ [Hincl Hsum]]]]]] [Hother [Hciaco [Hkt [Hkd _]]]]].
  cbn [trucks deliveries ciaco max_capacity current_capacity deliveries_of total_weight]
    in Hmax, Hincl, Hsum, Hother, Hciaco, Hkt, Hkd.
  destruct (Htr truck_id tr Eget) as [Hsum0 Hreg0].
  unfold registry_ok. rewrite Hciaco.
  split.
  { unfold dict_wf. rewrite Hkt. apply dict_set_wf. exact Hwt. }
  split; [unfold dict_wf; rewrite Hkd; exact Hwd |].
  split; [| exact Hc].
  intros id tr1 Hget1. destruct (String.eqb_spec id truck_id) as [-> | Hne].
  - rewrite Htr' in Hget1. inversion Hget1; subst tr1; clear Hget1.
    split; [rewrite Hsum, Hmax; exact Hsum0 |].
    intros x Hx. apply (keys_registered (deliveries s)); [exact Hkd |].
    apply Hreg0. apply Hincl. exact Hx.
  - rewrite Hother in Hget1 by exact Hne.
    rewrite dict_get_set_other in Hget1 by exact Hne.
    destruct (Htr id tr1 Hget1) as [Hsum1 Hreg1]. split; [exact Hsum1 |].
    intros x Hx. apply (keys_registered (deliveries s)); [exact Hkd |].
    apply Hreg1; exact Hx.
Qed.

Lemma detach_registry_ok (s : t) (ids : list string) (s1 : t) (objects : list failed) :
  registry_ok s -> detach s ids = Ok (s1, objects) -> registry_ok s1.
Proof.
  intros Hok H. unfold detach in H.
  pose proof (fun Hbody =>
                for_each_invariant (fun acc : t * list failed => registry_ok (fst acc))
                  ids _ Hbody (s, []) (s1, objects) Hok H) as Hloop.
  apply Hloop. clear. intros [s objs] id [s' objs'] _ Hok Hstep. simpl in *.
  apply bind_Ok in Hstep; destruct Hstep as [d [Hd Hstep]].
  inversion Hstep; subst s' objs'; clear Hstep.
  destruct Hok as [Hwt [Hwd [Htr Hc]]].
  unfold registry_ok; cbn [trucks deliveries ciaco].
  split; [exact Hwt |]. split; [apply dict_set_wf; exact Hwd |].
  split; [| exact Hc]. intros tid tr Hget.
  destruct (Htr tid tr Hget) as [Hsum Hreg]. split; [exact Hsum |].
  intros x Hx. apply dict_set_registered. apply Hreg; exact Hx.
Qed.

Lemma remove_truck_registry_ok (s : t) (truck_id : string) :
  registry_ok s ->
  registry_ok (mk (dict_del (trucks s) truck_id) (deliveries s) (ciaco s)).
Proof.
  intros [Hwt [Hwd [Htr Hc]]]. unfold registry_ok; cbn [trucks deliveries ciaco].
  split; [apply dict_del_wf; exact Hwt |]. split; [exact Hwd |].
  split; [| exact Hc]. intros id tr Hget.
  destruct (String.eqb_spec id truck_id) as [-> | Hne].
  - rewrite dict_get_del_same in Hget. discriminate.
  - rewrite dict_get_del_other in Hget by exact Hne. exact (Htr id tr Hget).
Qed.

Lemma reassign_one_registry_ok (fuel : nat) (acc acc' : bool * list string * t * Rng)
    (x : failed) :
  registry_ok (snd (fst acc)) ->
  reassign_one fuel acc x = Ok acc' ->
  registry_ok (snd (fst acc')).
Proof.
  destruct acc as [[[success printed] s] g]. simpl. intros Hok H.
  unfold reassign_one in H.
  apply bind_Ok in H; destruct H as [found [_ H]].
  destruct (truthy found) as [truck_id |].
  - apply bind_Ok in H; destruct H as [[s' g'] [Hbind H]].
    inversion H; subst acc'; clear H. simpl.
    eapply bind_delivery_registry_ok; eassumption.
  - inversion H; subst acc'; exact Hok.
Qed.

Lemma handle_truck_breakdown_registry_ok (s : t) (truck_id : string) (g : Rng)
    (fuel : nat) (res : bool * list string * t * Rng) :
  registry_ok s ->
  handle_truck_breakdown s truck_id g fuel = Ok res ->
  registry_ok (snd (fst res)).
Proof.
  intros Hok H. unfold handle_truck_breakdown in H.
  destruct (dict_get (trucks s) truck_id) as [broken |];
    [| inversion H; subst; exact Hok].
  apply bind_Ok in H; destruct H as [[s1 objects] [Hdetach H]].
  apply detach_registry_ok in Hdetach; [| exact Hok].
  pose proof (fun Hbody Hinit =>
                for_each_invariant
                  (fun acc : bool * list string * t * Rng => registry_ok (snd (fst acc)))
                  (sort_by_weight objects) (reassign_one fuel) Hbody _ res Hinit H)
    as Hloop.
  apply Hloop.
  - intros a x a' _ Ha Hstep. eapply reassign_one_registry_ok; eassumption.
  - simpl. apply remove_truck_registry_ok; exact Hdetach.
Qed.

End RegistryInvariant.

(** X11.  The registry keeps an invariant.  It holds for the registry the
    constructor returns and is kept by [add_truck], [add_delivery],
    [assign_delivery], [update_truck_status] and [handle_truck_breakdown]
    whenever they return: truck identifiers and delivery identifiers are
    unique keys, the remaining capacity and the committed weight of every
    truck add up to its maximum capacity, every entry of the list of a truck
    is a registered delivery, and the optimizer keeps at least one ant and
    one cluster. *)
Theorem registry_invariant_is_kept {RT : Runtime} :
  (forall s, DynamicRoutingSystem.__init__ = Ok s -> registry_ok s) /\
  (forall s truck_id capacity loc,
      registry_ok s ->
      registry_ok (DynamicRoutingSystem.add_truck s truck_id capacity loc)) /\
  (forall s delivery_id p q w window,
      registry_ok s ->
      registry_ok (DynamicRoutingSystem.add_delivery s delivery_id p q w window)) /\
  (forall s delivery_id clock g fuel ok s' g',
      registry_ok s ->
      DynamicRoutingSystem.assign_delivery s delivery_id clock g fuel = Ok (ok, s', g') ->
      registry_ok s') /\
  (forall s truck_id loc s',
      registry_ok s ->
      DynamicRoutingSystem.update_truck_status s truck_id loc = Ok s' ->
      registry_ok s') /\
  (forall s truck_id g fuel success printed s' g',
      registry_ok s ->
      DynamicRoutingSystem.handle_truck_breakdown s truck_id g fuel
        = Ok (success, printed, s', g') ->
      registry_ok s').
Proof.
  split; [exact init_registry_ok |].
  split; [exact add_truck_registry_ok |].
  split; [exact add_delivery_registry_ok |].
  split; [exact assign_delivery_registry_ok |].
  split; [exact update_truck_status_registry_ok |].
  intros s truck_id g fuel success printed s' g' Hok H.
  exact (handle_truck_breakdown_registry_ok _ _ _ _ _ Hok H).
Qed.

(** A registry built by the methods: two trucks, one delivery. *)
Module BuiltScenario.
Import DynamicRoutingSystem.
Open Scope string_scope.

Definition empty : t := mk [] [] Scenario.small_optimizer.

Definition built : t :=
  add_delivery
    (add_truck (add_truck empty "T1" 1000 (0, 0)) "T2" 500 (9, 0))
    "D1" (1, 0) (2, 0) 300 None.

Definition assigned : bool * t * nat :=
  Eval vm_compute in
    match assign_delivery (RT := Concrete.runtime) built "D1" (fun _ => 0%Z) 0%nat 5 with
    | Ok r => r
    | _ => (false, built, 0%nat)
    end.

End BuiltScenario.

(** The theorem along a run: two trucks and a delivery are added to an
    empty registry, the delivery is assigned, and the truck moves. *)
Lemma registry_invariant_is_kept_witness :
  registry_ok BuiltScenario.empty /\
  registry_ok BuiltScenario.built /\
  DynamicRoutingSystem.assign_delivery (RT := Concrete.runtime) BuiltScenario.built "D1"
    (fun _ => 0%Z) 0%nat 5
    = Ok (true, snd (fst BuiltScenario.assigned), snd BuiltScenario.assigned) /\
  registry_ok (snd (fst BuiltScenario.assigned)).
Proof.
  destruct (registry_invariant_is_kept (RT := Concrete.runtime))
    as [_ [Htruck [Hdelivery [Hassign _]]]].
  assert (Hempty : registry_ok BuiltScenario.empty).
  { unfold registry_ok; simpl. split; [constructor |]. split; [constructor |].
    split; [intros id tr E; discriminate E | split; reflexivity]. }
  assert (Hbuilt : registry_ok BuiltScenario.built).
  { apply Hdelivery, Htruck, Htruck. exact Hempty. }
  assert (Hrun : DynamicRoutingSystem.assign_delivery (RT := Concrete.runtime)
                   BuiltScenario.built "D1" (fun _ => 0%Z) 0%nat 5
                 = Ok (true, snd (fst BuiltScenario.assigned), snd BuiltScenario.assigned))
    by (vm_compute; reflexivity).
  split; [exact Hempty |]. split; [exact Hbuilt |]. split; [exact Hrun |].
  exact (Hassign _ _ _ _ _ _ _ _ Hbuilt Hrun).
Defined.

(** ** The methods of the registry return *)

(** The function returns the same value whatever the fuel. *)
Ltac returns_now := eapply settles_ret; [| intros; reflexivity]; simpl.

Lemma for_each_settles {A B : Type} (P : A -> Prop) (l : list B)
    (body : nat -> A -> B -> outcome A) :
  (forall a x, In x l -> P a -> settles P (fun fuel => body fuel a x)) ->
  forall a, P a -> settles P (fun fuel => for_each l (body fuel) a).
Proof.
  induction l as [| x l IH]; intros Hbody a Ha.
  - returns_now; exact Ha.
  - apply (settles_bind P P (fun fuel => body fuel a x)
             (fun a' fuel => for_each l (body fuel) a')).
    + apply Hbody; [left; reflexivity | exact Ha].
    + intros a' Ha'. apply IH; [| exact Ha'].
      intros a0 y Hy. apply Hbody. right; exact Hy.
Qed.

Section RegistryReturns.
Context {RT : Runtime}.
Import DynamicRoutingSystem.

Hypothesis sqrt_ok : sqrt_nonneg RT.
Hypothesis sample_ok : sample_in_range RT.
Hypothesis choices_ok : choices_fair RT.

Lemma bind_delivery_settles (s : t) (delivery_id truck_id : string) (g : Rng) :
  registry_ok s ->
  dict_get (trucks s) truck_id <> None ->
  dict_get (deliveries s) delivery_id <> None ->
  settles (fun r => registry_ok (fst r))
          (fun fuel => bind_delivery s delivery_id truck_id g fuel).
Proof.
  intros Hok Htr Hd.
  destruct (dict_get (trucks s) truck_id) as [tr |] eqn:Etr; [| contradiction Htr; reflexivity].
  destruct (dict_get (deliveries s) delivery_id) as [d |] eqn:Ed;
    [| contradiction Hd; reflexivity].
  clear Htr Hd. pose proof Hok as [_ [_ [Hper [Hants Hk]]]].
  destruct (Hper truck_id tr Etr) as [_ Hreg].
  set (d' := set_status d in_progress (Some truck_id)).
  set (tr' := mk_truck (max_capacity tr) (current_capacity tr - weight d)
                       (current_location tr) (current_route tr)
                       (deliveries_of tr ++ [delivery_id]) (total_weight tr + weight d)).
  set (s1 := mk (dict_set (trucks s) truck_id tr')
                (dict_set (deliveries s) delivery_id d') (ciaco s)).
  assert (Hstops : exists stops, route_stops s1 truck_id delivery_id = Ok stops /\ stops <> []).
  { eexists. split.
    - apply (route_stops_returns s1 truck_id delivery_id tr' d').
      + apply dict_get_set_same.
      + apply dict_get_set_same.
      + intros x Hx. cbn [s1 deliveries]. cbn [tr' deliveries_of] in Hx.
        apply in_app_or in Hx. destruct Hx as [Hx | [<- | []]].
        * apply dict_set_registered. apply Hreg; exact Hx.
        * rewrite dict_get_set_same. discriminate.
    - discriminate. }
  destruct Hstops as [stops [Hstops Hne]].
  destruct (optimize_route_settles sqrt_ok sample_ok choices_ok (ciaco s) stops g
              Hne Hants Hk) as [fuel0 [[[route c] g'] [_ Hrun]]].
  assert (Hall : exists res, forall fuel, (fuel0 <= fuel)%nat ->
                   bind_delivery s delivery_id truck_id g fuel = Ok res).
  { eexists. intros fuel Hfuel. unfold bind_delivery, dict_item. rewrite Etr, Ed.
    cbn [bind]. fold d' tr' s1. unfold optimize_route. rewrite Hstops. cbn [bind].
    cbn [s1 ciaco]. rewrite (Hrun fuel Hfuel). cbn [bind trucks deliveries ciaco].
    unfold s1 at 1. cbn [trucks]. rewrite dict_get_set_same. cbn [bind]. reflexivity. }
  destruct Hall as [res Hall]. exists fuel0, res. split; [| exact Hall].
  destruct res as [s' g2]. simpl.
  eapply bind_delivery_registry_ok; [exact Hok | apply (Hall fuel0); lia].
Qed.

(** X12.  In a registry that satisfies the invariant, [assign_delivery]
    raises nothing, whatever the delivery identifier, the clock and the state
    of the generator: with a square root that is never negative, a
    [random.sample] within its population and a fair [random.choices], the
    call returns from some amount of fuel on, and the registry it leaves
    satisfies the invariant again. *)
Theorem assign_delivery_always_returns (s : t) (delivery_id : string) (clock : Clock)
    (g : Rng) :
  registry_ok s ->
  settles (fun r => registry_ok (snd (fst r)))
          (fun fuel => assign_delivery s delivery_id clock g fuel).
Proof.
  intros Hok. unfold assign_delivery.
  destruct (dict_get (deliveries s) delivery_id) as [d |] eqn:Ed;
    [| returns_now; exact Hok].
  destruct (negb _); [returns_now; exact Hok |].
  destruct (find_suitable_truck_returns s delivery_id clock d Ed) as [found Hfound].
  rewrite Hfound. cbn [bind].
  destruct (truthy found) as [truck_id |] eqn:Et;
    [| returns_now; exact Hok].
  apply truthy_Some in Et. subst found.
  apply find_suitable_truck_fits in Hfound.
  destruct Hfound as [tr [d0 [Hin _]]].
  apply (settles_bind (fun r => registry_ok (fst r)) _
           (fun fuel => bind_delivery s delivery_id truck_id g fuel)
           (fun sg _ => Ok (true, fst sg, snd sg))).
  - apply bind_delivery_settles; [exact Hok | | rewrite Ed; discriminate].
    eapply dict_In_some; exact Hin.
  - intros sg Hsg. returns_now; exact Hsg.
Qed.

Lemma status_loop_returns (start : t) (truck_id : string) (tr0 : truck) (loc : Point) :
  (forall x, In x (deliveries_of tr0) -> dict_get (deliveries start) x <> None) ->
  forall (bound i : nat) (s : t),
    moved start truck_id tr0 loc s ->
    exists s', status_loop bound i s truck_id loc = Ok s'.
Proof.
  intros Hreg. induction bound as [| bound IH]; intros i s Hm; simpl.
  - eexists; reflexivity.
  - pose proof Hm as [[tr [Htr [_ [_ [_ [Hincl _]]]]]] [_ [_ [_ [Hkd _]]]]].
    unfold dict_item at 1. rewrite Htr. cbn [bind].
    destruct (nth_error (deliveries_of tr) i) as [delivery_id |] eqn:En;
      [| eexists; reflexivity].
    assert (Hin : In delivery_id (deliveries_of tr)) by (eapply nth_error_In; exact En).
    assert (Hstep : exists s1, status_step s truck_id loc delivery_id = Ok s1).
    { unfold status_step, dict_item.
      destruct (dict_get (deliveries s) delivery_id) as [d |] eqn:Ed.
      - cbn [bind]. destruct (status_eqb _ _); [| eexists; reflexivity].
        destruct (Qltb _ _); [| eexists; reflexivity].
        rewrite Htr. cbn [bind]. eexists; reflexivity.
      - exfalso. revert Ed. apply (keys_registered (deliveries start)); [exact Hkd |].
        apply Hreg. apply Hincl. exact Hin. }
    destruct Hstep as [s1 Hstep]. rewrite Hstep. cbn [bind].
    apply IH. eapply status_step_moved; [exact Hm | exact Htr | exact Hin | exact Hstep].
Qed.

Lemma update_truck_status_returns (s : t) (truck_id : string) (loc : Point) :
  registry_ok s ->
  dict_get (trucks s) truck_id <> None ->
  exists s', update_truck_status s truck_id loc = Ok s'.
Proof.
  intros [_ [_ [Hper _]]] Htr.
  destruct (dict_get (trucks s) truck_id) as [tr |] eqn:Etr; [| contradiction Htr; reflexivity].
  destruct (Hper truck_id tr Etr) as [_ Hreg].
  unfold update_truck_status, dict_item. rewrite Etr. cbn [bind].
  set (tr0 := mk_truck (max_capacity tr) (current_capacity tr) loc
                       (current_route tr) (deliveries_of tr) (total_weight tr)).
  apply (status_loop_returns (mk (dict_set (trucks s) truck_id tr0) (deliveries s) (ciaco s))
           truck_id tr0 loc).
  - exact Hreg.
  - unfold moved. cbn [trucks deliveries ciaco].
    split; [| split; [| split; [| split; [| split]]]]; try reflexivity.
    + exists tr0. split; [apply dict_get_set_same |].
      repeat split; try reflexivity. apply incl_refl.
    + intros id. left. reflexivity.
Qed.

(** X13.  In a registry that satisfies the invariant, [update_truck_status]
    returns for every registered truck: no lookup made by the loop over the
    list of the truck fails, although the loop changes the list it runs
    over.  The registry it leaves satisfies the invariant, the truck is at
    the new location, and no delivery has left the registry. *)
Theorem update_truck_status_always_returns (s : t) (truck_id : string) (loc : Point) :
  registry_ok s ->
  dict_get (trucks s) truck_id <> None ->
  exists s' tr',
    update_truck_status s truck_id loc = Ok s' /\ registry_ok s' /\
    dict_get (trucks s') truck_id = Some tr' /\ current_location tr' = loc /\
    map fst (deliveries s') = map fst (deliveries s).
Proof.
  intros Hok Htr.
  destruct (update_truck_status_returns s truck_id loc Hok Htr) as [s' Hs'].
  destruct (dict_get (trucks s) truck_id) as [tr |] eqn:Etr; [| contradiction Htr; reflexivity].
  pose proof (update_truck_status_effect s truck_id loc tr s' Etr Hs') as Hm.
  cbv zeta in Hm.
  destruct Hm as [[tr' [Htr' [_ [Hloc _]]]] [_ [_ [_ [Hkd _]]]]].
  exists s', tr'. split; [exact Hs' |].
  split; [eapply update_truck_status_registry_ok; eassumption |].
  split; [exact Htr' |]. split; [exact Hloc | exact Hkd].
Qed.

Lemma detach_returns (s : t) (ids : list string) :
  (forall x, In x ids -> dict_get (deliveries s) x <> None) ->
  exists res, detach s ids = Ok res.
Proof.
  intros Hreg. unfold detach.
  destruct (for_each_returns
              (fun acc : t * list failed =>
                 forall x, In x ids -> dict_get (deliveries (fst acc)) x <> None)
              ids
              (fun (acc : t * list failed) delivery_id =>
                 let (s, objects) := acc in
                 let* d := dict_item (deliveries s) delivery_id in
                 let object := mk_failed delivery_id (weight d) (delivery_status d) in
                 Ok (mk (trucks s)
                        (dict_set (deliveries s) delivery_id (set_status d pending None))
                        (ciaco s),
                     objects ++ [object])))
    with (a := (s, @nil failed)) as [res [Hres _]].
  - intros [s0 objs] id Hin Hinv. simpl in Hinv. unfold dict_item.
    destruct (dict_get (deliveries s0) id) as [d |] eqn:Ed;
      [| exfalso; exact (Hinv id Hin Ed)].
    cbn [bind]. eexists. split; [reflexivity |]. simpl.
    intros x Hx. apply dict_set_registered. apply Hinv; exact Hx.
  - exact Hreg.
  - exists res; exact Hres.
Qed.

Lemma find_replacement_returns (s : t) (delivery_id : string) :
  dict_get (deliveries s) delivery_id <> None ->
  exists found, find_replacement s delivery_id = Ok found.
Proof.
  intros Hd.
  destruct (dict_get (deliveries s) delivery_id) as [d |] eqn:Ed;
    [| contradiction Hd; reflexivity].
  rewrite (find_replacement_scan _ _ _ Ed).
  destruct (for_each_returns (fun _ => True) (trucks s)
              (scan_step _ (lenient_test d) (to_pickup d)))
    with (a := (@None string, Inf)) as [best [Hbest _]]; [| exact I |].
  - intros acc item _ _. unfold scan_step, lenient_test. cbn [bind].
    destruct (Qle_bool _ _); [| eexists; split; [reflexivity | exact I]].
    destruct (xlt _ _); eexists; split; try reflexivity; exact I.
  - rewrite Hbest. simpl. eexists; reflexivity.
Qed.

(** What the reassignment loop keeps: the invariant of the registry, and
    the registration of the deliveries it goes through. *)
Definition reassignable (owned : list string) (acc : bool * list string * t * Rng) : Prop :=
  registry_ok (snd (fst acc)) /\
  forall x, In x owned -> dict_get (deliveries (snd (fst acc))) x <> None.

Lemma reassign_one_settles (owned : list string) (acc : bool * list string * t * Rng)
    (x : failed) :
  In (failed_id x) owned ->
  reassignable owned acc ->
  settles (reassignable owned) (fun fuel => reassign_one fuel acc x).
Proof.
  destruct acc as [[[success printed] s] g]. intros Hx [Hok Hreg]. simpl in Hok, Hreg.
  unfold reassign_one.
  destruct (find_replacement_returns s (failed_id x) (Hreg _ Hx)) as [found Hfound].
  rewrite Hfound. cbn [bind].
  destruct (truthy found) as [truck_id |] eqn:Et.
  - apply truthy_Some in Et. subst found.
    assert (Htr : dict_get (trucks s) truck_id <> None).
    { destruct (dict_get (deliveries s) (failed_id x)) as [d |] eqn:Ed.
      - pose proof (find_replacement_answer _ _ _ _ Ed Hfound) as Hans.
        destruct Hans as [tr [before [after [Hsplit _]]]].
        apply (dict_In_some _ _ tr). rewrite Hsplit.
        apply in_or_app; right; left; reflexivity.
      - apply (find_replacement_unregistered _ _ _ Ed) in Hfound. discriminate. }
    apply (settles_bind
             (fun r : t * Rng =>
                registry_ok (fst r) /\
                forall y, In y owned -> dict_get (deliveries (fst r)) y <> None)
             _ (fun fuel => bind_delivery s (failed_id x) truck_id g fuel)
             (fun sg _ => Ok (success, printed, fst sg, snd sg))).
    + destruct (bind_delivery_settles s (failed_id x) truck_id g Hok Htr (Hreg _ Hx))
        as [fuel0 [[s' g'] [Hok' Hf]]].
      exists fuel0, (s', g'). split; [| exact Hf]. split; [exact Hok' |].
      simpl. intros y Hy.
      pose proof (Hf fuel0 ltac:(lia)) as Hrun. apply bind_delivery_effect in Hrun.
      destruct Hrun as [tr [d [route [_ [_ [Hdel _]]]]]]. rewrite Hdel.
      apply dict_set_registered. apply Hreg; exact Hy.
    + intros sg Hsg. returns_now; exact Hsg.
  - returns_now. split; assumption.
Qed.

(** X14.  In a registry that satisfies the invariant,
    [handle_truck_breakdown] raises nothing, whatever the truck identifier:
    under the same assumptions on the square root and the random generator
    as for [assign_delivery] it returns from some amount of fuel on, and the
    registry it leaves satisfies the invariant. *)
Theorem handle_truck_breakdown_always_returns (s : t) (truck_id : string) (g : Rng) :
  registry_ok s ->
  settles (fun r => registry_ok (snd (fst r)))
          (fun fuel => handle_truck_breakdown s truck_id g fuel).
Proof.
  intros Hok. unfold handle_truck_breakdown.
  destruct (dict_get (trucks s) truck_id) as [broken |] eqn:Eb;
    [| returns_now; exact Hok].
  pose proof Hok as [_ [_ [Hper _]]]. destruct (Hper truck_id broken Eb) as [_ Hreg].
  destruct (detach_returns s (deliveries_of broken) Hreg) as [[s1 objects] Hdetach].
  rewrite Hdetach. cbn [bind].
  pose proof (detach_registry_ok _ _ _ _ Hok Hdetach) as Hok1.
  apply detach_effect in Hdetach. destruct Hdetach as [_ [_ [Hids [Hpending _]]]].
  apply (settles_weaken (reassignable (deliveries_of broken))); [intros r [H _]; exact H |].
  apply (for_each_settles (reassignable (deliveries_of broken))
           (sort_by_weight objects) reassign_one).
  - intros acc x Hin Hacc. apply reassign_one_settles; [| exact Hacc].
    rewrite <- Hids. apply in_map.
    eapply Permutation_in; [apply sort_by_weight_perm | exact Hin].
  - split; simpl.
    + apply remove_truck_registry_ok. exact Hok1.
    + intros x Hx. destruct (Hpending x Hx) as [d [Hd _]]. rewrite Hd. discriminate.
Qed.

End RegistryReturns.

(** The invariant on a registry written out in full. *)
Ltac concrete_registry_ok :=
  unfold registry_ok; simpl;
  split; [repeat constructor; simpl; intuition discriminate |];
  split; [repeat constructor; simpl; intuition discriminate |];
  split; [| split; reflexivity];
  let id := fresh "id" in let tr := fresh "tr" in let H := fresh "H" in
  intros id tr H;
  repeat match type of H with
  | (if ?c then _ else _) = Some _ => destruct c
  | Some _ = Some _ => inversion H; subst tr; clear H; simpl;
      split; [vm_compute; reflexivity | intuition (subst; discriminate)]
  | None = Some _ => discriminate H
  end.


(** The theorem on the registry of two trucks and one delivery, on the
    concrete runtime. *)
Lemma assign_delivery_always_returns_witness :
  registry_ok BuiltScenario.built /\
  settles (fun r => registry_ok (snd (fst r)))
          (fun fuel => DynamicRoutingSystem.assign_delivery (RT := Concrete.runtime)
                         BuiltScenario.built "D1" (fun _ => 0%Z) 0%nat fuel).
Proof.
  assert (Hok : registry_ok BuiltScenario.built) by concrete_registry_ok.
  split; [exact Hok |].
  apply (assign_delivery_always_returns (RT := Concrete.runtime)
           ConcreteFacts.sqrt_exact_nonneg ConcreteFacts.sample_range
           ConcreteFacts.round_robin_fair).
  exact Hok.
Defined.


(** The theorem on the truck that carries D1 and D2. *)
Lemma update_truck_status_always_returns_witness :
  registry_ok CompletionScenario.two_at_one_place /\
  exists s' tr',
    DynamicRoutingSystem.update_truck_status (RT := Concrete.runtime)
      CompletionScenario.two_at_one_place "T1" (5, 0) = Ok s' /\ registry_ok s' /\
    dict_get (DynamicRoutingSystem.trucks s') "T1" = Some tr' /\
    DynamicRoutingSystem.current_location tr' = (5, 0) /\
    map fst (DynamicRoutingSystem.deliveries s')
    = map fst (DynamicRoutingSystem.deliveries CompletionScenario.two_at_one_place).
Proof.
  assert (Hok : registry_ok CompletionScenario.two_at_one_place) by concrete_registry_ok.
  split; [exact Hok |].
  apply (update_truck_status_always_returns (RT := Concrete.runtime)); [exact Hok |].
  discriminate.
Defined.


(** The theorem on the fleet where T1 breaks down and T2 has room for one
    of its two deliveries. *)
Lemma handle_truck_breakdown_always_returns_witness :
  registry_ok (BreakdownScenario.fleet 3000) /\
  settles (fun r => registry_ok (snd (fst r)))
          (fun fuel => DynamicRoutingSystem.handle_truck_breakdown (RT := Concrete.runtime)
                         (BreakdownScenario.fleet 3000) "T1" 0%nat fuel).
Proof.
  assert (Hok : registry_ok (BreakdownScenario.fleet 3000)) by concrete_registry_ok.
  split; [exact Hok |].
  apply (handle_truck_breakdown_always_returns (RT := Concrete.runtime)
           ConcreteFacts.sqrt_exact_nonneg ConcreteFacts.sample_range
           ConcreteFacts.round_robin_fair).
  exact Hok.
Defined.

(** ** What a breakdown changes, and how far it overloads a truck *)

Section BreakdownFrame.
Context {RT : Runtime}.
Import DynamicRoutingSystem.

(** The truck record [tr'] against the record [tr] it comes from: the same
    truck, unchanged or holding deliveries of [owned] taken over under the
    lenient test. *)
Definition took_over (owned : list string) (ds : dict delivery) (tr tr' : truck) : Prop :=
  max_capacity tr' = max_capacity tr /\
  current_location tr' = current_location tr /\
  current_capacity tr' + total_weight tr' == current_capacity tr + total_weight tr /\
  (tr' = tr \/
   exists id d, In id owned /\ dict_get ds id = Some d /\
                - (weight d * (1 # 10)) <= current_capacity tr').

(** What holds during the reassignment loop, against the registry [start]
    the loop begins with. *)
Definition rebinding (owned : list string) (start : t)
    (acc : bool * list string * t * Rng) : Prop :=
  let s := snd (fst acc) in
  dict_wf (trucks s) /\
  (forall id, ~ In id owned ->
     dict_get (deliveries s) id = dict_get (deliveries start) id) /\
  (forall id d', dict_get (deliveries s) id = Some d' ->
     exists d, dict_get (deliveries start) id = Some d /\ weight d' = weight d) /\
  (forall tid tr', dict_get (trucks s) tid = Some tr' ->
     exists tr, dict_get (trucks start) tid = Some tr /\
                took_over owned (deliveries start) tr tr') /\
  (forall tid, dict_get (trucks start) tid <> None -> dict_get (trucks s) tid <> None).

Lemma reassign_one_rebinding (fuel : nat) (owned : list string) (start : t)
    (acc acc' : bool * list string * t * Rng) (x : failed) :
  In (failed_id x) owned ->
  rebinding owned start acc ->
  reassign_one fuel acc x = Ok acc' ->
  rebinding owned start acc'.
Proof.
  destruct acc as [[[success printed] s] g].
  intros Hx [Hwf [Hframe [Hweight [Htrucks Hkeys]]]] H. simpl in Hwf, Hframe, Hweight, Htrucks, Hkeys.
  apply reassign_one_cases in H; [| exact Hwf].
  destruct H as [[s' [g' [truck_id [tr [d [-> [Hbind [Htr [Hd Hfit]]]]]]]]] | ->].
  2:{ unfold rebinding; simpl. repeat split; assumption. }
  apply bind_delivery_effect in Hbind.
  destruct Hbind as [tr0 [d0 [route [Htr0 [Hd0 [Hdel Htrs]]]]]].
  rewrite Htr in Htr0. inversion Htr0; subst tr0; clear Htr0.
  rewrite Hd in Hd0. inversion Hd0; subst d0; clear Hd0.
  unfold rebinding; simpl. rewrite Hdel, Htrs.
  split; [apply dict_set_wf; exact Hwf |].
  split; [| split; [| split]].
  - intros id Hid. rewrite dict_get_set_other by (intros ->; contradiction).
    apply Hframe; exact Hid.
  - intros id d' Hget. destruct (String.eqb_spec id (failed_id x)) as [-> | Hne].
    + rewrite dict_get_set_same in Hget. inversion Hget; subst d'; clear Hget.
      simpl. apply Hweight; exact Hd.
    + rewrite dict_get_set_other in Hget by exact Hne. apply Hweight; exact Hget.
  - intros tid tr' Hget. destruct (String.eqb_spec tid truck_id) as [-> | Hne].
    + rewrite dict_get_set_same in Hget. inversion Hget; subst tr'; clear Hget.
      destruct (Htrucks truck_id tr Htr) as [tr1 [Htr1 [Hmax [Hloc [Hsum _]]]]].
      destruct (Hweight (failed_id x) d Hd) as [d1 [Hd1 Hw]].
      exists tr1. split; [exact Htr1 |]. unfold took_over; simpl.
      split; [exact Hmax |]. split; [exact Hloc |].
      split; [rewrite <- Hsum; ring |].
      right. exists (failed_id x), d1. split; [exact Hx |]. split; [exact Hd1 |].
      rewrite <- Hw. lra.
    + rewrite dict_get_set_other in Hget by exact Hne. apply Htrucks; exact Hget.
  - intros tid Htid. apply dict_set_registered. apply Hkeys; exact Htid.
Qed.

(** What the first loop of [handle_truck_breakdown] leaves as it was. *)
Lemma detach_frame (self : t) (ids : list string) (self1 : t) (objects : list failed) :
  detach self ids = Ok (self1, objects) ->
  (forall id, ~ In id ids ->
     dict_get (deliveries self1) id = dict_get (deliveries self) id) /\
  (forall id d1, dict_get (deliveries self1) id = Some d1 ->
     exists d, dict_get (deliveries self) id = Some d /\ weight d1 = weight d).
Proof.
  unfold detach. intros H.
  pose proof (fun Hbody Hinit =>
                for_each_invariant
                  (fun acc : t * list failed =>
                     (forall id, ~ In id ids ->
                        dict_get (deliveries (fst acc)) id = dict_get (deliveries self) id) /\
                     (forall id d1, dict_get (deliveries (fst acc)) id = Some d1 ->
                        exists d, dict_get (deliveries self) id = Some d /\
                                  weight d1 = weight d))
                  ids _ Hbody (self, []) (self1, objects) Hinit H) as Hloop.
  apply Hloop; clear Hloop H.
  - intros [s objs] x [s' objs'] Hx [Hframe Hweight] Hstep. simpl in *.
    apply bind_Ok in Hstep; destruct Hstep as [d [Hd Hstep]]. apply dict_item_Ok in Hd.
    inversion Hstep; subst s' objs'; clear Hstep. simpl. split.
    + intros id Hid. rewrite dict_get_set_other by (intros ->; contradiction).
      apply Hframe; exact Hid.
    + intros id d1 Hget. destruct (String.eqb_spec id x) as [-> | Hne].
      * rewrite dict_get_set_same in Hget. inversion Hget; subst d1; clear Hget.
        simpl. apply Hweight; exact Hd.
      * rewrite dict_get_set_other in Hget by exact Hne. apply Hweight; exact Hget.
  - simpl. split; [reflexivity |]. intros id d1 Hget. exists d1; split; [exact Hget | reflexivity].
Qed.

(** X15.  What [handle_truck_breakdown] changes besides the deliveries of
    the broken truck.  A delivery that was not on the list of the broken
    truck keeps its record; every other truck stays registered, keeps its
    maximum capacity and its location, and the sum of its remaining capacity
    and committed weight.  A truck that takes deliveries over is chosen by
    remaining capacity against nine tenths of the weight only: its remaining
    capacity can end below zero, but never by more than a tenth of the
    weight of a delivery of the broken truck. *)
Theorem breakdown_overloads_by_a_tenth (self : t) (truck_id : string) (broken : truck)
    (g : Rng) (fuel : nat) (res : bool * list string * t * Rng) :
  dict_wf (trucks self) ->
  dict_get (trucks self) truck_id = Some broken ->
  handle_truck_breakdown self truck_id g fuel = Ok res ->
  let self' := snd (fst res) in
  (forall id, ~ In id (deliveries_of broken) ->
     dict_get (deliveries self') id = dict_get (deliveries self) id) /\
  (forall tid, tid <> truck_id -> dict_get (trucks self) tid <> None ->
     dict_get (trucks self') tid <> None) /\
  (forall tid tr', dict_get (trucks self') tid = Some tr' ->
     tid <> truck_id /\
     exists tr, dict_get (trucks self) tid = Some tr /\
                took_over (deliveries_of broken) (deliveries self) tr tr').
Proof.
  intros Hwf Hbroken H self'. unfold handle_truck_breakdown in H. rewrite Hbroken in H.
  apply bind_Ok in H; destruct H as [[self1 objects] [Hdetach H]].
  pose proof (detach_frame _ _ _ _ Hdetach) as [Hframe1 Hweight1].
  apply detach_effect in Hdetach. destruct Hdetach as [Ht1 [_ [Hids _]]].
  set (start := mk (dict_del (trucks self1) truck_id) (deliveries self1) (ciaco self1)) in *.
  pose proof (fun Hbody Hinit =>
                for_each_invariant (rebinding (deliveries_of broken) start)
                  (sort_by_weight objects) (reassign_one fuel) Hbody _ res Hinit H)
    as Hloop.
  destruct Hloop as [_ [Hframe [Hweight [Htrucks Hkeys]]]].
  - intros a x a' Hin Ha Hstep.
    eapply reassign_one_rebinding; [| exact Ha | exact Hstep].
    rewrite <- Hids. apply in_map.
    eapply Permutation_in; [apply sort_by_weight_perm | exact Hin].
  - unfold rebinding; simpl.
    split; [apply dict_del_wf; rewrite Ht1; exact Hwf |].
    split; [intros; reflexivity |].
    split; [intros id d' Hget; exists d'; split; [exact Hget | reflexivity] |].
    split; [| intros tid Htid; exact Htid].
    intros tid tr' Hget. exists tr'. split; [exact Hget |].
    unfold took_over. repeat split; try reflexivity. left; reflexivity.
  - fold self' in Hframe, Hweight, Htrucks, Hkeys. cbn [start trucks deliveries] in *.
    split; [| split].
    + intros id Hid. rewrite Hframe by exact Hid. apply Hframe1; exact Hid.
    + intros tid Hne Htid. apply Hkeys.
      rewrite dict_get_del_other by exact Hne. rewrite Ht1. exact Htid.
    + intros tid tr' Hget. destruct (Htrucks tid tr' Hget) as [tr [Htr Htook]].
      destruct (String.eqb_spec tid truck_id) as [-> | Hne].
      { rewrite dict_get_del_same in Htr. discriminate. }
      split; [exact Hne |].
      rewrite dict_get_del_other in Htr by exact Hne. rewrite Ht1 in Htr.
      exists tr. split; [exact Htr |].
      destruct Htook as [Hmax [Hloc [Hsum Hcase]]].
      split; [exact Hmax |]. split; [exact Hloc |]. split; [exact Hsum |].
      destruct Hcase as [-> | [id [d1 [Hid [Hd1 Hbound]]]]]; [left; reflexivity |].
      right. destruct (Hweight1 id d1 Hd1) as [d [Hd Hw]].
      exists id, d. split; [exact Hid |]. split; [exact Hd |]. rewrite <- Hw. exact Hbound.
Qed.

End BreakdownFrame.

Module OverloadScenario.
Import DynamicRoutingSystem.

(** T2 can take 1900; the delivery E1 weighs 2000. *)
Definition after : bool * list string * t * nat :=
  Eval vm_compute in BreakdownScenario.after 1900.

End OverloadScenario.


(** The theorem where T2, with room for 1900, takes over the delivery of
    2000: its remaining capacity ends at -100 and its committed weight at
    2000, above its maximum capacity. *)
Lemma breakdown_overloads_by_a_tenth_witness :
  dict_wf (DynamicRoutingSystem.trucks (BreakdownScenario.fleet 1900)) /\
  DynamicRoutingSystem.handle_truck_breakdown (RT := Concrete.runtime)
    (BreakdownScenario.fleet 1900) "T1" 0%nat 5
    = Ok (false, ["Failed to reassign delivery E2"%string],
          snd (fst OverloadScenario.after), snd OverloadScenario.after) /\
  exists tr',
    dict_get (DynamicRoutingSystem.trucks (snd (fst OverloadScenario.after))) "T2" = Some tr' /\
    DynamicRoutingSystem.current_capacity tr' == - (100) /\
    DynamicRoutingSystem.total_weight tr' == 2000 /\
    DynamicRoutingSystem.max_capacity tr' = 1900 /\
    - (2000 * (1 # 10)) <= DynamicRoutingSystem.current_capacity tr'.
Proof.
  assert (Hwf : dict_wf (DynamicRoutingSystem.trucks (BreakdownScenario.fleet 1900)))
    by (repeat constructor; simpl; intuition discriminate).
  assert (Hrun : DynamicRoutingSystem.handle_truck_breakdown (RT := Concrete.runtime)
                   (BreakdownScenario.fleet 1900) "T1" 0%nat 5
                 = Ok (false, ["Failed to reassign delivery E2"%string],
                       snd (fst OverloadScenario.after), snd OverloadScenario.after))
    by (vm_compute; reflexivity).
  split; [exact Hwf |]. split; [exact Hrun |].
  destruct (breakdown_overloads_by_a_tenth (RT := Concrete.runtime)
              (BreakdownScenario.fleet 1900) "T1" BreakdownScenario.broken_truck
              0%nat 5 _ Hwf eq_refl Hrun)
    as [_ [_ Htrucks]].
  cbn [fst snd] in Htrucks.
  eexists. split; [reflexivity |].
  destruct (Htrucks "T2"%string _ eq_refl) as [_ [tr [Htr [Hmax _]]]].
  inversion Htr; subst tr; clear Htr.
  split; [vm_compute; reflexivity |]. split; [vm_compute; reflexivity |].
  split; [exact Hmax |]. vm_compute. discriminate.
Defined.

(** ** Stops without repetition *)

Lemma point_eqb_sym (p q : Point) : point_eqb p q = point_eqb q p.
Proof.
  unfold point_eqb.
  assert (H : forall a b : Q, Qeq_bool a b = Qeq_bool b a).
  { intros a b. destruct (Qeq_bool a b) eqn:E1, (Qeq_bool b a) eqn:E2; try reflexivity.
    - apply Qeq_bool_iff in E1. apply Qeq_bool_false_iff in E2.
      contradiction E2. symmetry; exact E1.
    - apply Qeq_bool_iff in E2. apply Qeq_bool_false_iff in E1.
      contradiction E1. symmetry; exact E2. }
  rewrite (H (fst p)), (H (snd p)). reflexivity.
Qed.

Lemma point_eqb_trans (p q r : Point) :
  point_eqb p q = true -> point_eqb q r = true -> point_eqb p r = true.
Proof.
  unfold point_eqb. rewrite !andb_true_iff, !Qeq_bool_iff.
  intros [H1 H2] [H3 H4]. split; [rewrite H1 | rewrite H2]; assumption.
Qed.

(** Some point of [l] equals [p]. *)
Definition occurs (p : Point) (l : list Point) : bool := existsb (point_eqb p) l.

Lemma occurs_app (p : Point) (l1 l2 : list Point) :
  occurs p (l1 ++ l2) = occurs p l1 || occurs p l2.
Proof. apply existsb_app. Qed.

Lemma occurs_eqb (p q : Point) (l : list Point) :
  point_eqb p q = true -> occurs q l = true -> occurs p l = true.
Proof.
  unfold occurs. intros Hpq Hq. apply existsb_exists in Hq. destruct Hq as [x [Hx Hqx]].
  apply existsb_exists. exists x. split; [exact Hx |].
  eapply point_eqb_trans; eassumption.
Qed.

Section Repetitions.
Import DeliveryManagementSystem.

Lemma unique_from_occurs (p : Point) (l : list Point) :
  forall seen, occurs p (seen ++ unique_from seen l) = occurs p (seen ++ l).
Proof.
  induction l as [| q rest IH]; intros seen; simpl; [reflexivity |].
  destruct (existsb (point_eqb q) seen) eqn:E.
  - rewrite IH. rewrite !occurs_app. simpl.
    destruct (point_eqb p q) eqn:Epq; [| reflexivity].
    rewrite (occurs_eqb p q seen Epq E). reflexivity.
  - change (seen ++ q :: unique_from (seen ++ [q]) rest)
      with (seen ++ [q] ++ unique_from (seen ++ [q]) rest).
    rewrite app_assoc, IH, <- app_assoc. reflexivity.
Qed.

Lemma unique_from_distinct (l : list Point) :
  forall seen,
    distinct (unique_from seen l) = true /\
    forall p, In p (unique_from seen l) -> occurs p seen = false.
Proof.
  induction l as [| q rest IH]; intros seen; simpl.
  - split; [reflexivity | intros p []].
  - destruct (existsb (point_eqb q) seen) eqn:E; [apply IH |].
    destruct (IH (seen ++ [q])) as [Hd Hnew]. simpl. split.
    + rewrite Hd, andb_true_r. apply negb_true_iff.
      destruct (existsb (point_eqb q) (unique_from (seen ++ [q]) rest)) eqn:Ex;
        [| reflexivity].
      apply existsb_exists in Ex. destruct Ex as [x [Hx Hqx]].
      pose proof (Hnew x Hx) as Hocc. rewrite occurs_app in Hocc.
      apply orb_false_iff in Hocc. destruct Hocc as [_ Hocc]. simpl in Hocc.
      rewrite point_eqb_sym, Hqx in Hocc. discriminate Hocc.
    + intros p [<- | Hp]; [exact E |].
      pose proof (Hnew p Hp) as Hocc. rewrite occurs_app in Hocc.
      apply orb_false_iff in Hocc. exact (proj1 Hocc).
Qed.

Lemma unique_from_length (l : list Point) :
  forall seen, (List.length (unique_from seen l) <= List.length l)%nat.
Proof.
  induction l as [| q rest IH]; intros seen; simpl; [lia |].
  destruct (existsb (point_eqb q) seen).
  - specialize (IH seen). lia.
  - specialize (IH (seen ++ [q])). simpl. lia.
Qed.

Lemma unique_from_fixed (l : list Point) :
  forall seen,
    distinct l = true -> (forall p, In p l -> occurs p seen = false) ->
    unique_from seen l = l.
Proof.
  induction l as [| q rest IH]; intros seen Hd Hseen; simpl; [reflexivity |].
  simpl in Hd. apply andb_true_iff in Hd. destruct Hd as [Hq Hd].
  apply negb_true_iff in Hq.
  pose proof (Hseen q (or_introl eq_refl)) as Eq. unfold occurs in Eq. rewrite Eq.
  f_equal. apply IH; [exact Hd |].
  intros p Hp. rewrite occurs_app. rewrite (Hseen p (or_intror Hp)). simpl.
  rewrite orb_false_r. destruct (point_eqb p q) eqn:Epq; [| reflexivity].
  rewrite point_eqb_sym in Epq.
  assert (Hin : existsb (point_eqb q) rest = true).
  { apply existsb_exists. exists p. split; assumption. }
  congruence.
Qed.

End Repetitions.

(** X16.  The stop list built by [assign_new_order] with
    [list(dict.fromkeys(...))] holds no point twice, holds exactly the
    points of the list it is built from, begins with the same point (the
    position of the truck), and is never longer.  A list that holds no
    point twice is left as it is, so that removing repetitions a second time
    changes nothing. *)
Theorem unique_removes_repetitions (l : list Point) :
  let unique := DeliveryManagementSystem.unique in
  distinct (unique l) = true /\
  (forall p, occurs p (unique l) = occurs p l) /\
  hd_error (unique l) = hd_error l /\
  (List.length (unique l) <= List.length l)%nat /\
  (distinct l = true -> unique l = l) /\
  unique (unique l) = unique l.
Proof.
  intros unique. unfold unique, DeliveryManagementSystem.unique.
  destruct (unique_from_distinct l []) as [Hd _].
  assert (Hfix : forall l', distinct l' = true -> DeliveryManagementSystem.unique_from [] l' = l').
  { intros l' Hl'. apply unique_from_fixed; [exact Hl' | reflexivity]. }
  split; [exact Hd |].
  split; [intros p; exact (unique_from_occurs p l []) |].
  split; [destruct l; reflexivity |].
  split; [apply unique_from_length |].
  split; [apply Hfix | apply Hfix; exact Hd].
Qed.

(** ** Orders taken by the trucks of [DeliveryManagementSystem] *)

Lemma nth_error_list_set_same {A : Type} (l : list A) (i : nat) (x y : A) :
  nth_error l i = Some y -> nth_error (list_set l i x) i = Some x.
Proof.
  revert i; induction l as [| a l IH]; intros [| i] H; simpl in *; try discriminate.
  - reflexivity.
  - apply IH; exact H.
Qed.

Lemma nth_error_list_set_other {A : Type} (l : list A) (i j : nat) (x : A) :
  i <> j -> nth_error (list_set l i x) j = nth_error l j.
Proof.
  revert i j; induction l as [| a l IH]; intros [| i] [| j] H; simpl; try reflexivity.
  - contradiction H; reflexivity.
  - apply IH. intros E; apply H; f_equal; exact E.
Qed.

Section OrdersTaken.
Context {RT : Runtime}.
Import DeliveryManagementSystem.

(** X17.  [assign_new_order] never overloads a truck and touches one truck
    at most.  The fleet keeps its size; when no truck is returned the fleet
    is unchanged; when a truck is returned, it is the only entry of the
    fleet that changed, it keeps its identifier, location and maximum
    capacity and has the order appended to its orders, and, if its remaining
    capacity was the maximum capacity minus its load, its new remaining
    capacity is the old one minus the weight of the order, which is not
    negative. *)
Theorem assign_new_order_keeps_capacity
    (self : t) (order : Order.t) (g : Rng) (fuel : nat)
    (res : option Truck.t) (self' : t) (g' : Rng) :
  assign_new_order self order g fuel = Ok (res, self', g') ->
  List.length (trucks self') = List.length (trucks self) /\
  match res with
  | None => trucks self' = trucks self
  | Some truck' =>
      exists i truck,
        nth_error (trucks self) i = Some truck /\
        nth_error (trucks self') i = Some truck' /\
        (forall j, j <> i -> nth_error (trucks self') j = nth_error (trucks self) j) /\
        Truck.truck_id truck' = Truck.truck_id truck /\
        Truck.current_location truck' = Truck.current_location truck /\
        Truck.max_capacity truck' = Truck.max_capacity truck /\
        Truck.assigned_orders truck' = Truck.assigned_orders truck ++ [order] /\
        (Truck.remaining_capacity truck
         == Truck.max_capacity truck - load (Truck.assigned_orders truck) ->
         Truck.remaining_capacity truck'
         == Truck.remaining_capacity truck - Order.weight order /\
         0 <= Truck.remaining_capacity truck')
  end.
Proof.
  intros H. unfold assign_new_order in H.
  destruct self as [trucks0 opt0]. cbn [trucks].
  destruct (candidate_trucks (mk trucks0 opt0) order) as [| c cs] eqn:Ec.
  { inversion H; subst. split; reflexivity. }
  apply try_candidates_outcome in H. destruct res as [truck' |].
  - destruct H as [before [i [after [truck [route [opt1 [g1 [Hc [_ [Hn [_ [Ht Hl]]]]]]]]]]]].
    rewrite Hl. split; [apply length_list_set |].
    exists i, truck. split; [exact Hn |].
    split; [eapply nth_error_list_set_same; exact Hn |].
    split; [intros j Hj; apply nth_error_list_set_other; intros E; apply Hj; symmetry; exact E |].
    subst truck'. cbn. do 4 (split; [reflexivity |]).
    intros Hinv.
    assert (Hin : In i (candidate_trucks (mk trucks0 opt0) order)).
    { rewrite Ec, Hc. apply in_or_app; right; left; reflexivity. }
    unfold candidate_trucks in Hin. apply filter_In in Hin. destruct Hin as [_ Hcap].
    cbn [trucks] in Hcap. rewrite Hn in Hcap. apply Qle_bool_iff in Hcap.
    pose proof (used_capacity_load (Truck.assigned_orders truck ++ [order]) 0) as Hused.
    rewrite load_app in Hused. simpl load in Hused.
    split; [rewrite Hused, Hinv; ring | rewrite Hused; lra].
  - destruct H as [Ht _]. rewrite Ht. split; reflexivity.
Qed.

(** X18.  A truck that has no route yet beyond its own position is never
    turned down by the 20 % test, because the length of its route is 0: if
    the first candidate of [assign_new_order] is such a truck and the call
    returns, this truck receives the order. *)
Theorem idle_truck_takes_the_order
    (self : t) (order : Order.t) (g : Rng) (fuel : nat) (i : nat) (rest : list nat)
    (truck : Truck.t) (p : Point)
    (res : option Truck.t) (self' : t) (g' : Rng) :
  candidate_trucks self order = i :: rest ->
  nth_error (trucks self) i = Some truck ->
  Truck.route truck = Some [p] ->
  assign_new_order self order g fuel = Ok (res, self', g') ->
  exists route,
    CIACO.optimize_route (ciaco_optimizer self)
      (unique [p; Order.pickup order; Order.dropoff order]) g fuel
      = Ok (route, ciaco_optimizer self', g') /\
    res = Some (Truck.set_route (Truck.add_order truck order) route) /\
    trucks self'
    = list_set (trucks self) i (Truck.set_route (Truck.add_order truck order) route).
Proof.
  intros Hc Hn Hr H. unfold assign_new_order in H. rewrite Hc in H.
  cbn [try_candidates] in H. rewrite Hn in H.
  unfold evaluate in H. rewrite Hr in H.
  change ([p] ++ [Order.pickup order; Order.dropoff order])
    with [p; Order.pickup order; Order.dropoff order] in H.
  destruct (CIACO.optimize_route (ciaco_optimizer self)
              (unique [p; Order.pickup order; Order.dropoff order]) g fuel)
    as [[[route opt'] g1] | e |] eqn:Eopt; cbn [bind] in H; try discriminate H.
  assert (Hgate : gate (helper_functions.total_route_distance [p] true)
                       (route_distance route) = true).
  { unfold gate. apply orb_true_iff. right. reflexivity. }
  rewrite Hgate in H. cbn [bind] in H.
  inversion H; subst res self' g'; clear H. cbn [ciaco_optimizer trucks].
  exists route. split; [reflexivity |]. split; reflexivity.
Qed.

End OrdersTaken.

Module IdleScenario.
Import DeliveryManagementSystem.

(** The idle truck B comes first in the fleet. *)
Definition fleet : t := mk [OrderScenario.idle; OrderScenario.busy] Scenario.small_optimizer.

Definition assigned : option Truck.t * t * nat :=
  Eval vm_compute in
    match assign_new_order (RT := Concrete.runtime) fleet OrderScenario.far 0%nat 5 with
    | Ok r => r
    | _ => (None, fleet, 0%nat)
    end.

End IdleScenario.

(** The theorem on the fleet of two where the idle truck B receives the
    order of weight 100: its remaining capacity goes from 1000 to 900, and
    truck A is as before. *)
Lemma assign_new_order_keeps_capacity_witness :
  DeliveryManagementSystem.assign_new_order (RT := Concrete.runtime)
    OrderScenario.fleet OrderScenario.far 0%nat 5
    = Ok (Some OrderScenario.served, snd (fst OrderScenario.assigned),
          snd OrderScenario.assigned) /\
  nth_error (DeliveryManagementSystem.trucks (snd (fst OrderScenario.assigned))) 0
  = Some OrderScenario.busy /\
  Truck.remaining_capacity OrderScenario.served == 900.
Proof.
  assert (Hrun : DeliveryManagementSystem.assign_new_order (RT := Concrete.runtime)
                   OrderScenario.fleet OrderScenario.far 0%nat 5
                 = Ok (Some OrderScenario.served, snd (fst OrderScenario.assigned),
                       snd OrderScenario.assigned))
    by (vm_compute; reflexivity).
  split; [exact Hrun |].
  destruct (assign_new_order_keeps_capacity (RT := Concrete.runtime) _ _ _ _ _ _ _ Hrun)
    as [_ [i [truck [Hn [Hn' [Hframe _]]]]]].
  split; [| reflexivity].
  destruct i as [| i].
  - simpl in Hn'. inversion Hn'.
  - rewrite (Hframe 0%nat) by discriminate. reflexivity.
Defined.

(** The theorem on the fleet where the idle truck B is the first
    candidate. *)
Lemma idle_truck_takes_the_order_witness :
  DeliveryManagementSystem.assign_new_order (RT := Concrete.runtime)
    IdleScenario.fleet OrderScenario.far 0%nat 5
    = Ok (Some OrderScenario.served, snd (fst IdleScenario.assigned),
          snd IdleScenario.assigned) /\
  exists route,
    OrderScenario.served
    = Truck.set_route (Truck.add_order OrderScenario.idle OrderScenario.far) route.
Proof.
  assert (Hrun : DeliveryManagementSystem.assign_new_order (RT := Concrete.runtime)
                   IdleScenario.fleet OrderScenario.far 0%nat 5
                 = Ok (Some OrderScenario.served, snd (fst IdleScenario.assigned),
                       snd IdleScenario.assigned))
    by (vm_compute; reflexivity).
  split; [exact Hrun |].
  destruct (idle_truck_takes_the_order (RT := Concrete.runtime)
              IdleScenario.fleet OrderScenario.far 0%nat 5 0%nat [1%nat]
              OrderScenario.idle (5, 0) _ _ _ eq_refl eq_refl eq_refl Hrun)
    as [route [_ [Hres _]]].
  exists route. inversion Hres. reflexivity.
Defined.

(** ** The pheromone matrix stays symmetric and non-negative *)

Definition symmetric (n : nat) (m : Matrix) : Prop :=
  forall a b, (a < n)%nat -> (b < n)%nat -> mget m a b == mget m b a.

Definition nonnegative (n : nat) (m : Matrix) : Prop :=
  forall a b, (a < n)%nat -> (b < n)%nat -> 0 <= mget m a b.

Lemma index_from_bound (l : list Point) (x : Point) :
  forall i k, index_from i l x = Ok k -> (i <= k < i + List.length l)%nat.
Proof.
  induction l as [| y l IH]; intros i k H; simpl in H; [discriminate |].
  destruct (point_eqb y x).
  - inversion H; subst. simpl. lia.
  - apply IH in H. simpl. lia.
Qed.

Lemma index_of_bound (points : list Point) (p : Point) (i : nat) :
  index_of points p = Ok i -> (i < List.length points)%nat.
Proof. unfold index_of. intros H. apply index_from_bound in H. lia. Qed.

Lemma evaporate_square (n : nat) (m : Matrix) (f : Q -> Q) :
  square n m -> square n (map (map f) m).
Proof.
  intros [Hlen Hrows]. split; [rewrite length_map; exact Hlen |].
  apply Forall_forall. intros row Hrow. apply in_map_iff in Hrow.
  destruct Hrow as [row0 [<- Hin]]. rewrite length_map.
  rewrite Forall_forall in Hrows. apply Hrows; exact Hin.
Qed.

Lemma mget_evaporate (n : nat) (m : Matrix) (f : Q -> Q) (a b : nat) :
  square n m -> (a < n)%nat -> (b < n)%nat ->
  mget (map (map f) m) a b = f (mget m a b).
Proof.
  intros Hsq Ha Hb. unfold mget.
  change (@nil Q) with (map f []) at 1. rewrite map_nth.
  apply nth_map_in_range. rewrite (square_row n m a Hsq Ha). exact Hb.
Qed.

(** The two additions made for one leg of a route. *)
Lemma leg_deposit (n : nat) (m : Matrix) (i j : nat) (c : Q) (a b : nat) :
  square n m -> (i < n)%nat -> (j < n)%nat ->
  mget (mupdate (mupdate m i j (fun x => x + c)) j i (fun x => x + c)) a b
  == mget m a b + (if Nat.eqb a i && Nat.eqb b j then c else 0)
     + (if Nat.eqb a j && Nat.eqb b i then c else 0).
Proof.
  intros Hsq Hi Hj.
  pose proof (mupdate_square n m i j (fun x => x + c) Hsq Hi) as Hsq1.
  rewrite (mget_mupdate n _ j i a b _ Hsq1 Hj Hi).
  rewrite (mget_mupdate n m i j a b _ Hsq Hi Hj).
  rewrite (mget_mupdate n m i j j i _ Hsq Hi Hj).
  clear Hsq Hsq1 Hi Hj.
  repeat match goal with
  | |- context [Nat.eqb ?x ?y] =>
      destruct (Nat.eqb_spec x y) as [? | ?]; [subst |]
  end; simpl; try ring; exfalso; congruence.
Qed.

Section PheromoneUpdate.
Context {RT : Runtime}.
Import helper_functions CIACO.

Lemma deposit_keeps (points : list Point) (c : Q) (n : nat) :
  n = List.length points ->
  forall (route : list Point) (m m' : Matrix),
    square n m ->
    deposit points route c m = Ok m' ->
    square n m' /\
    (symmetric n m -> symmetric n m') /\
    (0 <= c -> forall a b, mget m a b <= mget m' a b).
Proof.
  intros Hn. induction route as [| p route IH]; intros m m' Hsq H.
  - inversion H; subst. split; [exact Hsq |]. split; [tauto | intros; lra].
  - destruct route as [| q rest].
    + inversion H; subst. split; [exact Hsq |]. split; [tauto | intros; lra].
    + cbn [deposit] in H.
      apply bind_Ok in H; destruct H as [i [Hi H]].
      apply bind_Ok in H; destruct H as [j [Hj H]].
      cbv zeta in H.
      apply index_of_bound in Hi. apply index_of_bound in Hj. rewrite <- Hn in Hi, Hj.
      pose proof (mupdate_square n m i j (fun x => x + c) Hsq Hi) as Hsq1.
      pose proof (mupdate_square n _ j i (fun x => x + c) Hsq1 Hj) as Hsq2.
      destruct (IH _ _ Hsq2 H) as [Hsq' [Hsym Hmono]].
      split; [exact Hsq' |]. split.
      * intros Hs. apply Hsym. intros a b Ha Hb.
        rewrite !(leg_deposit n m i j c) by assumption.
        rewrite (Hs a b Ha Hb).
        rewrite (andb_comm (Nat.eqb b i)), (andb_comm (Nat.eqb b j)). ring.
      * intros Hc a b. eapply Qle_trans; [| apply Hmono; exact Hc].
        rewrite (leg_deposit n m i j c) by assumption.
        destruct (Nat.eqb a i && Nat.eqb b j); destruct (Nat.eqb a j && Nat.eqb b i); lra.
Qed.

(** The matrix after [_update_pheromones], against the matrix before. *)
Lemma update_pheromones_matrix (self self' : t) (points : list Point) (m : Matrix)
    (routes : list (list Point)) (dists : list Q) :
  stops self = Some points ->
  pheromone_matrix self = Some m ->
  square (List.length points) m ->
  _update_pheromones self routes dists = Ok self' ->
  exists m',
    pheromone_matrix self' = Some m' /\
    square (List.length points) m' /\
    (symmetric (List.length points) m -> symmetric (List.length points) m') /\
    (Forall (fun d => 0 <= d) dists -> 0 <= elitist_factor self ->
     forall a b, (a < List.length points)%nat -> (b < List.length points)%nat ->
       mget m a b * (1 - evaporation_rate self) <= mget m' a b).
Proof.
  intros Hs Hm Hsq H. unfold _update_pheromones in H. rewrite Hs, Hm in H.
  set (n := List.length points) in *.
  set (evaporated := map (map (fun x => x * (1 - evaporation_rate self))) m) in H.
  apply bind_Ok in H; destruct H as [best [Hbest H]]. cbv zeta in H.
  apply bind_Ok in H; destruct H as [m1 [Hloop H]].
  apply bind_Ok in H; destruct H as [ec [Hec H]].
  apply bind_Ok in H; destruct H as [m2 [Hdep H]].
  inversion H; subst self'; clear H. cbn [pheromone_matrix set_pheromone_matrix].
  assert (Hsq0 : square n evaporated) by (apply evaporate_square; exact Hsq).
  pose proof (fun Hbody Hinit =>
                for_each_invariant
                  (fun m1 : Matrix =>
                     square n m1 /\
                     (symmetric n evaporated -> symmetric n m1) /\
                     (Forall (fun d => 0 <= d) dists ->
                      forall a b, mget evaporated a b <= mget m1 a b))
                  (combine routes dists) _ Hbody evaporated m1 Hinit Hloop) as Hinv.
  destruct Hinv as [Hsq1 [Hsym1 Hmono1]].
  { intros m0 [r d] m0' Hin [Hsq' [Hsym' Hmono']] Hstep. cbn [fst snd] in Hstep.
    apply bind_Ok in Hstep; destruct Hstep as [c [Hc Hstep]].
    apply py_div_Ok in Hc. destruct Hc as [-> Hnz].
    destruct (deposit_keeps points _ n eq_refl _ _ _ Hsq' Hstep) as [Hsq'' [Hsym'' Hmono'']].
    split; [exact Hsq'' |]. split; [intros Hs0; apply Hsym'', Hsym'; exact Hs0 |].
    intros Hd a b. eapply Qle_trans; [apply Hmono'; exact Hd |].
    apply Hmono''.
    assert (Hd0 : 0 <= d).
    { rewrite Forall_forall in Hd. apply Hd. eapply in_combine_r; exact Hin. }
    apply Qle_shift_div_l; lra. }
  { split; [exact Hsq0 |]. split; [tauto | intros; lra]. }
  apply py_div_Ok in Hec. destruct Hec as [-> Hnz].
  destruct (deposit_keeps points _ n eq_refl _ _ _ Hsq1 Hdep) as [Hsq2 [Hsym2 Hmono2]].
  exists m2. split; [reflexivity |]. split; [exact Hsq2 |]. split.
  - intros Hsym. apply Hsym2, Hsym1. intros a b Ha Hb. unfold evaporated.
    rewrite !(mget_evaporate n) by assumption. rewrite (Hsym a b Ha Hb). reflexivity.
  - intros Hd He a b Ha Hb.
    eapply Qle_trans; [| apply Hmono2].
    + eapply Qle_trans; [| apply Hmono1; exact Hd].
      unfold evaporated. rewrite (mget_evaporate n) by assumption. lra.
    + pose proof (nth_nonneg dists best Hd) as Hb0.
      apply Qle_shift_div_l; [lra |]. lra.
Qed.

End PheromoneUpdate.

Section PheromoneInvariant.
Context {RT : Runtime}.
Import helper_functions CIACO.

(** The optimizer holds a matrix of [n] rows and columns that is symmetric
    and has no negative entry. *)
Definition sound_pheromone (n : nat) (self : t) : Prop :=
  exists m, pheromone_matrix self = Some m /\
            square n m /\ symmetric n m /\ nonnegative n m.

Lemma ants_matrix k fuel :
  forall self g routes dists self' g' routes' dists',
    ants k fuel self g routes dists = Ok (self', g', routes', dists') ->
    pheromone_matrix self' = pheromone_matrix self /\
    (sqrt_nonneg RT -> Forall (fun d => 0 <= d) dists -> Forall (fun d => 0 <= d) dists').
Proof.
  induction k as [| k IH]; intros self g routes dists self' g' routes' dists' H;
    simpl in H.
  - inversion H; subst. split; [reflexivity | tauto].
  - apply bind_Ok in H; destruct H as [rg [_ H]].
    apply IH in H. destruct H as [Hm Hd]. split.
    + rewrite Hm. destruct (xlt _ _); reflexivity.
    + intros Hsqrt Hdists. apply Hd; [exact Hsqrt |].
      apply Forall_app. split; [exact Hdists |]. constructor; [| constructor].
      apply total_route_distance_nonneg. exact Hsqrt.
Qed.

Lemma update_pheromones_sound (self self' : t) (points : list Point)
    (routes : list (list Point)) (dists : list Q) :
  stops self = Some points ->
  Forall (fun d => 0 <= d) dists ->
  0 <= elitist_factor self -> evaporation_rate self <= 1 ->
  sound_pheromone (List.length points) self ->
  _update_pheromones self routes dists = Ok self' ->
  sound_pheromone (List.length points) self'.
Proof.
  intros Hs Hd He Hrho [m [Hm [Hsq [Hsym Hpos]]]] H.
  destruct (update_pheromones_matrix _ _ _ _ _ _ Hs Hm Hsq H)
    as [m' [Hm' [Hsq' [Hsym' Hlow]]]].
  exists m'. split; [exact Hm' |]. split; [exact Hsq' |].
  split; [apply Hsym'; exact Hsym |].
  intros a b Ha Hb. eapply Qle_trans; [| apply (Hlow Hd He a b Ha Hb)].
  apply Qmult_le_0_compat; [apply Hpos; assumption | lra].
Qed.

Lemma rounds_sound (points : list Point) k fuel :
  sqrt_nonneg RT ->
  forall self g self' g',
    stops self = Some points ->
    0 <= elitist_factor self -> evaporation_rate self <= 1 ->
    sound_pheromone (List.length points) self ->
    rounds k fuel self g = Ok (self', g') ->
    sound_pheromone (List.length points) self'.
Proof.
  intros Hsqrt. induction k as [| k IH]; intros self g self' g' Hs He Hrho Hsound H;
    simpl in H.
  - inversion H; subst; exact Hsound.
  - apply bind_Ok in H; destruct H as [[[[self1 g1] rs] ds] [Ha H]].
    apply bind_Ok in H; destruct H as [self2 [Hu H]].
    destruct (ants_keep _ _ _ _ _ _ _ _ _ _ Ha) as [Hp1 [Hs1 _]].
    destruct (ants_matrix _ _ _ _ _ _ _ _ _ _ Ha) as [Hm1 Hd1].
    destruct (update_pheromones_keeps _ _ _ _ Hu) as [Hp2 [Hs2 _]].
    assert (He1 : elitist_factor self1 = elitist_factor self /\
                  evaporation_rate self1 = evaporation_rate self).
    { unfold parameters in Hp1. inversion Hp1. split; reflexivity. }
    assert (He2 : elitist_factor self2 = elitist_factor self1 /\
                  evaporation_rate self2 = evaporation_rate self1).
    { unfold parameters in Hp2. inversion Hp2. split; reflexivity. }
    destruct He1 as [He1 Hr1]. destruct He2 as [He2 Hr2].
    eapply IH; [| | | | exact H].
    + congruence.
    + rewrite He2, He1. exact He.
    + rewrite Hr2, Hr1. exact Hrho.
    + eapply update_pheromones_sound; [| | | | | exact Hu].
      * congruence.
      * apply Hd1; [exact Hsqrt | constructor].
      * rewrite He1; exact He.
      * rewrite Hr1; exact Hrho.
      * destruct Hsound as [m Hm]. exists m. rewrite Hm1. exact Hm.
Qed.

Lemma prepare_sound (self : t) (points : list Point) (g : Rng) (self' : t) (g' : Rng) :
  0 <= initial_pheromone self ->
  prepare self points g = Ok (self', g') ->
  sound_pheromone (List.length points) self'.
Proof.
  intros Hinit H.
  destruct (initial_pheromone_entries _ _ _ _ _ H) as [cls [m [Hc [Hm [Hp Hget]]]]].
  exists m. split; [exact Hm |].
  assert (Hsq : square (List.length points) m).
  { unfold prepare in H.
    apply bind_Ok in H; destruct H as [vis [_ H]].
    apply bind_Ok in H; destruct H as [[cls0 g1] [_ H]].
    apply bind_Ok in H; destruct H as [self5 [H5 H]].
    inversion H; subst self5 g'; clear H.
    unfold _initialize_pheromones in H5. cbn in H5.
    inversion H5; subst self'; clear H5. cbn in Hc, Hm.
    inversion Hc; subst cls0. inversion Hm; subst m.
    set (n := List.length points) in *.
    destruct (fill_diagonal_spec n (mconst n (1 * initial_pheromone self)) 0
                (mconst_square n _)) as [Hsq0 _].
    destruct (boost_clusters_entries n cls _ Hsq0) as [Hsq _]; [| | exact Hsq].
    - eapply Permutation_NoDup; [symmetry; exact Hp | apply seq_NoDup].
    - apply Forall_forall. intros i Hi.
      apply (Permutation_in _ Hp) in Hi. apply in_seq in Hi. lia. }
  split; [exact Hsq |]. split.
  - intros a b Ha Hb. rewrite (Hget a b Ha Hb), (Hget b a Hb Ha).
    rewrite (Nat.eqb_sym b a), (same_cluster_sym cls b a). reflexivity.
  - intros a b Ha Hb. rewrite (Hget a b Ha Hb).
    destruct (Nat.eqb a b); [lra |]. destruct (same_cluster cls a b); lra.
Qed.

End PheromoneInvariant.

(** X19.  One call of [_update_pheromones] on an [n] x [n] matrix for [n]
    stops leaves an [n] x [n] matrix.  A symmetric matrix stays symmetric,
    since every leg of a route is credited in both directions.  With
    distances that are not negative and an elitist factor that is not
    negative, no entry falls below the evaporated old entry, so that with an
    evaporation rate of at most 1 a matrix without negative entries stays
    so. *)
Theorem update_pheromones_keeps_symmetry {RT : Runtime}
    (self self' : CIACO.t) (points : list Point) (m : Matrix)
    (routes : list (list Point)) (dists : list Q) :
  CIACO.stops self = Some points ->
  CIACO.pheromone_matrix self = Some m ->
  square (List.length points) m ->
  CIACO._update_pheromones self routes dists = Ok self' ->
  exists m',
    CIACO.pheromone_matrix self' = Some m' /\
    square (List.length points) m' /\
    (symmetric (List.length points) m -> symmetric (List.length points) m') /\
    (Forall (fun d => 0 <= d) dists -> 0 <= CIACO.elitist_factor self ->
     (forall a b, (a < List.length points)%nat -> (b < List.length points)%nat ->
        mget m a b * (1 - CIACO.evaporation_rate self) <= mget m' a b) /\
     (CIACO.evaporation_rate self <= 1 ->
      nonnegative (List.length points) m -> nonnegative (List.length points) m')).
Proof.
  intros Hs Hm Hsq H.
  destruct (update_pheromones_matrix _ _ _ _ _ _ Hs Hm Hsq H)
    as [m' [Hm' [Hsq' [Hsym' Hlow]]]].
  exists m'. split; [exact Hm' |]. split; [exact Hsq' |]. split; [exact Hsym' |].
  intros Hd He. split; [exact (Hlow Hd He) |].
  intros Hrho Hpos a b Ha Hb.
  eapply Qle_trans; [| apply (Hlow Hd He a b Ha Hb)].
  apply Qmult_le_0_compat; [apply Hpos; assumption | lra].
Qed.

(** X20.  After [optimize_route] has returned on more than two stops, the
    pheromone matrix of the optimizer has one row and one column for each
    stop, is symmetric, and has no negative entry, provided the square root
    is never negative, the initial pheromone and the elitist factor are not
    negative and the evaporation rate is at most 1, as the constructor
    ensures. *)
Theorem optimize_route_leaves_sound_pheromone {RT : Runtime}
    (self : CIACO.t) (stops : list Point) (g : Rng) (fuel : nat)
    (r : option (list Point)) (self' : CIACO.t) (g' : Rng) :
  sqrt_nonneg RT ->
  0 <= CIACO.initial_pheromone self ->
  0 <= CIACO.elitist_factor self ->
  CIACO.evaporation_rate self <= 1 ->
  (2 < List.length stops)%nat ->
  CIACO.optimize_route self stops g fuel = Ok (r, self', g') ->
  exists m,
    CIACO.pheromone_matrix self' = Some m /\
    square (List.length stops) m /\
    symmetric (List.length stops) m /\
    nonnegative (List.length stops) m.
Proof.
  intros Hsqrt Hinit He Hrho Hlen H. unfold CIACO.optimize_route in H.
  destruct stops as [| depot others] eqn:Est; [discriminate |]. rewrite <- Est in *.
  destruct (Nat.leb_spec (List.length stops) 2) as [Hle | _]; [lia |].
  apply bind_Ok in H; destruct H as [[self5 g5] [Hprep H]].
  apply bind_Ok in H; destruct H as [[self6 g6] [Hr H]].
  inversion H; subst r self' g'; clear H. simpl fst in *. simpl snd in *.
  destruct (prepare_keeps _ _ _ _ _ Hprep) as [Hp [Hs _]].
  assert (Hpar : CIACO.elitist_factor self5 = CIACO.elitist_factor self /\
                 CIACO.evaporation_rate self5 = CIACO.evaporation_rate self).
  { unfold parameters in Hp. inversion Hp. split; reflexivity. }
  destruct Hpar as [He5 Hr5].
  eapply (rounds_sound stops); [exact Hsqrt | exact Hs | | | | exact Hr].
  - rewrite He5; exact He.
  - rewrite Hr5; exact Hrho.
  - eapply prepare_sound; [exact Hinit | exact Hprep].
Qed.

Module UpdateScenario.

(** One ant has walked the five stops in their order, 12 in all. *)
Definition route : list Point := [(0, 0); (1, 0); (2, 0); (5, 0); (6, 0); (0, 0)].

Definition updated : CIACO.t :=
  Eval vm_compute in
    match CIACO._update_pheromones FivePrepared.prepared [route] [12] with
    | Ok c => c
    | _ => FivePrepared.prepared
    end.

End UpdateScenario.

(** The theorem on the five stops on a line, after the walk of one ant. *)
Lemma update_pheromones_keeps_symmetry_witness :
  CIACO._update_pheromones FivePrepared.prepared [UpdateScenario.route] [12]
    = Ok UpdateScenario.updated /\
  exists m',
    CIACO.pheromone_matrix UpdateScenario.updated = Some m' /\
    square 5 m' /\ mget m' 0 1 == mget m' 1 0 /\ 0 <= mget m' 0 1.
Proof.
  assert (Hrun : CIACO._update_pheromones FivePrepared.prepared [UpdateScenario.route] [12]
                 = Ok UpdateScenario.updated) by (vm_compute; reflexivity).
  split; [exact Hrun |].
  assert (Hsq : square 5 [[0; 1; 1; 1; 1]; [1; 0; 9 # 4; 1; 1]; [1; 9 # 4; 0; 1; 1];
                          [1; 1; 1; 0; 9 # 4]; [1; 1; 1; 9 # 4; 0]])
    by (split; [reflexivity | repeat constructor]).
  destruct (update_pheromones_keeps_symmetry (RT := Concrete.runtime)
              FivePrepared.prepared UpdateScenario.updated FiveStops.stops _
              [UpdateScenario.route] [12] eq_refl eq_refl Hsq Hrun)
    as [m' [Hm' [Hsq' [Hsym Hlow]]]].
  exists m'. split; [exact Hm' |]. split; [exact Hsq' |].
  assert (Hsym0 : symmetric 5 [[0; 1; 1; 1; 1]; [1; 0; 9 # 4; 1; 1]; [1; 9 # 4; 0; 1; 1];
                               [1; 1; 1; 0; 9 # 4]; [1; 1; 1; 9 # 4; 0]]).
  { intros a b Ha Hb.
    do 5 (destruct a as [| a]; [do 5 (destruct b as [| b]; [reflexivity |]); simpl in Hb; lia |]).
    simpl in Ha; lia. }
  assert (Hpos0 : nonnegative 5 [[0; 1; 1; 1; 1]; [1; 0; 9 # 4; 1; 1]; [1; 9 # 4; 0; 1; 1];
                                 [1; 1; 1; 0; 9 # 4]; [1; 1; 1; 9 # 4; 0]]).
  { intros a b Ha Hb.
    do 5 (destruct a as [| a];
          [do 5 (destruct b as [| b]; [vm_compute; discriminate |]); simpl in Hb; lia |]).
    simpl in Ha; lia. }
  split; [apply (Hsym Hsym0); simpl; lia |].
  destruct Hlow as [_ Hpos].
  - repeat constructor. vm_compute; discriminate.
  - vm_compute; discriminate.
  - apply Hpos; [vm_compute; discriminate | exact Hpos0 | simpl; lia | simpl; lia].
Defined.

(** The theorem on the first of the two calls, on the concrete runtime. *)
Lemma optimize_route_leaves_sound_pheromone_witness :
  sqrt_nonneg Concrete.runtime /\
  CIACO.optimize_route (RT := Concrete.runtime)
    Scenario.small_optimizer TwoCalls.first_stops 0%nat 5
    = Ok (Some [(0, 0); (1, 0); (2, 0); (0, 0)],
          snd (fst TwoCalls.after_first), snd TwoCalls.after_first) /\
  exists m,
    CIACO.pheromone_matrix (snd (fst TwoCalls.after_first)) = Some m /\
    square 3 m /\ symmetric 3 m /\ nonnegative 3 m.
Proof.
  assert (Hrun : CIACO.optimize_route (RT := Concrete.runtime)
                   Scenario.small_optimizer TwoCalls.first_stops 0%nat 5
                 = Ok (Some [(0, 0); (1, 0); (2, 0); (0, 0)],
                       snd (fst TwoCalls.after_first), snd TwoCalls.after_first))
    by (vm_compute; reflexivity).
  split; [exact ConcreteFacts.sqrt_exact_nonneg |]. split; [exact Hrun |].
  apply (optimize_route_leaves_sound_pheromone (RT := Concrete.runtime)
           Scenario.small_optimizer TwoCalls.first_stops 0%nat 5
           (Some [(0, 0); (1, 0); (2, 0); (0, 0)])
           (snd (fst TwoCalls.after_first)) (snd TwoCalls.after_first)
           ConcreteFacts.sqrt_exact_nonneg).
  - vm_compute; discriminate.
  - vm_compute; discriminate.
  - vm_compute; discriminate.
  - simpl; lia.
  - exact Hrun.
Defined.

(** ** Time windows *)



Section TimeWindow.
Context {RT : Runtime}.
Import DynamicRoutingSystem.



End TimeWindow.


(** ** Rerouting by hand, as the test scenario does it *)

Section ManualRerouting.
Context {RT : Runtime}.
Import DynamicRoutingSystem.

Lemma assign_delivery_refused (s : t) (delivery_id : string) (clock : Clock) (g : Rng)
    (fuel : nat) :
  (forall d, dict_get (deliveries s) delivery_id = Some d -> delivery_status d <> pending) ->
  assign_delivery s delivery_id clock g fuel = Ok (false, s, g).
Proof.
  intros H. unfold assign_delivery.
  destruct (dict_get (deliveries s) delivery_id) as [d |]; [| reflexivity].
  specialize (H d eq_refl). destruct (delivery_status d); try reflexivity.
  contradiction H; reflexivity.
Qed.

(** X22.  The rerouting by hand of the test scenario 4 reassigns nothing.
    It removes truck T1 from the registry and calls [assign_delivery] for
    each entry of the list of T1; as soon as none of these deliveries is
    pending, which is so for deliveries that were assigned, every call
    answers [False].  The deliveries stay as they were, in progress on a
    truck that is no longer registered; the calls do not depend on the clock
    or the fuel and leave the generator alone. *)
Theorem emergency_rerouting_reassigns_nothing
    (routing_system : t) (clock : nat -> Clock) (g : Rng) (fuel : nat) (truck : truck) :
  dict_get (trucks routing_system) "T1" = Some truck ->
  (forall id d, In id (deliveries_of truck) ->
                dict_get (deliveries routing_system) id = Some d ->
                delivery_status d <> pending) ->
  TestScenarios.emergency_rerouting routing_system clock g fuel
  = Ok (map (fun id => (id, false)) (deliveries_of truck),
        mk (dict_del (trucks routing_system) "T1") (deliveries routing_system)
           (ciaco routing_system),
        g).
Proof.
  intros Htruck Hstatus. unfold TestScenarios.emergency_rerouting. rewrite Htruck.
  set (removed := mk (dict_del (trucks routing_system) "T1") (deliveries routing_system)
                     (ciaco routing_system)).
  assert (Hloop : forall (ids : list string) (k : nat) (printed : list (string * bool)),
             (forall id, In id ids -> In id (deliveries_of truck)) ->
             for_each (combine (seq k (List.length ids)) ids)
               (fun (acc : list (string * bool) * t * Rng) (item : nat * string) =>
                  let '(printed, s, g) := acc in
                  let* r := assign_delivery s (snd item) (clock (fst item)) g fuel in
                  let '(success, s', g') := r in
                  Ok (printed ++ [(snd item, success)], s', g'))
               (printed, removed, g)
             = Ok (printed ++ map (fun id => (id, false)) ids, removed, g)).
  { induction ids as [| id ids IH]; intros k printed Hin; simpl.
    - rewrite app_nil_r. reflexivity.
    - rewrite (assign_delivery_refused removed id (clock k) g fuel).
      + cbn [bind]. rewrite IH by (intros x Hx; apply Hin; right; exact Hx).
        rewrite <- app_assoc. reflexivity.
      + intros d Hd. apply (Hstatus id d); [apply Hin; left; reflexivity | exact Hd]. }
  apply (Hloop (deliveries_of truck) 0%nat []). intros id Hid; exact Hid.
Qed.

End ManualRerouting.

(** The theorem on the fleet where T1 carries E2 and E1: by hand nothing is
    reassigned, although [handle_truck_breakdown] finds room for E1 on T2. *)
Lemma emergency_rerouting_reassigns_nothing_witness :
  TestScenarios.emergency_rerouting (RT := Concrete.runtime)
    (BreakdownScenario.fleet 3000) (fun k _ => Z.of_nat k) 0%nat 5
  = Ok ([("E2"%string, false); ("E1"%string, false)],
        DynamicRoutingSystem.mk
          (dict_del (DynamicRoutingSystem.trucks (BreakdownScenario.fleet 3000)) "T1")
          (DynamicRoutingSystem.deliveries (BreakdownScenario.fleet 3000))
          (DynamicRoutingSystem.ciaco (BreakdownScenario.fleet 3000)),
        0%nat).
Proof.
  apply (emergency_rerouting_reassigns_nothing (RT := Concrete.runtime)
           (BreakdownScenario.fleet 3000) _ 0%nat 5 BreakdownScenario.broken_truck).
  - reflexivity.
  - intros id d [<- | [<- | []]] Hd; inversion Hd; subst d; discriminate.
Defined.

(** ** A truck driven along its route *)

Section Movement.
Context {RT : Runtime}.
Import DynamicRoutingSystem.

Lemma movement_returns (truck_id : string) (route : list Point) :
  forall (minutes : nat) (s : t) (current_point : nat),
    registry_ok s ->
    dict_get (trucks s) truck_id <> None ->
    exists s',
      test_dynamic_routing.movement minutes s truck_id route current_point = Ok s' /\
      registry_ok s' /\
      map fst (deliveries s') = map fst (deliveries s) /\
      let steps := Nat.min minutes (List.length route - 1 - current_point) in
      match steps with
      | O => s' = s
      | S _ => exists tr',
                 dict_get (trucks s') truck_id = Some tr' /\
                 current_location tr' = nth (current_point + steps) route (0, 0)
      end.
Proof.
  induction minutes as [| minutes IH]; intros s current_point Hok Htr.
  - exists s. simpl. split; [reflexivity |]. split; [exact Hok |].
    split; reflexivity.
  - cbn [test_dynamic_routing.movement].
    destruct (Nat.leb_spec (List.length route) (S current_point)) as [Hend | Hmore].
    + exists s. split; [reflexivity |]. split; [exact Hok |]. split; [reflexivity |].
      replace (List.length route - 1 - current_point)%nat with 0%nat by lia.
      rewrite Nat.min_0_r. reflexivity.
    + cbv zeta.
      destruct (update_truck_status_returns s truck_id
                  (nth (S current_point) route (0, 0)) Hok Htr) as [s1 Hs1].
      rewrite Hs1. cbn [bind].
      pose proof (update_truck_status_registry_ok _ _ _ _ Hok Hs1) as Hok1.
      destruct (dict_get (trucks s) truck_id) as [tr |] eqn:Etr;
        [| contradiction Htr; reflexivity].
      pose proof (update_truck_status_effect s truck_id _ tr s1 Etr Hs1) as Hm.
      cbv zeta in Hm.
      destruct Hm as [[tr1 [Htr1 [_ [Hloc1 _]]]] [_ [_ [_ [Hkd1 _]]]]].
      cbn [current_location deliveries] in Hloc1, Hkd1.
      destruct (IH s1 (S current_point) Hok1) as [s' [Hrun [Hok' [Hkd' Hend]]]].
      { rewrite Htr1. discriminate. }
      exists s'. split; [exact Hrun |]. split; [exact Hok' |].
      split; [rewrite Hkd'; exact Hkd1 |].
      cbv zeta in Hend.
      replace (List.length route - 1 - current_point)%nat
        with (S (List.length route - 1 - S current_point)) by lia.
      rewrite <- Nat.succ_min_distr.
      destruct (Nat.min minutes (List.length route - 1 - S current_point)) as [| k] eqn:Ek.
      * subst s'. exists tr1. split; [exact Htr1 |]. rewrite Hloc1.
        f_equal. lia.
      * destruct Hend as [tr' [Htr' Hloc']]. exists tr'. split; [exact Htr' |].
        rewrite Hloc'. f_equal. lia.
Qed.

(** X23.  [simulate_truck_movement] raises [KeyError] for a truck that is
    not registered.  In a registry that satisfies the invariant it returns
    for every registered truck: a truck without route, or with a route of
    one point, or simulated for no minute, leaves the registry as it is;
    otherwise the truck ends on the point of its route numbered by the
    minutes simulated, or on the last point of the route if that comes
    first, the point numbered 0 being skipped.  The registry satisfies the
    invariant afterwards and holds the same deliveries. *)
Theorem simulate_truck_movement_reaches
    (s : t) (truck_id : string) (duration_minutes : nat) :
  registry_ok s ->
  match dict_get (trucks s) truck_id with
  | None =>
      test_dynamic_routing.simulate_truck_movement s truck_id duration_minutes
      = Raise (KeyError truck_id)
  | Some tr =>
      exists s',
        test_dynamic_routing.simulate_truck_movement s truck_id duration_minutes = Ok s' /\
        registry_ok s' /\
        map fst (deliveries s') = map fst (deliveries s) /\
        match current_route tr with
        | None => s' = s
        | Some route =>
            match Nat.min duration_minutes (List.length route - 1) with
            | O => s' = s
            | S k => exists tr',
                       dict_get (trucks s') truck_id = Some tr' /\
                       current_location tr' = nth (S k) route (0, 0)
            end
        end
  end.
Proof.
  intros Hok. unfold test_dynamic_routing.simulate_truck_movement, dict_item.
  destruct (dict_get (trucks s) truck_id) as [tr |] eqn:Etr; [| reflexivity].
  cbn [bind].
  destruct (current_route tr) as [[| p route] |].
  - exists s. split; [reflexivity |]. split; [exact Hok |]. split; [reflexivity |].
    simpl. rewrite Nat.min_0_r. reflexivity.
  - destruct (movement_returns truck_id (p :: route) duration_minutes s 0 Hok)
      as [s' [Hrun [Hok' [Hkd Hend]]]].
    { rewrite Etr. discriminate. }
    exists s'. split; [exact Hrun |]. split; [exact Hok' |]. split; [exact Hkd |].
    cbv zeta in Hend. rewrite Nat.sub_0_r, Nat.add_0_l in Hend.
    destruct (Nat.min duration_minutes (List.length (p :: route) - 1));
      [exact Hend |].
    destruct Hend as [tr' [Htr' Hloc]]. exists tr'. split; assumption.
  - exists s. split; [reflexivity |]. split; [exact Hok |]. split; reflexivity.
Qed.

End Movement.

Module DriveScenario.
Import DynamicRoutingSystem.
Open Scope string_scope.

(** Truck T1 carries D1 along a route of three points. *)
Definition driver : truck :=
  mk_truck 1000 700 (0, 0) (Some [(0, 0); (1, 0); (2, 0)]) ["D1"] 300.

Definition on_route : t :=
  mk [("T1", driver)]
     [("D1", mk_delivery (1, 0) (2, 0) 300 in_progress (Some "T1") None)]
     Scenario.small_optimizer.

End DriveScenario.

(** The theorem for a truck with a route of three points, driven for five
    minutes: it ends on the last point. *)
Lemma simulate_truck_movement_reaches_witness :
  exists s' tr',
    test_dynamic_routing.simulate_truck_movement (RT := Concrete.runtime)
      DriveScenario.on_route "T1" 5 = Ok s' /\
    registry_ok s' /\
    dict_get (DynamicRoutingSystem.trucks s') "T1" = Some tr' /\
    DynamicRoutingSystem.current_location tr' = (2, 0).
Proof.
  assert (Hok : registry_ok DriveScenario.on_route) by concrete_registry_ok.
  pose proof (simulate_truck_movement_reaches (RT := Concrete.runtime)
                DriveScenario.on_route "T1" 5 Hok) as H.
  change (dict_get (DynamicRoutingSystem.trucks DriveScenario.on_route) "T1")
    with (Some DriveScenario.driver) in H.
  cbv beta iota in H.
  destruct H as [s' [Hrun [Hok' [_ Hend]]]].
  change (DynamicRoutingSystem.current_route DriveScenario.driver)
    with (Some [(0, 0); (1, 0); (2, 0)]) in Hend.
  cbn [Nat.min List.length Nat.sub nth] in Hend.
  destruct Hend as [tr' [Htr' Hloc]].
  exists s', tr'.
  split; [exact Hrun | split; [exact Hok' | split; [exact Htr' | exact Hloc]]].
Defined.

(** ** Orders shared out among the trucks *)

Lemma for_each_run {A B : Type} (P : list B -> A -> Prop) (body : A -> B -> outcome A) :
  forall (l pre : list B) (a : A),
    (forall done x a0, In x l -> P done a0 ->
                       exists a1, body a0 x = Ok a1 /\ P (done ++ [x]) a1) ->
    P pre a ->
    exists a', for_each l body a = Ok a' /\ P (pre ++ l) a'.
Proof.
  induction l as [| x l IH]; intros pre a Hbody Ha; simpl.
  - exists a. rewrite app_nil_r. split; [reflexivity | exact Ha].
  - destruct (Hbody pre x a (or_introl eq_refl) Ha) as [a1 [H1 Ha1]].
    rewrite H1. cbn [bind].
    replace (pre ++ x :: l) with ((pre ++ [x]) ++ l) by (rewrite <- app_assoc; reflexivity).
    apply IH; [| exact Ha1].
    intros done y a0 Hy. apply Hbody. right. exact Hy.
Qed.

Lemma insert_desc_permutation {A : Type} (key : A -> Q) (x : A) (l : list A) :
  Permutation (ACOVisualization.insert_desc key x l) (x :: l).
Proof.
  induction l as [| y l IH]; simpl; [apply Permutation_refl |].
  destruct (Qltb (key x) (key y)); [| apply Permutation_refl].
  apply perm_trans with (y :: x :: l); [apply perm_skip; exact IH | apply perm_swap].
Qed.

Lemma sorted_desc_permutation {A : Type} (key : A -> Q) (l : list A) :
  Permutation (ACOVisualization.sorted_desc key l) l.
Proof.
  induction l as [| x l IH]; simpl; [apply perm_nil |].
  apply perm_trans with (x :: ACOVisualization.sorted_desc key l);
    [apply insert_desc_permutation | apply perm_skip; exact IH].
Qed.

Section SharedOut.
Import Truck ACOVisualization.

(** What an entry of [trucks] keeps of the entry it started as: its key and
    the truck it names, with a remaining capacity that is the maximum less
    the load, and a load within the maximum once an order is on board. *)
Definition kept (before after : string * Truck.t) : Prop :=
  fst after = fst before /\
  truck_id (snd after) = truck_id (snd before) /\
  current_location (snd after) = current_location (snd before) /\
  max_capacity (snd after) = max_capacity (snd before) /\
  route (snd after) = route (snd before) /\
  remaining_capacity (snd after)
  == max_capacity (snd before) - load (assigned_orders (snd after)) /\
  (assigned_orders (snd after) = [] \/
   load (assigned_orders (snd after)) <= max_capacity (snd before)).

Definition on_board (trucks : dict Truck.t) : list Order.t :=
  flat_map (fun item => assigned_orders (snd item)) trucks.

(** The state of the loops over the orders: [handled] are the orders gone
    through, each of which is on board of one truck or was left out. *)
Definition shared (start : dict Truck.t) (handled : list Order.t) (trucks : dict Truck.t)
  : Prop :=
  Forall2 kept start trucks /\
  exists left_out, Permutation (on_board trucks ++ left_out) handled.

Lemma kept_keys (start trucks : dict Truck.t) :
  Forall2 kept start trucks -> map fst trucks = map fst start.
Proof.
  induction 1 as [| a b start trucks Hab _ IH]; simpl; [reflexivity |].
  destruct Hab as [Hkey _]. rewrite Hkey, IH. reflexivity.
Qed.

Lemma kept_get (start trucks : dict Truck.t) (key : string) (truck : Truck.t) :
  Forall2 kept start trucks ->
  dict_get trucks key = Some truck ->
  exists before, dict_get start key = Some before /\ kept (key, before) (key, truck).
Proof.
  induction 1 as [| [k0 t0] [k1 t1] start trucks Hab _ IH]; simpl; [discriminate |].
  pose proof Hab as [Hkey _]. simpl in Hkey. subst k1.
  destruct (String.eqb_spec k0 key) as [-> | Hne]; [| exact IH].
  intros H. inversion H; subst t1. exists t0. split; [reflexivity | exact Hab].
Qed.

Lemma kept_set (start trucks : dict Truck.t) (key : string) (truck truck' : Truck.t) :
  Forall2 kept start trucks ->
  dict_get trucks key = Some truck ->
  (forall before, kept (key, before) (key, truck) -> kept (key, before) (key, truck')) ->
  Forall2 kept start (dict_set trucks key truck').
Proof.
  intros Hall. revert key truck truck'.
  induction Hall as [| [k0 t0] [k1 t1] start trucks Hab Hall IH]; intros key truck truck';
    simpl; [discriminate |].
  pose proof Hab as [Hkey _]. simpl in Hkey. subst k1.
  destruct (String.eqb_spec k0 key) as [-> | Hne]; intros Hget Hstep.
  - inversion Hget; subst t1. constructor; [apply Hstep; exact Hab | exact Hall].
  - constructor; [exact Hab | eapply IH; eassumption].
Qed.

Lemma on_board_set (trucks : dict Truck.t) (key : string) (truck : Truck.t)
    (order : Order.t) :
  dict_get trucks key = Some truck ->
  Permutation (on_board (dict_set trucks key (add_order truck order)))
              (order :: on_board trucks).
Proof.
  unfold on_board. induction trucks as [| [k0 t0] trucks IH]; simpl; [discriminate |].
  destruct (String.eqb_spec k0 key) as [-> | Hne]; intros Hget.
  - inversion Hget; subst t0. simpl. rewrite <- app_assoc. simpl.
    apply Permutation_sym.
    apply (Permutation_middle (assigned_orders truck)
             (flat_map (fun item => assigned_orders (snd item)) trucks) order).
  - simpl. apply perm_trans
      with (assigned_orders t0 ++ order
            :: flat_map (fun item => assigned_orders (snd item)) trucks).
    + apply Permutation_app_head. apply IH. exact Hget.
    + apply Permutation_sym. apply Permutation_middle.
Qed.

(** An order goes on board of a truck with room for it. *)
Lemma shared_placed (start trucks : dict Truck.t) (handled : list Order.t)
    (key : string) (truck : Truck.t) (order : Order.t) :
  shared start handled trucks ->
  dict_get trucks key = Some truck ->
  Qle_bool (Order.weight order) (remaining_capacity truck) = true ->
  shared start (handled ++ [order]) (dict_set trucks key (add_order truck order)).
Proof.
  intros [Hall [left_out Hperm]] Hget Hroom. split.
  - apply (kept_set start trucks key truck); [exact Hall | exact Hget |].
    intros before [Hkey [Hid [Hloc [Hmax [Hroute [Hrem _]]]]]].
    cbn [fst snd] in *. unfold kept. cbn [fst snd].
    unfold add_order, update_capacity.
    cbn [truck_id current_location max_capacity route remaining_capacity assigned_orders].
    split; [reflexivity |]. split; [exact Hid |]. split; [exact Hloc |].
    split; [exact Hmax |]. split; [exact Hroute |].
    split; [rewrite used_capacity_load, Hmax; ring |].
    right. rewrite load_app. simpl. apply Qle_bool_iff in Hroom.
    rewrite Hrem in Hroom. lra.
  - exists left_out.
    apply perm_trans with (order :: on_board trucks ++ left_out).
    + apply (Permutation_app_tail left_out (on_board_set trucks key truck order Hget)).
    + apply perm_trans with (order :: handled); [apply perm_skip; exact Hperm |].
      apply Permutation_cons_append.
Qed.

(** An order for which no truck was found is left out. *)
Lemma shared_left_out (start trucks : dict Truck.t) (handled : list Order.t)
    (order : Order.t) :
  shared start handled trucks -> shared start (handled ++ [order]) trucks.
Proof.
  intros [Hall [left_out Hperm]]. split; [exact Hall |].
  exists (left_out ++ [order]). rewrite app_assoc. apply Permutation_app_tail. exact Hperm.
Qed.

Lemma shared_wf (start trucks : dict Truck.t) (handled : list Order.t) :
  dict_wf start -> shared start handled trucks -> dict_wf trucks.
Proof.
  intros Hwf [Hall _]. unfold dict_wf. rewrite (kept_keys _ _ Hall). exact Hwf.
Qed.

Lemma greedy_search_room (trucks : dict Truck.t) (order : Order.t) (key : string) :
  greedy_search trucks order = Some key ->
  exists truck, In (key, truck) trucks /\
                Qle_bool (Order.weight order) (remaining_capacity truck) = true.
Proof.
  unfold greedy_search.
  assert (H : forall (l : dict Truck.t) (acc : option string * Q),
             fst (fold_left
                    (fun (acc : option string * Q) (item : string * Truck.t) =>
                       let (key, truck) := item in
                       if Qle_bool (Order.weight order) (remaining_capacity truck)
                          && Qltb (snd acc) (remaining_capacity truck)
                       then (Some key, remaining_capacity truck)
                       else acc) l acc) = Some key ->
             fst acc = Some key \/
             exists truck, In (key, truck) l /\
                           Qle_bool (Order.weight order) (remaining_capacity truck) = true).
  { induction l as [| [k t0] l IH]; intros acc Hres; simpl in Hres; [left; exact Hres |].
    destruct (IH _ Hres) as [Hacc | [truck [Hin Hroom]]].
    - destruct (Qle_bool (Order.weight order) (remaining_capacity t0)) eqn:Eroom;
        [| left; exact Hacc].
      destruct (Qltb (snd acc) (remaining_capacity t0)); [| left; exact Hacc].
      simpl in Hacc. inversion Hacc; subst k.
      right. exists t0. split; [left; reflexivity | exact Eroom].
    - right. exists truck. split; [right; exact Hin | exact Hroom]. }
  intros Hres. destruct (H _ _ Hres) as [Hacc | Hfound]; [discriminate Hacc | exact Hfound].
Qed.

Context {RT : Runtime}.

Lemma nearest_search_room (trucks : dict Truck.t) (order : Order.t) (key : string) :
  nearest_search trucks order = Some key ->
  exists truck, In (key, truck) trucks /\
                Qle_bool (Order.weight order) (remaining_capacity truck) = true.
Proof.
  unfold nearest_search.
  assert (H : forall (l : dict Truck.t) (acc : option string * xfloat),
             fst (fold_left
                    (fun (acc : option string * xfloat) (item : string * Truck.t) =>
                       let (key, truck) := item in
                       if Qle_bool (Order.weight order) (remaining_capacity truck) then
                         let distance := _calculate_distance (current_location truck)
                                                             (Order.pickup order) in
                         if xlt distance (snd acc) then (Some key, Fin distance) else acc
                       else acc) l acc) = Some key ->
             fst acc = Some key \/
             exists truck, In (key, truck) l /\
                           Qle_bool (Order.weight order) (remaining_capacity truck) = true).
  { induction l as [| [k t0] l IH]; intros acc Hres; simpl in Hres; [left; exact Hres |].
    destruct (IH _ Hres) as [Hacc | [truck [Hin Hroom]]].
    - destruct (Qle_bool (Order.weight order) (remaining_capacity t0)) eqn:Eroom;
        [| left; exact Hacc].
      cbv zeta in Hacc.
      destruct (xlt _ (snd acc)); [| left; exact Hacc].
      simpl in Hacc. inversion Hacc; subst k.
      right. exists t0. split; [left; reflexivity | exact Eroom].
    - right. exists truck. split; [right; exact Hin | exact Hroom]. }
  intros Hres. destruct (H _ _ Hres) as [Hacc | Hfound]; [discriminate Hacc | exact Hfound].
Qed.

(** [give] after a search that names only trucks with room. *)
Lemma give_shared (start trucks : dict Truck.t) (handled : list Order.t)
    (found : option string) (order : Order.t) :
  dict_wf start ->
  shared start handled trucks ->
  (forall key, found = Some key ->
               exists truck, In (key, truck) trucks /\
                             Qle_bool (Order.weight order) (remaining_capacity truck) = true) ->
  exists trucks', give trucks found order = Ok trucks' /\
                  shared start (handled ++ [order]) trucks'.
Proof.
  intros Hwf Hsh Hfound. unfold give. destruct found as [key |].
  - destruct (Hfound key eq_refl) as [truck [Hin Hroom]].
    assert (Hget : dict_get trucks key = Some truck).
    { apply dict_In_get; [eapply shared_wf; eassumption | exact Hin]. }
    unfold dict_item. rewrite Hget. cbn [bind]. eexists. split; [reflexivity |].
    apply shared_placed; assumption.
  - eexists. split; [reflexivity |]. apply shared_left_out. exact Hsh.
Qed.

(** The rotation of the strategy "balanced" over keys of [trucks]. *)
Lemma rotate_shared (start : dict Truck.t) (sorted_trucks : list string) (i : nat)
    (order : Order.t) (handled : list Order.t) :
  sorted_trucks <> [] ->
  (forall key, In key sorted_trucks -> In key (map fst start)) ->
  forall (js : list nat) (trucks : dict Truck.t),
    shared start handled trucks ->
    exists trucks', rotate js i sorted_trucks trucks order = Ok trucks' /\
                    shared start (handled ++ [order]) trucks'.
Proof.
  intros Hne Hkeys. induction js as [| j js IH]; intros trucks Hsh; simpl.
  - eexists. split; [reflexivity |]. apply shared_left_out. exact Hsh.
  - assert (Hlt : ((i + j) mod List.length sorted_trucks < List.length sorted_trucks)%nat).
    { apply Nat.mod_upper_bound. destruct sorted_trucks; [contradiction Hne; reflexivity |].
      simpl. lia. }
    destruct (nth_error sorted_trucks ((i + j) mod List.length sorted_trucks))
      as [key |] eqn:Enth; [| apply nth_error_None in Enth; lia].
    assert (Hin : In key (map fst trucks)).
    { destruct Hsh as [Hall _]. rewrite (kept_keys _ _ Hall). apply Hkeys.
      eapply nth_error_In. exact Enth. }
    apply in_map_iff in Hin. destruct Hin as [[k truck0] [Hk Hin]]. simpl in Hk. subst k.
    destruct (dict_get trucks key) as [truck |] eqn:Eget;
      [| exfalso; revert Eget; eapply dict_In_some; exact Hin].
    unfold dict_item. rewrite Eget. cbn [bind].
    destruct (Qle_bool (Order.weight order) (remaining_capacity truck)) eqn:Eroom.
    + eexists. split; [reflexivity |]. apply shared_placed; assumption.
    + apply IH. exact Hsh.
Qed.

Lemma reset_shared (start : dict Truck.t) :
  shared start [] (map (fun item => (fst item, reset (snd item))) start).
Proof.
  split.
  - induction start as [| [k t0] start IH]; simpl; constructor; [| exact IH].
    unfold kept, reset, update_capacity. simpl.
    repeat split; try reflexivity. left. reflexivity.
  - exists []. rewrite app_nil_r. unfold on_board.
    induction start as [| [k t0] start IH]; simpl; [apply perm_nil | exact IH].
Qed.

End SharedOut.

Lemma combine_seq_snd {A : Type} (l : list A) (k : nat) :
  map snd (combine (seq k (List.length l)) l) = l.
Proof.
  revert k. induction l as [| x l IH]; intros k; simpl; [reflexivity |].
  rewrite IH. reflexivity.
Qed.

(** X24.  [assign_orders_to_trucks] raises [ValueError] when there is no
    truck or no order.  Otherwise it returns for every strategy, and in the
    result: the orders and the keys of the trucks are as before; every truck
    is the truck it was, with its identifier, location, maximal capacity and
    route, a remaining capacity equal to the maximal capacity less the load
    on board, and a load within the maximal capacity as soon as one order is
    on board; every order is on board of at most one truck, and only orders
    of the instance are on board.  A strategy other than "greedy",
    "balanced" and "nearest" leaves every truck empty. *)
Theorem assign_orders_never_overloads {RT : Runtime}
    (self : ACOVisualization.t) (strategy : string) :
  dict_wf (ACOVisualization.trucks self) ->
  match ACOVisualization.trucks self, ACOVisualization.orders self with
  | [], _ =>
      ACOVisualization.assign_orders_to_trucks self strategy
      = Raise (ValueError "No trucks created. Call create_trucks first.")
  | _ :: _, [] =>
      ACOVisualization.assign_orders_to_trucks self strategy
      = Raise (ValueError "No orders created. Call create_orders first.")
  | _ :: _, _ :: _ =>
      exists self',
        ACOVisualization.assign_orders_to_trucks self strategy = Ok self' /\
        ACOVisualization.orders self' = ACOVisualization.orders self /\
        map fst (ACOVisualization.trucks self') = map fst (ACOVisualization.trucks self) /\
        (forall key truck',
            dict_get (ACOVisualization.trucks self') key = Some truck' ->
            exists truck,
              dict_get (ACOVisualization.trucks self) key = Some truck /\
              Truck.truck_id truck' = Truck.truck_id truck /\
              Truck.current_location truck' = Truck.current_location truck /\
              Truck.max_capacity truck' = Truck.max_capacity truck /\
              Truck.route truck' = Truck.route truck /\
              Truck.remaining_capacity truck'
              == Truck.max_capacity truck - load (Truck.assigned_orders truck') /\
              (Truck.assigned_orders truck' = [] \/
               load (Truck.assigned_orders truck') <= Truck.max_capacity truck)) /\
        (exists left_out,
            Permutation (on_board (ACOVisualization.trucks self') ++ left_out)
                        (map snd (ACOVisualization.orders self))) /\
        (strategy <> "greedy"%string -> strategy <> "balanced"%string ->
         strategy <> "nearest"%string ->
         on_board (ACOVisualization.trucks self') = [])
  end.
Proof.
  destruct self as [start orders]. cbn [ACOVisualization.trucks ACOVisualization.orders].
  intros Hwf.
  destruct start as [| first_truck more_trucks]; [reflexivity |].
  destruct orders as [| first_order more_orders]; [reflexivity |].
  set (start := first_truck :: more_trucks) in *.
  set (orders := first_order :: more_orders).
  assert (Hrun : exists trucks',
             ACOVisualization.assign_orders_to_trucks (ACOVisualization.mk start orders)
               strategy = Ok (ACOVisualization.mk trucks' orders) /\
             shared start (map snd orders) trucks' /\
             (strategy <> "greedy"%string -> strategy <> "balanced"%string ->
              strategy <> "nearest"%string -> on_board trucks' = [])).
  { unfold ACOVisualization.assign_orders_to_trucks.
    cbn [ACOVisualization.trucks ACOVisualization.orders].
    unfold start at 1, orders at 1.
    set (cleared := map (fun item => (fst item, ACOVisualization.reset (snd item))) start).
    pose proof (reset_shared start) as Hcleared. fold cleared in Hcleared.
    destruct (String.eqb_spec strategy "greedy") as [Hg | Hg].
    - destruct (for_each_run
                  (fun done trucks => shared start (map snd done) trucks)
                  (fun trucks (item : string * Order.t) =>
                     ACOVisualization.give trucks
                       (ACOVisualization.greedy_search trucks (snd item)) (snd item))
                  orders [] cleared) as [trucks' [Hloop Hsh]].
      + intros done x a0 _ Hsh. rewrite map_app. simpl.
        apply give_shared; [exact Hwf | exact Hsh |].
        intros key. apply greedy_search_room.
      + exact Hcleared.
      + exists trucks'. rewrite Hloop. cbn [bind].
        split; [reflexivity |]. split; [exact Hsh |]. intros Hno; contradiction.
    - destruct (String.eqb_spec strategy "balanced") as [Hb | Hb].
      + set (sorted_orders :=
               ACOVisualization.sorted_desc
                 (fun item : string * Order.t => Order.weight (snd item)) orders).
        set (sorted_trucks :=
               map fst (ACOVisualization.sorted_desc
                          (fun item : string * Truck.t => Truck.max_capacity (snd item))
                          cleared)).
        assert (Hperm : Permutation sorted_trucks (map fst start)).
        { unfold sorted_trucks.
          replace (map fst start) with (map fst cleared)
            by (unfold cleared; rewrite map_map; reflexivity).
          apply Permutation_map. apply sorted_desc_permutation. }
        assert (Hne : sorted_trucks <> []).
        { intros E. rewrite E in Hperm. apply Permutation_nil in Hperm.
          discriminate Hperm. }
        destruct (for_each_run
                    (fun done trucks =>
                       shared start (map (fun item : nat * (string * Order.t) =>
                                            snd (snd item)) done) trucks)
                    (fun trucks (item : nat * (string * Order.t)) =>
                       ACOVisualization.rotate (seq 0 (List.length sorted_trucks)) (fst item)
                         sorted_trucks trucks (snd (snd item)))
                    (combine (seq 0 (List.length sorted_orders)) sorted_orders) [] cleared)
          as [trucks' [Hloop Hsh]].
        * intros done x a0 _ Hsh. rewrite map_app. simpl.
          apply rotate_shared; [exact Hne | | exact Hsh].
          intros key Hkey. eapply Permutation_in; [exact Hperm | exact Hkey].
        * exact Hcleared.
        * exists trucks'. rewrite Hloop. cbn [bind].
          split; [reflexivity |]. split; [| intros _ Hno; contradiction].
          cbn [app] in Hsh. rewrite <- (map_map snd snd) in Hsh.
          rewrite combine_seq_snd in Hsh.
          destruct Hsh as [Hall [left_out Hp]]. split; [exact Hall |].
          exists left_out. apply (perm_trans Hp).
          apply Permutation_map. apply sorted_desc_permutation.
      + destruct (String.eqb_spec strategy "nearest") as [Hn | Hn].
        * destruct (for_each_run
                      (fun done trucks => shared start (map snd done) trucks)
                      (fun trucks (item : string * Order.t) =>
                         ACOVisualization.give trucks
                           (ACOVisualization.nearest_search trucks (snd item)) (snd item))
                      orders [] cleared) as [trucks' [Hloop Hsh]].
          -- intros done x a0 _ Hsh. rewrite map_app. simpl.
             apply give_shared; [exact Hwf | exact Hsh |].
             intros key. apply nearest_search_room.
          -- exact Hcleared.
          -- exists trucks'. rewrite Hloop. cbn [bind].
             split; [reflexivity |]. split; [exact Hsh |]. intros _ _ Hno; contradiction.
        * exists cleared. cbn [bind]. split; [reflexivity |]. split.
          -- destruct Hcleared as [Hall [left_out Hp]]. split; [exact Hall |].
             exists (map snd orders).
             replace (on_board cleared) with (@nil Order.t); [apply Permutation_refl |].
             unfold cleared, on_board. clear. induction start as [| x l IH]; simpl;
               [reflexivity | exact IH].
          -- intros _ _ _. unfold cleared, on_board. clear.
             induction start as [| x l IH]; simpl; [reflexivity | exact IH]. }
  destruct Hrun as [trucks' [Hrun [[Hall Hboard] Hother]]].
  exists (ACOVisualization.mk trucks' orders).
  cbn [ACOVisualization.trucks ACOVisualization.orders].
  split; [exact Hrun |]. split; [reflexivity |].
  split; [apply kept_keys; exact Hall |].
  split; [| split; [exact Hboard | exact Hother]].
  intros key truck' Hget.
  destruct (kept_get start trucks' key truck' Hall Hget) as [truck [Hbefore Hkept]].
  exists truck. split; [exact Hbefore |].
  destruct Hkept as [_ Hkept]. exact Hkept.
Qed.

Module ShareScenario.
Open Scope string_scope.

(** Two trucks of capacity 100 and 50, three orders of 60, 70 and 40. *)
Definition fleet : ACOVisualization.t :=
  ACOVisualization.mk
    [("T1", Truck.__init__ "T1" (0, 0) 100); ("T2", Truck.__init__ "T2" (5, 0) 50)]
    [("O1", Order.mk "O1" 60 (1, 0) (2, 0));
     ("O2", Order.mk "O2" 70 (4, 0) (3, 0));
     ("O3", Order.mk "O3" 40 (6, 0) (7, 0))].

End ShareScenario.

(** The theorem on two trucks and three orders, shared out by the strategy
    "balanced". *)
Lemma assign_orders_never_overloads_witness :
  dict_wf (ACOVisualization.trucks ShareScenario.fleet) /\
  exists self',
    ACOVisualization.assign_orders_to_trucks (RT := Concrete.runtime)
      ShareScenario.fleet "balanced" = Ok self' /\
    map fst (ACOVisualization.trucks self') = ["T1"%string; "T2"%string] /\
    exists left_out,
      Permutation (on_board (ACOVisualization.trucks self') ++ left_out)
                  (map snd (ACOVisualization.orders ShareScenario.fleet)).
Proof.
  assert (Hwf : dict_wf (ACOVisualization.trucks ShareScenario.fleet)).
  { unfold dict_wf. simpl. repeat constructor; simpl; intuition discriminate. }
  split; [exact Hwf |].
  pose proof (assign_orders_never_overloads (RT := Concrete.runtime)
                ShareScenario.fleet "balanced" Hwf) as H.
  cbn [ACOVisualization.trucks ACOVisualization.orders ShareScenario.fleet] in H.
  destruct H as [self' [Hrun [_ [Hkeys [_ [Hboard _]]]]]].
  exists self'. split; [exact Hrun |]. split; [exact Hkeys | exact Hboard].
Defined.

(** ** The truck that a search names *)

Section Searches.
Import Truck ACOVisualization.

(** X25.  The search of the strategy "greedy" names the first truck of the
    largest remaining capacity among the trucks with room for the order: the
    truck named has room, every truck with room before it has strictly less
    remaining capacity, and every truck with room after it has no more.  It
    names no truck exactly when no truck has room and a remaining capacity
    above -1, the capacity the search starts from. *)
Theorem greedy_search_takes_roomiest (trucks : dict Truck.t) (order : Order.t) :
  match greedy_search trucks order with
  | None =>
      forall k t, In (k, t) trucks ->
                  ~ (Order.weight order <= remaining_capacity t /\ -1 < remaining_capacity t)
  | Some key =>
      exists pre t post,
        trucks = pre ++ (key, t) :: post /\
        Order.weight order <= remaining_capacity t /\ -1 < remaining_capacity t /\
        (forall k' t', In (k', t') pre -> Order.weight order <= remaining_capacity t' ->
                       remaining_capacity t' < remaining_capacity t) /\
        (forall k' t', In (k', t') post -> Order.weight order <= remaining_capacity t' ->
                       remaining_capacity t' <= remaining_capacity t)
  end.
Proof.
  unfold greedy_search.
  assert (Hfold : forall l : dict Truck.t,
      let r := fold_left
                 (fun (acc : option string * Q) (item : string * Truck.t) =>
                    let (key, truck) := item in
                    if Qle_bool (Order.weight order) (remaining_capacity truck)
                       && Qltb (snd acc) (remaining_capacity truck)
                    then (Some key, remaining_capacity truck)
                    else acc) l (None, (-1)%Q) in
      match fst r with
      | None =>
          snd r = (-1)%Q /\
          forall k t, In (k, t) l ->
                      ~ (Order.weight order <= remaining_capacity t /\ -1 < remaining_capacity t)
      | Some key =>
          exists pre t post,
            l = pre ++ (key, t) :: post /\
            snd r = remaining_capacity t /\
            Order.weight order <= remaining_capacity t /\ -1 < remaining_capacity t /\
            (forall k' t', In (k', t') pre -> Order.weight order <= remaining_capacity t' ->
                           remaining_capacity t' < remaining_capacity t) /\
            (forall k' t', In (k', t') post -> Order.weight order <= remaining_capacity t' ->
                           remaining_capacity t' <= remaining_capacity t)
      end).
  { intros l.
    induction l as [| [k x] l IH] using rev_ind.
    - simpl. split; [reflexivity |]. intros k t [].
    - cbv zeta in *. rewrite fold_left_app. cbn [fold_left].
      set (r := fold_left _ l (None, (-1)%Q)) in *.
      destruct (Qle_bool (Order.weight order) (remaining_capacity x)) eqn:Eroom;
        [destruct (Qltb (snd r) (remaining_capacity x)) eqn:Ebetter |]; cbn [andb fst snd].
      + (* x is taken *)
        apply Qle_bool_iff in Eroom. apply Qltb_true_iff in Ebetter.
        exists l, x, []. split; [reflexivity |]. split; [reflexivity |].
        destruct (fst r) as [key |].
        * destruct IH as [pre [t [post [Hl [Hr [Hroom [Hlow [Hpre Hpost]]]]]]]].
          rewrite Hr in Ebetter.
          split; [exact Eroom |]. split; [lra |].
          split; [| intros k' t' []].
          intros k' t' Hin Hw. rewrite Hl in Hin. apply in_app_or in Hin.
          destruct Hin as [Hin | [Heq | Hin]].
          -- specialize (Hpre k' t' Hin Hw). lra.
          -- inversion Heq; subst. exact Ebetter.
          -- specialize (Hpost k' t' Hin Hw). lra.
        * destruct IH as [Hr Hnone]. rewrite Hr in Ebetter.
          split; [exact Eroom |]. split; [exact Ebetter |].
          split; [| intros k' t' []].
          intros k' t' Hin Hw.
          destruct (Qlt_le_dec (-1) (remaining_capacity t')) as [Hlow | Hlow];
            [| lra].
          exfalso. apply (Hnone k' t' Hin). split; assumption.
      + (* x has room but is not better *)
        apply Qle_bool_iff in Eroom. apply Qltb_false_iff in Ebetter.
        destruct (fst r) as [key |].
        * destruct IH as [pre [t [post [Hl [Hr [Hroom [Hlow [Hpre Hpost]]]]]]]].
          exists pre, t, (post ++ [(k, x)]).
          split; [rewrite Hl, <- app_assoc; reflexivity |].
          split; [exact Hr |]. split; [exact Hroom |]. split; [exact Hlow |].
          split; [exact Hpre |].
          intros k' t' Hin Hw. apply in_app_or in Hin. destruct Hin as [Hin | [Heq | []]].
          -- exact (Hpost k' t' Hin Hw).
          -- inversion Heq; subst. rewrite <- Hr. exact Ebetter.
        * destruct IH as [Hr Hnone]. split; [exact Hr |].
          intros k' t' Hin. apply in_app_or in Hin. destruct Hin as [Hin | [Heq | []]].
          -- exact (Hnone k' t' Hin).
          -- inversion Heq; subst. rewrite Hr in Ebetter. intros [_ Hlow]. lra.
      + (* x has no room *)
        assert (Hno : ~ Order.weight order <= remaining_capacity x).
        { intros H. apply Qle_bool_iff in H. congruence. }
        destruct (fst r) as [key |].
        * destruct IH as [pre [t [post [Hl [Hr [Hroom [Hlow [Hpre Hpost]]]]]]]].
          exists pre, t, (post ++ [(k, x)]).
          split; [rewrite Hl, <- app_assoc; reflexivity |].
          split; [exact Hr |]. split; [exact Hroom |]. split; [exact Hlow |].
          split; [exact Hpre |].
          intros k' t' Hin Hw. apply in_app_or in Hin. destruct Hin as [Hin | [Heq | []]].
          -- exact (Hpost k' t' Hin Hw).
          -- inversion Heq; subst. contradiction.
        * destruct IH as [Hr Hnone]. split; [exact Hr |].
          intros k' t' Hin. apply in_app_or in Hin. destruct Hin as [Hin | [Heq | []]].
          -- exact (Hnone k' t' Hin).
          -- inversion Heq; subst. intros [Hw _]. contradiction. }
  specialize (Hfold trucks). cbv zeta in Hfold.
  destruct (fst (fold_left _ trucks (None, (-1)%Q))) as [key |].
  - destruct Hfold as [pre [t [post [Hl [_ [Hroom [Hlow [Hpre Hpost]]]]]]]].
    exists pre, t, post. repeat split; assumption.
  - destruct Hfold as [_ Hnone]. exact Hnone.
Qed.

Context {RT : Runtime}.



End Searches.
